(* ===== verification/_CoqProject ===== *)
-Q . S2P
Prelude.v
PyBase.v
Struct.v
Text.v
SimDisk.v
Locking.v
FileLocks.v
Physical.v
PhysicalFacts.v
Recovery.v
StorageProps.v
KeyList.v
Logical.v
Pickle.v
BPlusTree.v
BPlusRep.v
BPlusInsert.v
BPlusDelete.v
BPlusAudit.v
BPlusStore.v
BPlusProps.v
Index.v
BPlusIndex.v
Engine.v
Session.v
Database.v
Transactions.v
DatabaseProps.v
BinaryTree.v
BinaryRep.v
BinaryProps.v
RaftLog.v
RaftNode.v
RaftAbstract.v
RaftHistory.v
RaftSteps.v
RaftInvariant.v
RaftRefine.v
RaftHandlers.v
RaftCluster.v
RaftMachines.v
RaftProps.v
RaftSim.v
RaftKV.v
RaftSimProps.v
Resp.v
RespProps.v
Pubsub.v
PubsubProps.v
Metrics.v
TableDb.v
Json.v
Collection.v
CollectionSpec.v
CollectionInv.v
CollectionRun.v
CollectionWrite.v
CollectionQuery.v
CollectionProps.v
Server.v
ServerSpec.v
ServerProps.v
ServerFindings.v
JsonText.v
JsonRoundtrip.v
JsonCodec.v
JsonStore.v
RaftWire.v
RaftServer.v
RaftServerProps.v
RaftServerFindings.v
Facade.v
FacadeFacts.v
Simulation.v
SimulationProps.v
Tool.v
ToolFacts.v
Compaction.v
ToolProps.v
Admin.v
