(* ===== verification/Prelude.v ===== *)
(** * A verification of ImmuStore DB

    ImmuStore DB ([src/imustore]) is an embedded key-value store with a
    copy-on-write B+ tree on one append-only file, snapshots and optimistic
    transactions, a document collection layer, a network server that speaks RESP,
    and a Raft implementation that replicates the store.  This library models the
    program's own logic as executable functions and proves what each layer
    promises to the next.

    ** The program and where it is modelled

    - [Prelude], [PyBase], [Struct], [Text]: results and the state-and-exception
      monad the code is written in, Python's strings, slices and exceptions,
      [struct] layouts and CRC-32, UTF-8, [int] and [repr] as the sources use them.
    - [SimDisk], [Locking]: [simdisk.py] (volatile and durable bytes, a crash armed
      at the n-th flush) and the reentrant lock of [locking.py] as one handle sees
      it.  [FileLocks]: the same lock with the operating system behind it, files
      named by their descriptors, handles in processes that may die.
    - [Physical] with [PhysicalFacts], [Recovery], [StorageProps]: [physical.py],
      the record file with its two checksummed meta slots, commit and recovery.
    - [KeyList]: sorted association lists, the abstract content of an index.
    - [Logical], [Index], [Pickle]: [logical.py]; [Index] is the class of operations
      an index engine supplies to [LogicalBase], [IndexSpec] its laws, proved for
      both engines and used by every client.  [pickle] is the class [Pickle].
    - [BPlusTree], [BPlusRep], [BPlusInsert], [BPlusDelete], [BPlusAudit],
      [BPlusStore], [BPlusProps], [BPlusIndex]: [bplus_tree.py] and [audit.py].
    - [BinaryTree], [BinaryRep], [BinaryProps]: [binary_tree.py], and that the two
      engines are interchangeable.
    - [Engine], [Session]: what a handle on an index promises, for any index that
      satisfies [IndexSpec].
    - [Database], [Transactions], [DatabaseProps]: [interface.py], [mvcc.py] and the
      codec protocol of [codec.py]; [TableDb] lifts them to tables of values for any
      lawful codec, and has [TextCodec].
    - [Facade], [FacadeFacts]: the rest of [interface.py] and [mvcc.py], namely
      [audit], the [with] statements, [connect] on the files of a machine, the text
      of an audit report; and what opening, auditing and crashing leave of a file.
    - [Json], [Collection], [CollectionSpec], [CollectionInv], [CollectionRun],
      [CollectionWrite], [CollectionQuery], [CollectionProps]: [collection.py].
    - [Resp], [RespProps]: [resp.py].  [Pubsub], [PubsubProps]: [pubsub.py].
      [Metrics]: [metrics.py].  [Server], [ServerSpec], [ServerProps],
      [ServerFindings]: [server.py].  Its handlers come twice: as functions that run
      through, which is what one client sees, and as coroutines that stop at each
      [await], which [Server.server.run_events] interleaves for any number of
      connections with the single executor thread; [ServerProps.turn_alone] shows
      that a coroutine run without interruption is the function.  [Admin]:
      [admin.py], and the server program [_amain] that starts both servers.
    - [RaftLog], [RaftNode]: [raft/messages.py], [raft/log.py], [raft/node.py].
      [RaftAbstract], [RaftHistory], [RaftSteps], [RaftInvariant]: an abstract
      protocol with its history and its invariant.  [RaftRefine], [RaftHandlers],
      [RaftCluster], [RaftProps]: the node refines it in any network.
      [RaftMachines], [RaftKV]: [raft/statemachine.py]; [RaftKV] carries the results
      over from machines that never raise ([MachineSpec]) to machines that may, of
      which the database is one.  [RaftSim], [RaftSimProps]:
      [raft/simulation.py].
    - [JsonText], [JsonRoundtrip], [JsonCodec], [JsonStore]: the text of JSON,
      [json.dumps] and [json.loads], [JsonCodec] and [parse_cli_value] of
      [codec.py], and JSON values on disk.
    - [RaftWire]: [raft/wire.py].  [RaftServer], [RaftServerProps],
      [RaftServerFindings]: [raft/server.py], servers on their databases whose
      connections may fail or be cut at any byte.
    - [Simulation], [SimulationProps]: [simulation.py], the workload with crashes
      and recoveries that tests the storage engine.
    - [Tool], [ToolFacts], [Compaction], [ToolProps]: [tool.py], runs of the command
      line tool on the files of a machine; [Compaction] has [compact] of
      [interface.py], whose temporary file is followed, on a disk that may fail.

    ** How the code is rendered

    A method is a function in the monad [St], which threads the object's state and
    returns a value or an exception of the type [exn]; the state survives an
    exception, as in Python.  Objects are records; a method that works on a field
    is lifted with [zoom].  Loops over data are structural recursions; [while]
    loops and unbounded recursion take fuel.  Where two components meet, a class
    states the contract ([Index]/[IndexSpec], [Codec]/[CodecLaws], [RecordStore],
    [StateMachine]/[MachineSpec]).  Library code the repository only calls is a
    parameter with its documented behaviour as a law: [pickle], [fnmatch], [random],
    floats, [repr] of a string, [argparse], and the [json] of the collections.  A
    witness instantiates each with a function.

    ** What is proved

    - Storage: records read back, damage within four bytes is detected, a commit
      is atomic under power loss in either flush, a damaged meta slot falls back to
      the other one.
    - B+ tree: lookup, scans, insertion with splits and deletion with borrowing and
      merging refine a sorted association list and keep the tree balanced and
      filled; after any insertions and deletions the height is logarithmic in the
      number of keys; a clean audit means a well-formed tree.
    - Binary tree: the same contract for fewer than 300 keys, hence the same answers
      as the B+ tree; its audit is exact.
    - Database: any session of operations refines a pair of association lists
      (current and committed), a commit is all or nothing, power loss at any point
      loses exactly the uncommitted writes, snapshots are isolated, transactions
      conflict exactly when a written key changed.
    - File lock: on POSIX at most one live handle of a file holds the lock, and the
      death of a holder frees it; on Windows at most one handle holds each sidecar
      file, which is named after a descriptor, so two handles of one file may both
      hold the lock, and the sidecar of a dead holder stays.
    - Storage simulation: for every seed, generator and length, no run with clean,
      mid-commit, torn-tail and meta-corruption crashes violates an invariant, and
      the sweep over seeds exits with code 0.
    - Command line tool: any sequence of runs, each a process of its own, exits,
      prints and stores as one sorted table of JSON values; compaction keeps the
      table, unless an interrupted one left its temporary file, and power loss in
      any flush of a compaction loses nothing that was committed.
    - Collections: documents and index entries stay in step as long as no index is
      left out when a collection is opened, an index does not change the answer of a query, a sweep removes exactly what has expired.
    - Server: replies, change events and the table on disk are those of an abstract
      table, for one command, for a whole pipelined connection, and for any
      interleaving of the tasks of concurrent clients and the executor's calls,
      which are linearized and get ahead; a run of the server program finishes the
      calls it has accepted and leaves a file from which the next run goes on;
      requests and
      replies survive the wire; the broker's queues stay bounded and deliver every
      matching change once or count it as dropped.
    - Raft: election safety, log matching, leader completeness, state machine
      safety, durability of what is committed, application exactly once and in
      order, in any network that loses, duplicates, delays and reorders messages
      and with restarts; every run of the simulator is such a run, and so is every
      run of the TCP servers on their databases up to the first exception of a state
      machine, at which each disk holds what the applied entries make; a node's
      methods raise only what its state machine raised; messages survive the wire;
      the replicated store applies a command and records it as applied in one
      commit.
    - JSON: what is written is read back, equal values are written alike, reading
      any text ends with a value, [JSONDecodeError] or, where the interpreter's
      limits are met, [ValueError] or [RecursionError], and what comes in through
      the codec or the command line is always well formed.
    - Admin endpoint: every request is answered, with the right length and status.
    - Behaviours a caller would not expect are theorems too: a stale handle
      overwrites a newer commit, a transaction drops writes staged on its handle,
      a snapshot of a binary database is empty, a refused [DEL] is committed by the
      next client's [SET], an index cannot find [None], a [submit] reports success
      for a command that was lost, a server without a log file votes twice,
      [compact] brings back what an interrupted one left, the sidecar file of a
      dead process blocks its successors, [create_index] keeps the stale entries of
      an index that was left out for a while.

    ** Bounds and fuel

    [RECURSION_LIMIT] is 300 levels of Python recursion, well under the
    interpreter's limit.  A B+ tree whose key count fits the 64-bit field of the
    meta block has at most 64 levels, so its contract only asks for that size; the
    binary tree is not balanced and its contract asks for fewer than 300 keys.
    Loops of storage and protocol code take as fuel the length of their input,
    which every round shortens; the theorems show the result, not only what holds
    if there is one.  Offsets, lengths and counts are integers that [struct]
    refuses outside their width; a run of the simulation or of the tool may end in
    that refusal, since the size of a pickled node has no bound.  The simulation's
    steps and the tool's commands stay below 2 ** 64, the width of the key count
    and of the transaction number.

    ** Assumptions

    Each database method is one atomic step (the source serialises them with a
    mutex and a lock); a second handle reads the flushed bytes; the durability
    theorems are for [DURABILITY_FULL].  Records never change once written, so the
    cache of a loaded reference is dropped, and reads do not depend on the file
    position.  When storing a tree fails, the model keeps the references it had.
    A task of the server runs as one step until it awaits: the next command, the
    executor, or in [drain] the client (asyncio may skip a wait that is over at
    once, which is one of the interleavings); a call of the executor is one step,
    and its results are handed out in the order of the calls.  A client sends what
    it sends before it closes; a broken connection is the end of its input; the
    clock's readings are arguments.  Python's limits on the digits of an [int] and
    on nested calls are an interface of the JSON text ([JsonText.PyLimits]), under
    any instance of which [json_values_typed] holds; elsewhere they are taken as
    lifted.  The collections are proved for a codec that reads back what was
    stored, which [JsonCodec] does for values with sorted keys.  A Raft node's method is one step; any message ever sent may be delivered at any
    time and any number of times; the log file holds the document last saved.  A
    Raft server's tasks interleave between the sections that hold its lock; the
    addresses of its peers are right; a restart finds the database where it was.
    A random generator draws within the
    range it is asked for; nothing else is assumed of it.  A process writes its
    database file when it ends, so the tool's runs do not overlap; a generator that
    is printed is the list it yields.  Writing the process id into a new sidecar
    file does not fail.
    Collections hold JSON documents with string keys; a generator is run where it
    is made, since nothing is written while one is consumed.

    ** Not modelled

    Sockets and HTTP around the modelled handlers; [argparse], and what the two
    servers' [main] functions do with it beyond the peers they are given; what the
    connections still open do once the server program has closed its database; what
    a server or a Raft node does after its disk has failed; the directories [connect] creates; a
    Raft message whose fields have types no node sends; [bench] and [examples], programs that
    only call the library. *)

From stdpp Require Export base list numbers strings gmap sorting.
From Stdlib Require Export ZArith Lia.

Set Default Proof Using "Type".
#[global] Open Scope Z_scope.

(** * Results and stateful computations *)

(** A Python call returns a value or raises: [E] is the type of exceptions. *)
Inductive result (E A : Type) : Type :=
| Ok (a : A)
| Raise (e : E).
Arguments Ok {E A} a.
Arguments Raise {E A} e.

#[global] Instance result_ret E : MRet (result E) := fun A a => Ok a.

#[global] Instance result_bind E : MBind (result E) :=
  fun A B f m => match m with Ok a => f a | Raise e => Raise e end.

#[global] Instance result_fmap E : FMap (result E) :=
  fun A B f m => match m with Ok a => Ok (f a) | Raise e => Raise e end.

#[global] Instance result_eq_dec {E A} `{EqDecision E} `{EqDecision A} :
  EqDecision (result E A).
Proof. solve_decision. Defined.

(** A method of a mutable object: the object's state is threaded through, and
    the state reached when an exception is raised is kept, because in the
    source what was assigned before a [raise] stays assigned. *)
Definition stx (E S A : Type) : Type := S -> S * result E A.

#[global] Instance stx_ret E S : MRet (stx E S) := fun A a s => (s, Ok a).

#[global] Instance stx_bind E S : MBind (stx E S) :=
  fun A B f m s =>
    match m s with
    | (s', Ok a) => f a s'
    | (s', Raise e) => (s', Raise e)
    end.

Definition raise {E S A} (e : E) : stx E S A := fun s => (s, Raise e).
Definition get_st {E S} : stx E S S := fun s => (s, Ok s).
Definition gets {E S A} (f : S -> A) : stx E S A := fun s => (s, Ok (f s)).
Definition put_st {E S} (s' : S) : stx E S unit := fun _ => (s', Ok tt).
Definition modify {E S} (f : S -> S) : stx E S unit := fun s => (f s, Ok tt).
Definition lift_res {E S A} (r : result E A) : stx E S A := fun s => (s, r).

(** A method of an object held in a field: [get]/[set] are the field's lens. *)
Definition zoom {E S T A} (get : S -> T) (set : T -> S -> S) (m : stx E T A) :
    stx E S A :=
  fun s => match m (get s) with (t, r) => (set t s, r) end.

(** [try: m except: h(e)], with [h] deciding what it re-raises. *)
Definition try_with {E S A} (m : stx E S A) (h : E -> stx E S A) : stx E S A :=
  fun s => match m s with (s', Raise e) => h e s' | p => p end.

(** [try: m finally: fin]: [fin] runs on both outcomes; its own exception wins. *)
Definition try_finally {E S A} (m : stx E S A) (fin : stx E S unit) : stx E S A :=
  fun s =>
    match m s with
    | (s', r) => match fin s' with
                 | (s'', Ok _) => (s'', r)
                 | (s'', Raise e) => (s'', Raise e)
                 end
    end.

Fixpoint mapM_st {E S A B} (f : A -> stx E S B) (l : list A) : stx E S (list B) :=
  match l with
  | [] => mret []
  | a :: l => b ← f a; bs ← mapM_st f l; mret (b :: bs)
  end.

Section stx_lemmas.
Context {E S A B : Type}.
Implicit Types (m : stx E S A) (f : A -> stx E S B).

Lemma stx_bind_ok m f s s' a : m s = (s', Ok a) -> (m ≫= f) s = f a s'.
Proof. intros H. unfold mbind, stx_bind. by rewrite H. Qed.

Lemma stx_bind_raise m f s s' e :
  m s = (s', Raise e) -> (m ≫= f) s = (s', Raise e).
Proof. intros H. unfold mbind, stx_bind. by rewrite H. Qed.

Lemma stx_bind_inv m f s s'' b :
  (m ≫= f) s = (s'', Ok b) -> exists s' a, m s = (s', Ok a) /\ f a s' = (s'', Ok b).
Proof.
  unfold mbind, stx_bind. destruct (m s) as [s' [a|e]]; [eauto|congruence].
Qed.

Lemma stx_ret_eq (a : A) s : (mret a : stx E S A) s = (s, Ok a).
Proof. reflexivity. Qed.

Lemma result_bind_inv (r : result E A) (g : A -> result E B) b :
  r ≫= g = Ok b -> exists a, r = Ok a /\ g a = Ok b.
Proof. destruct r; simpl; [eauto|discriminate]. Qed.

Lemma zoom_eq {T} (get : S -> T) (set : T -> S -> S) (m : stx E T A) s t r :
  m (get s) = (t, r) -> zoom get set m s = (set t s, r).
Proof. intros Hm. unfold zoom. by rewrite Hm. Qed.

End stx_lemmas.

(** * Lists *)

Section list_lemmas.
Context {A : Type}.
Implicit Types l : list A.

Lemma take_app_exact l1 l2 n : n = length l1 -> take n (l1 ++ l2) = l1.
Proof. intros ->. apply take_app_length. Qed.

Lemma drop_app_exact l1 l2 n : n = length l1 -> drop n (l1 ++ l2) = l2.
Proof. intros ->. apply drop_app_length. Qed.

Lemma insert_app_exact l1 x y l2 n :
  n = length l1 -> <[n := y]> (l1 ++ x :: l2) = l1 ++ y :: l2.
Proof. intros ->. rewrite insert_app_r_alt by lia. by rewrite Nat.sub_diag. Qed.

Lemma lookup_app_exact l1 x l2 n : n = length l1 -> (l1 ++ x :: l2) !! n = Some x.
Proof. intros ->. by apply list_lookup_middle. Qed.

(** Every in-range index splits a list in three. *)
Lemma lookup_split l i x :
  l !! i = Some x -> l = take i l ++ x :: drop (S i) l /\ length (take i l) = i.
Proof.
  intros H. split; [symmetry; by apply take_drop_middle|].
  apply lookup_lt_Some in H. rewrite length_take. lia.
Qed.

Lemma last_split l x : last l = Some x -> exists l', l = l' ++ [x].
Proof.
  destruct l as [|y l' _] using rev_ind; [done|].
  rewrite last_snoc. intros [= ->]. eauto.
Qed.

Lemma length_split_at l n :
  (n <= length l)%nat -> exists l1 l2, l = l1 ++ l2 /\ length l1 = n.
Proof.
  intros H. exists (take n l), (drop n l). rewrite take_drop, length_take. split; [done|lia].
Qed.

Lemma list_not_nil_snoc l : l <> [] -> exists l' x, l = l' ++ [x].
Proof. destruct l as [|y l' _] using rev_ind; [done|eauto]. Qed.

End list_lemmas.

(** * Automation *)

Create HintDb immu discriminated.

(** Split conjunctions and existentials of the context. *)
Ltac split_hyps :=
  repeat match goal with
  | H : _ /\ _ |- _ => destruct H
  | H : exists _, _ |- _ => destruct H
  end.

(** Execute the plumbing of the result and state monads. *)
Ltac run :=
  cbv beta iota zeta delta [mbind stx_bind result_bind mret stx_ret result_ret
    raise get_st gets put_st modify lift_res zoom try_with try_finally
    fmap result_fmap].
Tactic Notation "run" "in" hyp(H) :=
  cbv beta iota zeta delta [mbind stx_bind result_bind mret stx_ret result_ret
    raise get_st gets put_st modify lift_res zoom try_with try_finally
    fmap result_fmap] in H.

(** Invert an equation between results or pairs of results. *)
Ltac res_inv :=
  repeat match goal with
  | H : Ok _ = Ok _ |- _ => injection H as H; subst
  | H : Raise _ = Raise _ |- _ => injection H as H; subst
  | H : Ok _ = Raise _ |- _ => discriminate H
  | H : Raise _ = Ok _ |- _ => discriminate H
  | H : (_, _) = (_, _) |- _ => apply pair_equal_spec in H; destruct H; subst
  end.

(** * Python slices *)

(** The position a slice bound [i] denotes in a sequence of length [n]. *)
Definition py_bound (n : nat) (i : Z) : nat :=
  Z.to_nat (if i <? 0 then Z.max 0 (i + Z.of_nat n) else Z.min i (Z.of_nat n)).

(** [l[i:j]], [l[i:]] and [l[:j]] *)
Definition py_slice {A} (l : list A) (i j : Z) : list A :=
  let i' := py_bound (length l) i in
  take (py_bound (length l) j - i')%nat (drop i' l).
Definition py_from {A} (l : list A) (i : Z) : list A := drop (py_bound (length l) i) l.
Definition py_upto {A} (l : list A) (j : Z) : list A := take (py_bound (length l) j) l.

Section slice_lemmas.
Context {A : Type}.
Implicit Types l : list A.

Lemma py_bound_in n i : 0 <= i <= Z.of_nat n -> py_bound n i = Z.to_nat i.
Proof. intros H. unfold py_bound. destruct (Z.ltb_spec i 0); lia. Qed.

Lemma py_bound_high n i : Z.of_nat n <= i -> py_bound n i = n.
Proof. intros H. unfold py_bound. destruct (Z.ltb_spec i 0); lia. Qed.

Lemma py_upto_drop l i : py_upto l i ++ py_from l i = l.
Proof. apply take_drop. Qed.

Lemma py_slice_from l i j : Z.of_nat (length l) <= j -> py_slice l i j = py_from l i.
Proof.
  intros H. unfold py_slice, py_from. rewrite (py_bound_high _ j) by done.
  apply take_ge. by rewrite length_drop.
Qed.

Lemma py_from_nat l i : 0 <= i -> py_from l i = drop (Z.to_nat i) l.
Proof.
  intros H. unfold py_from. destruct (Z.le_gt_cases i (Z.of_nat (length l))).
  - by rewrite py_bound_in by lia.
  - rewrite py_bound_high by lia. rewrite !drop_ge; [done|lia..].
Qed.

Lemma py_upto_nat l i : 0 <= i -> py_upto l i = take (Z.to_nat i) l.
Proof.
  intros H. unfold py_upto. destruct (Z.le_gt_cases i (Z.of_nat (length l))).
  - by rewrite py_bound_in by lia.
  - rewrite py_bound_high by lia. rewrite !take_ge; [done|lia..].
Qed.

Lemma py_slice_nat l i j :
  0 <= i <= j -> py_slice l i j = take (Z.to_nat (j - i)) (drop (Z.to_nat i) l).
Proof.
  intros H. destruct (Z.le_gt_cases j (Z.of_nat (length l))) as [Hj|Hj].
  - unfold py_slice. rewrite !py_bound_in by lia. f_equal. lia.
  - rewrite py_slice_from, py_from_nat by lia. rewrite take_ge; [done|].
    rewrite length_drop. lia.
Qed.

End slice_lemmas.
