(* ===== verification/PyBase.v ===== *)
(** Python values the engine is built from: [str], [bytes], and the exceptions
    of [src/imustore/errors.py] together with the built-in ones the code raises. *)

From Stdlib Require Import Structures.Orders Structures.OrdersTac Ascii String.
From S2P Require Import Prelude.

(** * Strings *)

(** A Python [str] is a sequence of code points; comparison is lexicographic on
    code points. *)
Definition pystr : Set := list N.

(** The [str] of an ASCII literal. *)
Fixpoint str (s : string) : pystr :=
  match s with
  | EmptyString => []
  | String a s => N_of_ascii a :: str s
  end.

Fixpoint str_compare (a b : pystr) : comparison :=
  match a, b with
  | [], [] => Eq
  | [], _ :: _ => Lt
  | _ :: _, [] => Gt
  | x :: a, y :: b =>
      match N.compare x y with Eq => str_compare a b | c => c end
  end.

Definition str_ltb (a b : pystr) : bool :=
  match str_compare a b with Lt => true | _ => false end.
Definition str_leb (a b : pystr) : bool := negb (str_ltb b a).
Definition str_eqb (a b : pystr) : bool := bool_decide (a = b).

(** [s.startswith(prefix)] *)
Fixpoint startswith (s prefix : pystr) {struct prefix} : bool :=
  match prefix, s with
  | [], _ => true
  | p :: prefix, c :: s => N.eqb p c && startswith s prefix
  | _ :: _, [] => false
  end.

Definition str_lt (a b : pystr) : Prop := str_compare a b = Lt.
Definition str_le (a b : pystr) : Prop := str_lt a b \/ a = b.

Lemma str_compare_eq a b : str_compare a b = Eq <-> a = b.
Proof.
  revert b; induction a as [|x a IH]; intros [|y b]; simpl; try (split; congruence).
  destruct (N.compare_spec x y) as [->|H|H]; [rewrite IH|..]; split; try congruence;
    intros [=]; subst; lia.
Qed.

Lemma str_compare_antisym a b : str_compare b a = CompOpp (str_compare a b).
Proof.
  revert b; induction a as [|x a IH]; intros [|y b]; simpl; try done.
  rewrite (N.compare_antisym x y). destruct (N.compare x y); simpl; auto.
Qed.

Lemma str_lt_irrefl a : ~ str_lt a a.
Proof. unfold str_lt. rewrite (proj2 (str_compare_eq a a)); congruence. Qed.

Lemma str_lt_trans a b c : str_lt a b -> str_lt b c -> str_lt a c.
Proof.
  unfold str_lt. revert b c; induction a as [|x a IH]; intros [|y b] [|z c]; simpl; try done.
  destruct (N.compare_spec x y) as [->|H|H]; try done.
  - destruct (N.compare_spec y z) as [->|H2|H2]; try done. apply IH.
  - intros _. destruct (N.compare_spec y z) as [->|H2|H2]; try done; intros _.
    + by rewrite (proj2 (N.compare_lt_iff _ _) H).
    + by rewrite (proj2 (N.compare_lt_iff x z)) by lia.
Qed.

Lemma str_lt_total a b : str_lt a b \/ a = b \/ str_lt b a.
Proof.
  unfold str_lt. rewrite (str_compare_antisym a b).
  destruct (str_compare a b) eqn:E; simpl; auto.
  right; left. by apply str_compare_eq.
Qed.

#[global] Instance str_lt_strict : StrictOrder str_lt.
Proof. split; [exact str_lt_irrefl|exact str_lt_trans]. Qed.
#[global] Instance str_lt_dec a b : Decision (str_lt a b).
Proof. unfold str_lt. apply _. Defined.

(** [key_order] decides goals over the total order of keys. *)
Module KeyOrder <: TotalOrder.
Definition t := pystr.
Definition eq := @eq pystr.
Definition eq_equiv : Equivalence eq := _.
Definition lt := str_lt.
Definition le := str_le.
Definition lt_strorder : StrictOrder lt := _.
Lemma lt_compat : Proper (eq ==> eq ==> iff) lt.
Proof. unfold eq. intros ?? -> ?? ->. done. Qed.
Lemma le_lteq x y : le x y <-> lt x y \/ eq x y.
Proof. done. Qed.
Lemma lt_total x y : lt x y \/ eq x y \/ lt y x.
Proof. apply str_lt_total. Qed.
End KeyOrder.
Module KeyTac := MakeOrderTac KeyOrder KeyOrder.

Ltac key_order :=
  change str_lt with KeyOrder.lt in *; change str_le with KeyOrder.le in *;
  change (@eq pystr) with KeyOrder.eq in *; KeyTac.order.

Lemma str_ltb_lt a b : str_ltb a b = true <-> str_lt a b.
Proof. unfold str_ltb, str_lt. destruct (str_compare a b); split; congruence. Qed.

Lemma str_le_not_lt a b : str_le b a <-> ~ str_lt a b.
Proof.
  split; [intros ??; key_order|]. intros H.
  destruct (str_lt_total a b) as [?|[?|?]]; unfold str_le; auto. tauto.
Qed.

Lemma str_ltb_ge a b : str_ltb a b = false <-> str_le b a.
Proof. by rewrite <- not_true_iff_false, str_ltb_lt, str_le_not_lt. Qed.

Lemma str_leb_le a b : str_leb a b = true <-> str_le a b.
Proof. unfold str_leb. by rewrite negb_true_iff, str_ltb_ge. Qed.

Lemma str_ltb_spec a b : reflect (str_lt a b) (str_ltb a b).
Proof. apply iff_reflect. symmetry. apply str_ltb_lt. Qed.

Lemma str_leb_spec a b : reflect (str_le a b) (str_leb a b).
Proof. apply iff_reflect. symmetry. apply str_leb_le. Qed.

Lemma str_eqb_spec a b : reflect (a = b) (str_eqb a b).
Proof. apply bool_decide_reflect. Qed.

Lemma startswith_spec s p : startswith s p = true <-> exists t, s = p ++ t.
Proof.
  revert s; induction p as [|c p IH]; intros s; simpl.
  { split; [by exists s|done]. }
  destruct s as [|d s]; [split; [done|intros [t Ht]; done]|].
  rewrite andb_true_iff, N.eqb_eq, IH. split.
  - intros [-> [t ->]]. by exists t.
  - intros [t [= -> ->]]. eauto.
Qed.

Ltac str_cases :=
  repeat match goal with
  | |- context [str_ltb ?a ?b] => destruct (str_ltb_spec a b)
  | |- context [str_leb ?a ?b] => destruct (str_leb_spec a b)
  | |- context [str_eqb ?a ?b] => destruct (str_eqb_spec a b)
  end.

(** * Exceptions *)

(** Why [physical.py] reports a [DatabaseCorruptionError]; one constructor per
    raise site. *)
Inductive corruption : Type :=
| UnsupportedFormatVersion (version : Z)
| NoValidMetaSlot
| InvalidRecordAddress
| MissingRecordHeader (address : Z)
| TruncatedRecord (address : Z)
| RecordChecksumMismatch (address : Z)
| TruncatedRecordHeader (address : Z)
| RecordTableUnclean.

(** The exceptions the modelled code raises. [RecursionError] is what a
    recursion (or a fuel-bounded loop of the model) that goes too deep raises;
    [StructError] is [struct.error], [UnpicklingError] an undecodable node;
    [UnicodeError] stands for its subclasses for encoding and decoding;
    [ProtocolError] and the three after it belong to the network server and
    [asyncio], the last two to the storage simulation. *)
Inductive exn : Type :=
| KeyError (key : pystr)
| IndexError
| AttributeError
| ValueError
| TypeError
| StructError
| UnpicklingError
| RecursionError
| ImmuStoreError
| DatabaseClosedError
| DatabaseCorruptionError (why : corruption)
| KeyEncodingError
| ConflictError (key : pystr)
| SimCrash
| UnicodeError
| ProtocolError (message : pystr)
| IncompleteReadError
| LimitOverrunError
| QueueFull
| JSONDecodeError
| InvariantError
| AssertionError.

#[global] Instance corruption_eq_dec : EqDecision corruption.
Proof. solve_decision. Defined.
#[global] Instance exn_eq_dec : EqDecision exn.
Proof. solve_decision. Defined.

Abbreviation res A := (result exn A).
Abbreviation St S A := (stx exn S A).
