(* ===== verification/Struct.v ===== *)
(** Bytes, the big-endian integer formats of Python's [struct] module that
    [src/imustore/physical.py] packs with, and [zlib.crc32]. *)

From Stdlib Require Import Strings.Byte.
From S2P Require Import Prelude PyBase.

Abbreviation byte := Init.Byte.byte.
Abbreviation bytes := (list byte).

(** * Bytes as integers *)

Definition byte_to_Z (b : byte) : Z := Z.of_N (Byte.to_N b).

Definition byte_of_Z (z : Z) : byte :=
  match Byte.of_N (Z.to_N (z mod 256)) with Some b => b | None => Byte.x00 end.

#[global] Instance byte_eq_dec : EqDecision byte := Byte.byte_eq_dec.

Lemma byte_to_Z_range b : 0 <= byte_to_Z b < 256.
Proof. unfold byte_to_Z. pose proof (Byte.to_N_bounded b). lia. Qed.

Lemma byte_to_of_Z z : byte_to_Z (byte_of_Z z) = z mod 256.
Proof.
  unfold byte_to_Z, byte_of_Z. pose proof (Z.mod_pos_bound z 256 ltac:(lia)) as Hr.
  destruct (Byte.of_N (Z.to_N (z mod 256))) as [b|] eqn:E.
  - apply Byte.to_of_N in E. rewrite E. lia.
  - apply Byte.of_N_None_iff in E. lia.
Qed.

Lemma byte_to_Z_inj a b : byte_to_Z a = byte_to_Z b -> a = b.
Proof.
  unfold byte_to_Z. intros H%N2Z.inj.
  pose proof (Byte.of_to_N a) as Ha. rewrite H, Byte.of_to_N in Ha. congruence.
Qed.

Lemma byte_of_to_Z b : byte_of_Z (byte_to_Z b) = b.
Proof.
  apply byte_to_Z_inj. rewrite byte_to_of_Z. apply Z.mod_small, byte_to_Z_range.
Qed.

(** * Unsigned big-endian integers ([struct] codes [I] and [Q] after [>]) *)

(** [n] bytes of [z], most significant first. *)
Fixpoint be_encode (n : nat) (z : Z) : bytes :=
  match n with
  | O => []
  | S n => be_encode n (z / 256) ++ [byte_of_Z z]
  end.

Definition be_decode (bs : bytes) : Z :=
  fold_left (fun acc b => acc * 256 + byte_to_Z b) bs 0.

(** [struct.pack(">I", z)] and [struct.pack(">Q", z)]: [struct.error] out of range. *)
Definition pack_uint (n : nat) (z : Z) : res bytes :=
  if (0 <=? z) && (z <? 256 ^ Z.of_nat n) then Ok (be_encode n z) else Raise StructError.

Lemma length_be_encode n z : length (be_encode n z) = n.
Proof. revert z; induction n as [|n IH]; intros z; simpl; [done|]. rewrite length_app, IH. simpl; lia. Qed.

Lemma be_decode_snoc bs b : be_decode (bs ++ [b]) = be_decode bs * 256 + byte_to_Z b.
Proof. unfold be_decode. by rewrite fold_left_app. Qed.

Lemma be_decode_encode n z :
  0 <= z < 256 ^ Z.of_nat n -> be_decode (be_encode n z) = z.
Proof.
  revert z; induction n as [|n IH]; intros z Hz; [cbn in *; lia|].
  cbn [be_encode]. rewrite be_decode_snoc, byte_to_of_Z, IH.
  - pose proof (Z.div_mod z 256). lia.
  - rewrite Nat2Z.inj_succ, Z.pow_succ_r in Hz by lia.
    split; [apply Z.div_pos; lia|]. apply Z.div_lt_upper_bound; lia.
Qed.

Lemma be_decode_range bs : 0 <= be_decode bs < 256 ^ Z.of_nat (length bs).
Proof.
  induction bs as [|b bs IH] using rev_ind; [cbn; lia|].
  rewrite be_decode_snoc, length_app, Nat2Z.inj_add, Z.pow_add_r by lia.
  pose proof (byte_to_Z_range b). change (256 ^ Z.of_nat (length [b])) with 256. lia.
Qed.

Lemma be_encode_decode bs : be_encode (length bs) (be_decode bs) = bs.
Proof.
  induction bs as [|b bs IH] using rev_ind; [done|].
  rewrite length_app, Nat.add_comm, be_decode_snoc. cbn [be_encode length Nat.add].
  pose proof (byte_to_Z_range b) as Hb.
  rewrite Z.div_add_l, (Z.div_small (byte_to_Z b)), Z.add_0_r, IH by lia.
  do 2 f_equal. apply byte_to_Z_inj.
  rewrite byte_to_of_Z, Z.add_comm, Z.mod_add by lia. by apply Z.mod_small.
Qed.

Lemma pack_uint_ok n z bs :
  pack_uint n z = Ok bs -> length bs = n /\ be_decode bs = z /\ bs = be_encode n z.
Proof.
  unfold pack_uint. destruct (Z.leb_spec 0 z), (Z.ltb_spec z (256 ^ Z.of_nat n));
    simpl; intros; res_inv.
  rewrite length_be_encode, be_decode_encode by lia. auto.
Qed.

Lemma pack_uint_in_range n z :
  0 <= z < 256 ^ Z.of_nat n -> pack_uint n z = Ok (be_encode n z).
Proof.
  intros H. unfold pack_uint.
  by rewrite (proj2 (Z.leb_le _ _)), (proj2 (Z.ltb_lt _ _)) by lia.
Qed.

(** * CRC-32 (zlib's reflected polynomial, computed bit by bit) *)

Definition crc_poly : Z := 0xEDB88320.

Definition crc_bit (c : Z) : Z :=
  if Z.testbit c 0 then Z.lxor (Z.shiftr c 1) crc_poly else Z.shiftr c 1.

Definition crc_byte (c : Z) (b : byte) : Z := Nat.iter 8 crc_bit (Z.lxor c (byte_to_Z b)).

Definition crc32 (bs : bytes) : Z :=
  Z.lxor (fold_left crc_byte bs 0xFFFFFFFF) 0xFFFFFFFF.

(** [zlib.crc32(b"123456789")], the check value of the CRC-32 catalogue. *)
Example crc32_check : crc32 (map byte_of_Z (map Z.of_nat (seq 49 9))) = 0xCBF43926.
Proof. vm_compute. reflexivity. Qed.

Lemma lxor_bound n a b :
  0 <= n -> 0 <= a < 2 ^ n -> 0 <= b < 2 ^ n -> 0 <= Z.lxor a b < 2 ^ n.
Proof.
  intros Hn Ha Hb.
  enough (Z.lxor a b = Z.lxor a b mod 2 ^ n) as -> by (apply Z.mod_pos_bound; lia).
  apply Z.bits_inj'. intros i Hi. destruct (Z.lt_ge_cases i n).
  - by rewrite Z.mod_pow2_bits_low.
  - rewrite Z.mod_pow2_bits_high, Z.lxor_spec by lia.
    rewrite <- (Z.mod_small a (2 ^ n)), <- (Z.mod_small b (2 ^ n)) by lia.
    by rewrite !Z.mod_pow2_bits_high by lia.
Qed.

Lemma crc_bit_range c : 0 <= c < 2 ^ 32 -> 0 <= crc_bit c < 2 ^ 32.
Proof.
  intros Hc. unfold crc_bit. rewrite Z.shiftr_div_pow2 by lia. change (2 ^ 1) with 2.
  assert (0 <= c / 2 < 2 ^ 32) by (split; [apply Z.div_pos|apply Z.div_lt_upper_bound]; lia).
  destruct (Z.testbit c 0); [|done]. apply lxor_bound; [lia|done|easy].
Qed.

Lemma crc_iter_range k c : 0 <= c < 2 ^ 32 -> 0 <= Nat.iter k crc_bit c < 2 ^ 32.
Proof. intros Hc. induction k as [|k IH]; simpl; [done|]. by apply crc_bit_range. Qed.

(** One step shifts the register, so an xor two places up comes out one place up. *)
Lemma crc_bit_lxor x y : crc_bit (Z.lxor x (2 * y)) = Z.lxor (crc_bit x) y.
Proof.
  unfold crc_bit.
  rewrite Z.lxor_spec, Z.testbit_even_0, xorb_false_r.
  rewrite Z.shiftr_lxor. replace (Z.shiftr (2 * y) 1) with y.
  2:{ rewrite Z.shiftr_div_pow2 by lia. change (2 ^ 1) with 2. rewrite Z.mul_comm, Z.div_mul; lia. }
  destruct (Z.testbit x 0); [|done].
  by rewrite !Z.lxor_assoc, (Z.lxor_comm y).
Qed.

Lemma crc_iter_lxor k x y :
  Nat.iter k crc_bit (Z.lxor x (2 ^ Z.of_nat k * y)) = Z.lxor (Nat.iter k crc_bit x) y.
Proof.
  revert y; induction k as [|k IH]; intros y.
  { by rewrite Z.mul_1_l. }
  rewrite !Nat.iter_succ, Nat2Z.inj_succ, Z.pow_succ_r by lia.
  replace (2 * 2 ^ Z.of_nat k * y) with (2 ^ Z.of_nat k * (2 * y)) by lia.
  by rewrite IH, crc_bit_lxor.
Qed.

Lemma crc_bit_inj c1 c2 :
  0 <= c1 < 2 ^ 32 -> 0 <= c2 < 2 ^ 32 -> crc_bit c1 = crc_bit c2 -> c1 = c2.
Proof.
  intros H1 H2 Heq.
  assert (Htop : forall c, 0 <= c < 2 ^ 32 -> Z.testbit (crc_bit c) 31 = Z.testbit c 0).
  { intros c Hc. unfold crc_bit.
    assert (Z.testbit (Z.shiftr c 1) 31 = false) as Hs.
    { rewrite Z.shiftr_spec by lia. destruct (Z.eq_dec c 0) as [->|]; [apply Z.testbit_0_l|].
      apply Z.bits_above_log2; [lia|]. apply Z.log2_lt_pow2; lia. }
    destruct (Z.testbit c 0); [|done]. by rewrite Z.lxor_spec, Hs. }
  pose proof (Htop c1 H1) as T1. pose proof (Htop c2 H2) as T2. rewrite Heq, T2 in T1.
  unfold crc_bit in Heq. rewrite <- T1 in Heq.
  assert (Z.shiftr c1 1 = Z.shiftr c2 1) as Hsh.
  { destruct (Z.testbit c2 0); [|done].
    apply (f_equal (fun z => Z.lxor z crc_poly)) in Heq.
    by rewrite !Z.lxor_assoc, Z.lxor_nilpotent, !Z.lxor_0_r in Heq. }
  rewrite !Z.shiftr_div_pow2 in Hsh by lia. change (2 ^ 1) with 2 in Hsh.
  rewrite (Z.div_mod c1 2), (Z.div_mod c2 2) by lia. rewrite Hsh. f_equal.
  rewrite <- !Z.bit0_mod. by rewrite T1.
Qed.

Lemma crc_iter_inj k c1 c2 :
  0 <= c1 < 2 ^ 32 -> 0 <= c2 < 2 ^ 32 ->
  Nat.iter k crc_bit c1 = Nat.iter k crc_bit c2 -> c1 = c2.
Proof.
  intros H1 H2. induction k as [|k IH]; simpl; [done|].
  intros H%crc_bit_inj; [auto|by apply crc_iter_range..].
Qed.

Lemma crc_byte_range c b : 0 <= c < 2 ^ 32 -> 0 <= crc_byte c b < 2 ^ 32.
Proof.
  intros Hc. apply crc_iter_range, lxor_bound; [lia|done|].
  pose proof (byte_to_Z_range b). lia.
Qed.

Lemma crc_fold_range bs c : 0 <= c < 2 ^ 32 -> 0 <= fold_left crc_byte bs c < 2 ^ 32.
Proof. revert c; induction bs; intros c Hc; simpl; [done|]. by apply IHbs, crc_byte_range. Qed.

Lemma crc32_range bs : 0 <= crc32 bs < 2 ^ 32.
Proof. apply lxor_bound; [lia|apply crc_fold_range; easy|easy]. Qed.

(** Feeding the same bytes is injective in the register. *)
Lemma crc_fold_inj bs c1 c2 :
  0 <= c1 < 2 ^ 32 -> 0 <= c2 < 2 ^ 32 ->
  fold_left crc_byte bs c1 = fold_left crc_byte bs c2 -> c1 = c2.
Proof.
  revert c1 c2; induction bs as [|b bs IH]; intros c1 c2 H1 H2; simpl; [done|].
  intros H%IH; [|by apply crc_byte_range..]. unfold crc_byte in H.
  pose proof (byte_to_Z_range b).
  apply crc_iter_inj in H; [|apply lxor_bound; lia..].
  apply (f_equal (fun z => Z.lxor z (byte_to_Z b))) in H.
  by rewrite !Z.lxor_assoc, Z.lxor_nilpotent, !Z.lxor_0_r in H.
Qed.

(** Little-endian word of a short block, the way the register meets it. *)
Fixpoint le_word (bs : bytes) : Z :=
  match bs with [] => 0 | b :: bs => Z.lxor (byte_to_Z b) (256 * le_word bs) end.

Lemma crc_fold_word bs c :
  fold_left crc_byte bs c = Nat.iter (8 * length bs) crc_bit (Z.lxor c (le_word bs)).
Proof.
  revert c; induction bs as [|b bs IH]; intros c.
  { simpl. by rewrite Z.lxor_0_r. }
  cbn [fold_left le_word length]. rewrite IH. unfold crc_byte.
  rewrite <- (crc_iter_lxor 8). change (2 ^ Z.of_nat 8) with 256.
  rewrite Z.lxor_assoc.
  replace (8 * S (length bs))%nat with (8 * length bs + 8)%nat by lia.
  by rewrite Nat.iter_add.
Qed.

Lemma le_word_cons_inv b1 b2 w1 w2 :
  Z.lxor (byte_to_Z b1) (256 * w1) = Z.lxor (byte_to_Z b2) (256 * w2) ->
  b1 = b2 /\ w1 = w2.
Proof.
  intros H.
  assert (Hlow : forall b w, Z.lxor (byte_to_Z b) (256 * w) = byte_to_Z b + 256 * w).
  { intros b w. rewrite Z.add_nocarry_lxor; [done|].
    apply Z.bits_inj'. intros i Hi. rewrite Z.land_spec, Z.bits_0.
    pose proof (byte_to_Z_range b) as Hb.
    destruct (Z.lt_ge_cases i 8) as [Hi8|Hi8].
    - change 256 with (2 ^ 8). rewrite (Z.mul_comm (2 ^ 8)), Z.mul_pow2_bits_low by lia.
      apply andb_false_r.
    - destruct (Z.eq_dec (byte_to_Z b) 0) as [->|]; [by rewrite Z.bits_0|].
      rewrite Z.bits_above_log2; [done|lia|].
      eapply Z.lt_le_trans; [|exact Hi8]. apply Z.log2_lt_pow2; lia. }
  rewrite !Hlow in H. pose proof (byte_to_Z_range b1). pose proof (byte_to_Z_range b2).
  split; [apply byte_to_Z_inj; lia|lia].
Qed.

Lemma le_word_inj bs1 bs2 :
  length bs1 = length bs2 -> le_word bs1 = le_word bs2 -> bs1 = bs2.
Proof.
  revert bs2; induction bs1 as [|b1 bs1 IH]; intros [|b2 bs2]; simpl; try done.
  intros [= Hl] [-> Hw]%le_word_cons_inv. f_equal. auto.
Qed.

Lemma le_word_range bs : 0 <= le_word bs < 2 ^ (8 * Z.of_nat (length bs)).
Proof.
  induction bs as [|b bs IH]; cbn [le_word length]; [lia|].
  rewrite Nat2Z.inj_succ. replace (8 * Z.succ (Z.of_nat (length bs)))
    with (8 * Z.of_nat (length bs) + 8) by lia.
  pose proof (byte_to_Z_range b).
  assert (0 < 2 ^ (8 * Z.of_nat (length bs))) by (apply Z.pow_pos_nonneg; lia).
  apply lxor_bound; [lia|..]; rewrite Z.pow_add_r by lia; change (2 ^ 8) with 256; nia.
Qed.

(** A burst of at most four bytes always changes the checksum. *)
Lemma crc32_burst pre d1 d2 post :
  length d1 = length d2 -> (length d1 <= 4)%nat -> d1 <> d2 ->
  crc32 (pre ++ d1 ++ post) <> crc32 (pre ++ d2 ++ post).
Proof.
  intros Hlen H4 Hne Heq. apply Hne. unfold crc32 in Heq.
  apply (f_equal (fun z => Z.lxor z 0xFFFFFFFF)) in Heq.
  rewrite !Z.lxor_assoc, Z.lxor_nilpotent, !Z.lxor_0_r, !fold_left_app in Heq.
  set (c := fold_left crc_byte pre 0xFFFFFFFF) in Heq.
  assert (Hc : 0 <= c < 2 ^ 32) by (apply crc_fold_range; easy).
  apply crc_fold_inj in Heq; [|by apply crc_fold_range..].
  rewrite !crc_fold_word, <- Hlen in Heq.
  assert (Hw : forall d, (length d <= 4)%nat -> 0 <= le_word d < 2 ^ 32).
  { intros d Hd. pose proof (le_word_range d). split; [lia|].
    eapply Z.lt_le_trans; [apply H|]. apply Z.pow_le_mono_r; lia. }
  apply crc_iter_inj in Heq; [|apply lxor_bound; [lia|done|apply Hw; lia]..].
  apply le_word_inj; [done|].
  apply (f_equal (Z.lxor c)) in Heq.
  by rewrite <- !Z.lxor_assoc, Z.lxor_nilpotent, !Z.lxor_0_l in Heq.
Qed.

#[global] Arguments be_encode : simpl never.
#[global] Arguments be_decode : simpl never.
#[global] Arguments crc32 : simpl never.
