(* ===== verification/Text.v ===== *)
(** Text as bytes: UTF-8, decimal numbers, and the whitespace rules of [bytes].

    [str.encode] and [bytes.decode] in their strict mode, [str(n)] and [int(b)] of
    Python, as the codecs, the protocol and the server use them. *)

From Stdlib Require Import Strings.Byte Strings.String Decimal DecimalZ DecimalN DecimalPos DecimalFacts.
From S2P Require Import Prelude PyBase Struct.

(** * UTF-8 *)

(** The bytes of a code point; surrogates cannot be encoded. *)
Definition utf8_char (c : N) : option bytes :=
  let z := Z.of_N c in
  if z <? 0x80 then Some [byte_of_Z z]
  else if z <? 0x800 then Some [byte_of_Z (0xC0 + z / 64); byte_of_Z (0x80 + z mod 64)]
  else if (0xD800 <=? z) && (z <? 0xE000) then None
  else if z <? 0x10000 then
    Some [byte_of_Z (0xE0 + z / 4096); byte_of_Z (0x80 + z / 64 mod 64); byte_of_Z (0x80 + z mod 64)]
  else if z <? 0x110000 then
    Some [byte_of_Z (0xF0 + z / 262144); byte_of_Z (0x80 + z / 4096 mod 64);
          byte_of_Z (0x80 + z / 64 mod 64); byte_of_Z (0x80 + z mod 64)]
  else None.

(** [s.encode("utf-8")] *)
Fixpoint utf8_encode (s : pystr) : res bytes :=
  match s with
  | [] => Ok []
  | c :: s =>
      match utf8_char c with
      | None => Raise UnicodeError
      | Some b => rest ← utf8_encode s; Ok (b ++ rest)
      end
  end.

(** The payload of a continuation byte. *)
Definition cont (b : byte) : option Z :=
  let z := byte_to_Z b in if (0x80 <=? z) && (z <? 0xC0) then Some (z - 0x80) else None.

(** The first code point and what follows it: overlong forms, surrogates and
    values beyond Unicode are refused. *)
Definition utf8_take (b : bytes) : option (N * bytes) :=
  match b with
  | [] => None
  | b0 :: rest =>
      let z := byte_to_Z b0 in
      if z <? 0x80 then Some (Z.to_N z, rest)
      else if (0xC0 <=? z) && (z <? 0xE0) then
        match rest with
        | b1 :: rest =>
            x1 ← cont b1;
            let c := (z - 0xC0) * 64 + x1 in
            if 0x80 <=? c then Some (Z.to_N c, rest) else None
        | _ => None
        end
      else if (0xE0 <=? z) && (z <? 0xF0) then
        match rest with
        | b1 :: b2 :: rest =>
            x1 ← cont b1; x2 ← cont b2;
            let c := (z - 0xE0) * 4096 + x1 * 64 + x2 in
            if (0x800 <=? c) && negb ((0xD800 <=? c) && (c <? 0xE000)) then Some (Z.to_N c, rest) else None
        | _ => None
        end
      else if (0xF0 <=? z) && (z <? 0xF8) then
        match rest with
        | b1 :: b2 :: b3 :: rest =>
            x1 ← cont b1; x2 ← cont b2; x3 ← cont b3;
            let c := (z - 0xF0) * 262144 + x1 * 4096 + x2 * 64 + x3 in
            if (0x10000 <=? c) && (c <? 0x110000) then Some (Z.to_N c, rest) else None
        | _ => None
        end
      else None
  end.

Fixpoint utf8_decode_loop (fuel : nat) (b : bytes) : res pystr :=
  match b, fuel with
  | [], _ => Ok []
  | _, O => Raise UnicodeError
  | _, S fuel =>
      match utf8_take b with
      | None => Raise UnicodeError
      | Some (c, rest) => s ← utf8_decode_loop fuel rest; Ok (c :: s)
      end
  end.

(** [b.decode("utf-8")]; every code point takes at least one byte. *)
Definition utf8_decode (b : bytes) : res pystr := utf8_decode_loop (length b) b.

(** How many bytes one replacement character stands for when the front of [b]
    cannot be decoded: the longest beginning of a valid sequence, or one byte. *)
Definition bad_length (b : bytes) : nat :=
  match b with
  | [] => 0%nat
  | b0 :: rest =>
      let z := byte_to_Z b0 in
      let second (lo hi : Z) := match rest with b1 :: _ => (lo <=? byte_to_Z b1) && (byte_to_Z b1 <=? hi) | [] => false end in
      let third := match rest with _ :: b2 :: _ => match cont b2 with Some _ => true | None => false end | _ => false end in
      if (0xE0 <=? z) && (z <? 0xF0) then
        if second (if z =? 0xE0 then 0xA0 else 0x80) (if z =? 0xED then 0x9F else 0xBF) then 2%nat else 1%nat
      else if (0xF0 <=? z) && (z <? 0xF5) then
        if second (if z =? 0xF0 then 0x90 else 0x80) (if z =? 0xF4 then 0x8F else 0xBF)
        then (if third then 3%nat else 2%nat) else 1%nat
      else 1%nat
  end.

(** [b.decode("utf-8", "replace")] *)
Fixpoint utf8_replace (fuel : nat) (b : bytes) : pystr :=
  match b, fuel with
  | [], _ | _, O => []
  | _, S fuel =>
      match utf8_take b with
      | Some (c, rest) => c :: utf8_replace fuel rest
      | None => 0xFFFD%N :: utf8_replace fuel (drop (bad_length b) b)
      end
  end.
Definition utf8_decode_replace (b : bytes) : pystr := utf8_replace (length b) b.

(** ** Round trips *)

Lemma byte_to_of_small z : 0 <= z < 256 -> byte_to_Z (byte_of_Z z) = z.
Proof. intros Hz. rewrite byte_to_of_Z. by apply Z.mod_small. Qed.

Lemma cont_of_Z x : 0 <= x < 64 -> cont (byte_of_Z (0x80 + x)) = Some x.
Proof.
  intros Hx. unfold cont. rewrite byte_to_of_small by lia.
  rewrite (proj2 (Z.leb_le _ _)), (proj2 (Z.ltb_lt _ _)) by lia. simpl. f_equal. lia.
Qed.

Lemma cont_inv b x : cont b = Some x -> b = byte_of_Z (0x80 + x) /\ 0 <= x < 64.
Proof.
  unfold cont. destruct (Z.leb_spec 0x80 (byte_to_Z b)), (Z.ltb_spec (byte_to_Z b) 0xC0); try done. simpl.
  intros [= <-]. split; [|lia]. rewrite <- (byte_of_to_Z b) at 1. f_equal. lia.
Qed.

(** Decides the comparisons of a goal by linear arithmetic. *)
Ltac zcmp :=
  repeat match goal with
  | |- context [?a <? ?b] =>
      first [rewrite (proj2 (Z.ltb_lt a b)) by lia | rewrite (proj2 (Z.ltb_ge a b)) by lia]
  | |- context [?a <=? ?b] =>
      first [rewrite (proj2 (Z.leb_le a b)) by lia | rewrite (proj2 (Z.leb_gt a b)) by lia]
  end; cbn [andb negb].

Lemma utf8_take_char c b rest : utf8_char c = Some b -> utf8_take (b ++ rest) = Some (c, rest).
Proof.
  unfold utf8_char. remember (Z.of_N c) as z eqn:Ez. assert (0 <= z) by lia. assert (c = Z.to_N z) as -> by lia. clear Ez.
  pose proof (Z.mod_pos_bound z 64 ltac:(lia)). pose proof (Z.mod_pos_bound (z / 64) 64 ltac:(lia)). pose proof (Z.mod_pos_bound (z / 4096) 64 ltac:(lia)).
  assert (z = z / 64 * 64 + z mod 64) by (pose proof (Z.div_mod z 64); lia).
  assert (z / 64 / 64 = z / 4096) as E1 by (by rewrite Z.div_div). assert (z / 4096 / 64 = z / 262144) as E2 by (by rewrite Z.div_div).
  assert (z / 64 = z / 4096 * 64 + z / 64 mod 64) by (pose proof (Z.div_mod (z / 64) 64); lia).
  assert (z / 4096 = z / 262144 * 64 + z / 4096 mod 64) by (pose proof (Z.div_mod (z / 4096) 64); lia).
  destruct (Z.ltb_spec z 0x80); [intros [= <-]|destruct (Z.ltb_spec z 0x800); [intros [= <-]|]].
  - cbn [utf8_take app]. rewrite byte_to_of_small by lia. by zcmp.
  - cbn [utf8_take app]. rewrite byte_to_of_small by lia. zcmp. rewrite cont_of_Z by lia. cbn [mbind option_bind].
    replace ((0xC0 + z / 64 - 0xC0) * 64 + z mod 64) with z by lia. by zcmp.
  - destruct (Z.leb_spec 0xD800 z), (Z.ltb_spec z 0xE000); cbn [andb]; try done;
      (destruct (Z.ltb_spec z 0x10000); [|destruct (Z.ltb_spec z 0x110000)]); try done; intros [= <-]; try lia;
      cbn [utf8_take app]; rewrite byte_to_of_small by lia; zcmp; rewrite !cont_of_Z by lia; cbn [mbind option_bind].
    + replace ((0xE0 + z / 4096 - 0xE0) * 4096 + z / 64 mod 64 * 64 + z mod 64) with z by lia. by zcmp.
    + replace ((0xF0 + z / 262144 - 0xF0) * 262144 + z / 4096 mod 64 * 4096 + z / 64 mod 64 * 64 + z mod 64) with z by lia. by zcmp.
    + replace ((0xE0 + z / 4096 - 0xE0) * 4096 + z / 64 mod 64 * 64 + z mod 64) with z by lia. by zcmp.
Qed.

Lemma div_digits a b k : 0 < k -> 0 <= b < k -> (a * k + b) / k = a /\ (a * k + b) mod k = b.
Proof.
  intros Hk Hb. split; [symmetry; apply (Z.div_unique_pos _ _ _ b); lia|symmetry; apply (Z.mod_unique_pos _ _ a); lia].
Qed.

Lemma digits3 c a x1 x2 :
  c = a * 4096 + x1 * 64 + x2 -> 0 <= x1 < 64 -> 0 <= x2 < 64 -> c / 4096 = a /\ c / 64 mod 64 = x1 /\ c mod 64 = x2.
Proof.
  intros E H1 H2. replace c with ((a * 64 + x1) * 64 + x2) by lia.
  destruct (div_digits (a * 64 + x1) x2 64) as [D1 D2]; [lia..|]. destruct (div_digits a x1 64) as [D3 D4]; [lia..|].
  rewrite D1, D2, D4. split_and!; try done. change 4096 with (64 * 64). rewrite <- Z.div_div by lia. by rewrite D1.
Qed.

Lemma digits4 c a x1 x2 x3 :
  c = a * 262144 + x1 * 4096 + x2 * 64 + x3 -> 0 <= x1 < 64 -> 0 <= x2 < 64 -> 0 <= x3 < 64 ->
  c / 262144 = a /\ c / 4096 mod 64 = x1 /\ c / 64 mod 64 = x2 /\ c mod 64 = x3.
Proof.
  intros E H1 H2 H3. destruct (digits3 c (a * 64 + x1) x2 x3) as (D1 & D2 & D3); [lia..|].
  destruct (div_digits a x1 64) as [D4 D5]; [lia..|]. rewrite D1, D2, D3, D5. split_and!; try done.
  change 262144 with (4096 * 64). rewrite <- Z.div_div by lia. by rewrite D1.
Qed.

(** The encoding of a code point given by its digits. *)
Lemma utf8_char2 c x0 x1 :
  c = x0 * 64 + x1 -> 0 <= x1 < 64 -> 0x80 <= c < 0x800 ->
  utf8_char (Z.to_N c) = Some [byte_of_Z (0xC0 + x0); byte_of_Z (0x80 + x1)].
Proof.
  intros E H1 Hc. unfold utf8_char. rewrite Z2N.id by lia. zcmp.
  destruct (div_digits x0 x1 64) as [D0 D1]; [lia..|]. rewrite <- E in D0, D1. by rewrite D0, D1.
Qed.

Lemma utf8_char3 c x0 x1 x2 :
  c = x0 * 4096 + x1 * 64 + x2 -> 0 <= x1 < 64 -> 0 <= x2 < 64 -> 0x800 <= c < 0x10000 -> ~ 0xD800 <= c < 0xE000 ->
  utf8_char (Z.to_N c) = Some [byte_of_Z (0xE0 + x0); byte_of_Z (0x80 + x1); byte_of_Z (0x80 + x2)].
Proof.
  intros E H1 H2 Hc Hs. unfold utf8_char. rewrite Z2N.id by lia. zcmp. destruct (digits3 c x0 x1 x2 E H1 H2) as (-> & -> & ->).
  destruct (Z.leb_spec 0xD800 c), (Z.ltb_spec c 0xE000); cbn [andb]; try lia; by zcmp.
Qed.

Lemma utf8_char4 c x0 x1 x2 x3 :
  c = x0 * 262144 + x1 * 4096 + x2 * 64 + x3 -> 0 <= x1 < 64 -> 0 <= x2 < 64 -> 0 <= x3 < 64 -> 0x10000 <= c < 0x110000 ->
  utf8_char (Z.to_N c) = Some [byte_of_Z (0xF0 + x0); byte_of_Z (0x80 + x1); byte_of_Z (0x80 + x2); byte_of_Z (0x80 + x3)].
Proof.
  intros E H1 H2 H3 Hc. unfold utf8_char. rewrite Z2N.id by lia. destruct (digits4 c x0 x1 x2 x3 E H1 H2 H3) as (-> & -> & -> & ->).
  by zcmp.
Qed.

(** Splits the options and comparisons a decoding went through. *)
Ltac decoded :=
  repeat match goal with
  | H : (match ?l with [] => _ | _ :: _ => _ end) = Some _ |- _ => destruct l; [discriminate H|]
  | H : (match ?l with [] => None | _ :: _ => _ end) = Some _ |- _ => destruct l; [discriminate H|]
  | H : (_ ← cont ?b; _) = Some _ |- _ =>
      let x := fresh "x" in let E := fresh "E" in
      destruct (cont b) as [x|] eqn:E; [apply cont_inv in E as [-> E]; cbn [mbind option_bind] in H|discriminate H]
  end.

Lemma utf8_char_take b c rest : utf8_take b = Some (c, rest) -> exists bs, utf8_char c = Some bs /\ b = bs ++ rest.
Proof.
  destruct b as [|b0 b]; [done|]. cbn [utf8_take]. pose proof (byte_to_Z_range b0) as Hz. pose proof (byte_of_to_Z b0) as Hb0.
  set (z := byte_to_Z b0) in *. clearbody z. subst b0. intros H.
  destruct (Z.ltb_spec z 0x80).
  { injection H as <- <-. exists [byte_of_Z z]. split; [|done]. unfold utf8_char. rewrite Z2N.id by lia. by zcmp. }
  destruct ((0xC0 <=? z) && (z <? 0xE0)) eqn:E2; [|destruct ((0xE0 <=? z) && (z <? 0xF0)) eqn:E3; [|destruct ((0xF0 <=? z) && (z <? 0xF8)) eqn:E4; [|done]]].
  - apply andb_true_iff in E2 as [?%Z.leb_le ?%Z.ltb_lt]. decoded.
    destruct (Z.leb_spec 0x80 ((z - 0xC0) * 64 + x)); [|done]. injection H as <- <-.
    eexists. split; [eapply utf8_char2; [reflexivity|lia..]|]. by replace (0xC0 + (z - 0xC0)) with z by lia.
  - apply andb_true_iff in E3 as [?%Z.leb_le ?%Z.ltb_lt]. decoded. set (c0 := _ + x * 64 + x0) in H.
    destruct (Z.leb_spec 0x800 c0); [|done]. destruct ((0xD800 <=? c0) && (c0 <? 0xE000)) eqn:Es; [done|]. injection H as <- <-.
    eexists. split; [eapply utf8_char3; [reflexivity|lia..]|]. by replace (0xE0 + (z - 0xE0)) with z by lia.
  - apply andb_true_iff in E4 as [?%Z.leb_le ?%Z.ltb_lt]. decoded. set (c0 := _ + x0 * 64 + x1) in H.
    destruct (Z.leb_spec 0x10000 c0), (Z.ltb_spec c0 0x110000); try done. injection H as <- <-.
    eexists. split; [eapply utf8_char4; [reflexivity|lia..]|]. by replace (0xF0 + (z - 0xF0)) with z by lia.
Qed.

Lemma utf8_char_nonempty c b : utf8_char c = Some b -> b <> [].
Proof. unfold utf8_char. repeat case_match; intros [= <-]; done. Qed.

Lemma utf8_loop_encode fuel s b : utf8_encode s = Ok b -> (length b <= fuel)%nat -> utf8_decode_loop fuel b = Ok s.
Proof.
  revert fuel b. induction s as [|c s IH]; intros fuel b; simpl; [intros [= <-] _; by destruct fuel|].
  destruct (utf8_char c) as [bc|] eqn:Ec; [|done]. intros (bs & Es & [= <-])%result_bind_inv Hf.
  pose proof (utf8_char_nonempty _ _ Ec) as Hne. rewrite length_app in Hf. destruct bc as [|b0 bc]; [done|]. simpl in Hf.
  destruct fuel as [|fuel]; [lia|]. cbn [utf8_decode_loop app].
  rewrite (utf8_take_char c (b0 :: bc) bs Ec : utf8_take (b0 :: bc ++ bs) = _). rewrite (IH fuel bs Es) by lia. done.
Qed.

Lemma utf8_loop_decode fuel b s : utf8_decode_loop fuel b = Ok s -> utf8_encode s = Ok b.
Proof.
  revert b s. induction fuel as [|fuel IH]; intros b s; destruct b as [|b0 b]; cbn [utf8_decode_loop]; try done; try (by intros [= <-]).
  destruct (utf8_take (b0 :: b)) as [[c rest]|] eqn:Et; [|done]. intros (s' & Es & [= <-])%result_bind_inv.
  destruct (utf8_char_take _ _ _ Et) as (bs & Ec & Eb). simpl. rewrite Ec, (IH _ _ Es), Eb. done.
Qed.

(** Encoding and strict decoding are inverse to each other. *)
Lemma utf8_roundtrip s b : utf8_encode s = Ok b <-> utf8_decode b = Ok s.
Proof. unfold utf8_decode. split; [intros H; by eapply utf8_loop_encode|apply utf8_loop_decode]. Qed.

Lemma utf8_encode_app s1 s2 b1 b2 : utf8_encode s1 = Ok b1 -> utf8_encode s2 = Ok b2 -> utf8_encode (s1 ++ s2) = Ok (b1 ++ b2).
Proof.
  revert b1. induction s1 as [|c s1 IH]; intros b1; simpl; [by intros [= <-]|].
  destruct (utf8_char c) as [bc|]; [|done]. intros (bs & Es & [= <-])%result_bind_inv H2. rewrite (IH _ Es H2). simpl. by rewrite app_assoc.
Qed.

(** * Bytes literals and whitespace *)

(** A literal [b"..."]. *)
Definition lit (s : string) : bytes := list_byte_of_string s.

(** The bytes [bytes.split] and [int] take for whitespace. *)
Definition is_space (b : byte) : bool :=
  match b with x20 | x09 | x0a | x0b | x0c | x0d => true | _ => false end.

Fixpoint lstrip (b : bytes) : bytes :=
  match b with [] => [] | x :: rest => if is_space x then lstrip rest else b end.

(** [b.strip()] *)
Definition strip (b : bytes) : bytes := rev (lstrip (rev (lstrip b))).

Lemma lstrip_id b : (forall x, head b = Some x -> is_space x = false) -> lstrip b = b.
Proof. destruct b as [|x b]; [done|]. intros Hx. simpl. by rewrite Hx. Qed.

Lemma strip_id b : Forall (fun x => is_space x = false) b -> strip b = b.
Proof.
  intros Hb. unfold strip. assert (Hs : forall l, Forall (fun x => is_space x = false) l -> lstrip l = l).
  { intros [|x l] Hl; [done|]. simpl. apply Forall_cons in Hl as [-> _]. done. }
  rewrite (Hs b) by done. rewrite Hs by (by apply Forall_rev). apply rev_involutive.
Qed.

(** [b.upper()], and [b.decode("ascii", "ignore").lower()] *)
Definition upper (b : bytes) : bytes :=
  (fun x => let z := byte_to_Z x in if (97 <=? z) && (z <=? 122) then byte_of_Z (z - 32) else x) <$> b.
Definition ascii_lower (b : bytes) : pystr :=
  omap (fun x => let z := byte_to_Z x in
    if 128 <=? z then None else if (65 <=? z) && (z <=? 90) then Some (Z.to_N (z + 32)) else Some (Z.to_N z)) b.

(** The characters of [repr(b)] between the quotes, and [repr(b)]. *)
Definition hex_digit (z : Z) : N := Z.to_N (if z <? 10 then 48 + z else 87 + z).
Definition repr_char (quote x : byte) : pystr :=
  let z := byte_to_Z x in
  if bool_decide (x = quote) || (z =? 92) then [92; Z.to_N z]%N
  else if z =? 9 then str "\t" else if z =? 10 then str "\n" else if z =? 13 then str "\r"
  else if (z <? 32) || (127 <=? z) then str "\x" ++ [hex_digit (z / 16); hex_digit (z mod 16)]
  else [Z.to_N z].
Definition repr_bytes (b : bytes) : pystr :=
  let quote := if bool_decide (x27 ∈ b) && negb (bool_decide (x22 ∈ b)) then x22 else x27 in
  let q := [Byte.to_N quote] in
  str "b" ++ q ++ (b ≫= repr_char quote) ++ q.

(** * Decimal numbers *)

Fixpoint uint_bytes (d : uint) : bytes :=
  match d with
  | Nil => []
  | D0 d => x30 :: uint_bytes d | D1 d => x31 :: uint_bytes d | D2 d => x32 :: uint_bytes d
  | D3 d => x33 :: uint_bytes d | D4 d => x34 :: uint_bytes d | D5 d => x35 :: uint_bytes d
  | D6 d => x36 :: uint_bytes d | D7 d => x37 :: uint_bytes d | D8 d => x38 :: uint_bytes d
  | D9 d => x39 :: uint_bytes d
  end.

(** [str(z).encode("ascii")] *)
Definition dec (z : Z) : bytes :=
  match Z.to_int z with
  | Decimal.Pos d => uint_bytes d
  | Decimal.Neg d => x2d :: uint_bytes d
  end.

Definition digit (b : byte) : option (uint -> uint) :=
  match b with
  | x30 => Some D0 | x31 => Some D1 | x32 => Some D2 | x33 => Some D3 | x34 => Some D4
  | x35 => Some D5 | x36 => Some D6 | x37 => Some D7 | x38 => Some D8 | x39 => Some D9
  | _ => None
  end.

(** Digits, with single underscores between them allowed. *)
Fixpoint parse_digits (after_digit : bool) (b : bytes) : option uint :=
  match b with
  | [] => if after_digit then Some Nil else None
  | x :: b =>
      match digit x with
      | Some d => d <$> parse_digits true b
      | None => if bool_decide (x = x5f) && after_digit then parse_digits false b else None
      end
  end.

(** [int(b)] *)
Definition py_int (b : bytes) : res Z :=
  match
    (match strip b with
     | x2d :: b => Decimal.Neg <$> parse_digits false b
     | x2b :: b => Decimal.Pos <$> parse_digits false b
     | b => Decimal.Pos <$> parse_digits false b
     end)
  with
  | Some d => Ok (Z.of_int d)
  | None => Raise ValueError
  end.

Lemma parse_uint d b : (d = Nil -> b = true) -> parse_digits b (uint_bytes d) = Some d.
Proof.
  revert b. induction d as [|d IH|d IH|d IH|d IH|d IH|d IH|d IH|d IH|d IH|d IH]; intros b Hb; simpl; rewrite ?IH; try done.
  by rewrite Hb.
Qed.

Lemma uint_bytes_digits d : Forall (fun x => exists f, digit x = Some f) (uint_bytes d).
Proof. induction d; constructor; try done; by eexists. Qed.

Lemma digit_not_space x f : digit x = Some f -> is_space x = false.
Proof. by destruct x. Qed.

Lemma dec_not_space z : Forall (fun x => is_space x = false) (dec z).
Proof.
  unfold dec. destruct (Z.to_int z) as [d|d]; [|constructor; [done|]];
    (eapply Forall_impl; [apply uint_bytes_digits|]); intros x [f Hf]; by eapply digit_not_space.
Qed.

Lemma to_int_nonnil z : Z.to_int z <> Decimal.Pos Nil /\ Z.to_int z <> Decimal.Neg Nil.
Proof.
  destruct z as [|p|p]; simpl; split; try done; intros [= E]; by apply (Unsigned.to_uint_nonnil p).
Qed.

(** [int(str(z)) = z] *)
Lemma py_int_dec z : py_int (dec z) = Ok z.
Proof.
  unfold py_int. rewrite strip_id by apply dec_not_space. unfold dec. destruct (to_int_nonnil z) as [Hp Hn].
  replace (Ok z) with (Ok (Z.of_int (Z.to_int z)) : res Z) by (by rewrite DecimalZ.of_to). destruct (Z.to_int z) as [d|d].
  - assert (Hd : parse_digits false (uint_bytes d) = Some d) by (apply parse_uint; intros ->; done).
    destruct d; try done; simpl uint_bytes in *; cbv iota; by rewrite Hd.
  - by rewrite parse_uint by (intros ->; done).
Qed.

Lemma dec_nonempty z : dec z <> [].
Proof.
  unfold dec. destruct (to_int_nonnil z) as [Hp Hn]. destruct (Z.to_int z) as [d|d]; [|done]. by destruct d.
Qed.

(** Doubling adds at most one digit, so a number has no more digits than bits. *)
Lemma double_digits d : (nb_digits (Little.double d) <= S (nb_digits d) /\ nb_digits (Little.succ_double d) <= S (nb_digits d))%nat.
Proof. induction d; simpl; lia. Qed.

Lemma little_digits p : (nb_digits (Pos.to_little_uint p) <= Pos.to_nat (Pos.size p))%nat.
Proof.
  induction p as [p IH|p IH|]; simpl; rewrite ?Pos2Nat.inj_succ; [| |simpl; lia];
    destruct (double_digits (Pos.to_little_uint p)); lia.
Qed.

Lemma uint_bytes_length d : length (uint_bytes d) = nb_digits d.
Proof. induction d; simpl; congruence. Qed.

Lemma dec_length n z : Z.abs z < 2 ^ Z.of_nat n -> (length (dec z) <= S n)%nat.
Proof.
  intros Hz. assert (Hp : forall p, Z.pos p < 2 ^ Z.of_nat n -> (length (uint_bytes (Pos.to_uint p)) <= n)%nat).
  { intros p Hp. rewrite uint_bytes_length. unfold Pos.to_uint. rewrite nb_digits_rev. etransitivity; [apply little_digits|].
    destruct (Nat.le_gt_cases (Pos.to_nat (Pos.size p)) n) as [?|Hgt]; [done|exfalso].
    pose proof (Pos.size_le p) as Hs. assert (2 ^ Z.pos (Pos.size p) <= 2 * Z.pos p).
    { change (2 * Z.pos p) with (Z.pos (p~0)). change 2 with (Z.pos 2). rewrite <- Pos2Z.inj_pow. exact Hs. }
    assert (2 ^ Z.of_nat (S n) <= 2 ^ Z.pos (Pos.size p)) by (apply Z.pow_le_mono_r; lia).
    rewrite Nat2Z.inj_succ, Z.pow_succ_r in H0 by lia. lia. }
  unfold dec. destruct z as [|p|p]; simpl; [lia|..]; specialize (Hp p); simpl in Hz; specialize (Hp Hz); lia.
Qed.
