(* ===== verification/SimDisk.v ===== *)
(** The file object the engine runs on: [src/imustore/simdisk.py].

    [SimDisk] keeps the bytes the process sees ([_live]) apart from the bytes
    that survive a power loss ([_durable], advanced by [flush]).  A regular file
    opened ["r+b"] offers the same [seek]/[read]/[write]/[truncate] behaviour,
    so the storage layer is verified against this object. *)

From S2P Require Import Prelude PyBase Struct.

Record SimDisk : Type := mkSimDisk {
  _live : bytes;
  _durable : bytes;
  _pos : Z;
  _closed : bool;
  _flush_count : Z;
  _crash_at_flush : option Z
}.

(** [SimDisk(initial=...)] *)
Definition SimDisk_init (initial : bytes) : SimDisk :=
  {| _live := initial; _durable := initial; _pos := 0; _closed := false;
     _flush_count := 0; _crash_at_flush := None |}.

Definition SEEK_SET : Z := 0.
Definition SEEK_CUR : Z := 1.
Definition SEEK_END : Z := 2.

Definition set_live (l : bytes) (d : SimDisk) : SimDisk :=
  {| _live := l; _durable := _durable d; _pos := _pos d; _closed := _closed d;
     _flush_count := _flush_count d; _crash_at_flush := _crash_at_flush d |}.
Definition set_durable (b : bytes) (d : SimDisk) : SimDisk :=
  {| _live := _live d; _durable := b; _pos := _pos d; _closed := _closed d;
     _flush_count := _flush_count d; _crash_at_flush := _crash_at_flush d |}.
Definition set_pos (p : Z) (d : SimDisk) : SimDisk :=
  {| _live := _live d; _durable := _durable d; _pos := p; _closed := _closed d;
     _flush_count := _flush_count d; _crash_at_flush := _crash_at_flush d |}.
Definition set_closed (c : bool) (d : SimDisk) : SimDisk :=
  {| _live := _live d; _durable := _durable d; _pos := _pos d; _closed := c;
     _flush_count := _flush_count d; _crash_at_flush := _crash_at_flush d |}.
Definition set_flushes (n : Z) (c : option Z) (d : SimDisk) : SimDisk :=
  {| _live := _live d; _durable := _durable d; _pos := _pos d; _closed := _closed d;
     _flush_count := n; _crash_at_flush := c |}.

Definition zlen {A} (l : list A) : Z := Z.of_nat (length l).

(** [b"\x00" * n] *)
Definition zeros (n : Z) : bytes := replicate (Z.to_nat n) Byte.x00.

Module disk.

Definition seek (offset whence : Z) : St SimDisk Z :=
  d ← get_st;
  if whence =? SEEK_SET then modify (set_pos offset) ;; mret offset
  else if whence =? SEEK_END then
    modify (set_pos (zlen (_live d) + offset)) ;; mret (zlen (_live d) + offset)
  else if whence =? SEEK_CUR then
    modify (set_pos (_pos d + offset)) ;; mret (_pos d + offset)
  else raise ValueError.

Definition tell : St SimDisk Z := gets _pos.

Definition read (size : option Z) : St SimDisk bytes :=
  d ← get_st;
  let whole := zlen (_live d) in
  let end_ := match size with
              | None => whole
              | Some n => if n <? 0 then whole else Z.min (_pos d + n) whole
              end in
  modify (set_pos end_) ;;
  mret (py_slice (_live d) (_pos d) end_).

(** [self._live[self._pos:end] = data] on a [bytearray]. *)
Definition splice (l : bytes) (i j : Z) (data : bytes) : bytes :=
  py_upto l i ++ data ++ py_from l (Z.max i j).

Definition write (data : bytes) : St SimDisk Z :=
  d ← get_st;
  let end_ := _pos d + zlen data in
  let live := if zlen (_live d) <? end_
              then _live d ++ zeros (end_ - zlen (_live d)) else _live d in
  modify (set_live (splice live (_pos d) end_ data)) ;;
  modify (set_pos end_) ;;
  mret (zlen data).

Definition truncate (size : option Z) : St SimDisk Z :=
  d ← get_st;
  let n := match size with None => _pos d | Some n => n end in
  (if n <? zlen (_live d) then modify (set_live (py_upto (_live d) n))
   else if zlen (_live d) <? n then
     modify (set_live (_live d ++ zeros (n - zlen (_live d))))
   else mret tt) ;;
  mret n.

Definition flush : St SimDisk unit :=
  d ← get_st;
  let n := _flush_count d + 1 in
  match _crash_at_flush d with
  | Some at_ =>
      if at_ <=? n then modify (set_flushes n None) ;; raise SimCrash
      else modify (set_flushes n (Some at_)) ;; modify (set_durable (_live d))
  | None => modify (set_flushes n None) ;; modify (set_durable (_live d))
  end.

Definition close : St SimDisk unit := modify (set_closed true).

Definition arm_crash (after_flushes : Z) : St SimDisk unit :=
  d ← get_st;
  modify (set_flushes (_flush_count d) (Some (_flush_count d + after_flushes))).

Definition durable_bytes (d : SimDisk) : bytes := _durable d.

End disk.

(** * Facts about the file interface *)

Lemma zlen_nonneg {A} (l : list A) : 0 <= zlen l.
Proof. unfold zlen. lia. Qed.

Lemma zlen_app {A} (l1 l2 : list A) : zlen (l1 ++ l2) = zlen l1 + zlen l2.
Proof. unfold zlen. rewrite length_app. lia. Qed.

Lemma zlen_zeros n : 0 <= n -> zlen (zeros n) = n.
Proof. intros H. unfold zlen, zeros. rewrite length_replicate. lia. Qed.

#[export] Hint Resolve zlen_nonneg : immu.

(** Writing [data] at [pos] into the byte string [l] (zero-filled up to [pos]). *)
Definition write_at (l : bytes) (pos : Z) (data : bytes) : bytes :=
  let l' := if zlen l <? pos + zlen data then l ++ zeros (pos + zlen data - zlen l) else l in
  disk.splice l' pos (pos + zlen data) data.

Lemma disk_write_spec d data :
  disk.write data d =
    (set_pos (_pos d + zlen data) (set_live (write_at (_live d) (_pos d) data) d),
     Ok (zlen data)).
Proof. reflexivity. Qed.

Lemma splice_exact l1 old l2 data :
  zlen old = zlen data ->
  disk.splice (l1 ++ old ++ l2) (zlen l1) (zlen l1 + zlen data) data = l1 ++ data ++ l2.
Proof.
  intros H. unfold disk.splice. pose proof (zlen_nonneg data). unfold zlen in *.
  rewrite Z.max_r, py_upto_nat, py_from_nat by lia.
  rewrite take_app_exact by lia. f_equal. f_equal.
  rewrite app_assoc. apply drop_app_exact. rewrite length_app. lia.
Qed.

(** Overwriting bytes that exist changes exactly those bytes. *)
Lemma write_at_overwrite l1 old l2 data :
  zlen old = zlen data -> write_at (l1 ++ old ++ l2) (zlen l1) data = l1 ++ data ++ l2.
Proof.
  intros H. unfold write_at. pose proof (zlen_nonneg l2).
  rewrite !zlen_app. destruct (Z.ltb_spec (zlen l1 + (zlen old + zlen l2)) (zlen l1 + zlen data)); [lia|].
  by apply splice_exact.
Qed.

(** Writing at the end appends. *)
Lemma write_at_end l data : write_at l (zlen l) data = l ++ data.
Proof.
  unfold write_at. destruct (Z.ltb_spec (zlen l) (zlen l + zlen data)) as [H|H].
  - rewrite <- (app_nil_r (l ++ zeros _)), <- app_assoc, splice_exact, app_nil_r; [done|].
    rewrite zlen_zeros; lia.
  - assert (data = []) as ->.
    { unfold zlen in H. destruct data; simpl in *; [done|lia]. }
    rewrite app_nil_r. rewrite <- (app_nil_r l) at 1. rewrite <- (app_nil_r []) at 1.
    by rewrite splice_exact, !app_nil_r.
Qed.

(** Reading the middle segment of a file. *)
Lemma disk_read_middle d l1 l2 l3 :
  _live d = l1 ++ l2 ++ l3 -> _pos d = zlen l1 ->
  disk.read (Some (zlen l2)) d = (set_pos (zlen l1 + zlen l2) d, Ok l2).
Proof.
  intros Hl Hp. unfold disk.read. run.
  rewrite Hl, Hp, !zlen_app.
  pose proof (zlen_nonneg l1). pose proof (zlen_nonneg l2). pose proof (zlen_nonneg l3).
  rewrite (proj2 (Z.ltb_ge _ _)), Z.min_l by lia. f_equal. f_equal.
  rewrite py_slice_nat by lia. unfold zlen.
  rewrite drop_app_exact, take_app_exact by lia. done.
Qed.

(** A read never returns more than is there. *)
Lemma disk_read_result d n :
  0 <= _pos d -> 0 <= n ->
  disk.read (Some n) d =
    (set_pos (Z.min (_pos d + n) (zlen (_live d))) d,
     Ok (take (Z.to_nat n) (drop (Z.to_nat (_pos d)) (_live d)))).
Proof.
  intros Hp Hn. unfold disk.read. run.
  rewrite (proj2 (Z.ltb_ge _ _)) by lia. f_equal. f_equal.
  destruct (Z.le_gt_cases (_pos d + n) (zlen (_live d))) as [H|H].
  - rewrite Z.min_l, py_slice_nat by lia. do 2 f_equal. lia.
  - rewrite Z.min_r by lia. rewrite py_slice_from, py_from_nat by (unfold zlen; lia).
    rewrite take_ge; [done|]. rewrite length_drop. unfold zlen in *. lia.
Qed.
