(* ===== verification/Locking.v ===== *)
(** The write lock of a file handle: [src/imustore/locking.py].

    The [flock] call blocks until the handle owns the file's advisory lock; what
    the callers observe is the [locked] flag and whether [lock] took the lock. *)

From S2P Require Import Prelude PyBase.

Record FileLock : Type := mkFileLock { locked : bool }.

Definition FileLock_init : FileLock := {| locked := false |}.

Module filelock.

(** Returns [True] exactly when this call acquired the lock. *)
Definition lock : St FileLock bool :=
  l ← get_st;
  if locked l then mret false
  else put_st {| locked := true |} ;; mret true.

Definition unlock : St FileLock unit :=
  l ← get_st;
  if negb (locked l) then mret tt
  else put_st {| locked := false |}.

End filelock.
