(* ===== verification/FileLocks.v ===== *)
(** The file lock with the operating system behind it: [src/imustore/locking.py].

    [Locking] is what one handle sees of its lock.  Here are the lock object with
    all its attributes, the two ways it takes the lock ([flock] on POSIX, a
    sidecar file on Windows), and any number of handles in processes that open
    files, take and release the lock, and die.  [os.write] of a few bytes to a file
    just created does not fail. *)

From Stdlib Require Import Strings.Byte.
From S2P Require Import Prelude PyBase Struct Text Locking.

(** * The operating system *)

(** [os.name] *)
Inductive platform : Type := Posix | Windows.

#[global] Instance platform_eq_dec : EqDecision platform.
Proof. solve_decision. Defined.

(** A file object: its name, the file it is open on, the open file the operating
    system knows it by, and the number of its descriptor in its process, if it has
    one. *)
Record fileobj : Type := mkFileObj {
  fo_name : pystr;
  fo_inode : Z;
  fo_open : Z;
  fo_fileno : option Z
}.

(** [os.fdopen(fd)], as [_open_database_file] makes it: its [name] is the number of
    the descriptor, not the path. *)
Definition fdopen (inode opened fd : Z) : fileobj := mkFileObj (Byte.to_N <$> dec fd) inode opened (Some fd).

(** [SimDisk] *)
Definition simdisk_file (opened : Z) : fileobj := mkFileObj (str "<simdisk>") opened opened None.

(** Which open file holds the [flock] of each file, and the sidecar files there are. *)
Record OS : Type := mkOS {
  flocks : gmap Z Z;
  sidecars : gset pystr;
  next_fd : Z
}.

(** The lock object. *)
Record LockObject : Type := mkLockObject {
  _fileobj : fileobj;
  _sidecar_fd : option Z;
  _sidecar_path : option pystr;
  is_held : bool
}.

Module oslock.

(** [_descriptor(fileobj)]: [None] where [fileno] is not supported. *)
Definition _descriptor (f : fileobj) : option Z := fo_fileno f.

(** [fcntl.flock(fd, LOCK_EX)] on the file [inode], which is open as [i]; [None]
    while it blocks. *)
Definition flock_ex (inode i : Z) (o : OS) : option OS :=
  match flocks o !! inode with
  | Some j => if j =? i then Some o else None
  | None => Some (mkOS (<[inode := i]> (flocks o)) (sidecars o) (next_fd o))
  end.

(** [fcntl.flock(fd, LOCK_UN)] *)
Definition flock_un (inode i : Z) (o : OS) : OS :=
  if bool_decide (flocks o !! inode = Some i) then mkOS (delete inode (flocks o)) (sidecars o) (next_fd o) else o.

(** [os.open(path, O_CREAT | O_EXCL | O_RDWR)]; [None] for [FileExistsError]. *)
Definition open_excl (path : pystr) (o : OS) : option (OS * Z) :=
  if bool_decide (path ∈ sidecars o) then None
  else Some (mkOS (flocks o) ({[ path ]} ∪ sidecars o) (next_fd o + 1), next_fd o).

(** [os.remove(path)], a missing file being ignored *)
Definition remove (path : pystr) (o : OS) : OS := mkOS (flocks o) (sidecars o ∖ {[ path ]}) (next_fd o).

Definition sidecar_of (name : pystr) : pystr := name ++ str ".lock".

(** [FileLock(fileobj)] *)
Definition init (pf : platform) (f : fileobj) : LockObject :=
  mkLockObject f None (if bool_decide (pf = Windows) then Some (sidecar_of (fo_name f)) else None) false.

(** [lock()]: the result with the state after it, or [None] while the call waits:
    in [flock], or in the loop that tries to create the sidecar file again. *)
Definition lock (pf : platform) (l : LockObject) (o : OS) : option (LockObject * OS * bool) :=
  if is_held l then Some (l, o, false)
  else
    match pf with
    | Windows =>
        path ← _sidecar_path l;
        '(o, fd) ← open_excl path o;
        Some (mkLockObject (_fileobj l) (Some fd) (_sidecar_path l) true, o, true)
    | Posix =>
        o ← match _descriptor (_fileobj l) with
            | Some _ => flock_ex (fo_inode (_fileobj l)) (fo_open (_fileobj l)) o
            | None => Some o
            end;
        Some (mkLockObject (_fileobj l) (_sidecar_fd l) (_sidecar_path l) true, o, true)
    end.

(** [unlock()] *)
Definition unlock (pf : platform) (l : LockObject) (o : OS) : LockObject * OS :=
  if negb (is_held l) then (l, o)
  else
    match pf with
    | Windows =>
        (mkLockObject (_fileobj l) None (_sidecar_path l) false,
         match _sidecar_path l with Some path => remove path o | None => o end)
    | Posix =>
        (mkLockObject (_fileobj l) (_sidecar_fd l) (_sidecar_path l) false,
         match _descriptor (_fileobj l) with Some _ => flock_un (fo_inode (_fileobj l)) (fo_open (_fileobj l)) o | None => o end)
    end.

(** The end of the process that has the file open: its [flock] goes with the open
    file, a file it created stays. *)
Definition die (l : LockObject) (o : OS) : OS :=
  match _descriptor (_fileobj l) with Some _ => flock_un (fo_inode (_fileobj l)) (fo_open (_fileobj l)) o | None => o end.

End oslock.

(** ** One handle's view *)

(** What the storage sees of a lock object. *)
Definition view (l : LockObject) : FileLock := {| locked := is_held l |}.

(** A call that does not wait, and every release, is what [Locking] says. *)
Lemma lock_view pf l o l' o' b : oslock.lock pf l o = Some (l', o', b) -> filelock.lock (view l) = (view l', Ok b).
Proof.
  unfold oslock.lock, filelock.lock, view. destruct (is_held l) eqn:El; [intros [= <- <- <-]; simpl; by rewrite El|].
  destruct pf; cbn [mbind option_bind].
  - by destruct (match oslock._descriptor _ with Some _ => _ | None => _ end); intros [= <- <- <-].
  - destruct (_sidecar_path l); [|done]. cbn. by destruct (oslock.open_excl p o) as [[o1 fd]|]; intros [= <- <- <-].
Qed.

Lemma unlock_view pf l o : filelock.unlock (view l) = (view (oslock.unlock pf l o).1, Ok tt).
Proof.
  unfold oslock.unlock, filelock.unlock, view. destruct (is_held l) eqn:El; [|simpl; by rewrite El]. by destruct pf.
Qed.

(** * Handles in processes *)

(** The handles there are, by the open file they are on. *)
Record locks : Type := mkLocks {
  lw_os : OS;
  lw_handles : gmap Z LockObject
}.

Section world.
Context (pf : platform).

Inductive lock_step : locks -> locks -> Prop :=
| step_open w i f :
    lw_handles w !! i = None -> (exists inode fd, f = fdopen inode i fd) \/ f = simdisk_file i ->
    lock_step w (mkLocks (lw_os w) (<[i := oslock.init pf f]> (lw_handles w)))
| step_lock w i l l' o' b :
    lw_handles w !! i = Some l -> oslock.lock pf l (lw_os w) = Some (l', o', b) ->
    lock_step w (mkLocks o' (<[i := l']> (lw_handles w)))
| step_unlock w i l :
    lw_handles w !! i = Some l ->
    lock_step w (mkLocks (oslock.unlock pf l (lw_os w)).2 (<[i := (oslock.unlock pf l (lw_os w)).1]> (lw_handles w)))
| step_die w i l :
    lw_handles w !! i = Some l ->
    lock_step w (mkLocks (oslock.die l (lw_os w)) (delete i (lw_handles w))).

(** No process has opened anything; files of processes that died may be there. *)
Definition boot (files : gset pystr) (fd : Z) : locks := mkLocks (mkOS ∅ files fd) ∅.

Definition lock_reach (w : locks) : Prop := exists files fd, rtc lock_step (boot files fd) w.

End world.

(** * Invariants *)

(** The handle is on a real file. *)
Definition real (l : LockObject) : bool := if fo_fileno (_fileobj l) then true else false.

(** POSIX: a held lock is the [flock] of its file, and every [flock] is held. *)
Record posix_inv (w : locks) : Prop := {
  px_open i l : lw_handles w !! i = Some l -> fo_open (_fileobj l) = i;
  px_held i l : lw_handles w !! i = Some l -> is_held l = true -> real l = true -> flocks (lw_os w) !! fo_inode (_fileobj l) = Some i;
  px_flock x i : flocks (lw_os w) !! x = Some i ->
    exists l, lw_handles w !! i = Some l /\ is_held l = true /\ fo_inode (_fileobj l) = x /\ real l = true
}.

(** Windows: a held lock has its sidecar file, and only one handle of a name
    holds it. *)
Record windows_inv (w : locks) : Prop := {
  wd_path i l : lw_handles w !! i = Some l -> _sidecar_path l = Some (oslock.sidecar_of (fo_name (_fileobj l)));
  wd_held i l : lw_handles w !! i = Some l -> is_held l = true -> oslock.sidecar_of (fo_name (_fileobj l)) ∈ sidecars (lw_os w);
  wd_one i j l k : lw_handles w !! i = Some l -> lw_handles w !! j = Some k -> is_held l = true -> is_held k = true ->
    fo_name (_fileobj l) = fo_name (_fileobj k) -> i = j
}.

Lemma sidecar_inj a b : oslock.sidecar_of a = oslock.sidecar_of b -> a = b.
Proof. apply app_inv_tail. Qed.

(** Putting a handle in place: what it holds must agree with the [flock] table,
    and the table may only change at its file, in its favour. *)
Lemma posix_put w i l o :
  posix_inv w -> fo_open (_fileobj l) = i ->
  (real l = true -> is_held l = true -> flocks o !! fo_inode (_fileobj l) = Some i) ->
  (forall x j, flocks o !! x = Some j <-> (j <> i /\ flocks (lw_os w) !! x = Some j) \/
     (j = i /\ x = fo_inode (_fileobj l) /\ is_held l = true /\ real l = true)) ->
  posix_inv (mkLocks o (<[i := l]> (lw_handles w))).
Proof.
  intros [Hd Hh Hf] Hn Hl Ho. split; cbn [lw_os lw_handles].
  - intros j k [[<- <-]|[_ Hk]]%lookup_insert_Some; [done|by apply Hd].
  - intros j k [[<- <-]|[Hne Hk]]%lookup_insert_Some Hb Hj; [by apply Hl|]. apply Ho. left. split; [done|by apply Hh].
  - intros x j [[Hne Hx]|(-> & -> & Hb & Hj)]%Ho; [|exists l; by rewrite lookup_insert_eq].
    destruct (Hf x j Hx) as (k & Hk & Hr). exists k. by rewrite lookup_insert_ne.
Qed.

Lemma posix_gone w i l o : posix_inv w -> lw_handles w !! i = Some l ->
  (forall x j, flocks o !! x = Some j <-> j <> i /\ flocks (lw_os w) !! x = Some j) ->
  posix_inv (mkLocks o (delete i (lw_handles w))).
Proof.
  intros [Hd Hh Hf] Hi Ho. split; cbn [lw_os lw_handles].
  - intros j k [_ Hk]%lookup_delete_Some. by apply Hd.
  - intros j k [Hne Hk]%lookup_delete_Some Hb Hj. apply Ho. split; [done|by apply Hh].
  - intros x j [Hne Hx]%Ho. destruct (Hf x j Hx) as (k & Hk & Hr). exists k. by rewrite lookup_delete_ne.
Qed.

(** The handle [l], open as [i], lets go of its file. *)
Lemma flock_un_spec w i l x j : posix_inv w -> lw_handles w !! i = Some l ->
  flocks (oslock.flock_un (fo_inode (_fileobj l)) i (lw_os w)) !! x = Some j <-> j <> i /\ flocks (lw_os w) !! x = Some j.
Proof.
  intros [Hd Hh Hf] Hi. unfold oslock.flock_un. case_bool_decide as E; cbn [flocks].
  - rewrite lookup_delete_Some. split; intros [Hne Hx]; (split; [|done]); [intros ->|intros <-; congruence].
    destruct (Hf x i Hx) as (k & Hk & _ & Hin & _). simplify_eq.
  - split; [|by intros [_ ?]]. intros Hx. split; [|done]. intros ->. destruct (Hf x i Hx) as (k & Hk & _ & Hin & _). simplify_eq.
Qed.

(** A simulated disk, or a handle that does not hold its lock, has no [flock]. *)
Lemma no_flock w i l x j : posix_inv w -> lw_handles w !! i = Some l -> is_held l = false \/ real l = false ->
  flocks (lw_os w) !! x = Some j -> j <> i.
Proof. intros [_ _ Hf] Hi Hno Hx ->. destruct (Hf x i Hx) as (k & Hk & Hb & _ & Hfd). simplify_eq. destruct Hno; congruence. Qed.

Lemma posix_lock w i l l' o b : posix_inv w -> lw_handles w !! i = Some l -> oslock.lock Posix l (lw_os w) = Some (l', o, b) ->
  posix_inv (mkLocks o (<[i := l']> (lw_handles w))).
Proof.
  intros Hw Hi. pose proof (px_open w Hw i l Hi) as Hn. unfold oslock.lock, oslock._descriptor. destruct (is_held l) eqn:El.
  { intros [= <- <- <-]. rewrite insert_id by done. by destruct w. }
  pose proof (fun x j => no_flock w i l x j Hw Hi (or_introl El)) as Hno.
  destruct (fo_fileno (_fileobj l)) as [fd|] eqn:E; cbn [mbind option_bind].
  - unfold oslock.flock_ex. rewrite Hn. destruct (flocks (lw_os w) !! fo_inode (_fileobj l)) as [j|] eqn:Ef.
    { destruct (Z.eqb_spec j i) as [->|]; [|done]. by destruct (Hno _ _ Ef). }
    intros [= <- <- <-]. apply posix_put; [done|done|by cbn; rewrite lookup_insert_eq|].
    intros x j. cbn [flocks _fileobj is_held]. unfold real. cbn [_fileobj]. rewrite E, lookup_insert_Some. split.
    + intros [[<- <-]|[Hne Hx]]; [by right|left]. split; [by eapply Hno|done].
    + intros [[Hne Hx]|(-> & -> & _)]; [|by left]. right. split; [|done]. congruence.
  - intros [= <- <- <-]. apply posix_put; [done|done|unfold real; cbn [_fileobj]; by rewrite E|].
    intros x j. unfold real. cbn [_fileobj]. rewrite E. split; [intros Hx; left; split; [by eapply Hno|done]|]. intros [[_ ?]|(_ & _ & _ & ?)]; done.
Qed.

Lemma posix_unlock w i l : posix_inv w -> lw_handles w !! i = Some l ->
  posix_inv (mkLocks (oslock.unlock Posix l (lw_os w)).2 (<[i := (oslock.unlock Posix l (lw_os w)).1]> (lw_handles w))).
Proof.
  intros Hw Hi. pose proof (px_open w Hw i l Hi) as Hn. unfold oslock.unlock, oslock._descriptor. destruct (is_held l) eqn:El; cbn [negb fst snd].
  2:{ rewrite insert_id by done. by destruct w. }
  destruct (fo_fileno (_fileobj l)) as [fd|] eqn:E.
  - apply posix_put; [done|done|done|]. intros x j. cbn [_fileobj is_held]. rewrite Hn, (flock_un_spec w i l) by done.
    split; [by left|]. by intros [?|(_ & _ & ? & _)].
  - apply posix_put; [done|done|done|]. intros x j. cbn [_fileobj is_held].
    split; [intros Hx; left; split; [eapply no_flock; [done|done| |done]; right; unfold real; by rewrite E|done]|]. intros [[_ ?]|(_ & _ & ? & _)]; done.
Qed.

Lemma posix_step w w' : lock_step Posix w w' -> posix_inv w -> posix_inv w'.
Proof.
  intros Hs Hw. destruct Hs as [w i f Hi Hf|w i l l' o' b Hi El|w i l Hi|w i l Hi].
  - apply posix_put; [done|by destruct Hf as [(inode & fd & ->)| ->]|done|]; cbn.
    intros x j. split; [|by intros [[_ ?]|(_ & _ & ? & _)]]. intros Hx. left. split; [|done].
    intros ->. destruct (px_flock w Hw _ _ Hx) as (k & Hk & _). congruence.
  - by eapply posix_lock.
  - by apply posix_unlock.
  - apply (posix_gone w i l); [done|done|]. intros x j. unfold oslock.die, oslock._descriptor. rewrite (px_open w Hw i l Hi).
    destruct (fo_fileno (_fileobj l)) as [fd|] eqn:E; [by apply flock_un_spec|].
    split; [|by intros [_ ?]]. intros Hx. split; [|done]. eapply no_flock; [done|done| |done]. right. unfold real. by rewrite E.
Qed.

Lemma windows_put w i l o :
  windows_inv w -> _sidecar_path l = Some (oslock.sidecar_of (fo_name (_fileobj l))) ->
  (is_held l = true -> oslock.sidecar_of (fo_name (_fileobj l)) ∈ sidecars o) ->
  (forall j k, j <> i -> lw_handles w !! j = Some k -> is_held k = true ->
     oslock.sidecar_of (fo_name (_fileobj k)) ∈ sidecars o /\ (is_held l = true -> fo_name (_fileobj k) <> fo_name (_fileobj l))) ->
  windows_inv (mkLocks o (<[i := l]> (lw_handles w))).
Proof.
  intros [Hp Hh Ho] Hl Hs Hk. split; cbn [lw_os lw_handles].
  - intros j k [[<- <-]|[_ Hj]]%lookup_insert_Some; [done|by eapply Hp].
  - intros j k [[<- <-]|[Hne Hj]]%lookup_insert_Some Hb; [by apply Hs|]. by apply (Hk j k).
  - intros a b x y [[<- <-]|[Ha Hx]]%lookup_insert_Some [[<- <-]|[Hb Hy]]%lookup_insert_Some Hbx Hby Hn; [done|..].
    + destruct (Hk b y ltac:(done) Hy Hby) as [_ Hd]. by destruct Hd.
    + destruct (Hk a x ltac:(done) Hx Hbx) as [_ Hd]. by destruct Hd.
    + by eapply Ho.
Qed.

Lemma windows_step w w' : lock_step Windows w w' -> windows_inv w -> windows_inv w'.
Proof.
  intros Hs Hw. pose proof Hw as [Hp Hh Ho]. destruct Hs as [w i f Hi Hf|w i l l' o' b Hi El|w i l Hi|w i l Hi].
  - apply windows_put; [done|reflexivity|done|]. intros j k _ Hk Hb. split; [by eapply Hh|done].
  - revert El. unfold oslock.lock. destruct (is_held l) eqn:El; [intros [= <- <- <-]; rewrite insert_id by done; by destruct w|].
    rewrite (Hp i l Hi). cbn [mbind option_bind]. unfold oslock.open_excl. case_bool_decide as Hx; [done|]. intros [= <- <- <-].
    apply windows_put; cbn [_sidecar_path _fileobj is_held sidecars]; [done|done|set_solver|].
    intros j k _ Hk Hb. pose proof (Hh j k Hk Hb) as Hin. split; [set_solver|]. intros _ Hn. rewrite Hn in Hin. done.
  - unfold oslock.unlock. destruct (is_held l) eqn:El; cbn [negb fst snd]; [|rewrite insert_id by done; by destruct w].
    rewrite (Hp i l Hi). apply windows_put; cbn [_sidecar_path _fileobj is_held]; [done|done|done|].
    intros j k Hne Hk Hb. split; [|done]. pose proof (Hh j k Hk Hb) as Hin. apply elem_of_difference. split; [done|].
    rewrite elem_of_singleton. intros Hn%sidecar_inj. apply Hne. by eapply Ho.
  - split; cbn [lw_os lw_handles].
    + intros j k [_ Hj]%lookup_delete_Some. by eapply Hp.
    + intros j k [_ Hj]%lookup_delete_Some Hb. unfold oslock.die, oslock.flock_un. pose proof (Hh j k Hj Hb). by repeat case_match.
    + intros a b x y [_ Hx]%lookup_delete_Some [_ Hy]%lookup_delete_Some. by apply Ho.
Qed.

(** * Mutual exclusion *)

Definition lock_inv (pf : platform) (w : locks) : Prop := match pf with Posix => posix_inv w | Windows => windows_inv w end.

(** What every step keeps, every run keeps. *)
Lemma rtc_keeps {A} (R : A -> A -> Prop) (P : A -> Prop) x y : (forall a b, R a b -> P a -> P b) -> rtc R x y -> P x -> P y.
Proof. intros Hk. induction 1; eauto. Qed.

Lemma lock_step_inv pf w w' : lock_step pf w w' -> lock_inv pf w -> lock_inv pf w'.
Proof. destruct pf; [apply posix_step|apply windows_step]. Qed.

Lemma lock_reach_inv pf w : lock_reach pf w -> lock_inv pf w.
Proof.
  intros (files & fd & Hr). eapply rtc_keeps; [apply lock_step_inv|exact Hr|]. destruct pf; split; cbn; intros; simplify_map_eq.
Qed.

(** Windows: two handles of one file, each of which took the lock. *)
Definition both_hold (w : locks) : Prop := exists i j l k, i <> j /\ lw_handles w !! i = Some l /\ lw_handles w !! j = Some k /\
  fo_inode (_fileobj l) = fo_inode (_fileobj k) /\ real l = true /\ real k = true /\ is_held l = true /\ is_held k = true.

(** Two handles of a file, open under the descriptors 3 and 4, that both hold the lock. *)
Definition windows_pair : locks :=
  mkLocks (mkOS ∅ ({[ str "4.lock" ]} ∪ ({[ str "3.lock" ]} ∪ ∅)) 102)
    (<[2 := mkLockObject (fdopen 7 2 4) (Some 101) (Some (str "4.lock")) true]>
     {[ 1 := mkLockObject (fdopen 7 1 3) (Some 100) (Some (str "3.lock")) true ]}).

Lemma windows_pair_reached : lock_reach Windows windows_pair.
Proof.
  exists ∅, 100. eapply rtc_l; [apply (step_open Windows _ 1 (fdopen 7 1 3)); [done|left; by eexists _, _]|].
  eapply rtc_l; [eapply (step_lock Windows _ 1); [apply lookup_insert_eq|vm_compute; reflexivity]|].
  eapply rtc_l; [apply (step_open Windows _ 2 (fdopen 7 2 4)); [done|left; by eexists _, _]|].
  eapply rtc_l; [eapply (step_lock Windows _ 2); [apply lookup_insert_eq|vm_compute; reflexivity]|].
  cbn [lw_os lw_handles boot]. rewrite !insert_insert_eq. apply rtc_refl.
Qed.

(** C20: on POSIX two handles never hold the write lock of one file at the same
    time; on Windows they can.  However processes open files, take and release
    their locks and die: on POSIX at most one live handle of a file holds the lock,
    and a call of [lock] waits only while another live handle of the file holds it,
    so the death of a holder frees it.  On Windows the lock is a sidecar file named
    after the file object, at most one live handle holds each sidecar; but the
    program's file objects are named by their descriptors, so two handles of one
    file may both hold the lock. *)
Theorem file_lock_excludes :
  (forall w i j l k, lock_reach Posix w -> lw_handles w !! i = Some l -> lw_handles w !! j = Some k ->
     is_held l = true -> is_held k = true -> real l = true -> real k = true -> fo_inode (_fileobj l) = fo_inode (_fileobj k) -> i = j) /\
  (forall w i l, lock_reach Posix w -> lw_handles w !! i = Some l -> oslock.lock Posix l (lw_os w) = None ->
     exists j k, j <> i /\ lw_handles w !! j = Some k /\ is_held k = true /\ real k = true /\ fo_inode (_fileobj k) = fo_inode (_fileobj l)) /\
  (forall w i j l k, lock_reach Windows w -> lw_handles w !! i = Some l -> lw_handles w !! j = Some k ->
     is_held l = true -> is_held k = true -> _sidecar_path l = _sidecar_path k -> i = j) /\
  (exists w, lock_reach Windows w /\ both_hold w).
Proof.
  split_and!.
  - intros w i j l k Hr%lock_reach_inv Hi Hj Hl Hk Rl Rk Hin.
    pose proof (px_held w Hr i l Hi Hl Rl) as F1. pose proof (px_held w Hr j k Hj Hk Rk) as F2. congruence.
  - intros w i l Hr%lock_reach_inv Hi Hnone. unfold oslock.lock, oslock._descriptor in Hnone. destruct (is_held l) eqn:El; [done|].
    destruct (fo_fileno (_fileobj l)); [|done]. rewrite (px_open w Hr i l Hi) in Hnone. unfold oslock.flock_ex in Hnone.
    destruct (flocks (lw_os w) !! fo_inode (_fileobj l)) as [j|] eqn:Ef; [|done].
    destruct (px_flock w Hr _ j Ef) as (k & Hk & Hb & Hin & Hfd). exists j, k. split_and!; [intros ->; congruence|done..].
  - intros w i j l k Hr%lock_reach_inv Hi Hj Hl Hk Hp. eapply (wd_one w Hr); try done.
    apply sidecar_inj. pose proof (wd_path w Hr i l Hi). pose proof (wd_path w Hr j k Hj). congruence.
  - exists windows_pair. split; [exact windows_pair_reached|]. eexists 1, 2, _, _. split; [done|].
    split; [vm_compute; reflexivity|]. split; [vm_compute; reflexivity|]. done.
Qed.

(** ** The sidecar of a holder that died *)

(** The sidecar file is there and no live handle of the name holds the lock. *)
Definition orphaned (name : pystr) (w : locks) : Prop :=
  oslock.sidecar_of name ∈ sidecars (lw_os w) /\
  forall i l, lw_handles w !! i = Some l -> fo_name (_fileobj l) = name -> is_held l = false.

Lemma orphaned_step name w w' : lock_step Windows w w' -> windows_inv w -> orphaned name w -> orphaned name w'.
Proof.
  intros Hs Hw [Ho Hn]. destruct Hs as [w i f Hi Hf|w i l l' o' b Hi El|w i l Hi|w i l Hi]; unfold orphaned; cbn [lw_os lw_handles].
  - split; [done|]. intros j k [[_ <-]|[_ Hj]]%lookup_insert_Some Hk; [done|by eapply Hn].
  - revert El. unfold oslock.lock. destruct (is_held l) eqn:El; [intros [= <- <- <-]; rewrite insert_id by done; by destruct w|].
    rewrite (wd_path w Hw i l Hi). cbn [mbind option_bind]. unfold oslock.open_excl. case_bool_decide as Hx; [done|]. intros [= <- <- <-].
    split; [cbn; set_solver|]. intros j k [[_ <-]|[_ Hj]]%lookup_insert_Some Hk; [|by eapply Hn]. cbn in Hk. by rewrite Hk in Hx.
  - unfold oslock.unlock. destruct (is_held l) eqn:El; cbn [negb fst snd]; [|rewrite insert_id by done; by destruct w].
    rewrite (wd_path w Hw i l Hi). split; cbn [sidecars oslock.remove].
    + apply elem_of_difference. split; [done|]. rewrite elem_of_singleton. intros E%sidecar_inj. pose proof (Hn i l Hi (eq_sym E)). congruence.
    + intros j k [[_ <-]|[_ Hj]]%lookup_insert_Some Hk; [done|by eapply Hn].
  - split; [unfold oslock.die, oslock.flock_un; by repeat case_match|]. intros j k [_ Hj]%lookup_delete_Some. by eapply Hn.
Qed.

(** On Windows a process that dies with the lock leaves its sidecar file, and
    whatever the processes after it do, no call of [lock] on that name returns. *)
Theorem dead_holder_blocks_windows w w' i l j k : lock_reach Windows w ->
  lw_handles w !! i = Some l -> is_held l = true ->
  rtc (lock_step Windows) (mkLocks (oslock.die l (lw_os w)) (delete i (lw_handles w))) w' ->
  lw_handles w' !! j = Some k -> fo_name (_fileobj k) = fo_name (_fileobj l) -> oslock.lock Windows k (lw_os w') = None.
Proof.
  intros Hr%lock_reach_inv Hi Hl Hsteps Hj Hname. set (name := fo_name (_fileobj l)) in *.
  assert (windows_inv w' /\ orphaned name w') as [Hw' [Hin Hno]].
  { eapply (rtc_keeps (lock_step Windows) (fun w => windows_inv w /\ orphaned name w)); [|exact Hsteps|].
    - intros a b Hs [Ha Hoa]. split; [by eapply windows_step|by eapply orphaned_step].
    - split; [eapply windows_step; [by constructor|done]|]. split; cbn [lw_os lw_handles].
      + pose proof (wd_held w Hr i l Hi Hl). unfold oslock.die, oslock.flock_un. by repeat case_match.
      + intros a x [Hne Ha]%lookup_delete_Some Hx. destruct (is_held x) eqn:E; [|done]. destruct Hne. by eapply (wd_one w Hr). }
  unfold oslock.lock. rewrite (Hno j k Hj Hname), (wd_path w' Hw' j k Hj), Hname. cbn [mbind option_bind].
  unfold oslock.open_excl. by rewrite bool_decide_eq_true_2.
Qed.

(** * Witness *)

(** Two processes open a file, the first takes the lock: the second waits. *)
Definition two_handles : locks :=
  mkLocks (mkOS {[ 7 := 1 ]} ∅ 100)
    (<[2 := oslock.init Posix (fdopen 7 2 3)]> {[ 1 := mkLockObject (fdopen 7 1 3) None None true ]}).

Lemma two_handles_reached : lock_reach Posix two_handles.
Proof.
  exists ∅, 100. eapply rtc_l; [apply (step_open Posix _ 1 (fdopen 7 1 3)); [done|left; by eexists _, _]|].
  eapply rtc_l; [eapply (step_lock Posix _ 1); [apply lookup_insert_eq|reflexivity]|].
  eapply rtc_l; [apply (step_open Posix _ 2 (fdopen 7 2 3)); [done|left; by eexists _, _]|].
  unfold two_handles. cbn [lw_os lw_handles boot]. rewrite insert_insert_eq. apply rtc_refl.
Qed.

Lemma file_lock_excludes_witness :
  (exists j k, j <> 2 /\ lw_handles two_handles !! j = Some k /\ is_held k = true /\ real k = true /\ fo_inode (_fileobj k) = 7) /\
  exists w, lock_reach Windows w /\ both_hold w.
Proof.
  destruct file_lock_excludes as (_ & Hwait & _ & Hboth). split; [|exact Hboth].
  apply (Hwait two_handles 2 (oslock.init Posix (fdopen 7 2 3)) two_handles_reached); [reflexivity|by vm_compute].
Defined.
