(* ===== verification/Physical.v ===== *)
(** Append-only record storage with double-buffered meta blocks:
    [src/imustore/physical.py]. *)

From S2P Require Import Prelude PyBase Struct SimDisk Locking.

(** * Layout constants *)

Definition MAGIC : bytes := map (fun c => byte_of_Z (Z.of_N c)) (str "IMMU").
Definition FORMAT_VERSION : Z := 2.
Definition META_SLOT_SIZE : Z := 4096.
Definition META_SLOTS : Z := 2.
Definition SUPERBLOCK_SIZE : Z := META_SLOT_SIZE * META_SLOTS.
Definition META_BODY_BYTES : Z := 40.
Definition META_CRC_BYTES : Z := 4.
Definition RECORD_HEADER_BYTES : Z := 8.

Definition DURABILITY_FULL : pystr := str "full".
Definition DURABILITY_NONE : pystr := str "none".
Definition DURABILITY_MODES : list pystr := [DURABILITY_FULL; DURABILITY_NONE].

Record StorageStats : Set := mkStorageStats {
  st_file_size : Z;
  st_root_address : Z;
  st_record_count : Z;
  st_key_count : Z;
  st_txn_id : Z
}.

Record _Meta : Type := mkMeta {
  txn_id : Z;
  root_address : Z;
  key_count : Z;
  data_length : Z;
  slot : Z
}.

#[global] Instance Meta_eq_dec : EqDecision _Meta.
Proof. solve_decision. Defined.

Definition _crc (payload : bytes) : Z := Z.land (crc32 payload) 0xFFFFFFFF.

(** [struct.pack(META_BODY_FORMAT, MAGIC, FORMAT_VERSION, ...)] *)
Definition pack_meta_body (m : _Meta) : res bytes :=
  v ← pack_uint 4 FORMAT_VERSION;
  t ← pack_uint 8 (txn_id m);
  r ← pack_uint 8 (root_address m);
  k ← pack_uint 8 (key_count m);
  d ← pack_uint 8 (data_length m);
  mret (MAGIC ++ v ++ t ++ r ++ k ++ d).

(** [struct.unpack(META_BODY_FORMAT, body)] on the 40 bytes of a body. *)
Definition unpack_meta_body (b : bytes) : bytes * Z * Z * Z * Z * Z :=
  (take 4 b, be_decode (take 4 (drop 4 b)), be_decode (take 8 (drop 8 b)),
   be_decode (take 8 (drop 16 b)), be_decode (take 8 (drop 24 b)),
   be_decode (take 8 (drop 32 b))).

(** * The storage object *)

Record Storage : Type := mkStorage {
  _f : SimDisk;
  _lock : FileLock;
  _durability : pystr;
  _readonly : bool;
  _meta : option _Meta
}.

Definition set_f (f : SimDisk) (s : Storage) : Storage :=
  {| _f := f; _lock := _lock s; _durability := _durability s;
     _readonly := _readonly s; _meta := _meta s |}.
Definition set_lock (l : FileLock) (s : Storage) : Storage :=
  {| _f := _f s; _lock := l; _durability := _durability s;
     _readonly := _readonly s; _meta := _meta s |}.
Definition set_meta (m : option _Meta) (s : Storage) : Storage :=
  {| _f := _f s; _lock := _lock s; _durability := _durability s;
     _readonly := _readonly s; _meta := m |}.

Definition on_f {A} (m : St SimDisk A) : St Storage A := zoom _f set_f m.
Definition on_lock {A} (m : St FileLock A) : St Storage A := zoom _lock set_lock m.

Definition is_full (s : Storage) : bool := bool_decide (_durability s = DURABILITY_FULL).

Module storage.

Definition closed (s : Storage) : bool := _closed (_f s).
Definition is_locked (s : Storage) : bool := locked (_lock s).

Definition lock : St Storage bool := on_lock filelock.lock.
Definition unlock : St Storage unit := on_lock filelock.unlock.

(** [os.fsync] is skipped for a file object without descriptor. *)
Definition flush : St Storage unit := on_f disk.flush.

Definition _file_size : St Storage Z :=
  on_f (disk.seek 0 SEEK_END) ;; on_f disk.tell.

(** ** Meta blocks *)

Definition _read_slot (index : Z) : St Storage (option _Meta) :=
  on_f (disk.seek (index * META_SLOT_SIZE) SEEK_SET) ;;
  raw ← on_f (disk.read (Some (META_BODY_BYTES + META_CRC_BYTES)));
  if zlen raw <? META_BODY_BYTES + META_CRC_BYTES then mret None
  else
    let body := py_upto raw META_BODY_BYTES in
    let stored_crc := be_decode (py_from raw META_BODY_BYTES) in
    if negb (_crc body =? stored_crc) then mret None
    else
      let '(magic, version, txn, root, count, dlen) := unpack_meta_body body in
      if negb (bool_decide (magic = MAGIC)) then mret None
      else if negb (version =? FORMAT_VERSION) then
        raise (DatabaseCorruptionError (UnsupportedFormatVersion version))
      else mret (Some (mkMeta txn root count dlen index)).

(** [max(valid, key=lambda meta: meta.txn_id)]: the first of the largest. *)
Fixpoint max_by_txn (best : _Meta) (l : list _Meta) : _Meta :=
  match l with
  | [] => best
  | m :: l => max_by_txn (if txn_id best <? txn_id m then m else best) l
  end.

Definition _read_best_meta : St Storage _Meta :=
  candidates ← mapM_st _read_slot (map Z.of_nat (seq 0 (Z.to_nat META_SLOTS)));
  match omap id candidates with
  | [] => raise (DatabaseCorruptionError NoValidMetaSlot)
  | m :: l => mret (max_by_txn m l)
  end.

(** The 4096-byte block of a meta slot. *)
Definition meta_block (m : _Meta) : res bytes :=
  body ← pack_meta_body m;
  crc ← pack_uint 4 (_crc body);
  let block := body ++ crc in
  mret (block ++ zeros (META_SLOT_SIZE - zlen block)).

Definition _write_slot (index : Z) (meta : _Meta) : St Storage unit :=
  block ← lift_res (meta_block meta);
  on_f (disk.seek (index * META_SLOT_SIZE) SEEK_SET) ;;
  on_f (disk.write block) ;; mret tt.

Definition _init_meta : St Storage unit :=
  mapM_st (fun s => _write_slot s (mkMeta 0 0 0 SUPERBLOCK_SIZE s))
          (map Z.of_nat (seq 0 (Z.to_nat META_SLOTS))) ;;
  on_f (disk.truncate (Some SUPERBLOCK_SIZE)) ;;
  flush ;;
  modify (set_meta (Some (mkMeta 0 0 0 SUPERBLOCK_SIZE 0))).

Definition _ensure_meta : St Storage unit :=
  size ← _file_size;
  s ← get_st;
  if size <? SUPERBLOCK_SIZE then
    if _readonly s then modify (set_meta (Some (mkMeta 0 0 0 SUPERBLOCK_SIZE 0)))
    else _init_meta
  else if _readonly s then
    m ← _read_best_meta; modify (set_meta (Some m))
  else
    lock ;;
    try_finally
      (m ← _read_best_meta;
       modify (set_meta (Some m)) ;;
       size ← _file_size;
       if data_length m <? size then
         on_f (disk.truncate (Some (data_length m))) ;;
         if is_full s then flush else mret tt
       else mret tt)
      unlock.

(** [Storage(fileobj, durability=..., readonly=...)] *)
Definition init (fileobj : SimDisk) (durability : pystr) (readonly : bool) :
    Storage * res unit :=
  let s0 := {| _f := fileobj; _lock := FileLock_init; _durability := durability;
               _readonly := readonly; _meta := None |} in
  if bool_decide (durability ∈ DURABILITY_MODES) then _ensure_meta s0
  else (s0, Raise ValueError).

(** ** Committed pointers *)

Definition _reload_meta {A} (field : _Meta -> A) : St Storage A :=
  m ← _read_best_meta; modify (set_meta (Some m)) ;; mret (field m).
Definition get_root_address : St Storage Z := _reload_meta root_address.
Definition get_key_count : St Storage Z := _reload_meta key_count.
Definition get_txn_id : St Storage Z := _reload_meta txn_id.

(** [self._meta.<field>] *)
Definition cur_meta : St Storage _Meta :=
  s ← get_st; match _meta s with Some m => mret m | None => raise AttributeError end.

Definition commit_root_address (root count : Z) : St Storage unit :=
  s ← get_st;
  if _readonly s then raise ImmuStoreError
  else
    lock ;;
    (if is_full s then flush else mret tt) ;;
    m ← cur_meta;
    size ← _file_size;
    let new_meta := mkMeta (txn_id m + 1) root count size (1 - slot m) in
    _write_slot (slot new_meta) new_meta ;;
    (if is_full s then flush else mret tt) ;;
    modify (set_meta (Some new_meta)) ;;
    unlock.

(** ** Records *)

Definition write (payload : bytes) : St Storage Z :=
  s ← get_st;
  if _readonly s then raise ImmuStoreError
  else
    size ← _file_size;
    let address := Z.max size SUPERBLOCK_SIZE in
    on_f (disk.seek address SEEK_SET) ;;
    len ← lift_res (pack_uint 4 (zlen payload));
    crc ← lift_res (pack_uint 4 (_crc payload));
    on_f (disk.write (len ++ crc)) ;;
    on_f (disk.write payload) ;;
    mret address.

Definition read (address : Z) : St Storage bytes :=
  if address <=? 0 then raise (DatabaseCorruptionError InvalidRecordAddress)
  else
    on_f (disk.seek address SEEK_SET) ;;
    header ← on_f (disk.read (Some RECORD_HEADER_BYTES));
    if negb (zlen header =? RECORD_HEADER_BYTES) then
      raise (DatabaseCorruptionError (MissingRecordHeader address))
    else
      let length := be_decode (take 4 header) in
      let stored_crc := be_decode (drop 4 header) in
      payload ← on_f (disk.read (Some length));
      if negb (zlen payload =? length) then
        raise (DatabaseCorruptionError (TruncatedRecord address))
      else if negb (_crc payload =? stored_crc) then
        raise (DatabaseCorruptionError (RecordChecksumMismatch address))
      else mret payload.

(** The [while address < end] loop of [count_records]; each turn advances by at
    least a header, so the fuel [end] is more than enough. *)
Fixpoint count_loop (fuel : nat) (end_ address count : Z) : St Storage Z :=
  match fuel with
  | O => raise RecursionError
  | S fuel =>
      if address <? end_ then
        on_f (disk.seek address SEEK_SET) ;;
        header ← on_f (disk.read (Some RECORD_HEADER_BYTES));
        if negb (zlen header =? RECORD_HEADER_BYTES) then
          raise (DatabaseCorruptionError (TruncatedRecordHeader address))
        else
          count_loop fuel end_
            (address + (RECORD_HEADER_BYTES + be_decode (take 4 header))) (count + 1)
      else if negb (address =? end_) then
        raise (DatabaseCorruptionError RecordTableUnclean)
      else mret count
  end.

Definition count_records : St Storage Z :=
  end_ ← _file_size;
  count_loop (S (Z.to_nat end_)) end_ SUPERBLOCK_SIZE 0.

Definition stats : St Storage StorageStats :=
  m ← _read_best_meta;
  modify (set_meta (Some m)) ;;
  size ← _file_size;
  n ← count_records;
  mret (mkStorageStats size (root_address m) n (key_count m) (txn_id m)).

Definition close : St Storage unit :=
  s ← get_st;
  (if is_locked s then unlock else mret tt) ;;
  on_f disk.close.

End storage.
