(* ===== verification/PhysicalFacts.v ===== *)
(** What the storage operations do to the bytes of the file: each operation of
    [Physical.v] is related to a function on the file image, and the meta block
    and record formats are shown to round-trip. *)

From S2P Require Import Prelude PyBase Struct SimDisk Locking Physical.

(** * Functions of the file image *)

Definition live (s : Storage) : bytes := _live (_f s).

(** [s] with the file position moved: what a read leaves behind. *)
Definition at_pos (p : Z) (s : Storage) : Storage := set_f (set_pos p (_f s)) s.

Definition parse_slot (raw : bytes) (index : Z) : res (option _Meta) :=
  if zlen raw <? META_BODY_BYTES + META_CRC_BYTES then Ok None
  else
    let body := take 40 raw in
    if negb (_crc body =? be_decode (drop 40 raw)) then Ok None
    else
      let '(magic, version, txn, root, count, dlen) := unpack_meta_body body in
      if negb (bool_decide (magic = MAGIC)) then Ok None
      else if negb (version =? FORMAT_VERSION) then
        Raise (DatabaseCorruptionError (UnsupportedFormatVersion version))
      else Ok (Some (mkMeta txn root count dlen index)).

Definition slot_of (l : bytes) (i : Z) : res (option _Meta) :=
  parse_slot (take 44 (drop (Z.to_nat (i * META_SLOT_SIZE)) l)) i.

Definition pick_meta (candidates : list (option _Meta)) : res _Meta :=
  match omap id candidates with
  | [] => Raise (DatabaseCorruptionError NoValidMetaSlot)
  | m :: l => Ok (storage.max_by_txn m l)
  end.

Definition best_meta (l : bytes) : res _Meta :=
  c0 ← slot_of l 0; c1 ← slot_of l 1; pick_meta [c0; c1].

Definition record_at (l : bytes) (a : Z) : res bytes :=
  if a <=? 0 then Raise (DatabaseCorruptionError InvalidRecordAddress)
  else
    let header := take 8 (drop (Z.to_nat a) l) in
    if negb (zlen header =? RECORD_HEADER_BYTES) then
      Raise (DatabaseCorruptionError (MissingRecordHeader a))
    else
      let n := be_decode (take 4 header) in
      let payload := take (Z.to_nat n) (drop (Z.to_nat a + 8) l) in
      if negb (zlen payload =? n) then Raise (DatabaseCorruptionError (TruncatedRecord a))
      else if negb (_crc payload =? be_decode (drop 4 header)) then
        Raise (DatabaseCorruptionError (RecordChecksumMismatch a))
      else Ok payload.

(** * Reads only move the file position *)

Lemma at_pos_live p s : live (at_pos p s) = live s.
Proof. reflexivity. Qed.

Lemma at_pos_at_pos p q s : at_pos p (at_pos q s) = at_pos p s.
Proof. reflexivity. Qed.

(** [m] computes [f] of the image and leaves everything but the position alone. *)
Definition reads {A} (m : St Storage A) (f : bytes -> res A) : Prop :=
  forall s, exists p, m s = (at_pos p s, f (live s)).

Lemma reads_bind {A B} (m : St Storage A) f (k : A -> St Storage B) g :
  reads m f -> (forall a, reads (k a) (g a)) ->
  reads (a ← m; k a) (fun l => a ← f l; g a l).
Proof.
  intros Hm Hk s. destruct (Hm s) as [p Hp]. unfold mbind, stx_bind. rewrite Hp.
  destruct (f (live s)) as [a|e]; simpl; [|by exists p].
  destruct (Hk a (at_pos p s)) as [q Hq]. rewrite Hq, at_pos_at_pos. eauto.
Qed.

Lemma reads_ret {A} (a : A) : reads (mret a) (fun _ => Ok a).
Proof. intros s. exists (_pos (_f s)). by destruct s as [[] ????]. Qed.

Lemma reads_raise {A} e : reads (raise e : St Storage A) (fun _ => Raise e).
Proof. intros s. exists (_pos (_f s)). by destruct s as [[] ????]. Qed.

Lemma reads_ext {A} (m : St Storage A) f g : reads m f -> (forall l, f l = g l) -> reads m g.
Proof. intros H Hfg s. destruct (H s) as [p Hp]. exists p. by rewrite Hp, Hfg. Qed.

Lemma file_size_spec s : storage._file_size s = (at_pos (zlen (live s)) s, Ok (zlen (live s))).
Proof. unfold storage._file_size, on_f, disk.seek, disk.tell. run. simpl. by rewrite Z.add_0_r. Qed.

Lemma reads_file_size : reads storage._file_size (fun l => Ok (zlen l)).
Proof. intros s. exists (zlen (live s)). apply file_size_spec. Qed.

Lemma on_f_run {A} (m : St SimDisk A) s d r : m (_f s) = (d, r) -> on_f m s = (set_f d s, r).
Proof. intros H. unfold on_f, zoom. by rewrite H. Qed.

Lemma seek_spec a s : on_f (disk.seek a SEEK_SET) s = (at_pos a s, Ok a).
Proof. reflexivity. Qed.

(** A read at the current position, and where it leaves the file when it is full. *)
Lemma read_spec s n :
  0 <= _pos (_f s) -> 0 <= n ->
  let data := take (Z.to_nat n) (drop (Z.to_nat (_pos (_f s))) (live s)) in
  exists p, on_f (disk.read (Some n)) s = (at_pos p s, Ok data) /\
            (0 < n -> zlen data = n -> p = _pos (_f s) + n).
Proof.
  intros Hp Hn data. exists (Z.min (_pos (_f s) + n) (zlen (live s))). split.
  - apply on_f_run. by apply disk_read_result.
  - subst data. unfold zlen. rewrite length_take, length_drop. lia.
Qed.

Lemma seek_read_spec {B} s a n (k : bytes -> St Storage B) :
  0 <= a -> 0 <= n ->
  let data := take (Z.to_nat n) (drop (Z.to_nat a) (live s)) in
  exists p, (on_f (disk.seek a SEEK_SET) ;; b ← on_f (disk.read (Some n)); k b) s =
              k data (at_pos p s) /\
            (0 < n -> zlen data = n -> p = a + n).
Proof.
  intros Ha Hn data. erewrite stx_bind_ok by apply seek_spec.
  destruct (read_spec (at_pos a s) n) as (p & Hp & Hpos); [done..|].
  exists p. erewrite stx_bind_ok by exact Hp. done.
Qed.

Lemma read_slot_reads i : 0 <= i -> reads (storage._read_slot i) (fun l => slot_of l i).
Proof.
  intros Hi s. unfold storage._read_slot, slot_of, parse_slot.
  edestruct (seek_read_spec (B := option _Meta) s (i * META_SLOT_SIZE) (META_BODY_BYTES + META_CRC_BYTES)) as (p & Hp & _);
    [unfold META_SLOT_SIZE; lia|done|].
  exists p. rewrite Hp. clear Hp.
  change (Z.to_nat (META_BODY_BYTES + META_CRC_BYTES)) with 44%nat.
  set (raw := take 44 _).
  destruct (zlen raw <? META_BODY_BYTES + META_CRC_BYTES); [done|].
  rewrite py_upto_nat, py_from_nat by done. change (Z.to_nat META_BODY_BYTES) with 40%nat.
  destruct (_crc _ =? _); simpl; [|done].
  by repeat (case_match; [|try done]).
Qed.

Lemma read_best_meta_reads : reads storage._read_best_meta best_meta.
Proof.
  unfold storage._read_best_meta. change (map Z.of_nat (seq 0 (Z.to_nat META_SLOTS))) with [0; 1].
  intros s. unfold best_meta, pick_meta. cbn [mapM_st].
  destruct (read_slot_reads 0 ltac:(done) s) as [p0 H0].
  unfold mbind, stx_bind. rewrite H0. destruct (slot_of (live s) 0) as [c0|e]; [|by exists p0].
  destruct (read_slot_reads 1 ltac:(done) (at_pos p0 s)) as [p1 H1]. rewrite H1.
  rewrite at_pos_live, at_pos_at_pos.
  destruct (slot_of (live s) 1) as [c1|e]; simpl; [|by exists p1].
  exists p1. run. by repeat case_match.
Qed.

Lemma storage_read_reads a : reads (storage.read a) (fun l => record_at l a).
Proof.
  intros s. unfold storage.read, record_at. destruct (Z.leb_spec a 0); [apply reads_raise|].
  edestruct (seek_read_spec (B := bytes) s a RECORD_HEADER_BYTES) as (p & Hp & Hpos); [lia|done|].
  rewrite Hp. clear Hp. change (Z.to_nat RECORD_HEADER_BYTES) with 8%nat in *.
  set (header := take 8 _) in *.
  destruct (Z.eqb_spec (zlen header) RECORD_HEADER_BYTES) as [Hh|]; simpl; [|by exists p].
  rewrite (Hpos eq_refl Hh). clear Hpos.
  destruct (read_spec (at_pos (a + RECORD_HEADER_BYTES) s) (be_decode (take 4 header)))
    as (q & Hq & _); [unfold RECORD_HEADER_BYTES; simpl; lia|apply be_decode_range|].
  exists q. erewrite stx_bind_ok by exact Hq. rewrite at_pos_live, at_pos_at_pos. simpl.
  replace (Z.to_nat (a + RECORD_HEADER_BYTES)) with (Z.to_nat a + 8)%nat
    by (unfold RECORD_HEADER_BYTES; lia).
  case_match; [done|]. by case_match.
Qed.

(** * Meta blocks round-trip *)

Definition u64 (z : Z) : Prop := 0 <= z < 256 ^ 8.

Record meta_fits (m : _Meta) : Prop := {
  fits_txn : u64 (txn_id m);
  fits_root : u64 (root_address m);
  fits_count : u64 (key_count m);
  fits_length : u64 (data_length m)
}.

Definition with_slot (i : Z) (m : _Meta) : _Meta :=
  mkMeta (txn_id m) (root_address m) (key_count m) (data_length m) i.

Lemma crc_eq b : _crc b = crc32 b.
Proof.
  unfold _crc. change 0xFFFFFFFF with (Z.ones 32).
  rewrite Z.land_ones by done. apply Z.mod_small, crc32_range.
Qed.

Lemma crc_range b : 0 <= _crc b < 256 ^ 4.
Proof. rewrite crc_eq. apply crc32_range. Qed.

Lemma pack_meta_body_ok m :
  meta_fits m -> exists body, pack_meta_body m = Ok body /\ length body = 40%nat /\
    unpack_meta_body body =
      (MAGIC, FORMAT_VERSION, txn_id m, root_address m, key_count m, data_length m).
Proof.
  intros [Ht Hr Hk Hd]. unfold pack_meta_body.
  rewrite !pack_uint_in_range by (done || (cbv; split; [intros ?; discriminate|done])).
  eexists. split; [reflexivity|].
  set (v := be_encode 4 _). set (t := be_encode 8 (txn_id m)).
  set (r := be_encode 8 (root_address m)). set (k := be_encode 8 (key_count m)).
  set (d := be_encode 8 (data_length m)).
  assert (Hlm : length MAGIC = 4%nat) by reflexivity.
  assert (length v = 4%nat /\ length t = 8%nat /\ length r = 8%nat /\ length k = 8%nat /\
          length d = 8%nat) as (Hlv & Hlt & Hlr & Hlk & Hld)
    by (repeat split; apply length_be_encode).
  split; [rewrite !length_app; lia|]. unfold unpack_meta_body.
  rewrite (take_app_exact MAGIC) by lia.
  rewrite (drop_app_exact MAGIC), (take_app_exact v) by lia.
  rewrite !(app_assoc MAGIC v), (drop_app_exact (MAGIC ++ v)), (take_app_exact t)
    by (rewrite ?length_app; lia).
  rewrite !(app_assoc (MAGIC ++ v)), (drop_app_exact ((MAGIC ++ v) ++ t)), (take_app_exact r)
    by (rewrite ?length_app; lia).
  rewrite !(app_assoc ((MAGIC ++ v) ++ t)), (drop_app_exact (((MAGIC ++ v) ++ t) ++ r)),
    (take_app_exact k) by (rewrite ?length_app; lia).
  rewrite !(app_assoc (((MAGIC ++ v) ++ t) ++ r)),
    (drop_app_exact ((((MAGIC ++ v) ++ t) ++ r) ++ k)), (take_ge d)
    by (rewrite ?length_app; lia).
  unfold v, t, r, k, d. rewrite !be_decode_encode; try done.
Qed.

Lemma meta_block_ok m :
  meta_fits m -> exists block, storage.meta_block m = Ok block /\ zlen block = META_SLOT_SIZE /\
    forall i, parse_slot (take 44 block) i = Ok (Some (with_slot i m)).
Proof.
  intros Hm. destruct (pack_meta_body_ok m Hm) as (body & Hb & Hl & Hu).
  unfold storage.meta_block. rewrite Hb. run.
  rewrite (pack_uint_in_range 4) by apply crc_range.
  eexists. split; [reflexivity|].
  set (c := be_encode 4 _). assert (Hlc : length c = 4%nat) by apply length_be_encode.
  assert (zlen (body ++ c) = 44) as H44 by (unfold zlen; rewrite length_app; lia).
  split.
  { rewrite zlen_app, H44, zlen_zeros; done. }
  intros i. rewrite take_app_exact by (unfold zlen in H44; lia).
  unfold parse_slot. rewrite H44.
  change (44 <? META_BODY_BYTES + META_CRC_BYTES) with false. cbv iota zeta.
  rewrite take_app_exact, drop_app_exact by lia. unfold c.
  rewrite be_decode_encode, Z.eqb_refl, Hu by apply crc_range.
  by rewrite bool_decide_true by done.
Qed.

(** * Writes *)

Definition with_live (l : bytes) (p : Z) (s : Storage) : Storage :=
  set_f (set_pos p (set_live l (_f s))) s.

Lemma write_slot_spec s i m block :
  storage.meta_block m = Ok block ->
  storage._write_slot i m s =
    (with_live (write_at (live s) (i * META_SLOT_SIZE) block)
               (i * META_SLOT_SIZE + zlen block) s, Ok tt).
Proof.
  intros H. unfold storage._write_slot. rewrite H. reflexivity.
Qed.

(** A slot block inside a file that has a superblock. *)
Lemma superblock_split l i :
  i = 0 \/ i = 1 -> SUPERBLOCK_SIZE <= zlen l ->
  exists pre old post : bytes, l = pre ++ old ++ post /\
    zlen pre = i * META_SLOT_SIZE /\ zlen old = META_SLOT_SIZE.
Proof.
  intros Hi Hl. unfold SUPERBLOCK_SIZE, META_SLOTS, META_SLOT_SIZE, zlen in *.
  destruct (length_split_at l (Z.to_nat (i * 4096))) as (pre & rest & -> & Hpre); [lia|].
  rewrite length_app in Hl.
  destruct (length_split_at rest (Z.to_nat 4096)) as (old & post & -> & Hold); [lia|].
  exists pre, old, post. repeat split; lia.
Qed.

Section slot_write.
Context (l : bytes) (i : Z) (block : bytes).
Context (Hi : i = 0 \/ i = 1) (Hl : SUPERBLOCK_SIZE <= zlen l).
Context (Hb : zlen block = META_SLOT_SIZE).

Let l' := write_at l (i * META_SLOT_SIZE) block.

Lemma slot_write_split : exists pre old post : bytes, l = pre ++ old ++ post /\
  l' = pre ++ block ++ post /\ zlen pre = i * META_SLOT_SIZE /\ zlen old = META_SLOT_SIZE.
Proof.
  destruct (superblock_split l i Hi Hl) as (pre & old & post & Heq & Hpre & Hold).
  exists pre, old, post. repeat split; try done.
  unfold l'. rewrite Heq, <- Hpre. apply write_at_overwrite. congruence.
Qed.

Lemma slot_write_length : zlen l' = zlen l.
Proof.
  destruct slot_write_split as (pre & old & post & -> & -> & Hpre & Hold).
  rewrite !zlen_app. congruence.
Qed.

Lemma slot_write_same : slot_of l' i = parse_slot (take 44 block) i.
Proof.
  destruct slot_write_split as (pre & old & post & _ & -> & Hpre & Hold).
  unfold slot_of. rewrite drop_app_exact by (unfold zlen in *; lia).
  f_equal. apply take_app_le. unfold zlen, META_SLOT_SIZE in *. lia.
Qed.

Lemma slot_write_other j : j = 1 - i -> slot_of l' j = slot_of l j.
Proof.
  intros ->.
  destruct slot_write_split as (pre & old & post & -> & -> & Hpre & Hold).
  unfold slot_of, META_SLOT_SIZE, zlen in *. f_equal.
  destruct Hi as [-> | ->].
  - destruct pre; [|simpl in *; lia]. simpl app. f_equal.
    change (Z.to_nat ((1 - 0) * 4096)) with (Z.to_nat 4096).
    rewrite !drop_app_exact by lia. done.
  - change (Z.to_nat ((1 - 1) * 4096)) with 0%nat. rewrite !drop_0.
    rewrite !take_app_le by lia. done.
Qed.

Lemma slot_write_beyond n : SUPERBLOCK_SIZE <= Z.of_nat n -> drop n l' = drop n l.
Proof.
  intros Hn. destruct slot_write_split as (pre & old & post & -> & -> & Hpre & Hold).
  unfold SUPERBLOCK_SIZE, META_SLOTS, META_SLOT_SIZE, zlen in *.
  rewrite !drop_app_ge by lia. do 2 f_equal. lia.
Qed.

Lemma slot_write_record a : SUPERBLOCK_SIZE <= a -> record_at l' a = record_at l a.
Proof.
  intros Ha. unfold record_at.
  assert (0 < a) by (unfold SUPERBLOCK_SIZE, META_SLOT_SIZE, META_SLOTS in *; lia).
  by rewrite !slot_write_beyond by lia.
Qed.

End slot_write.

(** * Records *)

(** The bytes of a record. *)
Definition record_bytes (payload : bytes) : bytes :=
  be_encode 4 (zlen payload) ++ be_encode 4 (_crc payload) ++ payload.

Lemma record_bytes_length payload : zlen (record_bytes payload) = 8 + zlen payload.
Proof. unfold record_bytes, zlen. rewrite !length_app, !length_be_encode. lia. Qed.

Lemma record_at_end l payload rest :
  0 < zlen l -> zlen payload < 256 ^ 4 ->
  record_at (l ++ record_bytes payload ++ rest) (zlen l) = Ok payload.
Proof.
  intros Hl Hp. unfold record_at. destruct (Z.leb_spec (zlen l) 0); [lia|].
  assert (0 <= zlen payload) by apply zlen_nonneg.
  rewrite drop_app_exact by (unfold zlen; lia).
  unfold record_bytes. set (a := be_encode 4 (zlen payload)). set (c := be_encode 4 (_crc payload)).
  assert (length a = 4%nat /\ length c = 4%nat) as [Ha Hc] by (split; apply length_be_encode).
  rewrite (app_assoc a), <- !app_assoc, (app_assoc a), (take_app_exact (a ++ c))
    by (rewrite length_app; lia).
  replace (zlen (a ++ c)) with 8 by (unfold zlen; rewrite length_app; lia).
  change (negb (8 =? RECORD_HEADER_BYTES)) with false. cbv iota zeta.
  rewrite (take_app_exact a), (drop_app_exact a) by lia. unfold a, c.
  rewrite !be_decode_encode by (apply crc_range || lia).
  fold a c. match goal with |- context [drop _ ?x] =>
    replace x with ((l ++ a ++ c) ++ payload ++ rest) by (by rewrite <- !app_assoc) end.
  rewrite drop_app_exact by (rewrite !length_app; unfold zlen; lia).
  rewrite take_app_exact by (unfold zlen; lia).
  by rewrite !Z.eqb_refl.
Qed.

Lemma take_drop_app_within {A} (l r : list A) n a :
  length (take n (drop a l)) = n -> take n (drop a (l ++ r)) = take n (drop a l).
Proof.
  rewrite length_take, length_drop. intros H.
  destruct (decide (n = 0%nat)) as [->|]; [done|].
  rewrite drop_app_le by lia. apply take_app_le. rewrite length_drop. lia.
Qed.

(** Appending to the file keeps every readable record readable. *)
Lemma record_at_app l r a p : record_at l a = Ok p -> record_at (l ++ r) a = Ok p.
Proof.
  unfold record_at. destruct (a <=? 0); [done|].
  destruct (Z.eqb_spec (zlen (take 8 (drop (Z.to_nat a) l))) RECORD_HEADER_BYTES) as [Hh|];
    [|done].
  rewrite take_drop_app_within by (unfold zlen, RECORD_HEADER_BYTES in Hh; lia).
  rewrite Hh. simpl. set (n := be_decode _).
  destruct (Z.eqb_spec (zlen (take (Z.to_nat n) (drop (Z.to_nat a + 8) l))) n) as [Hn|]; [|done].
  rewrite take_drop_app_within by (unfold zlen in Hn; lia).
  by rewrite Hn, Z.eqb_refl.
Qed.

(** ... and truncating keeps every record that ends before the cut. *)
Lemma take_drop_take {A} (l : list A) n a m :
  (a + n <= m)%nat -> take n (drop a (take m l)) = take n (drop a l).
Proof. intros H. rewrite skipn_firstn_comm, take_take. f_equal. lia. Qed.

Lemma storage_write_spec s payload :
  _readonly s = false -> zlen payload < 256 ^ 4 -> SUPERBLOCK_SIZE <= zlen (live s) ->
  storage.write payload s =
    (with_live (live s ++ record_bytes payload) (zlen (live s) + zlen (record_bytes payload)) s,
     Ok (zlen (live s))).
Proof.
  intros Hro Hp Hl. pose proof (zlen_nonneg payload).
  unfold storage.write. erewrite stx_bind_ok by reflexivity. rewrite Hro.
  erewrite stx_bind_ok by apply file_size_spec. rewrite Z.max_l by done.
  erewrite stx_bind_ok by apply seek_spec.
  rewrite !pack_uint_in_range by (apply crc_range || lia).
  do 2 (erewrite stx_bind_ok by reflexivity).
  erewrite stx_bind_ok by (apply on_f_run, disk_write_spec).
  erewrite stx_bind_ok by (apply on_f_run, disk_write_spec).
  rewrite stx_ret_eq. unfold with_live, record_bytes. f_equal.
  set (h := be_encode 4 _ ++ be_encode 4 _). cbn -[h write_at].
  change (_live (_f s)) with (live s).
  rewrite write_at_end. rewrite <- zlen_app, write_at_end.
  unfold set_f, set_pos, set_live; cbn -[h]. f_equal. f_equal.
  - unfold h. by rewrite <- !app_assoc.
  - unfold h. rewrite !zlen_app. lia.
Qed.
