(* ===== verification/Recovery.v ===== *)
(** Commit, crash and reopen: the shadow-paging discipline of
    [src/imustore/physical.py] keeps a committed image on disk at every point
    where the machine can lose power. *)

From S2P Require Import Prelude PyBase Struct SimDisk Locking Physical PhysicalFacts.

(** * Choosing the meta block *)

Lemma parse_slot_index raw i m : parse_slot raw i = Ok (Some m) -> slot m = i.
Proof.
  unfold parse_slot. intros H.
  repeat (case_match; try discriminate; simplify_eq/=); done.
Qed.

Lemma slot_of_index l i m : slot_of l i = Ok (Some m) -> slot m = i.
Proof. apply parse_slot_index. Qed.

Lemma best_meta_inv l m :
  best_meta l = Ok m ->
  (slot m = 0 \/ slot m = 1) /\ slot_of l (slot m) = Ok (Some m) /\
  exists c, slot_of l (1 - slot m) = Ok c.
Proof.
  unfold best_meta, pick_meta. intros H.
  apply result_bind_inv in H as (c0 & H0 & H). apply result_bind_inv in H as (c1 & H1 & H).
  assert (Hin : (c0 = Some m \/ c1 = Some m)).
  { destruct c0 as [m0|], c1 as [m1|]; cbn in H; res_inv; auto. case_match; auto. }
  destruct Hin as [-> | ->].
  - apply slot_of_index in H0 as E. rewrite E. change (1 - 0) with 1. eauto.
  - apply slot_of_index in H1 as E. rewrite E. change (1 - 1) with 0. eauto.
Qed.

Lemma best_meta_intro l m c :
  slot m = 0 \/ slot m = 1 -> slot_of l (slot m) = Ok (Some m) ->
  slot_of l (1 - slot m) = Ok c -> (forall m', c = Some m' -> txn_id m' < txn_id m) ->
  best_meta l = Ok m.
Proof.
  intros Hs Hm Hc Hlt. unfold best_meta, pick_meta.
  destruct Hs as [E|E]; rewrite E in Hm, Hc;
    [change (1 - 0) with 1 in Hc|change (1 - 1) with 0 in Hc];
    rewrite Hm, Hc; destruct c as [m'|]; try done; cbn; specialize (Hlt m' eq_refl).
  - by rewrite (proj2 (Z.ltb_ge _ _)) by lia.
  - by rewrite (proj2 (Z.ltb_lt _ _)) by lia.
Qed.

(** Only the superblock matters to the choice. *)
Lemma slot_of_prefix l l' i :
  i = 0 \/ i = 1 -> take (Z.to_nat SUPERBLOCK_SIZE) l = take (Z.to_nat SUPERBLOCK_SIZE) l' ->
  slot_of l i = slot_of l' i.
Proof.
  intros Hi H. unfold slot_of, SUPERBLOCK_SIZE, META_SLOT_SIZE, META_SLOTS in *. f_equal.
  rewrite <- (take_drop_take l _ _ (Z.to_nat (4096 * 2))), H, take_drop_take; [done|lia..].
Qed.

Lemma best_meta_prefix l l' :
  take (Z.to_nat SUPERBLOCK_SIZE) l = take (Z.to_nat SUPERBLOCK_SIZE) l' ->
  best_meta l = best_meta l'.
Proof.
  intros H. unfold best_meta.
  by rewrite (slot_of_prefix l l' 0), (slot_of_prefix l l' 1) by auto.
Qed.

(** * Images *)

(** [l] is a file image whose last commit is [m]; bytes past the committed
    length may be anything. *)
Record recoverable (l : bytes) (m : _Meta) : Prop := {
  rec_best : best_meta l = Ok m;
  rec_fits : meta_fits m;
  rec_low : SUPERBLOCK_SIZE <= data_length m;
  rec_high : data_length m <= zlen l
}.

(** The committed bytes of an image. *)
Definition committed (l : bytes) (m : _Meta) : bytes := take (Z.to_nat (data_length m)) l.

Lemma committed_recoverable l m :
  recoverable l m -> recoverable (committed l m) m /\ zlen (committed l m) = data_length m.
Proof.
  intros [Hb Hf Hlo Hhi]. unfold committed.
  assert (zlen (take (Z.to_nat (data_length m)) l) = data_length m) as Hz
    by (unfold zlen in *; rewrite length_take; unfold SUPERBLOCK_SIZE, META_SLOT_SIZE, META_SLOTS in *; lia).
  split; [|done]. split; try done; [|lia]. rewrite <- Hb. apply best_meta_prefix.
  rewrite take_take. f_equal. lia.
Qed.

(** Bytes appended after a commit do not matter: torn tails are harmless. *)
Lemma recoverable_app l m tail : recoverable l m -> recoverable (l ++ tail) m.
Proof.
  intros [Hb Hf Hlo Hhi]. split; try done; [|rewrite zlen_app; pose proof (zlen_nonneg tail); lia].
  rewrite <- Hb. apply best_meta_prefix. apply take_app_le. unfold zlen in *. lia.
Qed.

Lemma committed_app l m tail :
  data_length m <= zlen l -> committed (l ++ tail) m = committed l m.
Proof. intros H. unfold committed. apply take_app_le. unfold zlen in H. lia. Qed.

(** A torn write of the slot that is being replaced leaves the old commit. *)
Lemma recoverable_torn_slot l m block c :
  recoverable l m -> zlen block = META_SLOT_SIZE ->
  parse_slot (take 44 block) (1 - slot m) = Ok c ->
  (forall m', c = Some m' -> txn_id m' < txn_id m) ->
  recoverable (write_at l ((1 - slot m) * META_SLOT_SIZE) block) m.
Proof.
  intros [Hb Hf Hlo Hhi] Hblk Hp Hlt. destruct (best_meta_inv l m Hb) as (Hs & Hm & _).
  assert (1 - slot m = 0 \/ 1 - slot m = 1) as Hs' by lia.
  assert (SUPERBLOCK_SIZE <= zlen l) by lia.
  split; try done.
  - eapply best_meta_intro; [done| |by rewrite slot_write_same by done|done].
    by rewrite slot_write_other by (done || lia).
  - by rewrite slot_write_length.
Qed.

(** A completed write of the slot publishes the new commit. *)
Lemma recoverable_publish l m m' block :
  recoverable l m -> meta_fits m' -> storage.meta_block m' = Ok block ->
  slot m' = 1 - slot m -> txn_id m < txn_id m' -> data_length m' = zlen l ->
  recoverable (write_at l ((1 - slot m) * META_SLOT_SIZE) block) m'.
Proof.
  intros [Hb Hf Hlo Hhi] Hf' Hblk Hslot Htxn Hdl. destruct (best_meta_inv l m Hb) as (Hs & Hm & _).
  destruct (meta_block_ok m' Hf') as (block' & Hblk' & Hlen & Hparse).
  rewrite Hblk in Hblk'. injection Hblk' as <-.
  assert (1 - slot m = 0 \/ 1 - slot m = 1) as Hs' by lia.
  assert (SUPERBLOCK_SIZE <= zlen l) by lia.
  split; try done; [|lia|rewrite slot_write_length by done; lia].
  apply (best_meta_intro _ _ (Some m)); [lia| | |intros ? [= <-]; done].
  - rewrite Hslot, slot_write_same, Hparse by done. do 2 f_equal. destruct m'; simpl in *. by subst.
  - rewrite Hslot, slot_write_other by (done || lia).
    by replace (1 - (1 - slot m)) with (slot m) by lia.
Qed.

(** * Opening a file *)

Definition idle (f : SimDisk) (durability : pystr) (m : _Meta) : Storage :=
  {| _f := f; _lock := FileLock_init; _durability := durability; _readonly := false;
     _meta := Some m |}.

(** A handle with nothing staged: the file ends at the committed length. *)
Record settled (s : Storage) (m : _Meta) : Prop := {
  set_image : recoverable (live s) m;
  set_length : zlen (live s) = data_length m;
  set_ro : _readonly s = false;
  set_cur : _meta s = Some m
}.

Lemma modes_full : bool_decide (DURABILITY_FULL ∈ DURABILITY_MODES) = true.
Proof. reflexivity. Qed.

Lemma best_meta_run s m :
  best_meta (live s) = Ok m -> exists p, storage._read_best_meta s = (at_pos p s, Ok m).
Proof. intros H. destruct (read_best_meta_reads s) as [p Hp]. exists p. by rewrite Hp, H. Qed.

(** Reopening any recoverable image adopts its last commit and cuts the rest off. *)
Lemma open_recoverable l m :
  recoverable l m -> exists s, storage.init (SimDisk_init l) DURABILITY_FULL false = (s, Ok tt) /\
    settled s m /\ live s = committed l m /\ _durable (_f s) = committed l m /\
    is_full s = true /\ storage.is_locked s = false /\ _crash_at_flush (_f s) = None.
Proof.
  intros Hrec. pose proof Hrec as [Hb Hf Hlo Hhi].
  unfold storage.init. rewrite modes_full. unfold storage._ensure_meta.
  erewrite stx_bind_ok by apply file_size_spec. erewrite stx_bind_ok by reflexivity.
  change (live _) with l at 1. rewrite (proj2 (Z.ltb_ge _ _)) by lia. cbn [_readonly at_pos set_f].
  erewrite stx_bind_ok by reflexivity. unfold try_finally.
  match goal with |- context [storage._read_best_meta ≫= ?k] => set (K := k) end.
  match goal with |- context [(storage._read_best_meta ≫= K) ?s0] => set (s1 := s0) end.
  destruct (best_meta_run s1 m Hb) as [p Hp]. erewrite stx_bind_ok by exact Hp.
  unfold K. erewrite stx_bind_ok by reflexivity. erewrite stx_bind_ok by apply file_size_spec.
  change (live _) with l at 1. unfold committed.
  destruct (committed_recoverable l m Hrec) as [Hc Hcl]. unfold committed in Hc, Hcl.
  destruct (Z.ltb_spec (data_length m) (zlen l)) as [Hlt|Hge].
  - eexists. split; [|split; [|split]].
    { unfold is_full, bool_decide. simpl. unfold disk.truncate, on_f. run. simpl.
      change (_live (_f s1)) with l. rewrite (proj2 (Z.ltb_lt _ _)) by lia. simpl. reflexivity. }
    all: simpl; rewrite py_upto_nat
      by (unfold SUPERBLOCK_SIZE, META_SLOT_SIZE, META_SLOTS in *; lia); auto.
    split; simpl; auto; unfold live; simpl; rewrite py_upto_nat
      by (unfold SUPERBLOCK_SIZE, META_SLOT_SIZE, META_SLOTS in *; lia); done.
  - assert (take (Z.to_nat (data_length m)) l = l) as Ht
      by (apply take_ge; unfold zlen in *; lia).
    rewrite Ht in *. eexists. split; [reflexivity|].
    split; [|repeat split]. by split.
Qed.

(** * Commit *)

(** A writer in the middle of a session with [durability="full"]: the last
    commit [m] is on the platter, and everything since is an appended tail. *)
Record journaled (s : Storage) (m : _Meta) : Prop := {
  jr_ro : _readonly s = false;
  jr_full : is_full s = true;
  jr_cur : _meta s = Some m;
  jr_image : recoverable (_durable (_f s)) m;
  jr_tail : exists tail, live s = _durable (_f s) ++ tail
}.

Lemma journaled_live s m : journaled s m -> recoverable (live s) m.
Proof. intros [? ? ? ? [tail ->]]. by apply recoverable_app. Qed.

Lemma journaled_super s m : journaled s m -> SUPERBLOCK_SIZE <= zlen (live s).
Proof. intros H. apply journaled_live in H as []. lia. Qed.

Lemma settled_journaled s m :
  settled s m -> is_full s = true -> _durable (_f s) = live s -> journaled s m.
Proof.
  intros [Hi Hl Hr Hm] Hf Hd. split; rewrite ?Hd; try done. exists []. by rewrite app_nil_r.
Qed.

Lemma journaled_write s m payload :
  journaled s m -> zlen payload < 256 ^ 4 ->
  exists s', storage.write payload s = (s', Ok (zlen (live s))) /\ journaled s' m /\
    live s' = live s ++ record_bytes payload /\ _lock s' = _lock s.
Proof.
  intros Hj Hp. pose proof (journaled_super s m Hj) as Hsup. destruct Hj as [Hr Hf Hm Hi [tail Ht]].
  eexists. split; [by apply storage_write_spec|]. split; [|done].
  split; try done. exists (tail ++ record_bytes payload).
  transitivity (live s ++ record_bytes payload); [done|].
  rewrite Ht. by rewrite <- app_assoc.
Qed.

Lemma flush_spec s : exists n c,
  storage.flush s = (set_f (set_durable (live s) (set_flushes n c (_f s))) s, Ok tt) \/
  storage.flush s = (set_f (set_flushes n c (_f s)) s, Raise SimCrash) /\
    _crash_at_flush (_f s) <> None.
Proof.
  unfold storage.flush, on_f, disk.flush. run.
  destruct (_crash_at_flush (_f s)) as [at_|]; [destruct (at_ <=? _)|]; simpl.
  - eexists _, _. right. split; [reflexivity|done].
  - eexists _, _. left. reflexivity.
  - eexists _, _. left. reflexivity.
Qed.

Lemma flush_unarmed s : _crash_at_flush (_f s) = None -> exists n,
  storage.flush s = (set_f (set_durable (live s) (set_flushes n None (_f s))) s, Ok tt).
Proof.
  intros H. unfold storage.flush, on_f, disk.flush. run. rewrite H. by eexists.
Qed.

Lemma lock_spec s :
  storage.lock s = (set_lock {| locked := true |} s, Ok (negb (storage.is_locked s))).
Proof.
  unfold storage.lock, on_lock, filelock.lock, storage.is_locked. run.
  by destruct s as [? [[]] ? ? ?].
Qed.

Lemma unlock_spec s : storage.unlock s = (set_lock FileLock_init s, Ok tt).
Proof.
  unfold storage.unlock, on_lock, filelock.unlock. run. by destruct s as [? [[]] ? ? ?].
Qed.

Definition next_meta (m : _Meta) (root count len : Z) : _Meta :=
  mkMeta (txn_id m + 1) root count len (1 - slot m).

(** The second half of a commit: the slot is written, flushed and adopted. *)
Lemma commit_publish s m m' block :
  _meta s = Some m -> slot m = 0 \/ slot m = 1 -> SUPERBLOCK_SIZE <= zlen (live s) ->
  slot m' = 1 - slot m -> storage.meta_block m' = Ok block -> zlen block = META_SLOT_SIZE ->
  let l' := write_at (live s) ((1 - slot m) * META_SLOT_SIZE) block in
  exists s',
    (storage._write_slot (slot m') m' ;; storage.flush ;;
     modify (set_meta (Some m')) ;; storage.unlock : St Storage unit) s = (s', Ok tt) /\
      live s' = l' /\ _durable (_f s') = l' /\ _meta s' = Some m' /\
      _lock s' = FileLock_init /\ _readonly s' = _readonly s /\ is_full s' = is_full s
    \/
    (storage._write_slot (slot m') m' ;; storage.flush ;;
     modify (set_meta (Some m')) ;; storage.unlock : St Storage unit) s = (s', Raise SimCrash) /\
      _durable (_f s') = _durable (_f s) /\ _crash_at_flush (_f s) <> None.
Proof.
  intros Hm Hs Hsup Hsl Hblk Hlen l'.
  erewrite stx_bind_ok by (apply write_slot_spec; exact Hblk). rewrite Hsl. fold l'.
  set (s1 := with_live l' _ s).
  destruct (flush_spec s1) as (n & c & [Hfl|[Hfl Hc]]).
  - erewrite stx_bind_ok by exact Hfl. erewrite stx_bind_ok by reflexivity.
    rewrite unlock_spec. eexists. left. split; [reflexivity|]. done.
  - erewrite stx_bind_raise by exact Hfl. eexists. right. split; [reflexivity|]. done.
Qed.

(** Everything a commit can do to the disk. *)
Lemma commit_outcomes s m root count :
  journaled s m -> meta_fits (next_meta m root count (zlen (live s))) ->
  let m' := next_meta m root count (zlen (live s)) in
  exists s',
    (storage.commit_root_address root count s = (s', Ok tt) /\ journaled s' m' /\
     live s' = _durable (_f s') /\ zlen (live s') = zlen (live s) /\ storage.is_locked s' = false /\
     (forall a, SUPERBLOCK_SIZE <= a -> record_at (live s') a = record_at (live s) a)) \/
    (storage.commit_root_address root count s = (s', Raise SimCrash) /\
     _crash_at_flush (_f s) <> None /\
     (_durable (_f s') = _durable (_f s) \/ _durable (_f s') = live s)).
Proof.
  intros Hj Hfit m'. pose proof (journaled_live s m Hj) as Hrec. pose proof (journaled_super s m Hj) as Hsup.
  destruct Hj as [Hr Hf Hm _ _].
  destruct (best_meta_inv _ _ (rec_best _ _ Hrec)) as (Hslot & _).
  destruct (meta_block_ok m' Hfit) as (block & Hblk & Hblen & _).
  unfold storage.commit_root_address. erewrite stx_bind_ok by reflexivity. rewrite Hr.
  erewrite stx_bind_ok by apply lock_spec. rewrite Hf.
  destruct (flush_spec (set_lock {| locked := true |} s)) as (n1 & c1 & [Hfl|[Hfl Hc]]).
  2:{ erewrite stx_bind_raise by exact Hfl. eexists. right. split; [reflexivity|]. auto. }
  erewrite stx_bind_ok by exact Hfl.
  unfold storage.cur_meta. erewrite stx_bind_ok by (run; simpl; rewrite Hm; reflexivity).
  erewrite stx_bind_ok by apply file_size_spec.
  change (live (set_f _ _)) with (live s). change (mkMeta _ _ _ _ _) with m'.
  match goal with |- context [(storage._write_slot _ _ ≫= _) ?st] => set (s2 := st) end.
  destruct (commit_publish s2 m m' block) as (s' & [(E & Hl' & Hd' & Hm' & Hlk & Hro & Hfu)|(E & Hd' & Hc)]);
    try done; exists s'; [left|right]; (split; [exact E|]).
  - assert (zlen (live s') = zlen (live s)) as Hz
      by (rewrite Hl'; apply slot_write_length; done || lia).
    split; [split|split; [congruence|split; [done|split]]].
    + by rewrite Hro.
    + by rewrite Hfu.
    + done.
    + rewrite Hd'. apply recoverable_publish; try done. simpl. lia.
    + exists []. by rewrite app_nil_r, Hl', Hd'.
    + unfold storage.is_locked. by rewrite Hlk.
    + intros a Ha. rewrite Hl'. apply slot_write_record; done || lia.
  - split; [|by right]. intros En. destruct (flush_unarmed (set_lock {| locked := true |} s) En) as [n Hn].
    rewrite Hfl in Hn. injection Hn as Hn1 Hn2. apply Hc. subst s2. simpl.
    by apply (f_equal _crash_at_flush) in Hn1 || (subst; done).
Qed.

(** Failing to pack a field is the only way a meta block is refused. *)
Lemma pack_uint_cases n z : pack_uint n z = Raise StructError \/ (0 <= z < 256 ^ Z.of_nat n /\ exists b, pack_uint n z = Ok b).
Proof.
  unfold pack_uint. destruct ((0 <=? z) && (z <? 256 ^ Z.of_nat n)) eqn:E; [|by left].
  right. apply andb_true_iff in E as [E1%Z.leb_le E2%Z.ltb_lt]. eauto.
Qed.

Lemma meta_block_cases m : storage.meta_block m = Raise StructError \/ meta_fits m.
Proof.
  unfold storage.meta_block, pack_meta_body.
  destruct (pack_uint_cases 8 (txn_id m)) as [->|[Ht [? ->]]]; [by left|].
  destruct (pack_uint_cases 8 (root_address m)) as [->|[Hr [? ->]]]; [by left|].
  destruct (pack_uint_cases 8 (key_count m)) as [->|[Hk [? ->]]]; [by left|].
  destruct (pack_uint_cases 8 (data_length m)) as [->|[Hd [? ->]]]; [by left|].
  by right.
Qed.

(** Staged bytes that were flushed but never published are still only staged. *)
Lemma journaled_flushed s m s' :
  journaled s m -> _readonly s' = _readonly s -> is_full s' = is_full s -> _meta s' = _meta s ->
  live s' = live s -> _durable (_f s') = live s -> journaled s' m.
Proof.
  intros Hj Hr Hf Hm Hl Hd. pose proof (journaled_live s m Hj). destruct Hj as [? ? ? ? ?].
  split; try congruence. exists []. by rewrite app_nil_r, Hl, Hd.
Qed.

(** A commit whose meta block cannot be encoded raises after flushing the data;
    nothing was published. *)
Lemma commit_unfit s m root count :
  journaled s m -> storage.meta_block (next_meta m root count (zlen (live s))) = Raise StructError ->
  exists s',
    (storage.commit_root_address root count s = (s', Raise StructError) /\ journaled s' m /\ live s' = live s) \/
    (storage.commit_root_address root count s = (s', Raise SimCrash) /\
     _crash_at_flush (_f s) <> None /\ _durable (_f s') = _durable (_f s)).
Proof.
  intros Hj Hbad. pose proof Hj as [Hr Hf Hm _ _].
  unfold storage.commit_root_address. erewrite stx_bind_ok by reflexivity. rewrite Hr.
  erewrite stx_bind_ok by apply lock_spec. rewrite Hf.
  destruct (flush_spec (set_lock {| locked := true |} s)) as (n1 & c1 & [Hfl|[Hfl Hc]]).
  2:{ erewrite stx_bind_raise by exact Hfl. eexists. right. split; [reflexivity|]. auto. }
  erewrite stx_bind_ok by exact Hfl.
  unfold storage.cur_meta. erewrite stx_bind_ok by (run; simpl; rewrite Hm; reflexivity).
  erewrite stx_bind_ok by apply file_size_spec.
  change (live (set_f _ _)) with (live s). change (mkMeta _ _ _ _ _) with (next_meta m root count (zlen (live s))).
  eexists. left. split.
  - apply stx_bind_raise. unfold storage._write_slot. apply stx_bind_raise. unfold lift_res. rewrite Hbad. reflexivity.
  - split; [|done]. by apply (journaled_flushed s).
Qed.
