(* ===== verification/StorageProps.v ===== *)
(** The guarantees of the storage layer: records are immutable and
    self-checking, a commit is atomic under power loss, and torn writes roll
    back to the previous commit ([src/imustore/physical.py]). *)

From S2P Require Import Prelude PyBase Struct SimDisk Locking Physical PhysicalFacts Recovery.

(** * Creating a database file *)

Definition meta0 : _Meta := mkMeta 0 0 0 SUPERBLOCK_SIZE 0.

Lemma write_at_over_end l1 l2 data :
  zlen l2 <= zlen data -> write_at (l1 ++ l2) (zlen l1) data = l1 ++ data.
Proof.
  intros H. unfold write_at. rewrite zlen_app. pose proof (zlen_nonneg l2).
  destruct (Z.ltb_spec (zlen l1 + zlen l2) (zlen l1 + zlen data)) as [Hlt|Hge].
  - rewrite <- app_assoc, <- (app_nil_r (l2 ++ zeros _)), splice_exact, app_nil_r; [done|].
    rewrite zlen_app, zlen_zeros; lia.
  - rewrite <- (app_nil_r l2), splice_exact, app_nil_r; [done|lia].
Qed.

Definition meta0_block (i : Z) : bytes :=
  match storage.meta_block (mkMeta 0 0 0 SUPERBLOCK_SIZE i) with Ok b => b | Raise _ => [] end.

Lemma meta0_block_ok i :
  storage.meta_block (mkMeta 0 0 0 SUPERBLOCK_SIZE i) = Ok (meta0_block i) /\
  zlen (meta0_block i) = META_SLOT_SIZE.
Proof.
  destruct (meta_block_ok (mkMeta 0 0 0 SUPERBLOCK_SIZE i)) as (b & Hb & Hl & _);
    [split; done|]. unfold meta0_block. rewrite Hb. split; [reflexivity|exact Hl].
Qed.

Definition fresh_image : bytes := meta0_block 0 ++ meta0_block 1.

Lemma fresh_recoverable : recoverable fresh_image meta0.
Proof. split; [vm_compute; reflexivity|split; done|done|vm_compute; intros ?; discriminate]. Qed.

Lemma fresh_length : zlen fresh_image = SUPERBLOCK_SIZE.
Proof. vm_compute. reflexivity. Qed.

(** A file too short to hold the superblock is initialised from scratch. *)
Lemma open_short l :
  zlen l < SUPERBLOCK_SIZE ->
  exists s, storage.init (SimDisk_init l) DURABILITY_FULL false = (s, Ok tt) /\
    settled s meta0 /\ live s = fresh_image /\ _durable (_f s) = fresh_image /\
    is_full s = true /\ storage.is_locked s = false /\ _crash_at_flush (_f s) = None.
Proof.
  intros Hl. unfold storage.init. rewrite modes_full. unfold storage._ensure_meta.
  erewrite stx_bind_ok by apply file_size_spec. erewrite stx_bind_ok by reflexivity.
  change (live _) with l at 1. rewrite (proj2 (Z.ltb_lt _ _)) by done. cbn [_readonly at_pos set_f].
  unfold storage._init_meta. change (map Z.of_nat (seq 0 (Z.to_nat META_SLOTS))) with [0; 1].
  destruct (meta0_block_ok 0) as [Hb0 Hl0]. destruct (meta0_block_ok 1) as [Hb1 Hl1].
  cbn [mapM_st]. set (s0 := at_pos _ _).
  assert (live s0 = l) as Hs0 by done.
  erewrite stx_bind_ok.
  2:{ erewrite stx_bind_ok by (apply write_slot_spec; exact Hb0).
      erewrite stx_bind_ok.
      2:{ erewrite stx_bind_ok by (apply write_slot_spec; exact Hb1). reflexivity. }
      reflexivity. }
  set (s1 := with_live _ _ _).
  assert (live s1 = fresh_image) as Hs1.
  { unfold s1, with_live. unfold live at 1. cbn [_f set_f set_pos set_live _live].
    rewrite Hs0. change (0 * META_SLOT_SIZE) with (zlen (@nil byte)).
    change (live _) with (write_at l (zlen (@nil byte)) (meta0_block 0)).
    destruct (Z.le_gt_cases META_SLOT_SIZE (zlen l)) as [H|H].
    - destruct (length_split_at l (Z.to_nat META_SLOT_SIZE)) as (l1 & l2 & -> & Hl12);
        [unfold zlen in H; lia|].
      rewrite zlen_app in Hl. unfold SUPERBLOCK_SIZE, META_SLOTS in Hl.
      assert (zlen l1 = META_SLOT_SIZE) as E by (unfold zlen, META_SLOT_SIZE in *; lia).
      rewrite (write_at_overwrite [] l1 l2) by congruence. cbn [app].
      replace (1 * META_SLOT_SIZE) with (zlen (meta0_block 0)) by lia.
      apply write_at_over_end. lia.
    - rewrite (write_at_over_end [] l) by lia. cbn [app].
      replace (1 * META_SLOT_SIZE) with (zlen (meta0_block 0)) by lia.
      unfold fresh_image. apply write_at_end. }
  assert (on_f (disk.truncate (Some SUPERBLOCK_SIZE)) s1 = (s1, Ok SUPERBLOCK_SIZE)) as Htr.
  { unfold on_f, disk.truncate. run. change (_live (_f s1)) with (live s1).
    rewrite Hs1, fresh_length, Z.ltb_irrefl. by destruct s1. }
  erewrite stx_bind_ok by exact Htr.
  destruct (flush_unarmed s1) as [n Hn]; [done|]. erewrite stx_bind_ok by exact Hn.
  eexists. split; [reflexivity|].
  assert (zlen (live s1) = data_length meta0) as Hz by (rewrite Hs1; apply fresh_length).
  split; [split; [|exact Hz|reflexivity|reflexivity]|].
  { change (recoverable (live s1) meta0). rewrite Hs1. apply fresh_recoverable. }
  repeat split; first [exact Hs1|reflexivity].
Qed.

(** A freshly created database file, open for writing. *)
Definition fresh : Storage := (storage.init (SimDisk_init []) DURABILITY_FULL false).1.

Lemma fresh_journaled : journaled fresh meta0.
Proof.
  destruct (open_short []) as (s & Hs & Hset & Hl & Hd & Hf & _); [done|].
  unfold fresh. rewrite Hs. cbn [fst]. apply settled_journaled; congruence.
Qed.

Lemma storage_read_val a s : (storage.read a s).2 = record_at (live s) a.
Proof. destruct (storage_read_reads a s) as [p ->]. done. Qed.

(** * Records *)

(** A record written to a writable storage reads back as the bytes that were
    written, at the address [write] returned, and no record that could be read
    before the write changes. *)
Theorem write_read_roundtrip (s : Storage) (payload : bytes) :
  _readonly s = false -> zlen payload < 2 ^ 32 -> SUPERBLOCK_SIZE <= zlen (live s) ->
  exists s' a, storage.write payload s = (s', Ok a) /\ SUPERBLOCK_SIZE <= a /\
    (storage.read a s').2 = Ok payload /\
    forall b q, (storage.read b s).2 = Ok q -> (storage.read b s').2 = Ok q.
Proof.
  intros Hr Hp Hl. eexists _, _. split; [by apply storage_write_spec|]. split; [done|].
  split; [|intros b q]; rewrite !storage_read_val.
  - change (live (with_live ?l _ _)) with l. rewrite <- (app_nil_r (record_bytes payload)).
    apply record_at_end; [unfold SUPERBLOCK_SIZE, META_SLOT_SIZE, META_SLOTS in *; lia|done].
  - change (live (with_live ?l _ _)) with l. apply record_at_app.
Qed.

Lemma write_read_roundtrip_witness : exists s' a,
  storage.write [Byte.x68; Byte.x69] fresh = (s', Ok a) /\
  (storage.read a s').2 = Ok [Byte.x68; Byte.x69].
Proof.
  destruct (write_read_roundtrip fresh [Byte.x68; Byte.x69]) as (s' & a & Hw & _ & Hrd & _).
  - apply fresh_journaled.
  - reflexivity.
  - apply (journaled_super fresh meta0), fresh_journaled.
  - exists s', a. split; [exact Hw|exact Hrd].
Defined.

(** C37: bit-rot of up to four consecutive bytes anywhere in a record's payload
    is always detected: [read] raises the checksum error instead of returning
    the damaged bytes. *)
Theorem payload_burst_detected (s : Storage) (pre h d1 d2 t post : bytes) :
  live s = pre ++ be_encode 4 (zlen (h ++ d1 ++ t)) ++ be_encode 4 (_crc (h ++ d1 ++ t)) ++
           (h ++ d2 ++ t) ++ post ->
  0 < zlen pre -> zlen (h ++ d1 ++ t) < 2 ^ 32 ->
  length d1 = length d2 -> (length d1 <= 4)%nat -> d1 <> d2 ->
  (storage.read (zlen pre) s).2 =
    Raise (DatabaseCorruptionError (RecordChecksumMismatch (zlen pre))).
Proof.
  intros Hl Hpre Hlen Hd H4 Hne. rewrite storage_read_val, Hl. unfold record_at.
  rewrite (proj2 (Z.leb_gt _ _)) by done.
  assert (zlen (h ++ d2 ++ t) = zlen (h ++ d1 ++ t)) as Hz by (unfold zlen; rewrite !length_app; lia).
  set (a := be_encode 4 (zlen (h ++ d1 ++ t))). set (c := be_encode 4 (_crc (h ++ d1 ++ t))).
  assert (length a = 4%nat /\ length c = 4%nat) as [Ha Hc] by (split; apply length_be_encode).
  rewrite (drop_app_exact pre) by (unfold zlen; lia).
  rewrite (app_assoc a c), (take_app_exact (a ++ c)) by (rewrite length_app; lia).
  replace (zlen (a ++ c)) with 8 by (unfold zlen; rewrite length_app; lia).
  change (negb (8 =? RECORD_HEADER_BYTES)) with false. cbv iota zeta.
  rewrite (take_app_exact a), (drop_app_exact a) by lia. unfold a, c.
  rewrite !be_decode_encode by (apply crc_range || (pose proof (zlen_nonneg (h ++ d1 ++ t)); lia)).
  rewrite (app_assoc pre), (drop_app_exact (pre ++ _))
    by (rewrite !length_app, !length_be_encode; unfold zlen; lia).
  rewrite (take_app_exact (h ++ d2 ++ t)) by (unfold zlen in *; lia).
  rewrite Hz, Z.eqb_refl. cbn [negb].
  destruct (Z.eqb_spec (_crc (h ++ d2 ++ t)) (_crc (h ++ d1 ++ t))) as [E|E]; [|done].
  rewrite !crc_eq in E. exfalso. by eapply (crc32_burst h d1 d2 t).
Qed.

Definition rotten : Storage :=
  with_live (live fresh ++ be_encode 4 (zlen [Byte.x68; Byte.x69]) ++
    be_encode 4 (_crc [Byte.x68; Byte.x69]) ++ [Byte.x68; Byte.x96]) 0 fresh.

Lemma payload_burst_detected_witness : (storage.read (zlen (live fresh)) rotten).2 =
  Raise (DatabaseCorruptionError (RecordChecksumMismatch (zlen (live fresh)))).
Proof.
  apply (payload_burst_detected rotten (live fresh) [Byte.x68] [Byte.x69] [Byte.x96] [] []).
  - reflexivity.
  - pose proof (journaled_super fresh meta0 fresh_journaled).
    unfold SUPERBLOCK_SIZE, META_SLOT_SIZE, META_SLOTS in *. lia.
  - reflexivity.
  - reflexivity.
  - simpl. lia.
  - discriminate.
Defined.

(** * Commit and recovery *)

(** A commit is atomic under power loss.  Whatever flush the machine dies
    in, reopening the bytes that reached the disk adopts either the previous
    commit, with exactly the bytes it had, or (only when the commit returned)
    the new one, with every byte written before it. *)
Theorem commit_atomic_under_power_loss (s s' : Storage) (m : _Meta) (root count : Z) (r : res unit) :
  journaled s m -> meta_fits (next_meta m root count (zlen (live s))) ->
  storage.commit_root_address root count s = (s', r) ->
  exists s2,
    storage.init (SimDisk_init (disk.durable_bytes (_f s'))) DURABILITY_FULL false = (s2, Ok tt) /\
    ((r = Ok tt /\ settled s2 (next_meta m root count (zlen (live s))) /\ live s2 = live s') \/
     (r = Raise SimCrash /\ settled s2 m /\ live s2 = committed (_durable (_f s)) m)).
Proof.
  intros Hj Hfit Hc. unfold disk.durable_bytes.
  destruct (commit_outcomes s m root count Hj Hfit) as
    (s1 & [(E & Hj' & Hd & Hz & _)|(E & _ & Hd)]); rewrite Hc in E; injection E as -> ->.
  - destruct (open_recoverable _ _ (jr_image _ _ Hj')) as (s2 & Ho & Hset & Hl & _).
    exists s2. split; [done|]. left. split; [done|]. split; [done|].
    rewrite Hl, <- Hd. apply take_ge. simpl. unfold zlen in *. lia.
  - assert (recoverable (_durable (_f s1)) m /\
            committed (_durable (_f s1)) m = committed (_durable (_f s)) m) as [Hr Hcm].
    { destruct Hj as [_ _ _ Hi [tail Ht]]. pose proof (rec_high _ _ Hi).
      destruct Hd as [-> | ->]; [done|]. rewrite Ht, committed_app by lia.
      split; [by apply recoverable_app|done]. }
    destruct (open_recoverable _ _ Hr) as (s2 & Ho & Hset & Hl & _).
    exists s2. split; [done|]. right. split; [done|]. split; [done|]. by rewrite Hl.
Qed.

Lemma arm_crash_journaled s m n : journaled s m -> journaled (on_f (disk.arm_crash n) s).1 m.
Proof. intros [Hr Hf Hm Hi Ht]. by split. Qed.

(** A writer that dies in the second flush of its commit. *)
Definition doomed : Storage := (on_f (disk.arm_crash 2) fresh).1.

Lemma commit_atomic_witness : exists s2,
  storage.init (SimDisk_init (disk.durable_bytes
    (_f (storage.commit_root_address 9000 1 doomed).1))) DURABILITY_FULL false = (s2, Ok tt) /\
  settled s2 meta0.
Proof.
  destruct (commit_atomic_under_power_loss doomed
              (storage.commit_root_address 9000 1 doomed).1 meta0 9000 1 (Raise SimCrash))
    as (s2 & Ho & [(H & _)|(_ & Hs & _)]).
  - apply arm_crash_journaled, fresh_journaled.
  - split; vm_compute; split; congruence.
  - vm_compute. reflexivity.
  - discriminate H.
  - exists s2. split; [exact Ho|exact Hs].
Defined.

(** Whatever ends up in one meta slot, as long as it fails validation, the
    database opens on the commit recorded in the other slot and truncates the
    file to that commit's length: a torn newest meta falls back to the previous
    transaction, and a damaged older meta keeps the newest. *)
Theorem corrupt_slot_falls_back (l block : bytes) (i : Z) (m : _Meta) :
  i = 0 \/ i = 1 -> zlen block = META_SLOT_SIZE -> parse_slot (take 44 block) i = Ok None ->
  slot_of l (1 - i) = Ok (Some m) -> meta_fits m ->
  SUPERBLOCK_SIZE <= data_length m <= zlen l ->
  exists s,
    storage.init (SimDisk_init (write_at l (i * META_SLOT_SIZE) block)) DURABILITY_FULL false = (s, Ok tt) /\
    settled s m /\
    forall a p, SUPERBLOCK_SIZE <= a -> record_at (committed l m) a = Ok p ->
      (storage.read a s).2 = Ok p.
Proof.
  intros Hi Hb Hp Hm Hfit [Hlo Hhi].
  pose proof (slot_of_index _ _ _ Hm) as Hs.
  assert (SUPERBLOCK_SIZE <= zlen l) as Hl by lia.
  assert (recoverable (write_at l (i * META_SLOT_SIZE) block) m) as Hrec.
  { split; try done; [|by rewrite slot_write_length].
    apply (best_meta_intro _ _ None); [lia| | |done].
    - by rewrite Hs, slot_write_other.
    - rewrite Hs. replace (1 - (1 - i)) with i by lia. by rewrite slot_write_same. }
  destruct (open_recoverable _ _ Hrec) as (s & Ho & Hset & Hlive & _).
  exists s. split; [done|]. split; [done|]. intros a p Ha Hrd.
  rewrite storage_read_val, Hlive, <- Hrd. unfold committed.
  assert (Hdrop : forall n, SUPERBLOCK_SIZE <= Z.of_nat n ->
    drop n (take (Z.to_nat (data_length m)) (write_at l (i * META_SLOT_SIZE) block)) =
    drop n (take (Z.to_nat (data_length m)) l)).
  { intros n Hn. by rewrite !skipn_firstn_comm, slot_write_beyond. }
  unfold record_at. rewrite !Hdrop by lia. done.
Qed.

Lemma corrupt_slot_witness : exists s,
  storage.init (SimDisk_init (write_at fresh_image 0 (zeros 4096))) DURABILITY_FULL false = (s, Ok tt) /\
  settled s (mkMeta 0 0 0 SUPERBLOCK_SIZE 1).
Proof.
  destruct (corrupt_slot_falls_back fresh_image (zeros 4096) 0 (mkMeta 0 0 0 SUPERBLOCK_SIZE 1))
    as (s & Ho & Hs & _).
  - by left.
  - reflexivity.
  - vm_compute. reflexivity.
  - vm_compute. reflexivity.
  - split; vm_compute; split; congruence.
  - vm_compute. split; congruence.
  - exists s. split; [exact Ho|exact Hs].
Defined.

(** A crash that leaves any bytes after the last commit (orphaned or
    half-written records) is rolled back by opening the file: the storage
    settles on that commit and its file is again exactly the committed bytes,
    which a second open leaves unchanged. *)
Theorem torn_tail_truncated (l tail : bytes) (m : _Meta) :
  recoverable l m -> zlen l = data_length m ->
  exists s, storage.init (SimDisk_init (l ++ tail)) DURABILITY_FULL false = (s, Ok tt) /\
    settled s m /\ live s = l /\ disk.durable_bytes (_f s) = l /\ storage.is_locked s = false.
Proof.
  intros Hr Hl. destruct (open_recoverable _ _ (recoverable_app l m tail Hr))
    as (s & Ho & Hset & Hlive & Hdur & _ & Hlk & _).
  assert (committed (l ++ tail) m = l) as E.
  { rewrite committed_app by lia. apply take_ge. unfold zlen in *. lia. }
  exists s. rewrite E in *. done.
Qed.

Lemma torn_tail_witness : exists s,
  storage.init (SimDisk_init (fresh_image ++ [Byte.x00; Byte.x00; Byte.x05])) DURABILITY_FULL false
    = (s, Ok tt) /\ live s = fresh_image.
Proof.
  destruct (torn_tail_truncated fresh_image [Byte.x00; Byte.x00; Byte.x05] meta0)
    as (s & Ho & _ & Hl & _).
  - exact fresh_recoverable.
  - exact fresh_length.
  - exists s. split; [exact Ho|exact Hl].
Defined.

(** Opening a file too short to hold the two meta slots creates an empty
    database: transaction 0, no root, no keys, and the file on disk is the
    superblock. *)
Theorem short_file_initialised (l : bytes) :
  zlen l < SUPERBLOCK_SIZE ->
  exists s, storage.init (SimDisk_init l) DURABILITY_FULL false = (s, Ok tt) /\
    settled s meta0 /\ zlen (disk.durable_bytes (_f s)) = SUPERBLOCK_SIZE /\
    (storage.get_root_address s).2 = Ok 0 /\ (storage.get_key_count s).2 = Ok 0.
Proof.
  intros Hl. destruct (open_short l Hl) as (s & Ho & Hset & Hlive & Hd & _).
  exists s. split; [done|]. split; [done|]. split; [rewrite <- fresh_length, <- Hd; reflexivity|].
  destruct (best_meta_run s meta0 (rec_best _ _ (set_image _ _ Hset))) as [p Hp].
  unfold storage.get_root_address, storage.get_key_count, storage._reload_meta.
  split; (erewrite stx_bind_ok by exact Hp); reflexivity.
Qed.

Lemma short_file_witness : exists s,
  storage.init (SimDisk_init [Byte.x49; Byte.x4d]) DURABILITY_FULL false = (s, Ok tt) /\
  settled s meta0.
Proof.
  destruct (short_file_initialised [Byte.x49; Byte.x4d]) as (s & Ho & Hs & _).
  - reflexivity.
  - exists s. split; [exact Ho|exact Hs].
Defined.

(** * The record table *)

Lemma record_header l p rest :
  zlen p < 256 ^ 4 ->
  let h := take 8 (drop (Z.to_nat (zlen l)) (l ++ record_bytes p ++ rest)) in
  zlen h = RECORD_HEADER_BYTES /\ be_decode (take 4 h) = zlen p.
Proof.
  intros Hp. pose proof (zlen_nonneg p). rewrite drop_app_exact by (unfold zlen; lia).
  unfold record_bytes. rewrite <- !app_assoc, app_assoc, take_app_exact
    by (rewrite length_app, !length_be_encode; lia).
  rewrite take_app_exact, be_decode_encode by (rewrite ?length_be_encode; lia). split; [|done].
  unfold zlen. rewrite length_app, !length_be_encode. done.
Qed.

Lemma count_loop_spec ps pre n fuel s :
  live s = pre ++ concat (map record_bytes ps) -> Forall (fun p => zlen p < 256 ^ 4) ps ->
  (length ps < fuel)%nat ->
  (storage.count_loop fuel (zlen (live s)) (zlen pre) n s).2 = Ok (n + zlen ps).
Proof.
  revert pre n fuel s. induction ps as [|p ps IH]; intros pre n [|fuel] s Hl HF Hf;
    simpl in Hf; try lia; cbn [storage.count_loop].
  - simpl in Hl. rewrite app_nil_r in Hl. rewrite Hl, Z.ltb_irrefl, Z.eqb_refl.
    change (zlen (@nil bytes)) with 0. by rewrite Z.add_0_r.
  - apply Forall_cons in HF as [Hp HF]. cbn [map concat] in Hl.
    assert (zlen (live s) = zlen (pre ++ record_bytes p) + zlen (concat (map record_bytes ps))) as Hz
      by (rewrite Hl, !zlen_app; lia).
    pose proof (zlen_nonneg (concat (map record_bytes ps))). pose proof (zlen_nonneg p).
    rewrite zlen_app, record_bytes_length in Hz. rewrite (proj2 (Z.ltb_lt _ _)) by lia.
    edestruct (seek_read_spec (B := Z) s (zlen pre) RECORD_HEADER_BYTES) as (q & Hq & _);
      [apply zlen_nonneg|done|].
    rewrite Hq. change (Z.to_nat RECORD_HEADER_BYTES) with 8%nat.
    set (h := take 8 _). assert (zlen h = RECORD_HEADER_BYTES /\ be_decode (take 4 h) = zlen p)
      as [-> ->] by (subst h; rewrite Hl; by apply record_header).
    rewrite Z.eqb_refl. cbn [negb].
    replace (zlen pre + (RECORD_HEADER_BYTES + zlen p)) with (zlen (pre ++ record_bytes p))
      by (rewrite zlen_app, record_bytes_length; done).
    rewrite <- (at_pos_live q s).
    rewrite IH; [|by rewrite at_pos_live, Hl, app_assoc|done|lia].
    f_equal. unfold zlen. simpl. lia.
Qed.

(** C38: on a file that is a superblock followed by records, [count_records]
    returns how many there are, and it terminates on its own fuel. *)
Theorem count_records_exact (s : Storage) (super : bytes) (ps : list bytes) :
  live s = super ++ concat (map record_bytes ps) -> zlen super = SUPERBLOCK_SIZE ->
  Forall (fun p => zlen p < 2 ^ 32) ps ->
  (storage.count_records s).2 = Ok (zlen ps).
Proof.
  intros Hl Hs HF. unfold storage.count_records.
  erewrite stx_bind_ok by apply file_size_spec. rewrite <- (at_pos_live (zlen (live s)) s), <- Hs.
  rewrite (count_loop_spec ps super 0); [done|by rewrite at_pos_live|done|].
  rewrite at_pos_live, Hl. unfold zlen. rewrite length_app, Nat2Z.id.
  enough (length ps <= length (concat (map record_bytes ps)))%nat by lia.
  clear. induction ps as [|p ps IH]; simpl; [lia|]. rewrite length_app.
  pose proof (record_bytes_length p) as H. unfold zlen in H. lia.
Qed.

Lemma count_records_witness :
  (storage.count_records (with_live (fresh_image ++ concat (map record_bytes
     [[Byte.x61]; [Byte.x62; Byte.x63]])) 0 fresh)).2 = Ok 2.
Proof.
  apply (count_records_exact _ fresh_image [[Byte.x61]; [Byte.x62; Byte.x63]]).
  - reflexivity.
  - exact fresh_length.
  - repeat constructor.
Defined.

(** * Two handles on one file *)

(** C39: [commit_root_address] trusts the meta block its handle cached.  If
    another handle has committed in between (so the file's newest meta is the
    successor of the cached one), the commit writes the same slot with the same
    transaction id, and the other handle's commit can no longer be found in
    either slot. *)
Theorem stale_handle_overwrites_commit (s : Storage) (m other : _Meta) (root count : Z) :
  _meta s = Some m -> _readonly s = false -> _crash_at_flush (_f s) = None ->
  slot_of (live s) (slot m) = Ok (Some m) ->
  slot m = 0 \/ slot m = 1 -> SUPERBLOCK_SIZE <= zlen (live s) ->
  slot_of (live s) (1 - slot m) = Ok (Some other) -> txn_id other = txn_id m + 1 ->
  meta_fits (next_meta m root count (zlen (live s))) -> is_full s = true ->
  exists s', storage.commit_root_address root count s = (s', Ok tt) /\
    best_meta (live s') = Ok (next_meta m root count (zlen (live s))) /\
    txn_id (next_meta m root count (zlen (live s))) = txn_id other /\
    forall i, i = 0 \/ i = 1 -> root_address other <> root_address m -> root_address other <> root ->
      forall m', slot_of (live s') i = Ok (Some m') -> root_address m' <> root_address other.
Proof.
  intros Hm Hr Hcr Hsl Hs Hsup Ho Htxn Hfit Hf. set (m' := next_meta _ _ _ _) in *.
  destruct (meta_block_ok m' Hfit) as (block & Hblk & Hblen & Hparse).
  unfold storage.commit_root_address. erewrite stx_bind_ok by reflexivity. rewrite Hr.
  erewrite stx_bind_ok by apply lock_spec. rewrite Hf.
  destruct (flush_unarmed (set_lock {| locked := true |} s) Hcr) as [n Hn].
  erewrite stx_bind_ok by exact Hn.
  unfold storage.cur_meta. erewrite stx_bind_ok by (run; simpl; rewrite Hm; reflexivity).
  erewrite stx_bind_ok by apply file_size_spec.
  change (live (set_f _ _)) with (live s). change (mkMeta _ _ _ _ _) with m'.
  match goal with |- context [(storage._write_slot _ _ ≫= _) ?st] => set (s2 := st) end.
  destruct (commit_publish s2 m m' block) as (s' & [(E & Hl' & _)|(_ & _ & Hc)]); try done.
  exists s'. split; [exact E|]. rewrite Hl'.
  assert (H1 : 1 - slot m = 0 \/ 1 - slot m = 1) by lia.
  change (live s2) with (live s).
  assert (Hnew : slot_of (write_at (live s) ((1 - slot m) * META_SLOT_SIZE) block) (1 - slot m)
                 = Ok (Some m')).
  { rewrite slot_write_same, Hparse by done. reflexivity. }
  assert (Hold : slot_of (write_at (live s) ((1 - slot m) * META_SLOT_SIZE) block) (slot m)
                 = Ok (Some m)).
  { rewrite slot_write_other by (done || lia). done. }
  split; [|split; [by simpl|]].
  - apply (best_meta_intro _ _ (Some m)); [simpl; lia|done| |].
    + change (slot m') with (1 - slot m). by replace (1 - (1 - slot m)) with (slot m) by lia.
    + intros ? [= <-]. simpl. lia.
  - intros i Hi Hne1 Hne2 m1 Hm1. destruct (Z.eq_dec i (slot m)) as [->|].
    + rewrite Hold in Hm1. congruence.
    + replace i with (1 - slot m) in Hm1 by lia. rewrite Hnew in Hm1. injection Hm1 as <-.
      simpl. congruence.
Qed.

(** Handle [A] opened the fresh file; handle [B] then committed root 8200. *)
Definition handle_B : Storage := (storage.commit_root_address 8200 1 fresh).1.
Definition handle_A : Storage := with_live (live handle_B) 0 fresh.

Lemma stale_handle_witness : exists s',
  storage.commit_root_address 0 0 handle_A = (s', Ok tt) /\
  best_meta (live s') = Ok (mkMeta 1 0 0 SUPERBLOCK_SIZE 1) /\
  best_meta (live handle_A) = Ok (mkMeta 1 8200 1 SUPERBLOCK_SIZE 1).
Proof.
  destruct (stale_handle_overwrites_commit handle_A meta0 (mkMeta 1 8200 1 SUPERBLOCK_SIZE 1) 0 0)
    as (s' & Hc & Hb & _).
  - vm_compute. reflexivity.
  - vm_compute. reflexivity.
  - vm_compute. reflexivity.
  - vm_compute. reflexivity.
  - left. reflexivity.
  - vm_compute. congruence.
  - vm_compute. reflexivity.
  - reflexivity.
  - split; vm_compute; split; congruence.
  - vm_compute. reflexivity.
  - exists s'. split; [exact Hc|]. split; [|vm_compute; reflexivity].
    rewrite Hb. vm_compute. reflexivity.
Defined.
