(* ===== verification/KeyList.v ===== *)
(** Sorted key lists: [bisect_left]/[bisect_right] as the binary searches they
    are, and the sorted association list that is the reference model of an
    index. *)

From S2P Require Import Prelude PyBase Struct.

(** * Bisection *)

(** The loop of Python's [bisect]: [go_right] decides on which side of [a[mid]]
    the insertion point lies.  The gap [hi - lo] shrinks at every turn. *)
Fixpoint bisect_loop (fuel : nat) (go_right : pystr -> bool) (a : list pystr) (lo hi : nat) : nat :=
  match fuel with
  | O => lo
  | S fuel =>
      if decide (lo < hi)%nat then
        let mid := ((lo + hi) / 2)%nat in
        match a !! mid with
        | Some x => if go_right x then bisect_loop fuel go_right a (S mid) hi
                    else bisect_loop fuel go_right a lo mid
        | None => lo
        end
      else lo
  end.

Definition bisect_by (go_right : pystr -> bool) (a : list pystr) : nat :=
  bisect_loop (length a) go_right a 0 (length a).
Definition bisect_left (a : list pystr) (x : pystr) : nat := bisect_by (fun y => str_ltb y x) a.
Definition bisect_right (a : list pystr) (x : pystr) : nat :=
  bisect_by (fun y => negb (str_ltb x y)) a.

(** [go_right] holds on a prefix of [a]. *)
Definition monotone_on (p : pystr -> bool) (a : list pystr) : Prop :=
  forall i j x y, (i <= j)%nat -> a !! i = Some x -> a !! j = Some y -> p y = true -> p x = true.

Lemma bisect_loop_spec fuel p a lo hi :
  monotone_on p a -> (lo <= hi <= length a)%nat -> (hi - lo <= fuel)%nat ->
  (forall i x, (i < lo)%nat -> a !! i = Some x -> p x = true) ->
  (forall i x, (hi <= i)%nat -> a !! i = Some x -> p x = false) ->
  let r := bisect_loop fuel p a lo hi in
  (r <= length a)%nat /\ (forall i x, (i < r)%nat -> a !! i = Some x -> p x = true) /\
  (forall i x, (r <= i)%nat -> a !! i = Some x -> p x = false).
Proof.
  intros Hmono. revert lo hi. induction fuel as [|fuel IH]; intros lo hi Hlh Hf Hlow Hhigh; cbn [bisect_loop].
  { assert (lo = hi) as -> by lia. split; [lia|]. auto. }
  destruct (decide (lo < hi)%nat) as [Hlt|Hge].
  2:{ assert (lo = hi) as -> by lia. split; [lia|]. auto. }
  assert (lo <= (lo + hi) / 2 < hi)%nat as Hmid
    by (pose proof (Nat.div_mod_eq (lo + hi) 2); pose proof (Nat.mod_upper_bound (lo + hi) 2); lia).
  set (mid := ((lo + hi) / 2)%nat) in *.
  destruct (a !! mid) as [y|] eqn:Hy; [|apply lookup_ge_None in Hy; lia].
  destruct (p y) eqn:Hp; apply IH; try lia; try done.
  - intros i x Hi Hx. apply (Hmono i mid x y); try done. lia.
  - intros i x Hi Hx. destruct (p x) eqn:E; [|done].
    rewrite (Hmono mid i y x) in Hp; done.
Qed.

Lemma bisect_by_spec p a :
  monotone_on p a ->
  exists l r, a = l ++ r /\ length l = bisect_by p a /\
    Forall (fun x => p x = true) l /\ Forall (fun x => p x = false) r.
Proof.
  intros H. destruct (bisect_loop_spec (length a) p a 0 (length a)) as (Hr & Hlow & Hhigh);
    [done|lia|lia|lia|intros i x Hi Hx%lookup_lt_Some; lia|].
  fold (bisect_by p a) in Hr, Hlow, Hhigh. exists (take (bisect_by p a) a), (drop (bisect_by p a) a).
  rewrite take_drop, length_take. split; [done|]. split; [lia|].
  rewrite !Forall_lookup. split; intros i x Hx.
  - apply lookup_take_Some in Hx as [Hx ?]. eauto.
  - rewrite lookup_drop in Hx. eapply Hhigh; [|exact Hx]. lia.
Qed.

(** * Sorted keys *)

Definition sorted (ks : list pystr) : Prop := StronglySorted str_lt ks.

Lemma sorted_app l r :
  sorted (l ++ r) <-> sorted l /\ sorted r /\ forall x y, x ∈ l -> y ∈ r -> str_lt x y.
Proof.
  unfold sorted. induction l as [|x l IH]; simpl.
  - split; [intros H|intros (_ & H & _)]; [|done]. repeat split; [constructor|done|].
    intros x y Hx. by apply elem_of_nil in Hx.
  - split.
    + intros [H1 H2]%StronglySorted_inv. apply IH in H1 as (Hl & Hr & Hlr).
      rewrite Forall_app, !Forall_forall in H2. destruct H2 as [H2 H3].
      repeat split; [constructor; [done|by apply Forall_forall]|done|].
      intros a b [->|Ha]%elem_of_cons Hb; auto.
    + intros ([H1 H2]%StronglySorted_inv & Hr & Hlr). constructor.
      * apply IH. repeat split; try done. intros a b Ha Hb. apply Hlr; [by right|done].
      * rewrite Forall_app. split; [done|]. apply Forall_forall. intros b Hb. apply Hlr; [by left|done].
Qed.

Lemma sorted_cons x l : sorted (x :: l) <-> sorted l /\ forall y, y ∈ l -> str_lt x y.
Proof.
  change (x :: l) with ([x] ++ l). rewrite sorted_app. split.
  - intros (_ & Hl & H). split; [done|]. intros y Hy. apply H; [by left|done].
  - intros [Hl H]. split; [repeat constructor|]. split; [done|].
    intros a b ->%list_elem_of_singleton Hb. auto.
Qed.

Lemma sorted_nodup ks : sorted ks -> NoDup ks.
Proof.
  induction ks as [|k ks IH]; [constructor|]. intros [Hs Hgt]%sorted_cons. constructor; [|by apply IH].
  intros Hin. apply Hgt in Hin. by apply str_lt_irrefl in Hin.
Qed.

Lemma sorted_lookup ks i j x y :
  sorted ks -> (i < j)%nat -> ks !! i = Some x -> ks !! j = Some y -> str_lt x y.
Proof.
  intros Hs Hij Hx Hy. destruct (lookup_split ks j y Hy) as [E Hl]. rewrite E in Hs.
  apply sorted_app in Hs as (_ & _ & H). apply H; [|by left].
  apply list_elem_of_lookup. exists i. apply lookup_take_Some. done.
Qed.

Lemma bisect_left_spec ks k :
  sorted ks -> exists l r, ks = l ++ r /\ length l = bisect_left ks k /\
    Forall (fun x => str_lt x k) l /\ Forall (fun x => str_le k x) r.
Proof.
  intros Hs. destruct (bisect_by_spec (fun y => str_ltb y k) ks) as (l & r & E & Hl & H1 & H2).
  - intros i j x y Hij Hx Hy. rewrite !str_ltb_lt. intros Hyk.
    destruct (decide (i = j)) as [->|]; [congruence|].
    assert (str_lt x y) by (apply (sorted_lookup ks i j); [done|lia|done..]). key_order.
  - exists l, r. repeat split; try done; eapply Forall_impl; eauto; intros x; simpl;
      rewrite ?str_ltb_lt, ?str_ltb_ge; done.
Qed.

Lemma bisect_right_spec ks k :
  sorted ks -> exists l r, ks = l ++ r /\ length l = bisect_right ks k /\
    Forall (fun x => str_le x k) l /\ Forall (fun x => str_lt k x) r.
Proof.
  intros Hs. destruct (bisect_by_spec (fun y => negb (str_ltb k y)) ks) as (l & r & E & Hl & H1 & H2).
  - intros i j x y Hij Hx Hy. rewrite !negb_true_iff, !str_ltb_ge. intros Hyk.
    destruct (decide (i = j)) as [->|]; [congruence|].
    assert (str_lt x y) by (apply (sorted_lookup ks i j); [done|lia|done..]). key_order.
  - exists l, r. repeat split; try done; eapply Forall_impl; eauto; intros x; simpl;
      rewrite ?negb_true_iff, ?negb_false_iff, ?str_ltb_lt, ?str_ltb_ge; done.
Qed.

(** * The reference model: a sorted association list *)

Section assoc.
Context {V : Type}.
Implicit Types (kvs : list (pystr * V)) (k : pystr) (v : V).

Fixpoint kv_get k kvs : option V :=
  match kvs with
  | [] => None
  | (k', v) :: kvs => if decide (k = k') then Some v else kv_get k kvs
  end.

Fixpoint kv_set k v kvs : list (pystr * V) :=
  match kvs with
  | [] => [(k, v)]
  | (k', v') :: rest =>
      if decide (str_lt k k') then (k, v) :: kvs
      else if decide (k = k') then (k, v) :: rest
      else (k', v') :: kv_set k v rest
  end.

Fixpoint kv_del k kvs : list (pystr * V) :=
  match kvs with
  | [] => []
  | (k', v') :: rest => if decide (k = k') then rest else (k', v') :: kv_del k rest
  end.

Definition in_range (start stop : option pystr) (k : pystr) : bool :=
  match start with Some a => negb (str_ltb k a) | None => true end &&
  match stop with Some b => str_ltb k b | None => true end.

Definition kv_range (start stop : option pystr) kvs : list (pystr * V) :=
  base.filter (fun kv => in_range start stop kv.1 = true) kvs.

Definition kv_sorted kvs : Prop := sorted kvs.*1.

End assoc.

Section assoc_lemmas.
Context {V : Type}.
Implicit Types (kvs l r : list (pystr * V)) (k : pystr) (v : V).

(** All keys strictly below, strictly above, or at least [k]. *)
Definition below k kvs : Prop := Forall (fun kv => str_lt kv.1 k) kvs.
Definition above k kvs : Prop := Forall (fun kv => str_lt k kv.1) kvs.
Definition from k kvs : Prop := Forall (fun kv => str_le k kv.1) kvs.

Lemma kv_get_app_l k l r : below k l -> kv_get k (l ++ r) = kv_get k r.
Proof.
  induction 1 as [|[k' v'] l Hk Hl IH]; simpl in *; [done|].
  destruct (decide (k = k')); [key_order|done].
Qed.

Lemma kv_get_above k l : above k l -> kv_get k l = None.
Proof.
  induction 1 as [|[k' v'] l Hk Hl IH]; simpl in *; [done|].
  destruct (decide (k = k')); [key_order|done].
Qed.

Lemma kv_get_app_r k l r : above k r -> kv_get k (l ++ r) = kv_get k l.
Proof.
  intros Hr. induction l as [|[k' v'] l IH]; simpl; [by apply kv_get_above|].
  by destruct (decide (k = k')).
Qed.

Lemma kv_set_app_l k v l r : below k l -> kv_set k v (l ++ r) = l ++ kv_set k v r.
Proof.
  induction 1 as [|[k' v'] l Hk Hl IH]; simpl in *; [done|].
  destruct (decide (str_lt k k')); [key_order|]. destruct (decide (k = k')); [key_order|].
  by rewrite IH.
Qed.

Lemma kv_set_above k v l : above k l -> kv_set k v l = (k, v) :: l.
Proof.
  destruct 1 as [|[k' v'] l Hk Hl]; simpl in *; [done|].
  by destruct (decide (str_lt k k')).
Qed.

Lemma kv_set_app_r k v l r : above k r -> kv_set k v (l ++ r) = kv_set k v l ++ r.
Proof.
  intros Hr. induction l as [|[k' v'] l IH]; simpl; [by apply kv_set_above|].
  destruct (decide (str_lt k k')); [done|]. destruct (decide (k = k')); [done|]. by rewrite IH.
Qed.

Lemma kv_set_hit k v v' l : kv_set k v ((k, v') :: l) = (k, v) :: l.
Proof.
  simpl. destruct (decide (str_lt k k)); [key_order|]. by destruct (decide (k = k)).
Qed.

Lemma kv_del_app_l k l r : below k l -> kv_del k (l ++ r) = l ++ kv_del k r.
Proof.
  induction 1 as [|[k' v'] l Hk Hl IH]; simpl in *; [done|].
  destruct (decide (k = k')); [key_order|]. by rewrite IH.
Qed.

Lemma kv_del_above k l : above k l -> kv_del k l = l.
Proof.
  induction 1 as [|[k' v'] l Hk Hl IH]; simpl in *; [done|].
  destruct (decide (k = k')); [key_order|]. by rewrite IH.
Qed.

Lemma kv_del_app_r k l r : above k r -> kv_del k (l ++ r) = kv_del k l ++ r.
Proof.
  intros Hr. induction l as [|[k' v'] l IH]; simpl; [by apply kv_del_above|].
  destruct (decide (k = k')); [done|]. by rewrite IH.
Qed.

Lemma kv_del_absent k l : kv_get k l = None -> kv_del k l = l.
Proof.
  induction l as [|[k' v'] l IH]; simpl; [done|]. destruct (decide (k = k')); [done|].
  intros Hg. by rewrite IH.
Qed.

Lemma kv_del_hit k v l : kv_del k ((k, v) :: l) = l.
Proof. simpl. by destruct (decide (k = k)). Qed.

Lemma kv_sorted_cons k v kvs : kv_sorted ((k, v) :: kvs) <-> kv_sorted kvs /\ above k kvs.
Proof.
  unfold kv_sorted, above. simpl. rewrite sorted_cons, Forall_forall. split; intros [H1 H2]; (split; [done|]).
  - intros [k' v'] Hin. apply H2. apply list_elem_of_fmap. by exists (k', v').
  - intros y ([k' v'] & -> & Hin)%list_elem_of_fmap. by apply (H2 (k', v')).
Qed.

Lemma kv_sorted_app l r :
  kv_sorted (l ++ r) <-> kv_sorted l /\ kv_sorted r /\ forall x y, x ∈ l.*1 -> y ∈ r.*1 -> str_lt x y.
Proof. unfold kv_sorted. rewrite fmap_app. apply sorted_app. Qed.

Lemma above_weaken k k' l : str_le k k' -> above k' l -> above k l.
Proof. intros Hk Ha. eapply Forall_impl; [exact Ha|]. intros [x v] Hx; simpl in *. key_order. Qed.

Lemma kv_set_length k v kvs :
  kv_sorted kvs ->
  length (kv_set k v kvs) = (length kvs + match kv_get k kvs with Some _ => 0 | None => 1 end)%nat.
Proof.
  induction kvs as [|[k' v'] kvs IH]; intros Hs; simpl; [done|].
  apply kv_sorted_cons in Hs as [Hs Ha].
  destruct (decide (str_lt k k')) as [Hlt|].
  - destruct (decide (k = k')); [key_order|].
    rewrite kv_get_above by (apply (above_weaken k k'); [by left|done]). simpl. lia.
  - destruct (decide (k = k')); simpl; [lia|]. rewrite IH by done. lia.
Qed.

Lemma kv_del_length k kvs :
  length kvs = (length (kv_del k kvs) + match kv_get k kvs with Some _ => 1 | None => 0 end)%nat.
Proof.
  induction kvs as [|[k' v'] kvs IH]; simpl; [done|].
  destruct (decide (k = k')); simpl; lia.
Qed.

Lemma kv_set_keys k v kvs x : x ∈ (kv_set k v kvs).*1 <-> x = k \/ x ∈ kvs.*1.
Proof.
  induction kvs as [|[k' v'] kvs IH]; simpl; [set_solver|].
  destruct (decide (str_lt k k')); [set_solver|]. destruct (decide (k = k')); set_solver.
Qed.

Lemma kv_set_sorted k v kvs : kv_sorted kvs -> kv_sorted (kv_set k v kvs).
Proof.
  induction kvs as [|[k' v'] kvs IH]; intros Hs; simpl; [repeat constructor|].
  pose proof Hs as Hs'. apply kv_sorted_cons in Hs as [Hs Ha].
  destruct (decide (str_lt k k')) as [Hlt|Hge].
  - apply kv_sorted_cons. split; [done|]. constructor; [done|].
    apply (above_weaken k k'); [by left|done].
  - destruct (decide (k = k')) as [->|Hne]; [by apply kv_sorted_cons|].
    apply kv_sorted_cons. split; [auto|]. apply Forall_forall. intros [x y] Hin.
    assert (x ∈ (kv_set k v kvs).*1) as [->|Hx]%kv_set_keys by (apply list_elem_of_fmap; by exists (x, y)).
    + destruct (str_lt_total k k') as [?|[?|?]]; done.
    + apply list_elem_of_fmap in Hx as ([? ?] & -> & Hx). by apply (proj1 (Forall_forall _ _) Ha) in Hx.
Qed.

Lemma kv_del_sublist k kvs : sublist (kv_del k kvs) kvs.
Proof.
  induction kvs as [|[k' v'] kvs IH]; simpl; [done|].
  destruct (decide (k = k')); by constructor.
Qed.

Lemma kv_del_sorted k kvs : kv_sorted kvs -> kv_sorted (kv_del k kvs).
Proof.
  induction kvs as [|[k' v'] kvs IH]; intros Hs; simpl; [done|].
  apply kv_sorted_cons in Hs as [Hs Ha]. destruct (decide (k = k')); [done|].
  apply kv_sorted_cons. split; [auto|]. apply Forall_forall. intros x Hx.
  apply (proj1 (Forall_forall _ _) Ha). eapply elem_of_sublist; [exact Hx|apply kv_del_sublist].
Qed.

Lemma kv_get_set k k' v kvs :
  kv_sorted kvs -> kv_get k' (kv_set k v kvs) = if decide (k' = k) then Some v else kv_get k' kvs.
Proof.
  induction kvs as [|[x y] kvs IH]; intros Hs; simpl; [done|].
  apply kv_sorted_cons in Hs as [Hs Ha].
  destruct (decide (str_lt k x)); simpl.
  - destruct (decide (k' = k)), (decide (k' = x)); done.
  - destruct (decide (k = x)) as [->|]; simpl.
    + destruct (decide (k' = x)); done.
    + rewrite IH by done. destruct (decide (k' = x)), (decide (k' = k)); subst; done.
Qed.

Lemma kv_get_del k k' kvs :
  kv_sorted kvs -> kv_get k' (kv_del k kvs) = if decide (k' = k) then None else kv_get k' kvs.
Proof.
  induction kvs as [|[x y] kvs IH]; intros Hs; simpl; [by destruct (decide _)|].
  apply kv_sorted_cons in Hs as [Hs Ha].
  destruct (decide (k = x)) as [->|]; simpl.
  - destruct (decide (k' = x)) as [->|]; [by apply kv_get_above|done].
  - rewrite IH by done. destruct (decide (k' = x)), (decide (k' = k)); subst; done.
Qed.

Lemma kv_range_app a b l r : kv_range a b (l ++ r) = kv_range a b l ++ kv_range a b r.
Proof. apply filter_app. Qed.

Lemma kv_range_cons a b k v kvs :
  kv_range a b ((k, v) :: kvs) = (if in_range a b k then [(k, v)] else []) ++ kv_range a b kvs.
Proof. unfold kv_range. rewrite filter_cons. simpl. by destruct (in_range a b k). Qed.

Lemma kv_range_past_stop a b kvs : from b kvs -> kv_range a (Some b) kvs = [].
Proof.
  induction 1 as [|[k v] kvs Hk _ IH]; [done|]. rewrite kv_range_cons, IH, app_nil_r. simpl in Hk.
  unfold in_range. by rewrite (proj2 (str_ltb_ge k b) Hk), andb_false_r.
Qed.

Lemma kv_range_before_start a b kvs : below a kvs -> kv_range (Some a) b kvs = [].
Proof.
  induction 1 as [|[k v] kvs Hk _ IH]; [done|]. rewrite kv_range_cons, IH, app_nil_r. simpl in Hk.
  unfold in_range. by rewrite (proj2 (str_ltb_lt k a) Hk).
Qed.

Lemma kv_range_sorted a b kvs : kv_sorted kvs -> kv_sorted (kv_range a b kvs).
Proof.
  induction kvs as [|[k v] kvs IH]; intros Hs; [done|]. rewrite kv_range_cons.
  apply kv_sorted_cons in Hs as [Hs Ha]. destruct (in_range a b k); simpl; [|auto].
  apply kv_sorted_cons. split; [auto|]. apply Forall_forall. intros x Hx.
  apply (proj1 (Forall_forall _ _) Ha). unfold kv_range in Hx. by apply list_elem_of_filter in Hx as [_ ?].
Qed.

(** The map an association list stands for. *)
Definition kv_map kvs : gmap pystr V := list_to_map kvs.

Lemma kv_map_lookup k kvs : kv_map kvs !! k = kv_get k kvs.
Proof.
  unfold kv_map. induction kvs as [|[x y] kvs IH]; simpl; [apply lookup_empty|].
  destruct (decide (k = x)) as [->|]; [apply lookup_insert_eq|by rewrite lookup_insert_ne].
Qed.

Lemma kv_map_set k v kvs : kv_sorted kvs -> kv_map (kv_set k v kvs) = <[k := v]> (kv_map kvs).
Proof.
  intros Hs. apply map_eq. intros x. rewrite kv_map_lookup, kv_get_set, lookup_insert by done.
  rewrite kv_map_lookup. destruct (decide (x = k)), (decide (k = x)); subst; done.
Qed.

Lemma kv_map_del k kvs : kv_sorted kvs -> kv_map (kv_del k kvs) = delete k (kv_map kvs).
Proof.
  intros Hs. apply map_eq. intros x. rewrite kv_map_lookup, kv_get_del, lookup_delete by done.
  rewrite kv_map_lookup. destruct (decide (x = k)), (decide (k = x)); subst; done.
Qed.

(** A map has only one sorted list of bindings. *)
Lemma kv_get_head_unique k v l k' v' r :
  kv_sorted ((k, v) :: l) -> kv_sorted ((k', v') :: r) ->
  (forall x, kv_get x ((k, v) :: l) = kv_get x ((k', v') :: r)) -> k = k' /\ v = v'.
Proof.
  intros [Hl Ha]%kv_sorted_cons [Hr Hb]%kv_sorted_cons H.
  assert (k = k') as ->.
  { destruct (str_lt_total k k') as [Hlt|[?|Hlt]]; [|done|].
    - specialize (H k). simpl in H. rewrite decide_True in H by done.
      rewrite decide_False in H by (intros ->; key_order).
      rewrite kv_get_above in H; [done|]. apply (above_weaken k k'); [by left|done].
    - specialize (H k'). simpl in H. rewrite (decide_True (P := k' = k')) in H by done.
      rewrite decide_False in H by (intros ->; key_order).
      rewrite kv_get_above in H; [done|]. apply (above_weaken k' k); [by left|done]. }
  specialize (H k'). simpl in H. rewrite !decide_True in H by done. split; congruence.
Qed.

Lemma kv_sorted_unique l r :
  kv_sorted l -> kv_sorted r -> kv_map l = kv_map r -> l = r.
Proof.
  intros Hl Hr Hm. assert (H : forall x, kv_get x l = kv_get x r)
    by (intros x; by rewrite <- !kv_map_lookup, Hm).
  clear Hm. revert r Hr H. induction l as [|[k v] l IH]; intros [|[k' v'] r] Hr H.
  - done.
  - specialize (H k'). simpl in H. by rewrite decide_True in H.
  - specialize (H k). simpl in H. by rewrite decide_True in H.
  - destruct (kv_get_head_unique k v l k' v' r Hl Hr H) as [-> ->]. f_equal.
    apply kv_sorted_cons in Hl as [Hl Ha]. apply kv_sorted_cons in Hr as [Hr Hb].
    apply IH; [done..|]. intros x. specialize (H x). simpl in H.
    destruct (decide (x = k')) as [->|]; [by rewrite !kv_get_above|done].
Qed.

End assoc_lemmas.

(** * Bindings of byte strings, as the engines store them *)

Abbreviation kvlist := (list (pystr * bytes)).

(** The pairs a generator yields for the bindings [kvs]: every value was found. *)
Definition yields (kvs : kvlist) : list (pystr * option bytes) := map (fun kv => (kv.1, Some kv.2)) kvs.

Lemma yields_app l r : yields (l ++ r) = yields l ++ yields r.
Proof. apply map_app. Qed.
