(* ===== verification/Logical.v ===== *)
(** Lazy references and the record store they load from:
    [src/imustore/logical.py]. *)

From S2P Require Import Prelude PyBase Struct SimDisk Locking Physical PhysicalFacts Recovery.

(** * The record store *)

(** What the index asks of the storage layer: records live at addresses from
    [rs_low] on, a write either appends a record or refuses one whose length
    does not fit the 32-bit header, and neither changes a record already there. *)
Class RecordStore (S : Type) := {
  rs_read : S -> Z -> res bytes;
  rs_write : bytes -> St S Z;
  rs_ok : S -> Prop;
  rs_low : Z;
  rs_low_pos : 0 < rs_low;
  rs_write_fits s p : rs_ok s -> zlen p < 2 ^ 32 ->
    exists s' a, rs_write p s = (s', Ok a) /\ rs_ok s' /\ rs_low <= a /\ rs_read s' a = Ok p /\
      forall b q, rs_low <= b -> rs_read s b = Ok q -> rs_read s' b = Ok q;
  rs_write_big s p : rs_ok s -> 2 ^ 32 <= zlen p ->
    exists s', rs_write p s = (s', Raise StructError) /\ rs_ok s' /\
      forall b q, rs_low <= b -> rs_read s b = Ok q -> rs_read s' b = Ok q
}.

(** [s'] still holds every record of [s]. *)
Definition extends {S} `{RecordStore S} (s s' : S) : Prop :=
  forall b q, rs_low <= b -> rs_read s b = Ok q -> rs_read s' b = Ok q.

#[global] Instance extends_preorder {S} `{RecordStore S} : PreOrder extends.
Proof. split; [by intros s b q|intros ? ? ? H1 H2 b q Hb Hq; auto]. Qed.

(** The storage layer is a record store. *)
#[global, refine] Instance storage_store : RecordStore Storage := {|
  rs_read s a := (storage.read a s).2;
  rs_write := storage.write;
  rs_ok s := _readonly s = false /\ SUPERBLOCK_SIZE <= zlen (live s);
  rs_low := SUPERBLOCK_SIZE
|}.
Proof.
  - reflexivity.
  - intros s p [Hr Hl] Hp. eexists _, _. split; [by apply storage_write_spec|].
    assert (Hval : forall a st, (storage.read a st).2 = record_at (live st) a)
      by (intros a st; by destruct (storage_read_reads a st) as [q ->]).
    rewrite Hval. change (live (with_live ?l _ _)) with l.
    split; [split; [done|]; change (live (with_live ?l _ _)) with l; rewrite zlen_app;
            pose proof (zlen_nonneg (record_bytes p)); lia|].
    split; [done|]. split.
    + rewrite <- (app_nil_r (record_bytes p)). apply record_at_end; [|done].
      unfold SUPERBLOCK_SIZE, META_SLOT_SIZE, META_SLOTS in *; lia.
    + intros b q _. rewrite !Hval. apply record_at_app.
  - intros s p [Hr Hl] Hp. exists (at_pos (zlen (live s)) s).
    assert (Hval : forall a st, (storage.read a st).2 = record_at (live st) a)
      by (intros a st; by destruct (storage_read_reads a st) as [q ->]).
    split; [|split; [done|intros b q _; by rewrite !Hval]].
    unfold storage.write. erewrite stx_bind_ok by reflexivity. rewrite Hr.
    erewrite stx_bind_ok by apply file_size_spec. rewrite Z.max_l by done.
    erewrite stx_bind_ok by apply seek_spec.
    assert (pack_uint 4 (zlen p) = Raise StructError) as ->; [|done].
    unfold pack_uint. change (256 ^ Z.of_nat 4) with (2 ^ 32).
    destruct (Z.ltb_spec (zlen p) (2 ^ 32)); [lia|by rewrite andb_false_r].
Defined.

(** A sequence of writes, successful or refused. *)
Inductive writes {S} `{RecordStore S} : S -> S -> Prop :=
| writes_refl st : writes st st
| writes_step st p st' r st'' : rs_write p st = (st', r) -> writes st' st'' -> writes st st''.

Lemma writes_one {S} `{RecordStore S} st p st' r : rs_write p st = (st', r) -> writes st st'.
Proof. intros Hw. eapply writes_step; [exact Hw|apply writes_refl]. Qed.

#[global] Instance writes_trans {S} `{RecordStore S} : Transitive writes.
Proof.
  intros s1 s2 s3 H1 H2. induction H1 as [|? ? ? ? ? Hw _ IH]; [done|]. by eapply writes_step; [|apply IH].
Qed.

(** Writing keeps the store usable and every record in place. *)
Lemma writes_extends {S} `{RecordStore S} st st' : rs_ok st -> writes st st' -> rs_ok st' /\ extends st st'.
Proof.
  intros Hok Hw. induction Hw as [st|st p st' r st'' Hw _ IH]; [done|].
  assert (rs_ok st' /\ extends st st') as [Hok' He].
  { destruct (Z.lt_ge_cases (zlen p) (2 ^ 32)) as [Hp|Hp].
    - destruct (rs_write_fits st p Hok Hp) as (s1 & a & E & Hs1 & _ & _ & He).
      rewrite E in Hw. by injection Hw as <- _.
    - destruct (rs_write_big st p Hok Hp) as (s1 & E & Hs1 & He). rewrite E in Hw. by injection Hw as <- _. }
  destruct (IH Hok') as [Hok'' He']. split; [done|]. by transitivity st'.
Qed.

(** * References *)

(** [ValueRef] and its subclasses: an object known by value, by address, or both. *)
Record ref (A : Type) : Type := Ref { referent : option A; address : Z }.
Arguments Ref {A} referent address.
Arguments referent {A} r.
Arguments address {A} r.

Section refs.
Context {S : Type} `{RecordStore S}.

(** [ValueRef.get]: the referent, loading and caching it on first use. *)
Definition ref_get {A} (bytes_to_referent : bytes -> res A) (st : S) (r : ref A) :
    res (option A * ref A) :=
  match referent r with
  | Some x => Ok (Some x, r)
  | None =>
      if address r =? 0 then Ok (None, r)
      else
        payload ← rs_read st (address r);
        x ← bytes_to_referent payload;
        Ok (Some x, Ref (Some x) (address r))
  end.

(** [LogicalBase._follow]; the cached copy it leaves in the reference equals the
    record, which never changes, so only the value is returned. *)
Definition _follow {A} (bytes_to_referent : bytes -> res A) (st : S) (r : ref A) : res (option A) :=
  fst <$> ref_get bytes_to_referent st r.

(** Following a reference again gives the same object, from the cache, whatever
    happens to the store in between. *)
Lemma ref_get_cached {A} dec (st st' : S) (r r' : ref A) x :
  ref_get dec st r = Ok (x, r') -> ref_get dec st' r' = Ok (x, r') \/ x = None.
Proof.
  unfold ref_get. destruct (referent r) as [y|] eqn:E.
  - intros [= <- <-]. left. by rewrite E.
  - destruct (address r =? 0); [intros [= <- <-]; by right|].
    intros (p & Hp & Hx)%result_bind_inv. apply result_bind_inv in Hx as (y & Hy & [= <- <-]).
    by left.
Qed.

(** A reference the store can resolve: a new object in memory, or the address of
    a record that decodes to the object. *)
Definition resolves {A} (dec : bytes -> res A) (st : S) (r : ref A) (x : A) : Prop :=
  (referent r = Some x /\ address r = 0) \/
  referent r = None /\ rs_low <= address r /\
    exists b, rs_read st (address r) = Ok b /\ dec b = Ok x.

Lemma resolves_follow {A} (dec : bytes -> res A) st r x :
  resolves dec st r x -> _follow dec st r = Ok (Some x).
Proof.
  unfold _follow, ref_get. intros [[-> _] | (-> & Ha & b & Hb & Hx)]; [done|].
  pose proof rs_low_pos. destruct (Z.eqb_spec (address r) 0); [lia|].
  rewrite Hb. simpl. by rewrite Hx.
Qed.

Lemma resolves_extends {A} (dec : bytes -> res A) st st' r x :
  extends st st' -> resolves dec st r x -> resolves dec st' r x.
Proof.
  intros He [Hr|(Hr & Ha & b & Hb & Hx)]; [by left|]. right. eauto 10.
Qed.

Lemma resolves_mem {A} (dec : bytes -> res A) st x : resolves dec st (Ref (Some x) 0) x.
Proof. by left. Qed.

(** [ValueRef.store] with the class's [referent_to_bytes]; [prepare] is
    [prepare_to_store]. *)
Definition ref_store {A} (prepare : A -> St S A) (referent_to_bytes : A -> bytes) (r : ref A) :
    St S (ref A) :=
  match referent r with
  | Some x =>
      if address r =? 0 then
        x' ← prepare x;
        a ← rs_write (referent_to_bytes x');
        mret (Ref (Some x') a)
      else mret r
  | None => mret r
  end.

(** A plain [ValueRef] holds the value's bytes. *)
Abbreviation value_ref := (ref bytes).
Definition value_follow (st : S) (r : value_ref) : res (option bytes) := _follow (fun b => Ok b) st r.
Definition value_store (r : value_ref) : St S value_ref := ref_store mret (fun b => b) r.

(** Storing a list of references, as [store_refs] does: each is stored or the
    first refused record raises. *)
Lemma mapM_store {A B} (f : A -> St S A) (Q Q' : S -> A -> B -> Prop) :
  (forall st st' a b, extends st st' -> Q st a b -> Q st' a b) ->
  (forall st st' a b, extends st st' -> Q' st a b -> Q' st' a b) ->
  (forall st a b, rs_ok st -> Q st a b -> exists st', writes st st' /\
     ((exists a', f a st = (st', Ok a') /\ Q' st' a' b) \/ f a st = (st', Raise StructError))) ->
  forall st l bs, rs_ok st -> Forall2 (Q st) l bs -> exists st', writes st st' /\
     ((exists l', mapM_st f l st = (st', Ok l') /\ Forall2 (Q' st') l' bs) \/
      mapM_st f l st = (st', Raise StructError)).
Proof.
  intros HQ HQ' Hf st l bs Hok HF. revert st Hok HF. revert bs.
  induction l as [|a l IH]; intros bs st Hok HF.
  - apply Forall2_nil_inv_l in HF as ->. exists st. split; [apply writes_refl|]. left. exists []. by split; [|constructor].
  - apply Forall2_cons_inv_l in HF as (b & bs' & Hb & HF & ->). cbn [mapM_st].
    destruct (Hf st a b Hok Hb) as (st1 & Hw1 & [(a' & Ha & Hb')|Ha]).
    2:{ exists st1. split; [done|]. right. by apply stx_bind_raise. }
    destruct (writes_extends _ _ Hok Hw1) as [Hok1 He1]. erewrite stx_bind_ok by exact Ha.
    destruct (IH bs' st1 Hok1) as (st2 & Hw2 & [(l' & Hl & HF')|Hl]).
    { eapply Forall2_impl; [exact HF|]. intros x y. by apply HQ. }
    + exists st2. split; [by transitivity st1|]. left. exists (a' :: l').
      erewrite stx_bind_ok by exact Hl. split; [done|]. constructor; [|done].
      eapply HQ'; [|exact Hb']. by eapply writes_extends.
    + exists st2. split; [by transitivity st1|]. right. by apply stx_bind_raise.
Qed.

(** Writing one object and remembering where. *)
Lemma write_resolves {A} (dec : bytes -> res A) st b x :
  rs_ok st -> dec b = Ok x -> exists st', writes st st' /\
    ((exists a, rs_write b st = (st', Ok a) /\ resolves dec st' (Ref None a) x) \/
     rs_write b st = (st', Raise StructError)).
Proof.
  intros Hok Hdec. destruct (Z.lt_ge_cases (zlen b) (2 ^ 32)) as [Hb|Hb].
  - destruct (rs_write_fits st b Hok Hb) as (st' & a & E & _ & Ha & Hr & _). exists st'.
    split; [by eapply writes_one|]. left. exists a. split; [done|]. right. eauto.
  - destruct (rs_write_big st b Hok Hb) as (st' & E & _). exists st'. split; [by eapply writes_one|by right].
Qed.

Lemma value_store_spec st (r : ref bytes) v :
  rs_ok st -> resolves (fun b => Ok b) st r v -> exists st', writes st st' /\
    ((exists r', value_store r st = (st', Ok r') /\ resolves (fun b => Ok b) st' (Ref None (address r')) v) \/
     value_store r st = (st', Raise StructError)).
Proof.
  intros Hok. unfold value_store, ref_store. intros [[-> Ha]|(Hn & Ha & Hr)].
  - rewrite Ha. change (0 =? 0) with true. cbv iota. erewrite stx_bind_ok by reflexivity.
    destruct (write_resolves (fun b => Ok b) st v v Hok eq_refl) as (st' & Hw & [(a & E & Hres)|E]); exists st'; (split; [done|]).
    + left. eexists. erewrite stx_bind_ok by exact E. split; [reflexivity|done].
    + right. by apply stx_bind_raise.
  - rewrite Hn. exists st. split; [apply writes_refl|]. left. exists r. split; [done|]. right. done.
Qed.

End refs.

#[export] Hint Resolve resolves_mem : immu.
