(* ===== verification/Pickle.v ===== *)
(** Serialised index nodes.

    The engines write nodes with [pickle.dumps] and read them with
    [pickle.loads].  The byte string pickle produces depends on object identity
    (memoised strings) and on the interpreter's framing, so it is a parameter of
    the development; what the code relies on is that loading a dumped dictionary
    gives the dictionary back. *)

From S2P Require Import Prelude PyBase Struct.

(** The dictionaries the engines pickle: the two of
    [BPlusNodeRef.referent_to_bytes] and the one of [BinaryNodeRef]. *)
Inductive payload : Type :=
| PLeaf (keys : list pystr) (values : list Z)
| PInternal (keys : list pystr) (children : list Z)
| PBinary (left : Z) (key : pystr) (value right length : Z).

Class Pickle : Type := {
  dumps : payload -> bytes;
  loads : bytes -> res payload;
  loads_dumps p : loads (dumps p) = Ok p
}.

(** * An instance *)

(** A codec through [Countable], one byte per bit: it shows the interface can be
    implemented and runs in the examples. *)
Definition payload_code : Type :=
  (list pystr * list Z) + (list pystr * list Z) + (Z * pystr * Z * Z * Z).

Definition to_code (p : payload) : payload_code :=
  match p with
  | PLeaf ks vs => inl (inl (ks, vs))
  | PInternal ks cs => inl (inr (ks, cs))
  | PBinary l k v r n => inr (l, k, v, r, n)
  end.

Definition of_code (c : payload_code) : payload :=
  match c with
  | inl (inl (ks, vs)) => PLeaf ks vs
  | inl (inr (ks, cs)) => PInternal ks cs
  | inr (l, k, v, r, n) => PBinary l k v r n
  end.

Lemma of_to_code p : of_code (to_code p) = p.
Proof. by destruct p. Qed.

#[global] Instance payload_code_countable : Countable payload_code.
Proof. unfold payload_code, pystr. apply _. Defined.

Fixpoint bits_of (p : positive) : bytes :=
  match p with
  | xH => []
  | xO p => Byte.x00 :: bits_of p
  | xI p => Byte.x01 :: bits_of p
  end.

Fixpoint of_bits (b : bytes) : positive :=
  match b with
  | [] => xH
  | x :: b => if bool_decide (x = Byte.x00) then xO (of_bits b) else xI (of_bits b)
  end.

Lemma of_bits_of p : of_bits (bits_of p) = p.
Proof. induction p as [p IH|p IH|]; simpl; by rewrite ?IH. Qed.

Definition bit_dumps (p : payload) : bytes := bits_of (encode (to_code p)).
Definition bit_loads (b : bytes) : res payload :=
  match decode (of_bits b) with Some c => Ok (of_code c) | None => Raise UnpicklingError end.

Definition bit_pickle : Pickle.
Proof.
  refine {| dumps := bit_dumps; loads := bit_loads |}.
  intros p. unfold bit_loads, bit_dumps. by rewrite of_bits_of, decode_encode, of_to_code.
Defined.
