(* ===== verification/BPlusTree.v ===== *)
(** The copy-on-write B+ tree: [src/imustore/bplus_tree.py].

    The functions follow the methods of [BPlusTree] one by one.  [self._count]
    is the state of the [St Z] computations; the store is only read.  Recursion
    over nodes loaded from the store carries the recursion limit as fuel. *)

From S2P Require Import Prelude PyBase Struct SimDisk Logical KeyList Pickle.

(** * Nodes *)

Inductive bnode : Type :=
| LeafNode (keys : list pystr) (values : list (ref bytes))
| InternalNode (keys : list pystr) (children : list (ref bnode)).

Definition node_keys (n : bnode) : list pystr :=
  match n with LeafNode ks _ => ks | InternalNode ks _ => ks end.
Definition _num_keys (n : bnode) : nat := length (node_keys n).
Definition is_leaf (n : bnode) : bool :=
  match n with LeafNode _ _ => true | InternalNode _ _ => false end.

Abbreviation nref := (ref bnode).

(** Python list indexing, assignment and deletion by a non-negative index. *)
Definition py_nth {A} (l : list A) (i : nat) : res A :=
  match l !! i with Some x => Ok x | None => Raise IndexError end.
Definition py_setitem {A} (l : list A) (i : nat) (x : A) : res (list A) :=
  if decide (i < length l)%nat then Ok (<[i := x]> l) else Raise IndexError.
Definition py_delitem {A} (l : list A) (i : nat) : res (list A) :=
  if decide (i < length l)%nat then Ok (take i l ++ drop (S i) l) else Raise IndexError.
Definition py_insert {A} (l : list A) (i : nat) (x : A) : list A := take i l ++ x :: drop i l.
(** [l[-1]] and [l[:-1]] *)
Definition py_last {A} (l : list A) : res A :=
  match last l with Some x => Ok x | None => Raise IndexError end.
Definition py_init {A} (l : list A) : list A := take (length l - 1) l.

Section py_lists.
Context {A : Type}.
Implicit Types (l : list A) (x y : A).

Lemma py_nth_app l1 x l2 i : i = length l1 -> py_nth (l1 ++ x :: l2) i = Ok x.
Proof. intros ->. unfold py_nth. by rewrite lookup_app_exact. Qed.

Lemma py_setitem_app l1 x y l2 i : i = length l1 -> py_setitem (l1 ++ x :: l2) i y = Ok (l1 ++ y :: l2).
Proof.
  intros ->. unfold py_setitem. rewrite decide_True by (rewrite length_app; simpl; lia).
  by rewrite insert_app_exact.
Qed.

Lemma py_delitem_app l1 x l2 i : i = length l1 -> py_delitem (l1 ++ x :: l2) i = Ok (l1 ++ l2).
Proof.
  intros ->. unfold py_delitem. rewrite decide_True by (rewrite length_app; simpl; lia).
  rewrite take_app_length. change (x :: l2) with ([x] ++ l2). rewrite app_assoc.
  by rewrite drop_app_exact by (rewrite length_app; simpl; lia).
Qed.

Lemma py_insert_app l1 l2 i x : i = length l1 -> py_insert (l1 ++ l2) i x = l1 ++ x :: l2.
Proof. intros ->. unfold py_insert. by rewrite take_app_length, drop_app_length. Qed.

(** The same one position further on. *)
Lemma app_cons_snoc l1 x l2 : l1 ++ x :: l2 = (l1 ++ [x]) ++ l2.
Proof. by rewrite <- app_assoc. Qed.

Lemma py_nth_app2 l1 x y l2 i : i = S (length l1) -> py_nth (l1 ++ x :: y :: l2) i = Ok y.
Proof. intros ->. rewrite app_cons_snoc. apply py_nth_app. rewrite length_app. simpl. lia. Qed.

Lemma py_setitem_app2 l1 x y z l2 i :
  i = S (length l1) -> py_setitem (l1 ++ x :: y :: l2) i z = Ok (l1 ++ x :: z :: l2).
Proof.
  intros ->. rewrite (app_cons_snoc l1 x (y :: l2)), (app_cons_snoc l1 x (z :: l2)). apply py_setitem_app. rewrite length_app. simpl. lia.
Qed.

Lemma py_delitem_app2 l1 x y l2 i :
  i = S (length l1) -> py_delitem (l1 ++ x :: y :: l2) i = Ok (l1 ++ x :: l2).
Proof.
  intros ->. rewrite (app_cons_snoc l1 x (y :: l2)), (app_cons_snoc l1 x l2). apply py_delitem_app. rewrite length_app. simpl. lia.
Qed.

Lemma py_last_snoc l x : py_last (l ++ [x]) = Ok x.
Proof. unfold py_last. by rewrite last_snoc. Qed.

Lemma py_init_snoc l x : py_init (l ++ [x]) = l.
Proof. unfold py_init. rewrite length_app. simpl. by rewrite Nat.add_sub, take_app_length. Qed.

End py_lists.

Section bplus.
Context `{Pickle}.

(** ** [BPlusNodeRef] *)

Definition referent_to_bytes (n : bnode) : bytes :=
  match n with
  | LeafNode ks vs => dumps (PLeaf ks (map address vs))
  | InternalNode ks cs => dumps (PInternal ks (map address cs))
  end.

Definition bytes_to_referent (b : bytes) : res bnode :=
  data ← loads b;
  match data with
  | PLeaf ks vs => Ok (LeafNode ks (map (Ref None) vs))
  | PInternal ks cs => Ok (InternalNode ks (map (Ref None) cs))
  | PBinary _ _ _ _ _ => Raise (KeyError (str "leaf"))
  end.

Context {S : Type} `{RecordStore S}.
Context (order : nat).

Definition _min_keys : nat := (order / 2)%nat.

Definition follow (st : S) (r : nref) : res (option bnode) := _follow bytes_to_referent st r.

(** ** Node constructors *)

Definition _leaf_ref (ks : list pystr) (vs : list (ref bytes)) : nref :=
  Ref (Some (LeafNode ks vs)) 0.
Definition _internal_ref (ks : list pystr) (cs : list nref) : nref :=
  Ref (Some (InternalNode ks cs)) 0.

(** ** Reads *)

Fixpoint _get (fuel : nat) (st : S) (node : option bnode) (key : pystr) : res (option bytes) :=
  match fuel with
  | O => Raise RecursionError
  | Datatypes.S fuel =>
      match node with
      | None => Raise (KeyError key)
      | Some (LeafNode ks vs) =>
          let index := bisect_left ks key in
          match ks !! index with
          | Some k => if bool_decide (k = key) then r ← py_nth vs index; value_follow st r
                      else Raise (KeyError key)
          | None => Raise (KeyError key)
          end
      | Some (InternalNode ks cs) =>
          r ← py_nth cs (bisect_right ks key);
          n ← follow st r;
          _get fuel st n key
      end
  end.

(** The pairs a leaf yields. *)
Fixpoint leaf_items (st : S) (l : list (pystr * ref bytes)) : res (list (pystr * option bytes)) :=
  match l with
  | [] => Ok []
  | (k, r) :: l => v ← value_follow st r; rest ← leaf_items st l; Ok ((k, v) :: rest)
  end.

(** [for child_ref in node.children: yield from self._items(...)] *)
Fixpoint items_children (items : option bnode -> res (list (pystr * option bytes))) (st : S)
    (cs : list nref) : res (list (pystr * option bytes)) :=
  match cs with
  | [] => Ok []
  | r :: cs => n ← follow st r; xs ← items n; rest ← items_children items st cs; Ok (xs ++ rest)
  end.

Fixpoint _items (fuel : nat) (st : S) (node : option bnode) : res (list (pystr * option bytes)) :=
  match fuel with
  | O => Raise RecursionError
  | Datatypes.S fuel =>
      match node with
      | None => Ok []
      | Some (LeafNode ks vs) => leaf_items st (zip ks vs)
      | Some (InternalNode ks cs) => items_children (_items fuel st) st cs
      end
  end.

(** The leaf loop of [_range_items]: [continue] below [start], [break] at [stop]. *)
Fixpoint leaf_range (st : S) (start stop : option pystr) (l : list (pystr * ref bytes)) :
    res (list (pystr * option bytes)) :=
  match l with
  | [] => Ok []
  | (k, r) :: l =>
      if match start with Some a => str_ltb k a | None => false end then leaf_range st start stop l
      else if match stop with Some b => str_leb b k | None => false end then Ok []
      else v ← value_follow st r; rest ← leaf_range st start stop l; Ok ((k, v) :: rest)
  end.

(** The child loop of [_range_items]: a subtree wholly outside the range is
    skipped by its separators. *)
Fixpoint range_children (range_items : option bnode -> res (list (pystr * option bytes))) (st : S)
    (start stop : option pystr) (ks : list pystr) (index : nat) (cs : list nref) :
    res (list (pystr * option bytes)) :=
  match cs with
  | [] => Ok []
  | r :: cs =>
      left_bound ← (match index with
                    | O => Ok None
                    | Datatypes.S i => Some <$> py_nth ks i
                    end);
      let right_bound := ks !! index in
      if match stop, left_bound with Some b, Some lb => str_leb b lb | _, _ => false end
      then Ok []
      else if match start, right_bound with Some a, Some rb => str_leb rb a | _, _ => false end
      then range_children range_items st start stop ks (Datatypes.S index) cs
      else
        n ← follow st r;
        xs ← range_items n;
        rest ← range_children range_items st start stop ks (Datatypes.S index) cs;
        Ok (xs ++ rest)
  end.

Fixpoint _range_items (fuel : nat) (st : S) (node : option bnode) (start stop : option pystr) :
    res (list (pystr * option bytes)) :=
  match fuel with
  | O => Raise RecursionError
  | Datatypes.S fuel =>
      match node with
      | None => Ok []
      | Some (LeafNode ks vs) => leaf_range st start stop (zip ks vs)
      | Some (InternalNode ks cs) =>
          range_children (fun n => _range_items fuel st n start stop) st start stop ks 0 cs
      end
  end.

(** ** Insert *)

(** [self._count += d] *)
Definition bump (d : Z) : St Z unit := modify (fun c => c + d).

Fixpoint _insert_rec (fuel : nat) (st : S) (node : bnode) (key : pystr) (value_ref : ref bytes) :
    St Z (nref * option (pystr * nref)) :=
  match fuel with
  | O => raise RecursionError
  | Datatypes.S fuel =>
      match node with
      | LeafNode ks0 vs0 =>
          let index := bisect_left ks0 key in
          '(keys, values) ←
            (if match ks0 !! index with Some k => bool_decide (k = key) | None => false end
             then vs ← lift_res (py_setitem vs0 index value_ref); mret (ks0, vs)
             else bump 1 ;; mret (py_insert ks0 index key, py_insert vs0 index value_ref));
          if decide (length keys <= order)%nat then mret (_leaf_ref keys values, None)
          else
            let mid := (length keys / 2)%nat in
            let left := _leaf_ref (take mid keys) (take mid values) in
            let right := _leaf_ref (drop mid keys) (drop mid values) in
            sep ← lift_res (py_nth keys mid);
            mret (left, Some (sep, right))
      | InternalNode ks0 cs0 =>
          let child_index := bisect_right ks0 key in
          r ← lift_res (py_nth cs0 child_index);
          child ← lift_res (follow st r);
          '(new_child_ref, split) ←
            (match child with
             | Some c => _insert_rec fuel st c key value_ref
             | None => raise AttributeError
             end);
          children1 ← lift_res (py_setitem cs0 child_index new_child_ref);
          let '(keys, children) :=
            match split with
            | None => (ks0, children1)
            | Some (separator, right_ref) =>
                (py_insert ks0 child_index separator,
                 py_insert children1 (Datatypes.S child_index) right_ref)
            end in
          if decide (length keys <= order)%nat then mret (_internal_ref keys children, None)
          else
            let mid := (length keys / 2)%nat in
            promoted ← lift_res (py_nth keys mid);
            let left := _internal_ref (take mid keys) (take (Datatypes.S mid) children) in
            let right := _internal_ref (drop (Datatypes.S mid) keys)
                                       (drop (Datatypes.S mid) children) in
            mret (left, Some (promoted, right))
      end
  end.

Definition _insert (fuel : nat) (st : S) (node : option bnode) (key : pystr) (value_ref : ref bytes) :
    St Z nref :=
  match node with
  | None => bump 1 ;; mret (_leaf_ref [key] [value_ref])
  | Some n =>
      '(new_ref, split) ← _insert_rec fuel st n key value_ref;
      match split with
      | None => mret new_ref
      | Some (separator, right_ref) => mret (_internal_ref [separator] [new_ref; right_ref])
      end
  end.

(** ** Delete *)

(** The helpers mutate the caller's [keys] and [children] lists; here they
    return them. *)
Definition _borrow_from_left (keys : list pystr) (children : list nref) (index : nat)
    (left child : bnode) : res (list pystr * list nref) :=
  match child, left with
  | LeafNode cks cvs, LeafNode lks lvs =>
      children ← py_setitem children (index - 1) (_leaf_ref (py_init lks) (py_init lvs));
      lk ← py_last lks;
      lv ← py_last lvs;
      children ← py_setitem children index (_leaf_ref (lk :: cks) (lv :: cvs));
      keys ← py_setitem keys (index - 1) lk;
      Ok (keys, children)
  | InternalNode cks ccs, InternalNode lks lcs =>
      children ← py_setitem children (index - 1) (_internal_ref (py_init lks) (py_init lcs));
      sep ← py_nth keys (index - 1);
      lc ← py_last lcs;
      children ← py_setitem children index (_internal_ref (sep :: cks) (lc :: ccs));
      lk ← py_last lks;
      keys ← py_setitem keys (index - 1) lk;
      Ok (keys, children)
  | _, _ => Raise AttributeError
  end.

Definition _borrow_from_right (keys : list pystr) (children : list nref) (index : nat)
    (right child : bnode) : res (list pystr * list nref) :=
  match child, right with
  | LeafNode cks cvs, LeafNode rks rvs =>
      rk ← py_nth rks 0;
      rv ← py_nth rvs 0;
      children ← py_setitem children index (_leaf_ref (cks ++ [rk]) (cvs ++ [rv]));
      children ← py_setitem children (index + 1) (_leaf_ref (drop 1 rks) (drop 1 rvs));
      rk1 ← py_nth rks 1;
      keys ← py_setitem keys index rk1;
      Ok (keys, children)
  | InternalNode cks ccs, InternalNode rks rcs =>
      sep ← py_nth keys index;
      rc ← py_nth rcs 0;
      children ← py_setitem children index (_internal_ref (cks ++ [sep]) (ccs ++ [rc]));
      children ← py_setitem children (index + 1) (_internal_ref (drop 1 rks) (drop 1 rcs));
      rk ← py_nth rks 0;
      keys ← py_setitem keys index rk;
      Ok (keys, children)
  | _, _ => Raise AttributeError
  end.

Definition _merge (keys : list pystr) (children : list nref) (left_index : nat)
    (left right : bnode) : res (list pystr * list nref) :=
  merged ← (match left, right with
            | LeafNode lks lvs, LeafNode rks rvs => Ok (_leaf_ref (lks ++ rks) (lvs ++ rvs))
            | InternalNode lks lcs, InternalNode rks rcs =>
                sep ← py_nth keys left_index;
                Ok (_internal_ref (lks ++ sep :: rks) (lcs ++ rcs))
            | _, _ => Raise AttributeError
            end);
  children ← py_setitem children left_index merged;
  children ← py_delitem children (left_index + 1);
  keys ← py_delitem keys left_index;
  Ok (keys, children).

Definition has_spare (n : option bnode) : bool :=
  match n with Some n => bool_decide (_min_keys < _num_keys n)%nat | None => false end.

Definition _rebalance (st : S) (keys : list pystr) (children : list nref) (index : nat) :
    res nref :=
  cr ← py_nth children index;
  child ← follow st cr;
  left ← (if decide (0 < index)%nat then r ← py_nth children (index - 1); follow st r else Ok None);
  right ← (if decide (index + 1 < length children)%nat
           then r ← py_nth children (index + 1); follow st r else Ok None);
  '(keys, children) ←
    (match child with
     | None => Raise AttributeError
     | Some c =>
         if has_spare left then
           match left with
           | Some l => _borrow_from_left keys children index l c
           | None => Raise AttributeError
           end
         else if has_spare right then
           match right with
           | Some r => _borrow_from_right keys children index r c
           | None => Raise AttributeError
           end
         else match left, right with
              | Some l, _ => _merge keys children (index - 1) l c
              | None, Some r => _merge keys children index c r
              | None, None => Raise AttributeError
              end
     end);
  Ok (_internal_ref keys children).

Fixpoint _delete_rec (fuel : nat) (st : S) (node : bnode) (key : pystr) : St Z nref :=
  match fuel with
  | O => raise RecursionError
  | Datatypes.S fuel =>
      match node with
      | LeafNode ks vs =>
          let index := bisect_left ks key in
          if match ks !! index with Some k => bool_decide (k = key) | None => false end then
            keys ← lift_res (py_delitem ks index);
            values ← lift_res (py_delitem vs index);
            bump (-1) ;;
            mret (_leaf_ref keys values)
          else raise (KeyError key)
      | InternalNode ks cs =>
          let child_index := bisect_right ks key in
          r ← lift_res (py_nth cs child_index);
          child ← lift_res (follow st r);
          new_child_ref ←
            (match child with Some c => _delete_rec fuel st c key | None => raise AttributeError end);
          children ← lift_res (py_setitem cs child_index new_child_ref);
          new_child ← lift_res (follow st new_child_ref);
          match new_child with
          | None => raise AttributeError
          | Some c =>
              if decide (_min_keys <= _num_keys c)%nat then mret (_internal_ref ks children)
              else lift_res (_rebalance st ks children child_index)
          end
      end
  end.

Definition _delete (fuel : nat) (st : S) (node : option bnode) (key : pystr) : St Z nref :=
  match node with
  | None => raise (KeyError key)
  | Some n =>
      new_ref ← _delete_rec fuel st n key;
      new_node ← lift_res (follow st new_ref);
      match new_node with
      | Some (InternalNode [] cs) => lift_res (py_nth cs 0)
      | Some (LeafNode [] _) => mret (Ref None 0)
      | _ => mret new_ref
      end
  end.

(** ** Height *)

(** The descent of [height]: internal levels, plus one for the leaf. *)
Fixpoint _height (fuel : nat) (st : S) (node : option bnode) : res Z :=
  match fuel with
  | O => Raise RecursionError
  | Datatypes.S fuel =>
      match node with
      | Some (InternalNode _ cs) =>
          r ← py_nth cs 0; n ← follow st r; h ← _height fuel st n; Ok (h + 1)
      | Some (LeafNode _ _) => Ok 1
      | None => Ok 0
      end
  end.

End bplus.
