(* ===== verification/BPlusRep.v ===== *)
(** The B+ tree invariant, and reading the tree: which node structures represent
    which association list ([src/imustore/bplus_tree.py]). *)

From S2P Require Import Prelude PyBase Struct SimDisk KeyList Logical Pickle BPlusTree.

(** The B+ tree invariant: which node structures represent which sorted
    association list, and how the children of an internal node fit together. *)

(** * Bounds *)

Definition lo_le (lo : option pystr) (k : pystr) : Prop :=
  match lo with Some a => str_le a k | None => True end.
Definition lo_lt (lo : option pystr) (k : pystr) : Prop :=
  match lo with Some a => str_lt a k | None => True end.
Definition lt_hi (k : pystr) (hi : option pystr) : Prop :=
  match hi with Some b => str_lt k b | None => True end.

(** Keys a leaf may hold, and separators an internal node may hold, between
    [lo] and [hi]. *)
Definition within (lo hi : option pystr) (k : pystr) : Prop := lo_le lo k /\ lt_hi k hi.
Definition inside (lo hi : option pystr) (k : pystr) : Prop := lo_lt lo k /\ lt_hi k hi.

Ltac bounds :=
  unfold within, inside, lo_le, lo_lt, lt_hi in *; simpl in *;
  repeat match goal with
  | x : option pystr |- _ => destruct x
  end; simpl in *; repeat match goal with H : _ /\ _ |- _ => destruct H end;
  repeat split; try exact I; try assumption; try key_order.

Lemma inside_within lo hi k : inside lo hi k -> within lo hi k.
Proof. intros []. bounds. Qed.

Lemma inside_split lo hi a k : inside lo hi a -> inside (Some a) hi k -> inside lo hi k.
Proof. intros [] []. bounds. Qed.

(** * Children of an internal node *)

(** [kids C lo hi ks cs kvs]: the children [cs] alternate with the separators
    [ks]; child [i] satisfies [C] between the separators around it, and [kvs] is
    the concatenation of what the children hold. *)
Section kids.
Context {R : Type} (C : option pystr -> option pystr -> R -> kvlist -> Prop).

Inductive kids : option pystr -> option pystr -> list pystr -> list R -> kvlist -> Prop :=
| kids_one lo hi r l : C lo hi r l -> kids lo hi [] [r] l
| kids_cons lo hi k ks r cs l1 l2 :
    C lo (Some k) r l1 -> kids (Some k) hi ks cs l2 -> kids lo hi (k :: ks) (r :: cs) (l1 ++ l2).

Lemma kids_length lo hi ks cs l : kids lo hi ks cs l -> length cs = S (length ks).
Proof. induction 1; simpl; lia. Qed.

Lemma kids_join lo hi a ks1 ks2 cs1 cs2 l1 l2 :
  kids lo (Some a) ks1 cs1 l1 -> kids (Some a) hi ks2 cs2 l2 ->
  kids lo hi (ks1 ++ a :: ks2) (cs1 ++ cs2) (l1 ++ l2).
Proof.
  intros H1 H2. remember (Some a) as b eqn:Eb.
  induction H1 as [lo b r l Hr|lo b k ks r cs l1 l1' Hr H1 IH]; subst; simpl.
  - by constructor.
  - rewrite <- app_assoc. constructor; [done|]. by apply IH.
Qed.

Lemma kids_split lo hi ks1 a ks2 cs l :
  kids lo hi (ks1 ++ a :: ks2) cs l ->
  exists cs1 cs2 l1 l2, cs = cs1 ++ cs2 /\ l = l1 ++ l2 /\
    kids lo (Some a) ks1 cs1 l1 /\ kids (Some a) hi ks2 cs2 l2.
Proof.
  revert lo cs l. induction ks1 as [|k ks1 IH]; intros lo cs l Hk; simpl in Hk.
  - inversion Hk; subst. exists [r], cs0, l1, l2. repeat split; [by constructor|done].
  - inversion Hk as [|? ? ? ? r cs0 l1 l2 Hr Hk']; subst.
    destruct (IH _ _ _ Hk') as (cs1 & cs2 & m1 & m2 & -> & -> & H1 & H2).
    exists (r :: cs1), cs2, (l1 ++ m1), m2. rewrite <- app_assoc. repeat split; [by constructor|done].
Qed.

Definition lo_of (lo : option pystr) (ks : list pystr) : option pystr :=
  match last ks with Some a => Some a | None => lo end.
Definition hi_of (ks : list pystr) (hi : option pystr) : option pystr :=
  match ks with a :: _ => Some a | [] => hi end.

(** Everything left of a focused group of children: nothing, or a full run of
    children ended by the group's lower separator. *)
Definition left_of (lo lo' : option pystr) (ks : list pystr) (cs : list R) (l : kvlist) : Prop :=
  (ks = [] /\ cs = [] /\ l = [] /\ lo' = lo) \/
  exists ks0 a, ks = ks0 ++ [a] /\ lo' = Some a /\ kids lo (Some a) ks0 cs l.
Definition right_of (hi' hi : option pystr) (ks : list pystr) (cs : list R) (l : kvlist) : Prop :=
  (ks = [] /\ cs = [] /\ l = [] /\ hi' = hi) \/
  exists a ks0, ks = a :: ks0 /\ hi' = Some a /\ kids (Some a) hi ks0 cs l.

(** Put any well-formed group back between its neighbours. *)
Lemma kids_plug lo hi lo' hi' ks1 ks ks2 cs1 cs cs2 l1 l l2 :
  left_of lo lo' ks1 cs1 l1 -> kids lo' hi' ks cs l -> right_of hi' hi ks2 cs2 l2 ->
  kids lo hi (ks1 ++ ks ++ ks2) (cs1 ++ cs ++ cs2) (l1 ++ l ++ l2).
Proof.
  intros Hl Hk Hr.
  assert (kids lo' hi (ks ++ ks2) (cs ++ cs2) (l ++ l2)) as Hk'.
  { destruct Hr as [(-> & -> & -> & ->)|(a & ks0 & -> & -> & Hr)].
    - by rewrite !app_nil_r.
    - by apply kids_join. }
  destruct Hl as [(-> & -> & -> & ->)|(ks0 & a & -> & -> & Hl)]; [done|].
  rewrite <- app_assoc. simpl. by apply kids_join.
Qed.

(** Any consecutive group of separators focuses a group of children. *)
Lemma kids_focus lo hi ks1 ks ks2 cs l :
  kids lo hi (ks1 ++ ks ++ ks2) cs l ->
  exists lo' hi' cs1 csm cs2 l1 lm l2,
    cs = cs1 ++ csm ++ cs2 /\ l = l1 ++ lm ++ l2 /\
    lo' = lo_of lo ks1 /\ hi' = hi_of ks2 hi /\
    length cs1 = length ks1 /\ length cs2 = length ks2 /\
    left_of lo lo' ks1 cs1 l1 /\ kids lo' hi' ks csm lm /\ right_of hi' hi ks2 cs2 l2.
Proof.
  intros Hk.
  assert (exists lo' cs1 cs' l1 l', cs = cs1 ++ cs' /\ l = l1 ++ l' /\ lo' = lo_of lo ks1 /\
    length cs1 = length ks1 /\ left_of lo lo' ks1 cs1 l1 /\ kids lo' hi (ks ++ ks2) cs' l')
    as (lo' & cs1 & cs' & l1 & l' & -> & -> & Hlo & Hlen & Hleft & Hk').
  { destruct ks1 as [|a ks0 _] using rev_ind.
    - exists lo, [], cs, [], l. repeat split; [by left|done].
    - rewrite <- app_assoc in Hk. simpl in Hk.
      destruct (kids_split _ _ _ _ _ _ _ Hk) as (cs1 & cs' & l1 & l' & -> & -> & H1 & H2).
      exists (Some a), cs1, cs', l1, l'. unfold lo_of. rewrite last_snoc, length_app.
      repeat split; [by rewrite (kids_length _ _ _ _ _ H1), Nat.add_comm|right; eauto|done]. }
  destruct ks2 as [|b ks2].
  - rewrite app_nil_r in Hk'. exists lo', hi, cs1, cs', [], l1, l', [].
    rewrite !app_nil_r. repeat split; try done. by left.
  - destruct (kids_split _ _ _ _ _ _ _ Hk') as (csm & cs2 & lm & l2 & -> & -> & H1 & H2).
    exists lo', (Some b), cs1, csm, cs2, l1, lm, l2. repeat split; try done.
    + by rewrite (kids_length _ _ _ _ _ H2).
    + right. eauto.
Qed.

End kids.

Lemma kids_mono {R} (C C' : option pystr -> option pystr -> R -> kvlist -> Prop) lo hi ks cs l :
  (forall lo hi r l, C lo hi r l -> C' lo hi r l) -> kids C lo hi ks cs l -> kids C' lo hi ks cs l.
Proof. intros H. induction 1; constructor; auto. Qed.

(** What the children hold is sorted and lies between the outer bounds. *)
Lemma kids_range {R} (C : option pystr -> option pystr -> R -> kvlist -> Prop) lo hi ks cs l :
  (forall lo hi r l, C lo hi r l -> kv_sorted l /\ Forall (fun kv => within lo hi kv.1) l) ->
  sorted ks -> Forall (inside lo hi) ks -> kids C lo hi ks cs l ->
  kv_sorted l /\ Forall (fun kv => within lo hi kv.1) l.
Proof.
  intros HC Hs Hin Hk. induction Hk as [lo hi r l Hr|lo hi k ks r cs l1 l2 Hr Hk IH]; [by apply HC in Hr|].
  apply sorted_cons in Hs as [Hs Hgt]. apply Forall_cons in Hin as [Hk0 Hin].
  destruct IH as [Hs2 Hw2]; [done| |].
  { apply Forall_forall. intros x Hx. apply Hgt in Hx as Hlt.
    apply (proj1 (Forall_forall _ _) Hin) in Hx. destruct Hx. bounds. }
  destruct (HC _ _ _ _ Hr) as [Hs1 Hw1]. split.
  - apply kv_sorted_app. repeat split; [done..|]. intros x y Hx Hy.
    apply list_elem_of_fmap in Hx as ([x' ?] & -> & Hx). apply list_elem_of_fmap in Hy as ([y' ?] & -> & Hy).
    apply (proj1 (Forall_forall _ _) Hw1) in Hx. apply (proj1 (Forall_forall _ _) Hw2) in Hy.
    destruct Hx, Hy. simpl in *. key_order.
  - apply Forall_app. split; (eapply Forall_impl; [eassumption|]); intros [x y] Hx; simpl in *;
      destruct Hx, Hk0; bounds.
Qed.

(** * Nodes *)

(** A node that is not the root is at least half full and not over-full. *)
Definition occ (order : nat) (n : bnode) : Prop := (_min_keys order <= _num_keys n <= order)%nat.

(** The shape of a subtree, over any relations [RN] and [RV] that tell what a node
    or value reference stands for. *)
Section shape.
Context {order : nat} {RN : nref -> bnode -> Prop} {RV : ref bytes -> pystr * bytes -> Prop}.
Implicit Types (lo hi : option pystr) (kvs l : kvlist).

(** [shape h lo hi n kvs]: [n] is the top of a subtree of height [h] (leaves have
    height 1) whose keys lie in [[lo, hi)] and which holds exactly the sorted
    association list [kvs]. *)
Fixpoint shape (h : nat) lo hi (n : bnode) kvs : Prop :=
  match h with
  | O => False
  | S h' =>
      match n with
      | LeafNode ks vs =>
          h' = O /\ ks = kvs.*1 /\ Forall2 RV vs kvs /\ sorted ks /\ Forall (within lo hi) ks
      | InternalNode ks cs =>
          sorted ks /\ Forall (inside lo hi) ks /\
          kids (fun lo hi r l => exists m, RN r m /\ shape h' lo hi m l /\ occ order m) lo hi ks cs kvs
      end
  end.

Definition shape_kid (h : nat) lo hi (r : nref) l : Prop :=
  exists m, RN r m /\ shape h lo hi m l /\ occ order m.

Abbreviation rep := shape.
Abbreviation kid := shape_kid.

Lemma rep_leaf h lo hi ks vs kvs :
  rep h lo hi (LeafNode ks vs) kvs <->
  h = 1%nat /\ ks = kvs.*1 /\ Forall2 RV vs kvs /\ sorted ks /\ Forall (within lo hi) ks.
Proof.
  destruct h as [|h]; simpl; [split; [done|intros [? _]; done]|].
  split; intros (Hh & Hr); (split; [lia|done]).
Qed.

Lemma rep_internal h lo hi ks cs kvs :
  rep h lo hi (InternalNode ks cs) kvs <->
  exists h', h = S h' /\ sorted ks /\ Forall (inside lo hi) ks /\ kids (kid h') lo hi ks cs kvs.
Proof.
  destruct h as [|h]; simpl; [split; [done|intros (? & ? & _); done]|].
  split; [intros Hr; by exists h|intros (? & [= <-] & Hr); done].
Qed.

(** Leaves are exactly the nodes of height 1. *)
Lemma rep_is_leaf h lo hi n kvs : rep h lo hi n kvs -> is_leaf n = bool_decide (h = 1%nat).
Proof.
  destruct n as [ks vs|ks cs]; [by intros (-> & _)%rep_leaf|].
  intros (h' & -> & _ & _ & Hk)%rep_internal.
  assert (h' <> O) by (intros ->; by destruct Hk as [? ? ? ? (? & _ & [] & _)|? ? ? ? ? ? ? ? (? & _ & [] & _)]).
  by rewrite bool_decide_false by lia.
Qed.

Lemma rep_same_kind h lo hi n kvs lo' hi' n' kvs' :
  rep h lo hi n kvs -> rep h lo' hi' n' kvs' -> is_leaf n = is_leaf n'.
Proof. intros Hn Hn'. by rewrite (rep_is_leaf _ _ _ _ _ Hn), (rep_is_leaf _ _ _ _ _ Hn'). Qed.

Lemma rep_range h lo hi n kvs :
  rep h lo hi n kvs -> kv_sorted kvs /\ Forall (fun kv => within lo hi kv.1) kvs.
Proof.
  revert lo hi n kvs. induction h as [|h IH]; intros lo hi n kvs Hr; [done|].
  destruct n as [ks vs|ks cs].
  - apply rep_leaf in Hr as (_ & -> & _ & Hs & Hw). split; [done|].
    rewrite Forall_fmap in Hw. exact Hw.
  - apply rep_internal in Hr as (h' & [= <-] & Hs & Hin & Hk).
    eapply kids_range; [|done..|exact Hk]. intros ? ? ? ? (m & _ & Hm & _). eauto.
Qed.

Lemma kid_range h lo hi r l : kid h lo hi r l -> kv_sorted l /\ Forall (fun kv => within lo hi kv.1) l.
Proof. intros (m & _ & Hm & _). by eapply rep_range. Qed.

(** * Finding a key *)

Lemma below_of_within lo a kvs k :
  Forall (fun kv => within lo (Some a) kv.1) kvs -> str_le a k -> below k kvs.
Proof.
  intros Hf Ha. eapply Forall_impl; [exact Hf|]. intros [x y] [_ Hx]; simpl in *. key_order.
Qed.

Lemma above_of_within a hi kvs k :
  Forall (fun kv => within (Some a) hi kv.1) kvs -> str_lt k a -> above k kvs.
Proof.
  intros Hf Ha. eapply Forall_impl; [exact Hf|]. intros [x y] [Hx _]; simpl in *. key_order.
Qed.

Definition hit (ks : list pystr) (k : pystr) : bool :=
  match ks !! bisect_left ks k with Some k' => bool_decide (k' = k) | None => false end.

(** Where [bisect_left] lands in a leaf. *)
Lemma leaf_locate kvs k :
  kv_sorted kvs ->
  (exists A v B, kvs = A ++ (k, v) :: B /\ length A = bisect_left kvs.*1 k /\ below k A /\ above k B /\
     kvs.*1 !! bisect_left kvs.*1 k = Some k /\ hit kvs.*1 k = true) \/
  (exists A B, kvs = A ++ B /\ length A = bisect_left kvs.*1 k /\ below k A /\ above k B /\
     hit kvs.*1 k = false).
Proof.
  intros Hs. destruct (bisect_left_spec kvs.*1 k Hs) as (l & r & E & Hl & Hlow & Hhigh).
  apply fmap_app_inv in E as (A & B & -> & -> & ->).
  rewrite Forall_fmap in Hlow, Hhigh. rewrite length_fmap in Hl.
  apply kv_sorted_app in Hs as (_ & Hs & _). unfold hit. rewrite <- Hl.
  rewrite fmap_app, lookup_app_r, length_fmap, Nat.sub_diag by (rewrite length_fmap; lia).
  destruct B as [|[k' v] B]; simpl; [right; exists A, []; repeat split; by constructor || done|].
  apply Forall_cons in Hhigh as [Hk' _]. simpl in Hk'. apply kv_sorted_cons in Hs as [_ Ha].
  destruct (decide (k' = k)) as [->|Hne].
  - left. exists A, v, B. by rewrite bool_decide_true.
  - right. exists A, ((k', v) :: B). rewrite bool_decide_false by done. repeat split; try done.
    constructor; simpl; [destruct Hk'; [done|congruence]|].
    eapply above_weaken; [exact Hk'|done].
Qed.

(** The child [bisect_right] descends into, with the rest of the node around it. *)
Lemma child_locate h lo hi ks cs kvs k :
  sorted ks -> Forall (inside lo hi) ks -> kids (kid h) lo hi ks cs kvs -> within lo hi k ->
  exists lo' hi' ks1 ks2 cs1 r cs2 l1 l l2,
    ks = ks1 ++ ks2 /\ length ks1 = bisect_right ks k /\ length cs1 = bisect_right ks k /\
    length cs2 = length ks2 /\
    cs = cs1 ++ r :: cs2 /\ kvs = l1 ++ l ++ l2 /\ within lo' hi' k /\
    lo' = lo_of lo ks1 /\ hi' = hi_of ks2 hi /\
    left_of (kid h) lo lo' ks1 cs1 l1 /\ kid h lo' hi' r l /\
    right_of (kid h) hi' hi ks2 cs2 l2 /\ below k l1 /\ above k l2.
Proof.
  intros Hs Hin Hk Hw. destruct (bisect_right_spec ks k Hs) as (ks1 & ks2 & E & Hlen & Hlow & Hhigh).
  rewrite E in Hk. change (ks1 ++ ks2) with (ks1 ++ [] ++ ks2) in Hk.
  apply kids_focus in Hk as (lo' & hi' & cs1 & csm & cs2 & l1 & l & l2 & -> & -> & Hlo & Hhi & Hc1 & Hc2 & Hleft & Hm & Hright).
  inversion Hm as [? ? r ? Hr|]; subst.
  apply sorted_app in Hs as (Hs1 & Hs2 & _). apply Forall_app in Hin as [Hin1 Hin2].
  exists (lo_of lo ks1), (hi_of ks2 hi), ks1, ks2, cs1, r, cs2, l1, l, l2.
  assert (below k l1).
  { destruct Hleft as [(-> & -> & -> & _)|(ks0 & a & -> & _ & Hkl)]; [constructor|].
    apply Forall_app in Hlow as [_ [Hlow _]%Forall_cons].
    apply sorted_app in Hs1 as (Hs1 & _ & Hlt). apply Forall_app in Hin1 as [Hin1 _].
    eapply (below_of_within lo a); [|done].
    eapply (kids_range (kid h)); [apply kid_range|exact Hs1| |exact Hkl].
    apply Forall_forall. intros x Hx. split; [by apply (proj1 (Forall_forall _ _) Hin1)|].
    apply Hlt; [done|by left]. }
  assert (above k l2).
  { destruct Hright as [(-> & -> & -> & _)|(a & ks0 & -> & _ & Hkr)]; [constructor|].
    apply Forall_cons in Hhigh as [Hhigh _].
    apply sorted_cons in Hs2 as [Hs2 Hlt]. apply Forall_cons in Hin2 as [_ Hin2].
    eapply (above_of_within a hi); [|done].
    eapply (kids_range (kid h)); [apply kid_range|exact Hs2| |exact Hkr].
    apply Forall_forall. intros x Hx. split; [by apply Hlt|].
    by apply (proj1 (Forall_forall _ _) Hin2). }
  assert (within (lo_of lo ks1) (hi_of ks2 hi) k).
  { destruct Hw as [Hwl Hwh]. split.
    - unfold lo_of. destruct (last ks1) as [a|] eqn:El; [|done].
      apply last_split in El as [? ->]. by apply Forall_app in Hlow as [_ [Hlow _]%Forall_cons].
    - destruct ks2; [done|]. by apply Forall_cons in Hhigh as [Hhigh _]. }
  split_and!; done || lia.
Qed.

End shape.
Arguments shape order RN RV h lo hi n kvs : clear implicits.
Arguments shape_kid order RN RV h lo hi r l : clear implicits.

Lemma shape_mono order (RN RN' : nref -> bnode -> Prop) (RV RV' : ref bytes -> pystr * bytes -> Prop) h lo hi n kvs :
  (forall r n, RN r n -> RN' r n) -> (forall r kv, RV r kv -> RV' r kv) ->
  shape order RN RV h lo hi n kvs -> shape order RN' RV' h lo hi n kvs.
Proof.
  intros HN HV. revert lo hi n kvs. induction h as [|h IH]; intros lo hi n kvs Hr; [done|].
  destruct n as [ks vs|ks cs].
  - apply rep_leaf in Hr as (? & ? & Hf & ? & ?). apply rep_leaf. split_and!; try done.
    eapply Forall2_impl; [exact Hf|done].
  - apply rep_internal in Hr as (h' & [= <-] & ? & ? & Hk). apply rep_internal.
    exists h. split_and!; try done. eapply kids_mono; [|exact Hk].
    intros ? ? ? ? (m & Hm & Hrm & Ho). exists m. auto.
Qed.

(** A value reference resolves to the value of its key. *)
Definition vres {S} `{RecordStore S} (st : S) (r : ref bytes) (kv : pystr * bytes) : Prop :=
  resolves (fun b => Ok b) st r kv.2.

(** The invariant the engine maintains: in store [st], references resolve to an
    object in memory or to a record of the store. *)
Abbreviation rep order st := (shape order (resolves bytes_to_referent st) (vres st)).
Abbreviation kid order st := (shape_kid order (resolves bytes_to_referent st) (vres st)).

Section rep.
Context `{Pickle} {S : Type} `{RecordStore S} (order : nat).
Implicit Types (st : S) (lo hi : option pystr) (kvs l : kvlist).

(** The invariant survives every change to the store that keeps its records. *)
Lemma rep_extends st st' h lo hi n kvs :
  extends st st' -> rep order st h lo hi n kvs -> rep order st' h lo hi n kvs.
Proof. intros He. apply shape_mono; intros ? ?; by apply resolves_extends. Qed.

Lemma kid_extends st st' h lo hi r l :
  extends st st' -> kid order st h lo hi r l -> kid order st' h lo hi r l.
Proof.
  intros He (m & Hm & Hr & Ho). exists m. split; [by eapply resolves_extends|].
  split; [by eapply rep_extends|done].
Qed.

Lemma kid_mem st h lo hi n l :
  rep order st h lo hi n l -> occ order n -> kid order st h lo hi (Ref (Some n) 0) l.
Proof. intros Hr Ho. exists n. split; [apply resolves_mem|done]. Qed.

End rep.

(** Reading the B+ tree: [_get], [_items], [_range_items] and the height descent
    agree with the sorted association list the tree represents. *)

(** All a reader needs: following a reference gives what the relations say. *)
Section read.
Context `{Pickle} {S : Type} `{RecordStore S} (order : nat) (st : S).
Context (RN : nref -> bnode -> Prop) (RV : ref bytes -> pystr * bytes -> Prop).
Context (HN : forall r n, RN r n -> follow st r = Ok (Some n)).
Context (HV : forall r kv, RV r kv -> value_follow st r = Ok (Some kv.2)).
Implicit Types (lo hi : option pystr) (kvs l : kvlist).

Abbreviation rep := (shape order RN RV).
Abbreviation kid := (shape_kid order RN RV).

Lemma shape_kid_follow h lo hi r l :
  kid h lo hi r l -> exists m, follow st r = Ok (Some m) /\ rep h lo hi m l /\ occ order m.
Proof using HN. intros (m & Hm & Hr & Ho). exists m. split; [by apply HN|done]. Qed.

(** ** Lookup *)

Lemma get_shape fuel h lo hi n kvs k :
  rep h lo hi n kvs -> within lo hi k -> (h <= fuel)%nat ->
  _get fuel st (Some n) k =
    match kv_get k kvs with Some v => Ok (Some v) | None => Raise (KeyError k) end.
Proof using HN HV.
  revert fuel lo hi n kvs. induction h as [|h IH]; intros fuel lo hi n kvs Hr Hw Hf; [done|].
  destruct fuel as [|fuel]; [lia|]. destruct n as [ks vs|ks cs]; cbn [_get].
  - apply rep_leaf in Hr as (_ & -> & Hvs & Hs & _). fold (hit kvs.*1 k).
    destruct (leaf_locate kvs k Hs) as [(A & v & B & E & Hl & HA & HB & Hlk & _)|(A & B & E & Hl & HA & HB & Hh)].
    + rewrite Hlk, bool_decide_true, <- Hl by done. rewrite E, kv_get_app_l by done. simpl.
      rewrite decide_True by done. rewrite E in Hvs.
      apply Forall2_app_inv_r in Hvs as (va & vb & Hva & Hvb & ->).
      inversion Hvb as [|r ? vb' ? Hr Hvb']; subst.
      unfold py_nth. rewrite lookup_app_exact by (symmetry; by eapply Forall2_length). simpl.
      apply (HV r _ Hr).
    + unfold hit in Hh. rewrite E, kv_get_app_l, kv_get_above, <- E by done.
      destruct (kvs.*1 !! _); [by rewrite Hh|done].
  - apply rep_internal in Hr as (h' & [= <-] & Hs & Hin & Hk).
    destruct (child_locate h lo hi ks cs kvs k Hs Hin Hk Hw) as
      (lo' & hi' & ks1 & ks2 & cs1 & r & cs2 & l1 & l & l2 & _ & _ & Hc1 & _ & -> & -> & Hw' & _ & _ & _ & Hkid & _ & Hb & Ha).
    unfold py_nth. rewrite <- Hc1, lookup_app_exact by done. simpl.
    destruct (shape_kid_follow _ _ _ _ _ Hkid) as (m & -> & Hm & _). simpl.
    rewrite (IH fuel lo' hi' m l Hm Hw') by lia.
    by rewrite kv_get_app_l, kv_get_app_r.
Qed.

(** ** Iteration *)

Lemma leaf_items_rep vs kvs :
  Forall2 RV vs kvs -> leaf_items st (zip kvs.*1 vs) = Ok (yields kvs).
Proof using HN HV.
  induction 1 as [|r [k v] vs kvs Hr Hvs IH]; [done|].
  cbn -[mbind fmap zip]. change (zip _ _) with ((k, r) :: zip kvs.*1 vs). cbn -[mbind fmap zip].
  rewrite (HV _ _ Hr), IH. done.
Qed.

Lemma items_shape fuel h lo hi n kvs :
  rep h lo hi n kvs -> (h <= fuel)%nat -> _items fuel st (Some n) = Ok (yields kvs).
Proof using HN HV.
  revert fuel lo hi n kvs. induction h as [|h IH]; intros fuel lo hi n kvs Hr Hf; [done|].
  destruct fuel as [|fuel]; [lia|]. destruct n as [ks vs|ks cs]; cbn [_items].
  - apply rep_leaf in Hr as (_ & -> & Hvs & _). by apply leaf_items_rep.
  - apply rep_internal in Hr as (h' & [= <-] & _ & _ & Hk).
    assert (Hkid : forall lo hi r l, kid h lo hi r l ->
      exists m, follow st r = Ok (Some m) /\ _items fuel st (Some m) = Ok (yields l)).
    { intros ? ? ? ? (m & Hm & Hrm & _)%shape_kid_follow. exists m. split; [done|]. eapply IH; [exact Hrm|lia]. }
    clear -Hk Hkid. induction Hk as [lo hi r l Hr|lo hi k ks r cs l1 l2 Hr Hk IH]; simpl.
    + destruct (Hkid _ _ _ _ Hr) as (m & -> & Hi). simpl. rewrite Hi. simpl. by rewrite app_nil_r.
    + destruct (Hkid _ _ _ _ Hr) as (m & -> & Hi). simpl. rewrite Hi. simpl.
      rewrite IH. simpl. by rewrite yields_app.
Qed.

(** ** Range scans *)

Lemma leaf_range_rep start stop vs kvs :
  Forall2 RV vs kvs -> kv_sorted kvs ->
  leaf_range st start stop (zip kvs.*1 vs) = Ok (yields (kv_range start stop kvs)).
Proof using HN HV.
  induction 1 as [|r [k v] vs kvs Hr Hvs IH]; intros Hs; [done|].
  apply kv_sorted_cons in Hs as [Hs Ha]. rewrite kv_range_cons.
  change (zip _ _) with ((k, r) :: zip kvs.*1 vs). cbn -[mbind fmap zip]. unfold in_range.
  destruct (match start with Some a => str_ltb k a | None => false end) eqn:Ea.
  { rewrite IH by done. destruct start; [|done]. by rewrite Ea. }
  assert (match start with Some a => negb (str_ltb k a) | None => true end = true) as ->
    by (destruct start; [by rewrite Ea|done]).
  destruct stop as [b|].
  - destruct (str_leb_spec b k) as [Hb|Hb].
    + rewrite (proj2 (str_ltb_ge k b)) by done. simpl. rewrite kv_range_past_stop; [done|].
      eapply Forall_impl; [exact Ha|]. intros [x y] Hx; simpl in *. key_order.
    + assert (str_ltb k b = true) as -> by (apply str_ltb_lt; key_order).
      rewrite (HV _ _ Hr), IH by done. done.
  - rewrite (HV _ _ Hr), IH by done. done.
Qed.

Lemma left_bound_last ks1 ks2 :
  match length ks1 with O => Ok None | Datatypes.S i => Some <$> py_nth (ks1 ++ ks2) i end
  = (Ok (last ks1) : res (option pystr)).
Proof.
  destruct ks1 as [|a ks1 _] using rev_ind; [done|]. rewrite length_app, Nat.add_comm, last_snoc. simpl.
  unfold py_nth. rewrite <- app_assoc. simpl. by rewrite lookup_app_exact.
Qed.

(** Leaving the loop at a left bound past [stop] misses nothing. *)
Lemma range_past_stop h start stop lo hi ks1 ks2 cs l :
  sorted ks2 -> Forall (inside (lo_of lo ks1) hi) ks2 -> kids (kid h) (lo_of lo ks1) hi ks2 cs l ->
  match stop, last ks1 with Some b, Some lb => str_leb b lb | _, _ => false end = true ->
  kv_range start stop l = [].
Proof.
  intros Hs Hin Hk Hb. destruct stop as [b|]; [|done].
  destruct (last ks1) as [lb|] eqn:El; [|done]. apply str_leb_le in Hb.
  apply kids_range in Hk as [_ Hw]; [|apply kid_range|done..].
  apply kv_range_past_stop. eapply Forall_impl; [exact Hw|].
  unfold lo_of. rewrite El. intros kv [Hle _]. simpl in Hle. key_order.
Qed.

(** The child loop, from any position: [ks1] are the separators passed so far. *)
Lemma range_children_rep rec h start stop lo lo' hi ks1 ks2 cs l :
  (forall lo hi r l, kid h lo hi r l ->
     exists m, follow st r = Ok (Some m) /\ rec (Some m) = Ok (yields (kv_range start stop l))) ->
  sorted ks2 -> Forall (inside lo' hi) ks2 ->
  lo' = lo_of lo ks1 -> kids (kid h) lo' hi ks2 cs l ->
  range_children rec st start stop (ks1 ++ ks2) (length ks1) cs =
    Ok (yields (kv_range start stop l)).
Proof using HN HV.
  intros Hrec Hs Hin Hlo Hk. revert ks1 Hlo.
  induction Hk as [lo' hi r l Hr|lo' hi k ks r cs l1 l2 Hr Hk IH]; intros ks1 ->; cbn -[mbind fmap lookup py_nth];
    rewrite left_bound_last; cbn -[lookup]; (destruct (match stop with Some _ => _ | None => _ end) eqn:Eb;
    [erewrite range_past_stop; [done|exact Hs|exact Hin|by constructor|exact Eb]|]).
  - rewrite app_nil_r, lookup_ge_None_2 by lia. destruct (Hrec _ _ _ _ Hr) as (m & -> & Hm).
    destruct start; simpl; rewrite Hm; simpl; by rewrite app_nil_r.
  - apply sorted_cons in Hs as [Hs Hgt]. apply Forall_cons in Hin as [Hk0 Hin].
    assert (Forall (inside (Some k) hi) ks) as Hin'.
    { apply Forall_forall. intros x Hx. split; [by apply Hgt|]. by apply (proj1 (Forall_forall _ _) Hin). }
    assert (Hrest : range_children rec st start stop (ks1 ++ k :: ks) (Datatypes.S (length ks1)) cs
      = Ok (yields (kv_range start stop l2))).
    { specialize (IH Hs Hin' (ks1 ++ [k])). rewrite <- app_assoc, length_app, Nat.add_1_r in IH.
      apply IH. unfold lo_of. by rewrite last_snoc. }
    rewrite Hrest, lookup_app_exact, kv_range_app by done.
    destruct (match start with Some _ => _ | None => _ end) eqn:Ea.
    + destruct start as [a|]; [|done]. apply str_leb_le in Ea. rewrite (kv_range_before_start a stop l1); [done|].
      destruct (kid_range _ _ _ _ _ Hr) as [_ Hw]. by eapply below_of_within.
    + destruct (Hrec _ _ _ _ Hr) as (m & -> & Hm). simpl. rewrite Hm. simpl. by rewrite yields_app.
Qed.

Lemma range_items_shape fuel h lo hi n start stop kvs :
  rep h lo hi n kvs -> (h <= fuel)%nat ->
  _range_items fuel st (Some n) start stop = Ok (yields (kv_range start stop kvs)).
Proof using HN HV.
  revert fuel lo hi n kvs. induction h as [|h IH]; intros fuel lo hi n kvs Hr Hf; [done|].
  destruct fuel as [|fuel]; [lia|]. destruct n as [ks vs|ks cs]; cbn [_range_items].
  - apply rep_leaf in Hr as (_ & -> & Hvs & Hs & _). by apply leaf_range_rep.
  - apply rep_internal in Hr as (h' & [= <-] & Hs & Hin & Hk).
    apply (range_children_rep _ h start stop lo lo hi [] ks); try done.
    intros ? ? ? ? (m & Hm & Hrm & _)%shape_kid_follow. exists m. split; [done|]. eapply IH; [exact Hrm|lia].
Qed.

(** ** Height *)

Lemma height_shape fuel h lo hi n kvs :
  rep h lo hi n kvs -> (h <= fuel)%nat -> _height fuel st (Some n) = Ok (Z.of_nat h).
Proof using HN.
  revert fuel lo hi n kvs. induction h as [|h IH]; intros fuel lo hi n kvs Hr Hf; [done|].
  destruct fuel as [|fuel]; [lia|]. destruct n as [ks vs|ks cs]; cbn [_height].
  - by apply rep_leaf in Hr as ([= ->] & _).
  - apply rep_internal in Hr as (h' & [= <-] & _ & _ & Hk).
    assert (exists lo hi r cs' l, cs = r :: cs' /\ kid h lo hi r l) as (lo' & hi' & r & cs' & l & -> & Hr)
      by (destruct Hk; eauto 10).
    destruct (shape_kid_follow _ _ _ _ _ Hr) as (m & Hm & Hrm & _). unfold py_nth. simpl. rewrite Hm. simpl.
    rewrite (IH fuel _ _ _ _ Hrm) by lia. simpl. f_equal. lia.
Qed.

End read.

(** The reader's hypotheses hold of the engine's invariant. *)
Section read_rep.
Context `{Pickle} {S : Type} `{RecordStore S} (order : nat).
Implicit Types (st : S) (lo hi : option pystr) (kvs l : kvlist).

Lemma vres_follow st r kv : vres st r kv -> value_follow st r = Ok (Some kv.2).
Proof. apply resolves_follow. Qed.

Lemma kid_follow st h lo hi r l :
  kid order st h lo hi r l ->
  exists m, follow st r = Ok (Some m) /\ rep order st h lo hi m l /\ occ order m.
Proof. apply shape_kid_follow. intros ? ?. apply resolves_follow. Qed.

End read_rep.
