(* ===== verification/BPlusInsert.v ===== *)
(** Inserting into the B+ tree: [_insert] refines [kv_set], keeps the invariant,
    and adjusts the live-key count by exactly the number of keys added. *)

From S2P Require Import Prelude PyBase Struct SimDisk Logical KeyList Pickle BPlusTree BPlusRep.

Section insert.
Context `{Pickle} {S : Type} `{RecordStore S} (order : nat).
Context (Horder : (3 <= order)%nat).
Implicit Types (st : S) (lo hi : option pystr) (kvs l : kvlist).

Abbreviation rep st := (BPlusRep.rep order st).
Abbreviation kid st := (BPlusRep.kid order st).

(** What [_insert_rec] hands to the level above: a node of the same height, or
    two half-full ones with the separator between them. *)
Definition insert_post st (h : nat) lo hi (n : bnode) kvs (out : nref * option (pystr * nref)) : Prop :=
  match out with
  | (r, None) => exists n', r = Ref (Some n') 0 /\ rep st h lo hi n' kvs /\ (_num_keys n <= _num_keys n' <= order)%nat
  | (r, Some (sep, r2)) =>
      inside lo hi sep /\ exists l1 l2, kvs = l1 ++ l2 /\
        kid st h lo (Some sep) r l1 /\ kid st h (Some sep) hi r2 l2
  end.

(** ** Leaves *)

Lemma leaf_put st lo hi ks vs kvs k v vr c :
  rep st 1 lo hi (LeafNode ks vs) kvs -> within lo hi k -> vres st vr (k, v) ->
  exists keys values,
    (if match ks !! bisect_left ks k with Some k' => bool_decide (k' = k) | None => false end
     then vs ← lift_res (py_setitem vs (bisect_left ks k) vr); mret (ks, vs)
     else bump 1 ;; mret (py_insert ks (bisect_left ks k) k, py_insert vs (bisect_left ks k) vr)) c
    = (c + (if kv_get k kvs then 0 else 1), Ok (keys, values)) /\
    rep st 1 lo hi (LeafNode keys values) (kv_set k v kvs) /\
    (length ks <= length keys <= Datatypes.S (length ks))%nat.
Proof.
  intros (_ & -> & Hvs & Hs & Hin)%rep_leaf Hw Hv. fold (hit kvs.*1 k).
  pose proof (kv_set_sorted k v kvs Hs) as Hs'. unfold kv_sorted in Hs'.
  destruct (leaf_locate kvs k Hs) as [(A & v0 & B & -> & Hl & HA & HB & _ & ->)|(A & B & -> & Hl & HA & HB & ->)];
    rewrite <- Hl; apply Forall2_app_inv_r in Hvs as (va & vb & Hva & Hvb & ->);
    pose proof (Forall2_length _ _ _ Hva) as Hla.
  - inversion Hvb as [|r0 ? vb' ? Hr0 Hvb']; subst.
    eexists _, _. run. rewrite py_setitem_app by done. rewrite kv_get_app_l by done. cbn [kv_get].
    rewrite decide_True, Z.add_0_r by done. split; [reflexivity|].
    rewrite kv_set_app_l, kv_set_hit in * by done. rewrite rep_leaf. rewrite !fmap_app in *. simpl in *.
    rewrite !length_app. simpl. split_and!; try done; try lia. apply Forall2_app; [done|]. by constructor.
  - eexists _, _. run. unfold bump. rewrite fmap_app, !py_insert_app by (rewrite ?length_fmap; lia).
    rewrite kv_get_app_l, kv_get_above by done. split; [reflexivity|].
    rewrite kv_set_app_l, kv_set_above in * by done. rewrite rep_leaf. rewrite !fmap_app in *. simpl in *.
    rewrite !length_app. simpl. apply Forall_app in Hin as [Hin1 Hin2].
    split_and!; try done; try lia; [apply Forall2_app; [done|by constructor]|].
    apply Forall_app. split; [done|by constructor].
Qed.

(** Half of an over-full node, rounded either way, is a legal node. *)
Lemma half_occ : (_min_keys order <= Datatypes.S order / 2 <= order /\
  _min_keys order <= order - Datatypes.S order / 2 /\ 1 <= Datatypes.S order / 2)%nat.
Proof using Horder.
  unfold _min_keys. pose proof (Nat.div_mod_eq order 2). pose proof (Nat.mod_upper_bound order 2).
  pose proof (Nat.div_mod_eq (Datatypes.S order) 2). pose proof (Nat.mod_upper_bound (Datatypes.S order) 2). lia.
Qed.

Lemma leaf_split st lo hi keys values kvs n :
  rep st 1 lo hi (LeafNode keys values) kvs -> length keys = Datatypes.S order ->
  let mid := (length keys / 2)%nat in
  exists sep, py_nth keys mid = Ok sep /\
    insert_post st 1 lo hi n kvs
      (_leaf_ref (take mid keys) (take mid values), Some (sep, _leaf_ref (drop mid keys) (drop mid values))).
Proof using Horder.
  intros (_ & -> & Hvs & Hs & Hin)%rep_leaf Hlen mid. subst mid.
  rewrite Hlen. rewrite length_fmap in Hlen. destruct half_occ as (Hm1 & Hm2 & Hm3).
  set (mid := (Datatypes.S order / 2)%nat) in *.
  destruct (length_split_at kvs mid) as (A & B & -> & HA); [lia|]. rewrite length_app in Hlen.
  destruct B as [|[sep v] B]; [simpl in Hlen; lia|]. exists sep.
  apply Forall2_app_inv_r in Hvs as (va & vb & Hva & Hvb & ->).
  pose proof (Forall2_length _ _ _ Hva) as Hla.
  rewrite fmap_app in *. rewrite !take_app_exact, !drop_app_exact by (rewrite ?length_fmap; lia).
  split; [by apply py_nth_app; rewrite length_fmap|].
  apply sorted_app in Hs as (Hs1 & Hs2 & Hlt). apply Forall_app in Hin as [Hin1 Hin2].
  change ((_ :: B).*1) with (sep :: B.*1) in *.
  pose proof Hs2 as Hs2'. apply sorted_cons in Hs2' as [_ Hgt].
  assert (inside lo hi sep) as Hsep.
  { destruct A as [|[a ?] A]; [simpl in HA; lia|]. apply Forall_cons in Hin1 as [[Ha _] _].
    apply Forall_cons in Hin2 as [[_ Hhi] _]. assert (str_lt a sep) by (apply Hlt; by left). bounds. }
  split; [done|]. exists A, ((sep, v) :: B). split; [done|]. split; apply kid_mem.
  - apply rep_leaf. split_and!; try done. apply Forall_forall. intros x Hx.
    split; [by apply (proj1 (Forall_forall _ _) Hin1)|]. apply Hlt; [done|by left].
  - unfold occ, _num_keys. simpl. rewrite length_fmap. lia.
  - apply rep_leaf. split_and!; try done. apply Forall_forall. intros x Hx.
    apply (proj1 (Forall_forall _ _) Hin2) in Hx as Hx'. destruct Hx' as [_ ?]. split; [|done].
    apply elem_of_cons in Hx as [->|Hx]; [by right|left; by apply Hgt].
  - unfold occ, _num_keys. simpl in *. rewrite length_fmap. lia.
Qed.

(** ** Internal nodes *)

(** A separator that fits between two neighbours fits into the node. *)
Lemma sorted_plug lo hi ks1 sep ks2 :
  sorted (ks1 ++ ks2) -> Forall (inside lo hi) (ks1 ++ ks2) -> inside (lo_of lo ks1) (hi_of ks2 hi) sep ->
  sorted (ks1 ++ sep :: ks2) /\ Forall (inside lo hi) (ks1 ++ sep :: ks2).
Proof.
  intros (Hs1 & Hs2 & Hlt)%sorted_app Hin [Hlo Hhi].
  assert (forall x, x ∈ ks1 -> str_lt x sep) as Hl.
  { destruct ks1 as [|a ks1 _] using rev_ind; [intros ? Hx; by apply elem_of_nil in Hx|].
    unfold lo_of in Hlo. rewrite last_snoc in Hlo. simpl in Hlo. apply sorted_app in Hs1 as (_ & _ & Hl).
    intros x [Hx|Hx]%elem_of_app; [|apply list_elem_of_singleton in Hx; by subst].
    assert (str_lt x a) by (apply Hl; [done|by left]). key_order. }
  assert (forall x, x ∈ ks2 -> str_lt sep x) as Hr.
  { destruct ks2 as [|b ks2]; [intros ? Hx; by apply elem_of_nil in Hx|]. simpl in Hhi.
    apply sorted_cons in Hs2 as (_ & Hgt). intros x [->|Hx]%elem_of_cons; [done|].
    apply Hgt in Hx. key_order. }
  apply Forall_app in Hin as [Hin1 Hin2]. split.
  - apply sorted_app. split; [done|]. split; [by apply sorted_cons|].
    intros x y Hx [->|Hy]%elem_of_cons; auto.
  - apply Forall_app. split; [done|]. constructor; [|done]. split.
    + destruct ks1 as [|a ks1 _] using rev_ind; [done|]. apply Forall_app in Hin1 as [_ [[Ha _] _]%Forall_cons].
      assert (str_lt a sep) by (apply Hl; apply elem_of_app; right; by left). clear Hlo. bounds.
    + destruct ks2 as [|b ks2]; [done|]. apply Forall_cons in Hin2 as [[_ Hb] _].
      assert (str_lt sep b) by (apply Hr; by left). clear Hhi. bounds.
Qed.

Lemma inside_lower lo hi a ks : sorted (a :: ks) -> Forall (inside lo hi) (a :: ks) -> Forall (inside (Some a) hi) ks.
Proof.
  intros [_ Hgt]%sorted_cons [_ Hin]%Forall_cons. apply Forall_forall. intros x Hx.
  split; [by apply Hgt|by apply (proj1 (Forall_forall _ _) Hin)].
Qed.

Lemma internal_split st h lo hi keys children kvs n :
  rep st h lo hi (InternalNode keys children) kvs -> length keys = Datatypes.S order ->
  let mid := (length keys / 2)%nat in
  exists promoted, py_nth keys mid = Ok promoted /\
    insert_post st h lo hi n kvs
      (_internal_ref (take mid keys) (take (Datatypes.S mid) children),
       Some (promoted, _internal_ref (drop (Datatypes.S mid) keys) (drop (Datatypes.S mid) children))).
Proof using Horder.
  intros (h' & -> & Hs & Hin & Hk)%rep_internal Hlen mid. subst mid.
  rewrite Hlen. destruct half_occ as (Hm1 & Hm2 & Hm3).
  set (mid := (Datatypes.S order / 2)%nat) in *.
  destruct (length_split_at keys mid) as (A & B & -> & HA); [lia|]. rewrite length_app in Hlen.
  destruct B as [|p B]; [simpl in Hlen; lia|]. exists p. split; [by apply py_nth_app|].
  destruct (kids_split _ _ _ _ _ _ _ _ Hk) as (cs1 & cs2 & l1 & l2 & -> & -> & Hk1 & Hk2).
  pose proof (kids_length _ _ _ _ _ _ Hk1) as Hc1. pose proof (kids_length _ _ _ _ _ _ Hk2) as Hc2.
  rewrite (take_app_exact A), (take_app_exact cs1), (drop_app_exact cs1) by lia.
  change (p :: B) with ([p] ++ B). rewrite app_assoc, drop_app_exact by (rewrite length_app; simpl; lia).
  apply sorted_app in Hs as (Hs1 & Hs2 & Hlt). apply Forall_app in Hin as [Hin1 Hin2].
  pose proof Hin2 as [Hp _]%Forall_cons. split; [done|]. exists l1, l2. split; [done|]. split; apply kid_mem.
  - apply rep_internal. exists h'. split_and!; try done. apply Forall_forall. intros x Hx.
    split; [by apply (proj1 (Forall_forall _ _) Hin1)|]. apply Hlt; [done|by left].
  - unfold occ, _num_keys. simpl. lia.
  - apply rep_internal. exists h'. split_and!; try done; [by apply sorted_cons in Hs2 as []|].
    by eapply inside_lower.
  - unfold occ, _num_keys. simpl in *. lia.
Qed.

(** The last step of [_insert_rec] at an internal node: the rewritten key and
    child lists fit, or are split in two. *)
Lemma internal_finish st h lo hi keys children kvs n (c : Z) :
  rep st h lo hi (InternalNode keys children) kvs ->
  (_num_keys n <= length keys <= Datatypes.S order)%nat ->
  exists out,
    (if decide (length keys <= order)%nat then mret (_internal_ref keys children, None)
     else
       promoted ← lift_res (py_nth keys (length keys / 2));
       mret (_internal_ref (take (length keys / 2) keys) (take (Datatypes.S (length keys / 2)) children),
             Some (promoted, _internal_ref (drop (Datatypes.S (length keys / 2)) keys)
                                           (drop (Datatypes.S (length keys / 2)) children)))) c
    = (c, Ok out : res _) /\ insert_post st h lo hi n kvs out.
Proof using Horder.
  intros Hr Hlen. destruct (decide (length keys <= order)%nat).
  - eexists. split; [reflexivity|]. eexists. split; [done|]. split; [done|]. unfold _num_keys in *. simpl. lia.
  - destruct (internal_split st h lo hi keys children kvs n Hr) as (p & Hp & Hpost); [lia|].
    eexists. run. rewrite Hp. split; [reflexivity|done].
Qed.

Lemma insert_rec_rep fuel st h lo hi n kvs k v vr c :
  rep st h lo hi n kvs -> (_num_keys n <= order)%nat -> within lo hi k -> vres st vr (k, v) ->
  (h <= fuel)%nat ->
  exists out, _insert_rec order fuel st n k vr c = (c + (if kv_get k kvs then 0 else 1), Ok out) /\
    insert_post st h lo hi n (kv_set k v kvs) out.
Proof using Horder.
  revert fuel lo hi n kvs c. induction h as [|h IH]; intros fuel lo hi n kvs c Hr Hn Hw Hv Hf; [done|].
  destruct fuel as [|fuel]; [lia|]. destruct n as [ks vs|ks cs]; cbn [_insert_rec].
  - pose proof Hr as Hr'. apply rep_leaf in Hr' as ([= ->] & _).
    destruct (leaf_put st lo hi ks vs kvs k v vr c Hr Hw Hv) as (keys & values & Hput & Hr' & Hlen).
    erewrite stx_bind_ok by exact Hput. cbv beta iota zeta. unfold _num_keys in Hn. simpl in Hn.
    destruct (decide (length keys <= order)%nat).
    + eexists. split; [reflexivity|]. eexists. split; [done|]. split; [done|]. unfold _num_keys. simpl. lia.
    + destruct (leaf_split st lo hi keys values _ (LeafNode ks vs) Hr') as (sep & Hsep & Hpost); [lia|].
      eexists. run. rewrite Hsep. split; [reflexivity|done].
  - apply rep_internal in Hr as (h' & [= <-] & Hs & Hin & Hk). unfold _num_keys in Hn. simpl in Hn.
    destruct (child_locate h lo hi ks cs kvs k Hs Hin Hk Hw) as
      (lo' & hi' & ks1 & ks2 & cs1 & r & cs2 & l1 & l & l2 & -> & Hk1 & Hc1 & Hc2 & -> & -> & Hw' & Hlo & Hhi &
       Hleft & Hkid & Hright & Hb & Ha).
    destruct (kid_follow _ _ _ _ _ _ _ Hkid) as (m & Hm & Hrm & Hom).
    destruct (IH fuel lo' hi' m l c Hrm (proj2 Hom) Hw' Hv) as ([r1 sp] & Hrec & Hpost); [lia|].
    run. rewrite py_nth_app by done. rewrite Hm, Hrec, py_setitem_app by done.
    rewrite kv_get_app_l, kv_get_app_r, kv_set_app_l, kv_set_app_r by done.
    destruct sp as [[sep r2]|].
    + destruct Hpost as (Hsep & m1 & m2 & -> & Hkid1 & Hkid2).
      change (cs1 ++ r1 :: cs2) with (cs1 ++ [r1] ++ cs2). rewrite app_assoc.
      rewrite !py_insert_app by (rewrite ?length_app; simpl; lia). rewrite <- app_assoc. simpl ([r1] ++ _).
      subst lo' hi'. destruct (sorted_plug lo hi ks1 sep ks2 Hs Hin Hsep) as [Hs' Hin'].
      apply internal_finish; [|unfold _num_keys; simpl; rewrite !length_app in *; simpl; lia].
      apply rep_internal. exists h. split_and!; try done.
      eapply (kids_plug _ _ _ _ _ ks1 [sep] ks2 cs1 [r1; r2] cs2); [exact Hleft| |exact Hright].
      repeat constructor; done.
    + destruct Hpost as (n' & -> & Hrn & Hnn).
      apply internal_finish; [|unfold _num_keys; simpl; lia].
      apply rep_internal. exists h. split_and!; try done.
      eapply (kids_plug _ _ _ _ _ ks1 [] ks2 cs1 [Ref (Some n') 0] cs2); [exact Hleft| |exact Hright].
      constructor. apply kid_mem; [done|]. destruct Hom. split; lia.
Qed.

(** ** The root *)

(** The invariant of a whole tree: a null root is the empty tree; any other root
    has between one and [order] keys. *)
Definition tree st (h : nat) (r : nref) kvs : Prop :=
  (h = O /\ r = Ref None 0 /\ kvs = []) \/
  exists n, resolves bytes_to_referent st r n /\ rep st h None None n kvs /\ (1 <= _num_keys n <= order)%nat.

Definition root_of st (h : nat) (n : option bnode) kvs : Prop :=
  match n with
  | None => h = O /\ kvs = []
  | Some n => rep st h None None n kvs /\ (1 <= _num_keys n <= order)%nat
  end.

Lemma tree_follow st h r kvs :
  tree st h r kvs -> exists n, follow st r = Ok n /\ root_of st h n kvs.
Proof.
  intros [(-> & -> & ->)|(n & Hn & Hr & Hk)]; [by exists None|].
  exists (Some n). split; [by apply resolves_follow|done].
Qed.

Lemma tree_extends st st' h r kvs : extends st st' -> tree st h r kvs -> tree st' h r kvs.
Proof.
  intros He [?|(n & Hn & Hr & Hk)]; [by left|]. right. exists n.
  split; [by eapply resolves_extends|]. split; [by eapply rep_extends|done].
Qed.

Lemma rep_root_sorted st h n kvs : root_of st h n kvs -> kv_sorted kvs.
Proof. destruct n; [intros [Hr _]; by apply rep_range in Hr as []|intros [_ ->]; constructor]. Qed.

Lemma tree_sorted st h r kvs : tree st h r kvs -> kv_sorted kvs.
Proof. intros (n & _ & Hr)%tree_follow. by eapply rep_root_sorted. Qed.

Lemma within_all k : within None None k.
Proof. done. Qed.

Lemma insert_rep fuel st h n kvs k v vr c :
  root_of st h n kvs -> vres st vr (k, v) -> (h <= fuel)%nat ->
  exists h' r', _insert order fuel st n k vr c = (c + (if kv_get k kvs then 0 else 1), Ok r') /\
    tree st h' r' (kv_set k v kvs) /\ (h <= h' <= Datatypes.S h)%nat /\ address r' = 0.
Proof using Horder.
  intros Hr Hv Hf. destruct n as [n|]; cbn [_insert].
  - destruct Hr as [Hr Hn].
    destruct (insert_rec_rep fuel st h None None n kvs k v vr c Hr (proj2 Hn) (within_all k) Hv Hf)
      as ([r1 [[sep r2]|]] & Hrec & Hpost); run; rewrite Hrec.
    + destruct Hpost as (Hsep & l1 & l2 & -> & Hk1 & Hk2). exists (Datatypes.S h). eexists.
      split; [reflexivity|]. split; [|split; [lia|done]]. right. eexists. split; [apply resolves_mem|].
      split; [|unfold _num_keys; simpl; lia]. apply rep_internal. exists h. split; [done|].
      split; [repeat constructor|]. split; [by repeat constructor|]. by repeat constructor.
    + destruct Hpost as (n' & -> & Hrn & Hnn). exists h. eexists. split; [reflexivity|].
      split; [|split; [lia|done]]. right. exists n'. split; [apply resolves_mem|]. split; [done|lia].
  - destruct Hr as [-> ->]. exists 1%nat. eexists. split; [reflexivity|]. split; [|split; [lia|done]].
    right. eexists. split; [apply resolves_mem|]. split; [|unfold _num_keys; simpl; lia].
    apply rep_leaf. simpl. split_and!; try done; [constructor; [done|constructor]|repeat constructor|].
    constructor; [done|constructor].
Qed.

End insert.
