(* ===== verification/BPlusDelete.v ===== *)
(** Deleting from the B+ tree: [_delete] refines [kv_del], keeps every node at
    least half full by borrowing or merging, and takes one key off the count. *)

From S2P Require Import Prelude PyBase Struct SimDisk Logical KeyList Pickle BPlusTree BPlusRep BPlusInsert.

#[local] Arguments has_spare : simpl never.

Section delete.
Context `{Pickle} {S : Type} `{RecordStore S} (order : nat).
Context (Horder : (3 <= order)%nat).
Implicit Types (st : S) (lo hi : option pystr) (kvs l : kvlist).

Abbreviation rep st := (BPlusRep.rep order st).
Abbreviation kid st := (BPlusRep.kid order st).
Abbreviation min := (_min_keys order).

Lemma min_keys_bounds : (1 <= min /\ 2 * min <= order)%nat.
Proof using Horder.
  unfold _min_keys. pose proof (Nat.div_mod_eq order 2). pose proof (Nat.mod_upper_bound order 2). lia.
Qed.

Lemma inside_weaken_hi lo hi a ks :
  inside lo hi a -> Forall (inside lo (Some a)) ks -> Forall (inside lo hi) ks.
Proof.
  intros [_ Ha] Hks. eapply Forall_impl; [exact Hks|]. intros x [Hl Hx]. split; [done|].
  destruct hi; [|done]. simpl in *. key_order.
Qed.

Lemma inside_weaken_lo lo hi a ks :
  inside lo hi a -> Forall (inside (Some a) hi) ks -> Forall (inside lo hi) ks.
Proof.
  intros [Ha _] Hks. eapply Forall_impl; [exact Hks|]. intros x [Hx Hh]. split; [|done].
  destruct lo; [|done]. simpl in *. key_order.
Qed.

(** Restricting a bound to a neighbouring key. *)
Lemma within_below lo hi ks x :
  Forall (within lo hi) ks -> (forall y, y ∈ ks -> str_lt y x) -> Forall (within lo (Some x)) ks.
Proof.
  intros Hin Hlt. apply Forall_forall. intros y Hy.
  split; [by apply (proj1 (Forall_forall _ _) Hin)|by apply Hlt].
Qed.

Lemma within_from lo hi ks x :
  Forall (within lo hi) ks -> (forall y, y ∈ ks -> str_le x y) -> Forall (within (Some x) hi) ks.
Proof.
  intros Hin Hlt. apply Forall_forall. intros y Hy.
  split; [by apply Hlt|by apply (proj1 (Forall_forall _ _) Hin)].
Qed.

Lemma inside_below lo hi ks x :
  Forall (inside lo hi) ks -> (forall y, y ∈ ks -> str_lt y x) -> Forall (inside lo (Some x)) ks.
Proof.
  intros Hin Hlt. apply Forall_forall. intros y Hy.
  split; [by apply (proj1 (Forall_forall _ _) Hin)|by apply Hlt].
Qed.

(** ** Borrowing and merging, on two adjacent siblings *)

(** [a] separates [nl] and [nr]; after the operation the pair is [L], [a'], [R]. *)
Definition pair_rotated st h lo hi l (op : list pystr -> list nref -> res (list pystr * list nref)) a i : Prop :=
  exists a' L R, kids (kid st h) lo hi [a'] [L; R] l /\ inside lo hi a' /\
    forall ks1 ks2 cs1 x y cs2, length ks1 = i -> length cs1 = i ->
      op (ks1 ++ a :: ks2) (cs1 ++ x :: y :: cs2) = Ok (ks1 ++ a' :: ks2, cs1 ++ L :: R :: cs2).

Lemma borrow_left_leaf st lo hi a lks lvs cks cvs ll lc i :
  rep st 1 lo (Some a) (LeafNode lks lvs) ll -> rep st 1 (Some a) hi (LeafNode cks cvs) lc ->
  inside lo hi a -> (min < length lks <= order)%nat -> Datatypes.S (length cks) = min ->
  pair_rotated st 1 lo hi (ll ++ lc)
    (fun ks cs => _borrow_from_left ks cs (Datatypes.S i) (LeafNode lks lvs) (LeafNode cks cvs)) a i.
Proof using Horder.
  intros (_ & -> & Hlv & Hls & Hlin)%rep_leaf (_ & -> & Hcv & Hcs & Hcin)%rep_leaf Ha Hl Hc.
  pose proof min_keys_bounds. rewrite !length_fmap in *.
  destruct ll as [|[x v] ll0 _] using rev_ind; [simpl in Hl; lia|]. rewrite length_app in Hl. simpl in Hl.
  apply Forall2_app_inv_r in Hlv as (va & vb & Hva & Hvb & ->).
  apply Forall2_cons_inv_r in Hvb as (r & vb' & Hr & ->%Forall2_nil_inv_r & ->).
  rewrite fmap_app in *. simpl in Hls, Hlin.
  apply sorted_app in Hls as (Hls & _ & Hlt). apply Forall_app in Hlin as [Hlin [[Hxl Hxa] _]%Forall_cons].
  simpl in Hxa.
  assert (inside lo hi x) as Hx.
  { destruct ll0 as [|[y w] ll0]; [simpl in Hl; lia|]. apply Forall_cons in Hlin as [[Hy _] _].
    assert (str_lt y x) by (apply Hlt; by left). destruct Ha. bounds. }
  exists x, (_leaf_ref ll0.*1 va), (_leaf_ref (x :: lc.*1) (r :: cvs)). split; [|split; [done|]].
  - rewrite <- app_assoc. apply kids_cons; [|apply kids_one]; apply kid_mem.
    + apply rep_leaf. split_and!; try done. apply (within_below lo (Some a)); [done|].
      intros y Hy. apply Hlt; [done|by left].
    + unfold occ, _num_keys. simpl. rewrite length_fmap. lia.
    + assert (forall y, y ∈ lc.*1 -> str_lt x y) as Hgt.
      { intros y Hy. apply (proj1 (Forall_forall _ _) Hcin) in Hy as [Hy _]. simpl in Hy. key_order. }
      apply rep_leaf. simpl. split_and!; try done; [by constructor|by apply sorted_cons|].
      constructor; [split; [by right|apply Hx]|]. apply (within_from (Some a)); [done|].
      intros y Hy. left. by apply Hgt.
    + unfold occ, _num_keys. simpl. rewrite length_fmap. lia.
  - intros ks1 ks2 cs1 y z cs2 Hk Hc'. cbn [_borrow_from_left].
    replace (Datatypes.S i - 1)%nat with i by lia. simpl. rewrite !py_init_snoc, !py_last_snoc.
    rewrite py_setitem_app by done. simpl.
    rewrite py_setitem_app2 by lia. simpl.
    by rewrite py_setitem_app.
Qed.

Lemma borrow_left_internal st h lo hi a lks lcs cks ccs ll lc i :
  rep st h lo (Some a) (InternalNode lks lcs) ll -> rep st h (Some a) hi (InternalNode cks ccs) lc ->
  inside lo hi a -> (min < length lks <= order)%nat -> Datatypes.S (length cks) = min ->
  pair_rotated st h lo hi (ll ++ lc)
    (fun ks cs => _borrow_from_left ks cs (Datatypes.S i) (InternalNode lks lcs) (InternalNode cks ccs)) a i.
Proof using Horder.
  intros (h' & -> & Hls & Hlin & Hlk)%rep_internal (h'' & [= <-] & Hcs & Hcin & Hck)%rep_internal Ha Hl Hc.
  pose proof min_keys_bounds. destruct lks as [|x lks _] using rev_ind; [simpl in Hl; lia|].
  rewrite length_app in Hl. simpl in Hl.
  destruct (kids_split _ _ _ _ _ _ _ _ Hlk) as (lcs0 & cs2 & l1 & l2 & -> & -> & Hk1 & Hk2).
  inversion Hk2 as [? ? r ? Hr|]; subst.
  apply sorted_app in Hls as (Hls & _ & Hlt). pose proof Hlin as [Hlin' [[Hxl Hxa] _]%Forall_cons]%Forall_app.
  simpl in Hxa.
  assert (inside lo hi x) as Hx by (destruct Ha; bounds).
  exists x, (_internal_ref lks lcs0), (_internal_ref (a :: cks) (r :: ccs)). split; [|split; [done|]].
  - rewrite <- app_assoc. apply kids_cons; [|apply kids_one]; apply kid_mem.
    + apply rep_internal. exists h'. split_and!; try done. apply (inside_below lo (Some a)); [done|].
      intros y Hy. apply Hlt; [done|by left].
    + unfold occ, _num_keys. simpl. lia.
    + apply rep_internal. exists h'. split_and!; try done.
      * apply sorted_cons. split; [done|]. intros y Hy. by apply (proj1 (Forall_forall _ _) Hcin) in Hy as [Hy _].
      * constructor; [split; [done|apply Ha]|]. eapply Forall_impl; [exact Hcin|].
        intros y [Hy1 Hy2]. split; [|done]. simpl in *. key_order.
      * by apply kids_cons.
    + unfold occ, _num_keys. simpl. lia.
  - intros ks1 ks2 cs1 y z cs2 Hk Hc'. cbn [_borrow_from_left].
    replace (Datatypes.S i - 1)%nat with i by lia. simpl. rewrite !py_init_snoc, !py_last_snoc.
    rewrite py_setitem_app by done. simpl. rewrite py_nth_app by done. simpl.
    rewrite py_setitem_app2 by lia. simpl. by rewrite py_setitem_app.
Qed.

Lemma borrow_right_leaf st lo hi a cks cvs rks rvs lc lr i :
  rep st 1 lo (Some a) (LeafNode cks cvs) lc -> rep st 1 (Some a) hi (LeafNode rks rvs) lr ->
  inside lo hi a -> (min < length rks <= order)%nat -> Datatypes.S (length cks) = min ->
  pair_rotated st 1 lo hi (lc ++ lr)
    (fun ks cs => _borrow_from_right ks cs i (LeafNode rks rvs) (LeafNode cks cvs)) a i.
Proof using Horder.
  intros (_ & -> & Hcv & Hcs & Hcin)%rep_leaf (_ & -> & Hrv & Hrs & Hrin)%rep_leaf Ha Hl Hc.
  pose proof min_keys_bounds. rewrite !length_fmap in *.
  destruct lr as [|[x v] [|[y w] lr]]; [simpl in Hl; lia..|]. simpl in Hl.
  apply Forall2_cons_inv_r in Hrv as (r & vb & Hr & Hrv & ->). simpl in Hrs, Hrin.
  pose proof Hrs as [Hrs1 Hx1]%sorted_cons. pose proof Hrs1 as [Hrs2 Hy1]%sorted_cons.
  apply Forall_cons in Hrin as [[Hxa Hxh] Hrin]. pose proof Hrin as [[Hya Hyh] _]%Forall_cons. simpl in Hxa, Hya.
  assert (str_lt x y) by (apply Hx1; by left).
  assert (inside lo hi y) as Hy by (destruct Ha; bounds).
  assert (forall z, z ∈ lc.*1 -> str_lt z x) as Hlt.
  { intros z Hz. apply (proj1 (Forall_forall _ _) Hcin) in Hz as [_ Hz]. simpl in Hz. key_order. }
  exists y, (_leaf_ref (lc.*1 ++ [x]) (cvs ++ [r])), (_leaf_ref (y :: lr.*1) vb). split; [|split; [done|]].
  - rewrite (app_cons_snoc lc). apply kids_cons; [|apply kids_one]; apply kid_mem.
    + apply rep_leaf. rewrite fmap_app. split_and!; try done.
      * apply Forall2_app; [done|]. constructor; [done|constructor].
      * apply sorted_app. split; [done|]. split; [repeat constructor|].
        intros z1 z2 Hz1 ->%list_elem_of_singleton. auto.
      * apply Forall_app. split; [|constructor; [|done]].
        -- apply (within_below lo (Some a)); [done|]. intros z Hz. apply Hlt in Hz. key_order.
        -- destruct Ha. bounds.
    + unfold occ, _num_keys. simpl. rewrite length_app, length_fmap. simpl. lia.
    + apply rep_leaf. split_and!; try done. apply (within_from (Some a)); [done|].
      intros z [->|Hz]%elem_of_cons; [by right|left; by apply Hy1].
    + unfold occ, _num_keys. simpl. rewrite length_fmap. lia.
  - intros ks1 ks2 cs1 y' z cs2 Hk Hc'. cbn [_borrow_from_right]. unfold py_nth. simpl.
    rewrite (py_setitem_app cs1) by done. simpl. rewrite (py_setitem_app2 cs1) by lia. simpl.
    by rewrite (py_setitem_app ks1).
Qed.

Lemma borrow_right_internal st h lo hi a cks ccs rks rcs lc lr i :
  rep st h lo (Some a) (InternalNode cks ccs) lc -> rep st h (Some a) hi (InternalNode rks rcs) lr ->
  inside lo hi a -> (min < length rks <= order)%nat -> Datatypes.S (length cks) = min ->
  pair_rotated st h lo hi (lc ++ lr)
    (fun ks cs => _borrow_from_right ks cs i (InternalNode rks rcs) (InternalNode cks ccs)) a i.
Proof using Horder.
  intros (h' & -> & Hcs & Hcin & Hck)%rep_internal (h'' & [= <-] & Hrs & Hrin & Hrk)%rep_internal Ha Hl Hc.
  pose proof min_keys_bounds. destruct rks as [|x rks]; [simpl in Hl; lia|]. simpl in Hl.
  inversion Hrk as [|? ? ? ? rc rcs' l1 l2 Hr Hrk']; subst.
  pose proof Hrin as [[Hxa Hxh] _]%Forall_cons. simpl in Hxa.
  assert (inside lo hi x) as Hx by (destruct Ha; bounds).
  exists x, (_internal_ref (cks ++ [a]) (ccs ++ [rc])), (_internal_ref rks rcs'). split; [|split; [done|]].
  - rewrite app_assoc. apply kids_cons; [|apply kids_one]; apply kid_mem.
    + apply rep_internal. exists h'. split_and!; try done.
      * apply sorted_app. split; [done|]. split; [repeat constructor|].
        intros y z Hy ->%list_elem_of_singleton. by apply (proj1 (Forall_forall _ _) Hcin) in Hy as [_ Hy].
      * apply Forall_app. split; [|constructor; [split; [apply Ha|done]|done]].
        apply (inside_weaken_hi lo (Some x) a); [split; [apply Ha|done]|done].
      * apply kids_join; [done|]. by apply kids_one.
    + unfold occ, _num_keys. simpl. rewrite length_app. simpl. lia.
    + apply rep_internal. exists h'. split_and!; try done; [by apply sorted_cons in Hrs as []|].
      by eapply inside_lower.
    + unfold occ, _num_keys. simpl. lia.
  - intros ks1 ks2 cs1 y z cs2 Hk Hc'. cbn [_borrow_from_right]. rewrite py_nth_app by done. simpl.
    rewrite (py_setitem_app cs1) by done. simpl. rewrite (py_setitem_app2 cs1) by lia. simpl.
    by rewrite (py_setitem_app ks1).
Qed.

Lemma merge_pair st h lo hi a nl nr ll lr i :
  rep st h lo (Some a) nl ll -> rep st h (Some a) hi nr lr -> inside lo hi a ->
  Datatypes.S (_num_keys nl + _num_keys nr) = (2 * min)%nat ->
  exists M, kid st h lo hi M (ll ++ lr) /\
    forall ks1 ks2 cs1 x y cs2, length ks1 = i -> length cs1 = i ->
      _merge (ks1 ++ a :: ks2) (cs1 ++ x :: y :: cs2) i nl nr = Ok (ks1 ++ ks2, cs1 ++ M :: cs2).
Proof using Horder.
  intros Hl Hr Ha Hn. pose proof min_keys_bounds. unfold _num_keys in Hn.
  destruct nl as [lks lvs|lks lcs], nr as [rks rvs|rks rcs]; simpl in Hn.
  - apply rep_leaf in Hl as (-> & -> & Hlv & Hls & Hlin). apply rep_leaf in Hr as (_ & -> & Hrv & Hrs & Hrin).
    exists (_leaf_ref (ll.*1 ++ lr.*1) (lvs ++ rvs)). split.
    + apply kid_mem; [|unfold occ, _num_keys; simpl; rewrite length_app; lia].
      apply rep_leaf. rewrite fmap_app. split_and!; try done; [by apply Forall2_app| |].
      * apply sorted_app. split_and!; try done. intros x y Hx Hy.
        apply (proj1 (Forall_forall _ _) Hlin) in Hx as [_ Hx].
        apply (proj1 (Forall_forall _ _) Hrin) in Hy as [Hy _]. simpl in *. key_order.
      * apply Forall_app. split; (eapply Forall_impl; [eassumption|]); intros x Hx; destruct Hx, Ha; bounds.
    + intros ks1 ks2 cs1 x y cs2 Hk Hc. unfold _merge. simpl. rewrite py_setitem_app by done. simpl.
      rewrite py_delitem_app2 by lia. simpl. by rewrite py_delitem_app.
  - by pose proof (rep_same_kind _ _ _ _ _ _ _ _ _ Hl Hr).
  - by pose proof (rep_same_kind _ _ _ _ _ _ _ _ _ Hl Hr).
  - apply rep_internal in Hl as (h' & -> & Hls & Hlin & Hlk). apply rep_internal in Hr as (h'' & [= <-] & Hrs & Hrin & Hrk).
    exists (_internal_ref (lks ++ a :: rks) (lcs ++ rcs)). split.
    + apply kid_mem; [|unfold occ, _num_keys; simpl; rewrite length_app; simpl; lia].
      apply rep_internal. exists h'. split_and!; [done| | |by apply kids_join].
      * apply sorted_app. split; [done|]. split.
        -- apply sorted_cons. split; [done|]. intros y Hy. by apply (proj1 (Forall_forall _ _) Hrin) in Hy as [Hy _].
        -- intros x y Hx Hy. apply (proj1 (Forall_forall _ _) Hlin) in Hx as [_ Hx].
           apply elem_of_cons in Hy as [->|Hy]; [done|].
           apply (proj1 (Forall_forall _ _) Hrin) in Hy as [Hy _]. simpl in *. key_order.
      * apply Forall_app. split; [by eapply inside_weaken_hi|].
        constructor; [done|]. by eapply inside_weaken_lo.
    + intros ks1 ks2 cs1 x y cs2 Hk Hc. unfold _merge. simpl. rewrite py_nth_app by done. simpl.
      rewrite py_setitem_app by done. simpl.
      rewrite py_delitem_app2 by lia. simpl. by rewrite py_delitem_app.
Qed.

Lemma borrow_left_pair st h lo hi a nl nc ll lc i :
  rep st h lo (Some a) nl ll -> rep st h (Some a) hi nc lc -> inside lo hi a ->
  (min < _num_keys nl <= order)%nat -> Datatypes.S (_num_keys nc) = min ->
  pair_rotated st h lo hi (ll ++ lc) (fun ks cs => _borrow_from_left ks cs (Datatypes.S i) nl nc) a i.
Proof using Horder.
  intros Hl Hc. pose proof (rep_same_kind _ _ _ _ _ _ _ _ _ Hl Hc) as Hk.
  destruct nl, nc; try done.
  - pose proof Hl as (-> & _)%rep_leaf. by apply borrow_left_leaf.
  - by apply borrow_left_internal.
Qed.

Lemma borrow_right_pair st h lo hi a nc nr lc lr i :
  rep st h lo (Some a) nc lc -> rep st h (Some a) hi nr lr -> inside lo hi a ->
  (min < _num_keys nr <= order)%nat -> Datatypes.S (_num_keys nc) = min ->
  pair_rotated st h lo hi (lc ++ lr) (fun ks cs => _borrow_from_right ks cs i nr nc) a i.
Proof using Horder.
  intros Hc Hr. pose proof (rep_same_kind _ _ _ _ _ _ _ _ _ Hc Hr) as Hk.
  destruct nr, nc; try done.
  - pose proof Hr as (-> & _)%rep_leaf. by apply borrow_right_leaf.
  - by apply borrow_right_internal.
Qed.

(** ** Siblings in their node *)

Lemma left_sibling st h lo lo' ks a cs l :
  left_of (kid st h) lo lo' (ks ++ [a]) cs l ->
  exists cs0 x l0 lx, cs = cs0 ++ [x] /\ l = l0 ++ lx /\ lo' = Some a /\ length cs0 = length ks /\
    left_of (kid st h) lo (lo_of lo ks) ks cs0 l0 /\ kid st h (lo_of lo ks) (Some a) x lx.
Proof.
  intros [(E & _)|(ks0 & b & E & -> & Hk)]; [by destruct ks|].
  apply app_inj_tail in E as [<- <-].
  replace ks with (ks ++ [] ++ []) in Hk by (by rewrite app_nil_r).
  apply kids_focus in Hk as (lo1 & hi1 & cs1 & csm & cs2 & l1 & lm & l2 & -> & -> & -> & -> & Hc1 & Hc2 & Hl & Hm & Hr).
  inversion Hm as [? ? r ? Hkid|]; subst. destruct cs2; [|done].
  destruct Hr as [(_ & _ & -> & _)|(? & ? & ? & _)]; [|done].
  exists cs1, r, l1, lm. by rewrite (app_nil_r lm).
Qed.

Lemma right_sibling st h hi hi' ks a cs l :
  right_of (kid st h) hi' hi (a :: ks) cs l ->
  exists cs0 x l0 lx, cs = x :: cs0 /\ l = lx ++ l0 /\ hi' = Some a /\ length cs0 = length ks /\
    right_of (kid st h) (hi_of ks hi) hi ks cs0 l0 /\ kid st h (Some a) (hi_of ks hi) x lx.
Proof.
  intros [(E & _)|(b & ks0 & [= <- <-] & -> & Hk)]; [done|].
  change ks with ([] ++ [] ++ ks) in Hk.
  apply kids_focus in Hk as (lo1 & hi1 & cs1 & csm & cs2 & l1 & lm & l2 & -> & -> & -> & -> & Hc1 & Hc2 & Hl & Hm & Hr).
  inversion Hm as [? ? r ? Hkid|]; subst. destruct cs1; [|done].
  destruct Hl as [(_ & _ & -> & _)|(ks0 & ? & E & _)]; [|by apply app_cons_not_nil in E].
  by exists cs2, r, l2, lm.
Qed.

Lemma inside_middle lo hi ks1 a ks2 :
  sorted (ks1 ++ a :: ks2) -> Forall (inside lo hi) (ks1 ++ a :: ks2) ->
  inside (lo_of lo ks1) (hi_of ks2 hi) a.
Proof.
  intros (_ & Hs & Hlt)%sorted_app [_ [Ha _]%Forall_cons]%Forall_app. destruct Ha as [Hl Hh]. split.
  - unfold lo_of. destruct (last ks1) as [b|] eqn:E; [|done]. apply last_split in E as [? ->].
    apply Hlt; [apply elem_of_app; right; by left|by left].
  - destruct ks2; [done|]. apply sorted_cons in Hs as [_ Hgt]. apply Hgt. by left.
Qed.

Lemma sorted_drop_middle lo hi ks1 a ks2 :
  sorted (ks1 ++ a :: ks2) -> Forall (inside lo hi) (ks1 ++ a :: ks2) ->
  sorted (ks1 ++ ks2) /\ Forall (inside lo hi) (ks1 ++ ks2).
Proof.
  intros (Hs1 & [Hs2 _]%sorted_cons & Hlt)%sorted_app [Hin1 [_ Hin2]%Forall_cons]%Forall_app.
  split; [|by apply Forall_app]. apply sorted_app. split_and!; [done..|].
  intros x y Hx Hy. apply Hlt; [done|by right].
Qed.

Section plug.
Context st (h : nat) lo hi (ks1 : list pystr) (a : pystr) (ks2 : list pystr) (cs1 cs2 : list nref) l1 l l2.
Context (Hs : sorted (ks1 ++ a :: ks2)) (Hin : Forall (inside lo hi) (ks1 ++ a :: ks2)).
Context (Hl : left_of (kid st h) lo (lo_of lo ks1) ks1 cs1 l1).
Context (Hr : right_of (kid st h) (hi_of ks2 hi) hi ks2 cs2 l2).

Lemma plug_rotated a' L R :
  kids (kid st h) (lo_of lo ks1) (hi_of ks2 hi) [a'] [L; R] l -> inside (lo_of lo ks1) (hi_of ks2 hi) a' ->
  rep st (Datatypes.S h) lo hi (InternalNode (ks1 ++ a' :: ks2) (cs1 ++ L :: R :: cs2)) (l1 ++ l ++ l2).
Proof using Hs Hin Hl Hr.
  intros Hk Ha'. destruct (sorted_drop_middle _ _ _ _ _ Hs Hin) as [Hs' Hin'].
  destruct (sorted_plug lo hi ks1 a' ks2 Hs' Hin' Ha') as [Hs'' Hin''].
  apply rep_internal. exists h. split_and!; try done.
  by apply (kids_plug _ _ _ (lo_of lo ks1) (hi_of ks2 hi) ks1 [a'] ks2 cs1 [L; R] cs2).
Qed.

Lemma plug_merged M :
  kid st h (lo_of lo ks1) (hi_of ks2 hi) M l ->
  rep st (Datatypes.S h) lo hi (InternalNode (ks1 ++ ks2) (cs1 ++ M :: cs2)) (l1 ++ l ++ l2).
Proof using Hs Hin Hl Hr.
  intros Hk. destruct (sorted_drop_middle _ _ _ _ _ Hs Hin) as [Hs' Hin'].
  apply rep_internal. exists h. split_and!; try done.
  apply (kids_plug _ _ _ (lo_of lo ks1) (hi_of ks2 hi) ks1 [] ks2 cs1 [M] cs2); [done|by constructor|done].
Qed.

End plug.

(** ** [_rebalance] *)

Lemma has_spare_true n : has_spare order (Some n) = true <-> (min < _num_keys n)%nat.
Proof. unfold has_spare. apply bool_decide_eq_true. Qed.

Lemma has_spare_false n : occ order n -> has_spare order (Some n) = false -> _num_keys n = min.
Proof. intros [Ho _]. unfold has_spare. rewrite bool_decide_eq_false. lia. Qed.

(** The node is rebuilt with as many keys, or one fewer. *)
Definition rebalanced st h lo hi (ks : list pystr) l (out : res nref) : Prop :=
  exists keys children, out = Ok (_internal_ref keys children) /\
    rep st (Datatypes.S h) lo hi (InternalNode keys children) l /\
    (length ks <= Datatypes.S (length keys) /\ length keys <= length ks)%nat.

(** Two adjacent children [x], [y] around the separator [a], in their node. *)
Section focus.
Context st (h : nat) lo hi (ks1 : list pystr) (a : pystr) (ks2 : list pystr) (cs1 : list nref).
Context (x y : nref) (cs2 : list nref) l1 (lx ly : kvlist) l2 (nx ny : bnode).
Context (Hs : sorted (ks1 ++ a :: ks2)) (Hin : Forall (inside lo hi) (ks1 ++ a :: ks2)).
Context (Hc1 : length cs1 = length ks1).
Context (Hl : left_of (kid st h) lo (lo_of lo ks1) ks1 cs1 l1).
Context (Hr : right_of (kid st h) (hi_of ks2 hi) hi ks2 cs2 l2).
Context (Hx : rep st h (lo_of lo ks1) (Some a) nx lx) (Hy : rep st h (Some a) (hi_of ks2 hi) ny ly).

Let result (op : res (list pystr * list nref)) : Prop :=
  rebalanced st h lo hi (ks1 ++ a :: ks2) (l1 ++ (lx ++ ly) ++ l2)
    ('(keys, children) ← op; Ok (_internal_ref keys children)).

Lemma focus_rotated op :
  pair_rotated st h (lo_of lo ks1) (hi_of ks2 hi) (lx ++ ly) op a (length ks1) ->
  result (op (ks1 ++ a :: ks2) (cs1 ++ x :: y :: cs2)).
Proof using Horder Hs Hin Hc1 Hl Hr.
  intros (a' & L & R & Hk & Ha' & Hop). unfold result. rewrite Hop by done. eexists _, _.
  split; [reflexivity|]. split; [by apply (plug_rotated st h lo hi ks1 a ks2)|].
  rewrite !length_app. simpl. lia.
Qed.

Lemma focus_borrow_left :
  (min < _num_keys nx <= order)%nat -> Datatypes.S (_num_keys ny) = min ->
  result (_borrow_from_left (ks1 ++ a :: ks2) (cs1 ++ x :: y :: cs2) (Datatypes.S (length ks1)) nx ny).
Proof using Horder Hs Hin Hc1 Hl Hr Hx Hy.
  intros Hnx Hny. apply (focus_rotated (fun ks cs => _borrow_from_left ks cs (Datatypes.S (length ks1)) nx ny)).
  apply borrow_left_pair; try done. by apply inside_middle.
Qed.

Lemma focus_borrow_right :
  (min < _num_keys ny <= order)%nat -> Datatypes.S (_num_keys nx) = min ->
  result (_borrow_from_right (ks1 ++ a :: ks2) (cs1 ++ x :: y :: cs2) (length ks1) ny nx).
Proof using Horder Hs Hin Hc1 Hl Hr Hx Hy.
  intros Hny Hnx. apply (focus_rotated (fun ks cs => _borrow_from_right ks cs (length ks1) ny nx)).
  apply borrow_right_pair; try done. by apply inside_middle.
Qed.

Lemma focus_merge :
  Datatypes.S (_num_keys nx + _num_keys ny) = (2 * min)%nat ->
  result (_merge (ks1 ++ a :: ks2) (cs1 ++ x :: y :: cs2) (length ks1) nx ny).
Proof using Horder Hs Hin Hc1 Hl Hr Hx Hy.
  intros Hn. destruct (merge_pair st h (lo_of lo ks1) (hi_of ks2 hi) a nx ny lx ly (length ks1)) as (M & HM & Hop);
    [done..|by apply inside_middle|done|].
  unfold result. rewrite Hop by done. eexists _, _. split; [reflexivity|].
  split; [by apply (plug_merged st h lo hi ks1 a ks2)|]. rewrite !length_app. simpl. lia.
Qed.

End focus.

(** The two siblings [_rebalance] looks at. *)
Lemma left_case st h lo ks1 (cs1 : list nref) l1 :
  left_of (kid st h) lo (lo_of lo ks1) ks1 cs1 l1 ->
  (ks1 = [] /\ cs1 = [] /\ l1 = []) \/
  exists ks a cs x nl l0 lx, ks1 = ks ++ [a] /\ cs1 = cs ++ [x] /\ l1 = l0 ++ lx /\ length cs = length ks /\
    left_of (kid st h) lo (lo_of lo ks) ks cs l0 /\
    follow st x = Ok (Some nl) /\ rep st h (lo_of lo ks) (Some a) nl lx /\ occ order nl.
Proof.
  intros Hl. destruct ks1 as [|a ks _] using rev_ind.
  - left. destruct Hl as [(_ & ? & ? & _)|(? & ? & E & _)]; [done|by apply app_cons_not_nil in E].
  - right. destruct (left_sibling _ _ _ _ _ _ _ _ Hl) as (cs & x & l0 & lx & ? & ? & _ & ? & ? & Hx).
    destruct (kid_follow _ _ _ _ _ _ _ Hx) as (nl & ? & ? & ?). by exists ks, a, cs, x, nl, l0, lx.
Qed.

Lemma right_case st h hi ks2 (cs2 : list nref) l2 :
  right_of (kid st h) (hi_of ks2 hi) hi ks2 cs2 l2 ->
  (ks2 = [] /\ cs2 = [] /\ l2 = []) \/
  exists ks a cs x nr l0 lx, ks2 = a :: ks /\ cs2 = x :: cs /\ l2 = lx ++ l0 /\
    right_of (kid st h) (hi_of ks hi) hi ks cs l0 /\
    follow st x = Ok (Some nr) /\ rep st h (Some a) (hi_of ks hi) nr lx /\ occ order nr.
Proof.
  intros Hl. destruct ks2 as [|a ks].
  - left. destruct Hl as [(_ & ? & ? & _)|(? & ? & ? & _)]; done.
  - right. destruct (right_sibling _ _ _ _ _ _ _ _ Hl) as (cs & x & l0 & lx & ? & ? & _ & ? & ? & Hx).
    destruct (kid_follow _ _ _ _ _ _ _ Hx) as (nr & ? & ? & ?). by exists ks, a, cs, x, nr, l0, lx.
Qed.

(** What [_rebalance] finds on the right of the child. *)
Lemma right_lookup st h hi ks2 (cs1 cs2 : list nref) c l2 :
  right_of (kid st h) (hi_of ks2 hi) hi ks2 cs2 l2 ->
  exists ro,
    (if decide (length cs1 + 1 < length (cs1 ++ c :: cs2))%nat
     then r ← py_nth (cs1 ++ c :: cs2) (length cs1 + 1); follow st r else Ok None) = Ok ro /\
    ((ro = None /\ ks2 = []) \/
     exists ks b cs y nr l0 ly, ro = Some nr /\ ks2 = b :: ks /\ cs2 = y :: cs /\ l2 = ly ++ l0 /\
       right_of (kid st h) (hi_of ks hi) hi ks cs l0 /\ rep st h (Some b) (hi_of ks hi) nr ly /\ occ order nr).
Proof.
  intros Hr. rewrite length_app.
  destruct (right_case _ _ _ _ _ _ Hr) as [(-> & -> & _)|(ks & b & cs & y & nr & l0 & ly & -> & -> & -> & Hrr & Hf & Hry & Ho)].
  - exists None. split; [|by left]. rewrite decide_False by (simpl; lia). done.
  - exists (Some nr). split; [|right; by exists ks, b, cs, y, nr, l0, ly].
    rewrite decide_True by (simpl; lia). by rewrite py_nth_app2 by lia.
Qed.

Lemma rebalance_rep st h lo hi n ks1 ks2 (cs1 cs2 : list nref) l1 l l2 :
  Datatypes.S (_num_keys n) = min ->
  sorted (ks1 ++ ks2) -> Forall (inside lo hi) (ks1 ++ ks2) -> ks1 ++ ks2 <> [] ->
  length cs1 = length ks1 ->
  left_of (kid st h) lo (lo_of lo ks1) ks1 cs1 l1 -> rep st h (lo_of lo ks1) (hi_of ks2 hi) n l ->
  right_of (kid st h) (hi_of ks2 hi) hi ks2 cs2 l2 ->
  rebalanced st h lo hi (ks1 ++ ks2) (l1 ++ l ++ l2)
    (_rebalance order st (ks1 ++ ks2) (cs1 ++ Ref (Some n) 0 :: cs2) (length ks1)).
Proof using Horder.
  intros Hn Hs Hin Hne Hc1 Hl Hr Hright. unfold _rebalance. rewrite (py_nth_app cs1 (Ref (Some n) 0) cs2 (length ks1)) by lia.
  change (follow st (Ref (Some n) 0)) with (Ok (Some n) : res (option bnode)). simpl.
  destruct (right_lookup _ _ _ _ cs1 _ (Ref (Some n) 0) _ Hright) as (ro & Hro & Hcase). rewrite Hc1 in Hro.
  destruct (left_case _ _ _ _ _ _ Hl) as [(-> & -> & ->)|(ks & a & cs & x & nl & l0 & lx & -> & -> & -> & Hc & Hll & Hfx & Hrx & Hox)].
  - destruct (decide (0 < length [])%nat) as [H1|_]; [simpl in H1; lia|]. simpl in Hro |- *. rewrite Hro. simpl.
    destruct Hcase as [(-> & ->)|(ks & b & cs & y & nr & l3 & ly & -> & -> & -> & -> & Hrr & Hry & Hory)]; [done|].
    destruct (has_spare order (Some nr)) eqn:Esp.
    + rewrite (app_assoc l). apply (focus_borrow_right st h lo hi [] b ks [] (Ref (Some n) 0) y cs [] l ly l3 n nr); try done.
      split; [by apply has_spare_true|apply Hory].
    + rewrite (app_assoc l). apply (focus_merge st h lo hi [] b ks [] (Ref (Some n) 0) y cs [] l ly l3 n nr); try done.
      apply has_spare_false in Esp; [lia|done].
  - rewrite length_app in Hro |- *. simpl (length [a]) in Hro |- *.
    destruct (decide (0 < length ks + 1)%nat) as [_|?]; [|lia]. rewrite <- (app_assoc cs) in Hro |- *. simpl in Hro |- *.
    rewrite (py_nth_app cs x _ (length ks + 1 - 1)) by lia. simpl. rewrite Hfx. simpl. rewrite Hro. simpl.
    destruct (has_spare order (Some nl)) eqn:Esp.
    + rewrite <- (app_assoc ks) in Hs, Hin |- *. simpl in Hs, Hin |- *.
      rewrite <- (app_assoc l0), (app_assoc lx), Nat.add_1_r.
      apply (focus_borrow_left st h lo hi ks a ks2 cs x (Ref (Some n) 0) cs2 l0 lx l l2 nl n); try done.
      * unfold lo_of in Hr. by rewrite last_snoc in Hr.
      * split; [by apply has_spare_true|apply Hox].
    + destruct (has_spare order ro) eqn:Espr.
      * destruct Hcase as [(-> & ->)|(ks' & b & cs' & y & nr & l3 & ly & -> & -> & -> & -> & Hrr & Hry & Hory)]; [done|].
        replace (length ks + 1)%nat with (length (ks ++ [a])) by (by rewrite length_app).
        rewrite (app_cons_snoc cs), (app_assoc l).
        apply (focus_borrow_right st h lo hi (ks ++ [a]) b ks' (cs ++ [x]) (Ref (Some n) 0) y cs' (l0 ++ lx) l ly l3 n nr); try done.
        split; [by apply has_spare_true|apply Hory].
      * rewrite <- (app_assoc ks) in Hs, Hin |- *. simpl in Hs, Hin |- *.
        rewrite <- (app_assoc l0), (app_assoc lx), Nat.add_sub.
        apply (focus_merge st h lo hi ks a ks2 cs x (Ref (Some n) 0) cs2 l0 lx l l2 nl n); try done.
        -- unfold lo_of in Hr. by rewrite last_snoc in Hr.
        -- apply has_spare_false in Esp; [lia|done].
Qed.

(** ** [_delete_rec] *)

(** The key is gone and the count is down by one; an absent key is an error that
    changes nothing.  The node loses at most one key. *)
Definition delete_post st h lo hi (n : bnode) kvs k (c : Z) (out : Z * res nref) : Prop :=
  match kv_get k kvs with
  | None => out = (c, Raise (KeyError k))
  | Some _ => exists n', out = (c - 1, Ok (Ref (Some n') 0)) /\ rep st h lo hi n' (kv_del k kvs) /\
      (_num_keys n <= Datatypes.S (_num_keys n') /\ _num_keys n' <= _num_keys n)%nat
  end.

Lemma delete_leaf fuel st lo hi ks vs kvs k c :
  rep st 1 lo hi (LeafNode ks vs) kvs ->
  delete_post st 1 lo hi (LeafNode ks vs) kvs k c
    (_delete_rec order (Datatypes.S fuel) st (LeafNode ks vs) k c).
Proof.
  intros (_ & -> & Hvs & Hs & Hin)%rep_leaf. cbn [_delete_rec]. fold (hit kvs.*1 k). unfold delete_post.
  destruct (leaf_locate kvs k Hs) as [(A & v0 & B & -> & Hl & HA & HB & _ & ->)|(A & B & -> & Hl & HA & HB & ->)].
  - rewrite kv_get_app_l by done. cbn [kv_get]. rewrite decide_True by done.
    apply Forall2_app_inv_r in Hvs as (va & vb & Hva & (r & vb' & Hr & Hvb & ->)%Forall2_cons_inv_r & ->).
    pose proof (Forall2_length _ _ _ Hva) as Hla. rewrite <- Hl, fmap_app in *. run. cbn [fmap list_fmap fst].
    rewrite !py_delitem_app by (rewrite ?length_fmap; lia). eexists. split; [reflexivity|].
    rewrite kv_del_app_l, kv_del_hit by done. unfold _num_keys. cbn [node_keys].
    rewrite !length_app, !length_fmap. split; [|simpl; rewrite length_fmap; lia].
    apply sorted_app in Hs as (Hs1 & [Hs2 _]%sorted_cons & Hlt). apply Forall_app in Hin as [Hin1 [_ Hin2]%Forall_cons].
    apply rep_leaf. rewrite fmap_app. split_and!; try done; [by apply Forall2_app| |by apply Forall_app].
    apply sorted_app. split_and!; try done. intros x y Hx Hy. apply Hlt; [done|by right].
  - by rewrite kv_get_app_l, kv_get_above by done.
Qed.

Lemma delete_rec_rep fuel st h lo hi n kvs k c :
  rep st h lo hi n kvs -> (1 <= _num_keys n <= order)%nat -> within lo hi k -> (h <= fuel)%nat ->
  delete_post st h lo hi n kvs k c (_delete_rec order fuel st n k c).
Proof using Horder.
  pose proof min_keys_bounds as Hmin.
  revert fuel lo hi n kvs c. induction h as [|h IH]; intros fuel lo hi n kvs c Hr Hn Hw Hf; [done|].
  destruct fuel as [|fuel]; [lia|]. destruct n as [ks vs|ks cs].
  { pose proof Hr as ([= ->] & _)%rep_leaf. by apply delete_leaf. }
  apply rep_internal in Hr as (h' & [= <-] & Hs & Hin & Hk). unfold _num_keys in Hn. simpl in Hn. cbn [_delete_rec].
  destruct (child_locate h lo hi ks cs kvs k Hs Hin Hk Hw) as
    (lo' & hi' & ks1 & ks2 & cs1 & r & cs2 & l1 & l & l2 & -> & Hk1 & Hc1 & Hc2 & -> & -> & Hw' & -> & -> &
     Hleft & Hkid & Hright & Hb & Ha).
  destruct (kid_follow _ _ _ _ _ _ _ Hkid) as (m & Hm & Hrm & Hom).
  assert (1 <= _num_keys m <= order)%nat as Hnm by (destruct Hom; lia).
  pose proof (IH fuel _ _ m l c Hrm Hnm Hw') as Hpost. unfold delete_post in Hpost |- *.
  run. rewrite (py_nth_app cs1) by done. rewrite Hm. rewrite kv_get_app_l, kv_get_app_r by done.
  destruct (kv_get k l) as [v|] eqn:Eg; [|by rewrite Hpost by lia].
  destruct Hpost as (n' & -> & Hrn & Hnn); [lia|]. rewrite py_setitem_app by done.
  change (follow st (Ref (Some n') 0)) with (Ok (Some n') : res (option bnode)). cbv beta iota.
  rewrite kv_del_app_l, kv_del_app_r by done.
  destruct (decide (min <= _num_keys n')%nat) as [Hge|Hlt].
  - eexists. split; [reflexivity|]. split; [|unfold _num_keys; simpl; lia]. apply rep_internal. exists h. split_and!; try done.
    eapply (kids_plug _ _ _ _ _ ks1 [] ks2 cs1 [Ref (Some n') 0] cs2); [exact Hleft| |exact Hright].
    constructor. apply kid_mem; [done|]. destruct Hom. split; lia.
  - destruct (rebalance_rep st h lo hi n' ks1 ks2 cs1 cs2 l1 (kv_del k l) l2) as (keys & children & Hres & Hrr & Hlen);
      try done; [destruct Hom; lia|intros E; rewrite E in Hn; simpl in Hn; lia|lia|].
    rewrite <- Hk1, Hres. eexists. split; [reflexivity|]. split; [done|]. unfold _num_keys. simpl. lia.
Qed.

(** ** The root *)

Lemma rep_internal_single st h lo hi cs kvs :
  rep st h lo hi (InternalNode [] cs) kvs -> exists h' r, h = Datatypes.S h' /\ cs = [r] /\ kid st h' lo hi r kvs.
Proof. intros (h' & -> & _ & _ & Hk)%rep_internal. inversion Hk; subst. eauto. Qed.

Lemma delete_rep fuel st h n kvs k c :
  root_of order st h n kvs -> (h <= fuel)%nat ->
  match kv_get k kvs with
  | None => _delete order fuel st n k c = (c, Raise (KeyError k))
  | Some _ => exists h' r', _delete order fuel st n k c = (c - 1, Ok r') /\
      tree order st h' r' (kv_del k kvs) /\ (h' <= h <= Datatypes.S h')%nat
  end.
Proof using Horder.
  intros Hr Hf. pose proof min_keys_bounds as Hmin. destruct n as [n|]; [|by destruct Hr as [-> ->]].
  destruct Hr as [Hr Hn].
  pose proof (delete_rec_rep fuel st h None None n kvs k c Hr Hn (within_all k) Hf) as Hpost.
  unfold delete_post in Hpost. cbn [_delete]. run.
  destruct (kv_get k kvs) as [v|]; [|by rewrite Hpost]. destruct Hpost as (n' & -> & Hrn & Hnn).
  change (follow st (Ref (Some n') 0)) with (Ok (Some n') : res (option bnode)). cbv beta iota.
  destruct n' as [[|k' ks] vs|[|k' ks] cs].
  - pose proof Hrn as (-> & E & _)%rep_leaf. exists O. eexists. split; [reflexivity|].
    split; [|lia]. left. split; [done|]. split; [done|]. by destruct (kv_del k kvs).
  - exists h. eexists. split; [reflexivity|]. split; [|lia]. right. eexists. split; [apply resolves_mem|].
    split; [done|]. unfold _num_keys in *. simpl in *. lia.
  - destruct (rep_internal_single _ _ _ _ _ _ Hrn) as (h' & r & -> & -> & (m & Hm & Hrm & Hom)).
    exists h', r. split; [reflexivity|]. split; [|lia]. right. exists m. split; [done|]. split; [done|].
    destruct Hom. lia.
  - exists h. eexists. split; [reflexivity|]. split; [|lia]. right. eexists. split; [apply resolves_mem|].
    split; [done|]. unfold _num_keys in *. simpl in *. lia.
Qed.

End delete.
