(* ===== verification/BPlusAudit.v ===== *)
(** The structural self-check of the B+ tree, [BPlusTree.audit], and the bound on
    the tree's height. *)

From S2P Require Import Prelude PyBase Struct SimDisk Logical KeyList Pickle BPlusTree BPlusRep BPlusInsert BPlusDelete.

(** * [audit.py] *)

(** The messages [audit] appends, one constructor per format string. *)
Inductive audit_error : Type :=
| KeysOutOfOrder (smaller larger : pystr)
| BelowLowerBound (key lower : pystr)
| NotBelowUpperBound (key upper : pystr)
| NodeOverflow (keys : nat)
| NodeUnderflow (keys : nat)
| LeafMismatch
| ValueNotLoaded (key : pystr) (exc : exn)
| InternalMismatch
| RootWithoutSeparators
| NotHeightBalanced
| KeyCountMismatch (count : Z) (leaf_keys : Z).

Record AuditReport : Type := {
  report_keys : Z;
  report_nodes : Z;
  report_values : Z;
  report_height : Z;
  report_errors : list audit_error
}.

Definition report_ok (r : AuditReport) : bool :=
  match report_errors r with [] => true | _ => false end.

(** * [BPlusTree.audit] *)

(** [errors] and [counters], the variables [check] closes over. *)
Record audit_state : Type := {
  errors : list audit_error;
  nodes : Z;
  values : Z;
  leaf_keys : Z
}.

Definition add_errors (es : list audit_error) : St audit_state unit :=
  modify (fun a => {| errors := errors a ++ es; nodes := nodes a; values := values a; leaf_keys := leaf_keys a |}).
Definition count_node : St audit_state unit :=
  modify (fun a => {| errors := errors a; nodes := nodes a + 1; values := values a; leaf_keys := leaf_keys a |}).
Definition count_value : St audit_state unit :=
  modify (fun a => {| errors := errors a; nodes := nodes a; values := values a + 1; leaf_keys := leaf_keys a |}).
Definition count_leaf_keys (n : Z) : St audit_state unit :=
  modify (fun a => {| errors := errors a; nodes := nodes a; values := values a; leaf_keys := leaf_keys a + n |}).

Definition order_errors (ks : list pystr) : list audit_error :=
  mjoin (zip_with (fun smaller larger =>
    if str_ltb smaller larger then [] else [KeysOutOfOrder smaller larger]) ks (drop 1 ks)).

Definition bound_errors (lower upper : option pystr) (ks : list pystr) : list audit_error :=
  ks ≫= fun key =>
    match lower with Some a => if str_ltb key a then [BelowLowerBound key a] else [] | None => [] end ++
    match upper with Some b => if str_leb b key then [NotBelowUpperBound key b] else [] | None => [] end.

Section audit.
Context `{Pickle} {S : Type} `{RecordStore S} (order : nat).

Definition size_errors (is_root : bool) (ks : list pystr) : list audit_error :=
  (if decide (order < length ks)%nat then [NodeOverflow (length ks)] else []) ++
  (if negb is_root && bool_decide (length ks < _min_keys order)%nat then [NodeUnderflow (length ks)] else []).

(** The value loop of a leaf: each load is tried on its own. *)
Fixpoint check_values (st : S) (l : list (pystr * ref bytes)) : St audit_state unit :=
  match l with
  | [] => mret tt
  | (key, value_ref) :: l =>
      (match value_follow st value_ref with
       | Ok _ => count_value
       | Raise e => add_errors [ValueNotLoaded key e]
       end) ;;
      check_values st l
  end.

(** The child loop of an internal node; it collects the children's heights. *)
Fixpoint check_children (check : bnode -> option pystr -> option pystr -> St audit_state Z) (st : S)
    (lower upper : option pystr) (ks : list pystr) (child_index : nat) (cs : list nref) :
    St audit_state (list Z) :=
  match cs with
  | [] => mret []
  | r :: cs =>
      lo ← (match child_index with
            | O => mret lower
            | Datatypes.S i => k ← lift_res (py_nth ks i); mret (Some k)
            end);
      let hi := match ks !! child_index with Some k => Some k | None => upper end in
      n ← lift_res (follow st r);
      h ← (match n with Some n => check n lo hi | None => raise AttributeError end);
      hs ← check_children check st lower upper ks (Datatypes.S child_index) cs;
      mret (h :: hs)
  end.

Fixpoint check (fuel : nat) (st : S) (is_root : bool) (node : bnode) (lower upper : option pystr) :
    St audit_state Z :=
  match fuel with
  | O => raise RecursionError
  | Datatypes.S fuel =>
      count_node ;;
      add_errors (order_errors (node_keys node)) ;;
      add_errors (bound_errors lower upper (node_keys node)) ;;
      add_errors (size_errors is_root (node_keys node)) ;;
      match node with
      | LeafNode ks vs =>
          add_errors (if decide (length vs = length ks) then [] else [LeafMismatch]) ;;
          check_values st (zip ks vs) ;;
          count_leaf_keys (Z.of_nat (length ks)) ;;
          mret 1
      | InternalNode ks cs =>
          add_errors (if decide (length cs = length ks + 1)%nat then [] else [InternalMismatch]) ;;
          add_errors (if is_root && bool_decide (length ks < 1)%nat then [RootWithoutSeparators] else []) ;;
          heights ← check_children (check fuel st false) st lower upper ks 0 cs;
          add_errors (if decide (1 < length (remove_dups heights))%nat then [NotHeightBalanced] else []) ;;
          mret (1 + foldr Z.max 0 heights)
      end
  end.

(** [audit(root_ref, count)] *)
Definition audit (fuel : nat) (st : S) (root_ref : nref) (count : Z) : res AuditReport :=
  root ← follow st root_ref;
  let a0 := {| errors := []; nodes := 0; values := 0; leaf_keys := 0 |} in
  let '(a, r) := match root with None => (a0, Ok 0) | Some n => check fuel st true n None None a0 end in
  height ← r;
  Ok {| report_keys := leaf_keys a; report_nodes := nodes a; report_values := values a;
        report_height := height;
        report_errors := errors a ++
          (if decide (leaf_keys a = count) then [] else [KeyCountMismatch count (leaf_keys a)]) |}.

End audit.

(** * What an empty error list means *)

Lemma order_errors_nil ks : order_errors ks = [] <-> sorted ks.
Proof.
  unfold order_errors. induction ks as [|a [|b ks] IH].
  - split; [constructor|done].
  - split; [repeat constructor|done].
  - change (mjoin _) with ((if str_ltb a b then [] else [KeysOutOfOrder a b]) ++
      mjoin (zip_with (fun s l => if str_ltb s l then [] else [KeysOutOfOrder s l]) (b :: ks) (drop 1 (b :: ks)))).
    rewrite app_nil, IH, (sorted_cons a). split.
    + intros [Hab Hs]. split; [done|]. destruct (str_ltb a b) eqn:E; [|done]. apply str_ltb_lt in E.
      apply sorted_cons in Hs as [_ Hgt]. intros y [->|Hy]%elem_of_cons; [done|]. apply Hgt in Hy. key_order.
    + intros [Hs Hgt]. split; [|done]. by rewrite (proj2 (str_ltb_lt a b)) by (apply Hgt; by left).
Qed.

Lemma bound_errors_nil lo hi ks : bound_errors lo hi ks = [] <-> Forall (within lo hi) ks.
Proof.
  unfold bound_errors. induction ks as [|k ks IH]; [by split|].
  rewrite bind_cons, !app_nil, Forall_cons, IH.
  apply and_iff_compat_r. unfold within. split; intros [Hl Hh].
  - split.
    + destruct lo as [a|]; [|done]. destruct (str_ltb k a) eqn:E; [done|]. by apply str_ltb_ge in E.
    + destruct hi as [b|]; [|done]. destruct (str_leb_spec b k); [done|]. simpl. key_order.
  - split.
    + destruct lo as [a|]; [|done]. by rewrite (proj2 (str_ltb_ge k a)).
    + destruct hi as [b|]; [|done]. destruct (str_leb_spec b k); [|done]. simpl in Hh. key_order.
Qed.

Lemma size_errors_nil order is_root ks :
  size_errors order is_root ks = [] <->
  (length ks <= order)%nat /\ (is_root = false -> (_min_keys order <= length ks)%nat).
Proof.
  unfold size_errors. rewrite app_nil. destruct (decide (order < length ks)%nat), is_root; simpl.
  - split; [intros [? _]; done|intros [? _]; lia].
  - split; [intros [? _]; done|intros [? _]; lia].
  - split; [intros _; split; [lia|done]|done].
  - destruct (bool_decide_reflect (length ks < _min_keys order)%nat).
    + split; [intros [_ ?]; done|intros [_ Hm]; specialize (Hm eq_refl); lia].
    + split; [intros _; split; [lia|intros _; lia]|done].
Qed.

(** All heights equal is the same as one height in the set. *)
Lemma one_height (h : Z) hs :
  (length (remove_dups (h :: hs)) <= 1)%nat <-> Forall (eq h) hs.
Proof.
  split.
  - intros Hlen. apply Forall_forall. intros x Hx.
    assert (h ∈ remove_dups (h :: hs)) as Hh by (apply elem_of_remove_dups; by left).
    assert (x ∈ remove_dups (h :: hs)) as Hx' by (apply elem_of_remove_dups; by right).
    destruct (remove_dups (h :: hs)) as [|a [|b l]]; [by apply elem_of_nil in Hh| |simpl in Hlen; lia].
    apply list_elem_of_singleton in Hh, Hx'. congruence.
  - intros Hall. assert (Hsub : forall x, x ∈ remove_dups (h :: hs) -> x = h).
    { intros x Hx. rewrite elem_of_remove_dups in Hx. apply elem_of_cons in Hx as [->|Hx]; [done|].
      by rewrite (proj1 (Forall_forall _ _) Hall x Hx). }
    pose proof (NoDup_remove_dups (h :: hs)) as Hnd.
    destruct (remove_dups (h :: hs)) as [|a [|b l]]; simpl; [lia..|].
    apply NoDup_cons in Hnd as [Ha _]. exfalso. apply Ha.
    rewrite (Hsub a), (Hsub b); [by left|right; by left|by left].
Qed.

Lemma max_heights h hs : 0 < h -> Forall (eq h) hs -> foldr Z.max 0 (h :: hs) = h.
Proof.
  intros Hh Hall. assert (0 <= foldr Z.max 0 hs <= h); [|simpl; lia].
  induction Hall as [|x hs <- _ IH]; simpl; lia.
Qed.

(** * A well-formed tree passes *)

Section complete.
Context `{Pickle} {S : Type} `{RecordStore S} (order : nat) (st : S).
Context (RN : nref -> bnode -> Prop) (RV : ref bytes -> pystr * bytes -> Prop).
Context (HN : forall r n, RN r n -> follow st r = Ok (Some n)).
Context (HV : forall r kv, RV r kv -> value_follow st r = Ok (Some kv.2)).
Implicit Types (lo hi : option pystr) (kvs l : kvlist).

(** [n] more nodes and [k] more keys, each with its value, and no error. *)
Definition tallied (n k : nat) (a : audit_state) : audit_state :=
  {| errors := errors a; nodes := nodes a + Z.of_nat n; values := values a + Z.of_nat k;
     leaf_keys := leaf_keys a + Z.of_nat k |}.

Lemma tallied_app n k n' k' a : tallied n' k' (tallied n k a) = tallied (n + n') (k + k') a.
Proof. unfold tallied. simpl. f_equal; lia. Qed.

Lemma add_no_errors a : add_errors [] a = (a, Ok tt).
Proof. unfold add_errors. run. rewrite app_nil_r. by destruct a. Qed.

Lemma check_values_ok vs kvs a :
  Forall2 RV vs kvs ->
  check_values st (zip kvs.*1 vs) a =
    ({| errors := errors a; nodes := nodes a; values := values a + Z.of_nat (length kvs); leaf_keys := leaf_keys a |}, Ok tt).
Proof using HV.
  intros Hf. revert a. induction Hf as [|r [k v] vs kvs Hr _ IH]; intros a.
  - simpl. rewrite Z.add_0_r. by destruct a.
  - change (zip _ _) with ((k, r) :: zip kvs.*1 vs). cbn [check_values]. rewrite (HV _ _ Hr).
    erewrite stx_bind_ok by reflexivity. rewrite IH. simpl. do 2 f_equal. lia.
Qed.

Lemma check_children_ok chk h lo lo' hi ks1 ks2 cs l a :
  (forall lo hi r l a, shape_kid order RN RV h lo hi r l ->
     exists m n, follow st r = Ok (Some m) /\ chk m lo hi a = (tallied n (length l) a, Ok (Z.of_nat h))) ->
  lo' = lo_of lo ks1 -> kids (shape_kid order RN RV h) lo' hi ks2 cs l ->
  exists n hs, check_children chk st lo hi (ks1 ++ ks2) (length ks1) cs a = (tallied n (length l) a, Ok (Z.of_nat h :: hs)) /\
    Forall (eq (Z.of_nat h)) hs.
Proof.
  intros Hchk Hlo Hk. revert ks1 Hlo a.
  assert (Hleft : forall (ks1 ks2 : list pystr) (a : audit_state),
    (match length ks1 with O => mret lo | Datatypes.S i => k ← lift_res (py_nth (ks1 ++ ks2) i); mret (Some k) end) a
    = (a, Ok (lo_of lo ks1) : res (option pystr))).
  { intros ks1 ks a. pose proof (left_bound_last ks1 ks) as Hb. unfold lo_of.
    destruct ks1 as [|x ks1]; [done|]. simpl in Hb |- *. run. run in Hb.
    destruct (py_nth _ _); [|done]. injection Hb as Hb. by rewrite <- Hb. }
  induction Hk as [lo' hi r l Hr|lo' hi k ks r cs l1 l2 Hr Hk IH]; intros ks1 -> a; cbn [check_children];
    (erewrite stx_bind_ok by apply Hleft); destruct (Hchk _ _ _ _ a Hr) as (m & n & Hf & Hc).
  - rewrite app_nil_r, lookup_ge_None_2 by lia. run. rewrite Hf, Hc. by exists n, [].
  - rewrite lookup_app_exact by done. run. rewrite Hf, Hc.
    assert (Some k = lo_of lo (ks1 ++ [k])) as Hk' by (unfold lo_of; by rewrite last_snoc).
    destruct (IH (ks1 ++ [k]) Hk' (tallied n (length l1) a)) as (n' & hs & Hrec & Hall).
    rewrite <- app_assoc, length_app, Nat.add_1_r in Hrec. simpl ([k] ++ ks) in Hrec. run in Hrec. rewrite Hrec.
    exists (n + n')%nat, (Z.of_nat h :: hs). rewrite tallied_app, length_app. split; [done|]. by constructor.
Qed.

Lemma check_ok fuel h (is_root : bool) lo hi n kvs a :
  shape order RN RV h lo hi n kvs -> (h <= fuel)%nat ->
  (_num_keys n <= order)%nat -> (if is_root then 1 <= _num_keys n else _min_keys order <= _num_keys n)%nat ->
  exists m, check order fuel st is_root n lo hi a = (tallied m (length kvs) a, Ok (Z.of_nat h)).
Proof using HN HV.
  revert fuel is_root lo hi n kvs a. induction h as [|h IH]; intros fuel is_root lo hi n kvs a Hr Hf Hle Hge; [done|].
  destruct fuel as [|fuel]; [lia|]. cbn [check].
  assert (sorted (node_keys n) /\ Forall (within lo hi) (node_keys n)) as [Hs Hw].
  { destruct n; [apply rep_leaf in Hr as (_ & -> & _ & ? & ?); done|].
    apply rep_internal in Hr as (_ & _ & ? & Hin & _). split; [done|].
    eapply Forall_impl; [exact Hin|]. intros ?. apply inside_within. }
  rewrite (proj2 (order_errors_nil _) Hs), (proj2 (bound_errors_nil _ _ _) Hw).
  rewrite (proj2 (size_errors_nil order is_root (node_keys n))) by (split; [done|intros ->; done]).
  erewrite stx_bind_ok by reflexivity. do 3 (erewrite stx_bind_ok by apply add_no_errors).
  destruct n as [ks vs|ks cs].
  - apply rep_leaf in Hr as ([= ->] & -> & Hvs & _). pose proof (Forall2_length _ _ _ Hvs) as Hl.
    rewrite decide_True by (by rewrite length_fmap). erewrite stx_bind_ok by apply add_no_errors.
    erewrite stx_bind_ok by (by apply check_values_ok). exists 1%nat. unfold count_leaf_keys, tallied. run. simpl.
    by rewrite length_fmap.
  - apply rep_internal in Hr as (h' & [= <-] & _ & _ & Hk). unfold _num_keys in *. simpl in *.
    rewrite decide_True by (rewrite (kids_length _ _ _ _ _ _ Hk); lia). erewrite stx_bind_ok by apply add_no_errors.
    assert ((if is_root && bool_decide (length ks < 1)%nat then [RootWithoutSeparators] else []) = []) as ->.
    { destruct is_root; [|done]. by rewrite bool_decide_false by lia. }
    erewrite stx_bind_ok by apply add_no_errors.
    match goal with |- context [check_children ?c st lo hi ks 0 cs ≫= _] =>
      destruct (check_children_ok c h lo lo hi [] ks cs kvs (tallied 1 0 a)) as (m & hs & Hcc & Hall) end; [|done..|].
    { intros lo1 hi1 r l a' (m & Hm & Hrm & Ho). pose proof Ho as [? ?].
      destruct (IH fuel false lo1 hi1 m l a' Hrm) as (k & Hk'); [lia|done..|].
      exists m, k. split; [by apply HN|done]. }
    assert (0 < Z.of_nat h) as Hpos.
    { destruct h; [|lia]. by destruct Hk as [? ? ? ? (? & _ & [] & _)|? ? ? ? ? ? ? ? (? & _ & [] & _)]. }
    exists (1 + m)%nat. erewrite stx_bind_ok.
    2:{ rewrite <- Hcc. f_equal. unfold tallied. simpl. f_equal; lia. }
    rewrite decide_False by (pose proof (proj2 (one_height _ _) Hall); lia).
    erewrite stx_bind_ok by apply add_no_errors. rewrite max_heights, tallied_app by done. run. do 2 f_equal. lia.
Qed.

End complete.

(** * A tree that passes is well formed *)

Section sound.
Context `{Pickle} {S : Type} `{RecordStore S} (order : nat) (Horder : (3 <= order)%nat) (st : S).
Implicit Types (lo hi : option pystr) (kvs l : kvlist).

(** The references load; a null value reference counts as an empty value. *)
Definition node_loads (r : nref) (n : bnode) : Prop := follow st r = Ok (Some n).
Definition value_loads (r : ref bytes) (kv : pystr * bytes) : Prop :=
  match value_follow st r with Ok v => kv.2 = default [] v | Raise _ => False end.

Abbreviation rep := (shape order node_loads value_loads).
Abbreviation kid := (shape_kid order node_loads value_loads).

Lemma check_values_sound (prs : list (pystr * ref bytes)) a a' u :
  check_values st prs a = (a', Ok u) -> errors a' = [] ->
  errors a = [] /\ leaf_keys a' = leaf_keys a /\ exists kvs, kvs.*1 = prs.*1 /\ Forall2 value_loads prs.*2 kvs.
Proof.
  revert a. induction prs as [|[k r] prs IH]; intros a Hc He.
  - injection Hc as <- _. split; [done|]. split; [done|]. exists []. by split; [|constructor].
  - cbn [check_values] in Hc. destruct (value_follow st r) as [v|e] eqn:Ev.
    + apply IH in Hc as (He0 & Hk & kvs & Hks & Hf); [|done]. split; [done|]. split; [done|].
      exists ((k, default [] v) :: kvs). csimpl. rewrite Hks. split; [done|]. constructor; [|done].
      unfold value_loads. by rewrite Ev.
    + apply IH in Hc as (He0 & _); [|done]. simpl in He0. by apply app_nil in He0 as [_ ?].
Qed.

(** What a clean [check] of a node tells. *)
Definition checked (is_root : bool) lo hi (n : bnode) (h : Z) (a a' : audit_state) : Prop :=
  errors a = [] /\ 0 < h /\ exists kvs, rep (Z.to_nat h) lo hi n kvs /\
    leaf_keys a' = leaf_keys a + Z.of_nat (length kvs) /\ (_num_keys n <= order)%nat /\
    (is_root = false -> (_min_keys order <= _num_keys n)%nat) /\
    (is_root = true -> is_leaf n = false -> (1 <= _num_keys n)%nat).

Lemma check_children_errors chk lo hi ks i cs a a' hs :
  (forall n lo hi a a' h, chk n lo hi a = (a', Ok h) -> errors a' = [] -> checked false lo hi n h a a') ->
  check_children chk st lo hi ks i cs a = (a', Ok hs) -> errors a' = [] ->
  errors a = [] /\ length hs = length cs.
Proof.
  intros Hchk. revert i a hs. induction cs as [|r cs IH]; intros i a hs Hcc He; [by injection Hcc as <- <-|].
  cbn [check_children] in Hcc. apply stx_bind_inv in Hcc as (a1 & lo' & Hlo & Hcc).
  assert (a1 = a) as ->.
  { destruct i; [by injection Hlo|]. run in Hlo. destruct (py_nth ks i); [by injection Hlo|done]. }
  apply stx_bind_inv in Hcc as (a1 & n & Hn & Hcc). injection Hn as <- Hn.
  apply stx_bind_inv in Hcc as (a1 & h1 & Hh & Hcc). destruct n as [n|]; [|done].
  apply stx_bind_inv in Hcc as (a2 & hs' & Hrec & Hret). injection Hret as <- <-.
  apply IH in Hrec as [He1 Hlen]; [|done]. apply Hchk in Hh as [He0 _]; [|done]. split; [done|]. simpl. lia.
Qed.

Lemma check_children_sound chk h lo hi ks1 ks2 cs a a' hs :
  (forall n lo hi a a' h, chk n lo hi a = (a', Ok h) -> errors a' = [] -> checked false lo hi n h a a') ->
  length cs = Datatypes.S (length ks2) ->
  check_children chk st lo hi (ks1 ++ ks2) (length ks1) cs a = (a', Ok hs) -> errors a' = [] ->
  Forall (eq h) hs ->
  errors a = [] /\ 0 < h /\ exists kvs, kids (kid (Z.to_nat h)) (lo_of lo ks1) hi ks2 cs kvs /\
    leaf_keys a' = leaf_keys a + Z.of_nat (length kvs).
Proof.
  intros Hchk. revert ks1 ks2 a hs. induction cs as [|r cs IH]; intros ks1 ks2 a hs Hlen Hcc He Hall; [done|].
  cbn [check_children] in Hcc. apply stx_bind_inv in Hcc as (a1 & lo' & Hlo & Hcc).
  assert (a1 = a /\ lo' = lo_of lo ks1) as [-> ->].
  { pose proof (left_bound_last ks1 ks2) as Hb. unfold lo_of. destruct ks1 as [|x ks1]; [by injection Hlo as <- <-|].
    simpl in Hb, Hlo. run in Hlo. run in Hb. destruct (py_nth _ _); [|done]. injection Hb as Hb. rewrite <- Hb.
    by injection Hlo as <- <-. }
  apply stx_bind_inv in Hcc as (a1 & n & Hn & Hcc). injection Hn as <- Hn.
  apply stx_bind_inv in Hcc as (a1 & h1 & Hh & Hcc). destruct n as [n|]; [|done].
  apply stx_bind_inv in Hcc as (a2 & hs' & Hrec & Hret). injection Hret as <- <-.
  apply Forall_cons in Hall as [<- Hall].
  destruct cs as [|r' cs].
  - injection Hrec as <- <-. destruct ks2 as [|]; [|done].
    rewrite app_nil_r, lookup_ge_None_2 in Hh by lia.
    apply Hchk in Hh as (He0 & Hpos & kvs & Hr & Hk & Hle & Hge & _); [|done].
    split; [done|]. split; [done|]. exists kvs. split; [|done]. constructor. exists n. split; [done|]. split; [done|].
    split; [by apply Hge|done].
  - destruct ks2 as [|k ks2]; [done|]. rewrite lookup_app_exact in Hh by done.
    change (k :: ks2) with ([k] ++ ks2) in Hrec. rewrite app_assoc in Hrec.
    replace (Datatypes.S (length ks1)) with (length (ks1 ++ [k])) in Hrec by (rewrite length_app; simpl; lia).
    apply IH in Hrec as (He1 & _ & l2 & Hks & Hk2); [|simpl in *; lia|done|done].
    apply Hchk in Hh as (He0 & Hpos & l1 & Hr & Hk & Hle & Hge & _); [|done].
    split; [done|]. split; [done|]. exists (l1 ++ l2). rewrite length_app. split; [|lia].
    unfold lo_of in Hks at 1. rewrite last_snoc in Hks. constructor; [|done].
    exists n. split; [done|]. split; [done|]. split; [by apply Hge|done].
Qed.

(** A non-empty first child puts the first separator strictly above the bound. *)
Lemma kids_inside h lo hi ks cs kvs :
  kids (kid h) lo hi ks cs kvs -> sorted ks -> Forall (within lo hi) ks -> Forall (inside lo hi) ks.
Proof using Horder.
  intros Hk Hs Hw. destruct Hk as [|lo hi k ks r cs l1 l2 (m & _ & Hm & Ho) _]; [constructor|].
  pose proof (min_keys_bounds order Horder) as [Hmin _].
  assert (exists x, within lo (Some k) x) as (x & Hxl & Hxk).
  { destruct Ho as [Ho _]. unfold _num_keys in Ho. destruct h as [|h]; [done|].
    destruct m as [[|x ks'] vs|[|x ks'] cs']; simpl in Ho; [lia| |lia|]; exists x.
    - apply rep_leaf in Hm as (_ & _ & _ & _ & Hf). by apply Forall_cons in Hf as [Hf _].
    - apply rep_internal in Hm as (_ & _ & _ & Hf & _). apply Forall_cons in Hf as [Hf _]. by apply inside_within. }
  apply sorted_cons in Hs as [_ Hgt]. simpl in Hxk.
  assert (lo_lt lo k) as Hlo by (destruct lo; [simpl in *; key_order|done]).
  apply Forall_forall. intros y Hy. apply (proj1 (Forall_forall _ _) Hw) in Hy as Hyw. destruct Hyw as [_ Hyh].
  split; [|done]. apply elem_of_cons in Hy as [->|Hy]; [done|]. apply Hgt in Hy.
  destruct lo; [simpl in *; key_order|done].
Qed.

Lemma check_sound fuel is_root n lo hi a a' h :
  check order fuel st is_root n lo hi a = (a', Ok h) -> errors a' = [] -> checked is_root lo hi n h a a'.
Proof using Horder.
  revert is_root n lo hi a a' h. induction fuel as [|fuel IH]; intros is_root n lo hi a a' h Hc He; [done|].
  cbn [check] in Hc. do 4 (apply stx_bind_inv in Hc as (? & ? & Ha & Hc); injection Ha as <- _).
  destruct n as [ks vs|ks cs]; cbn [node_keys] in Hc.
  - apply stx_bind_inv in Hc as (? & ? & Ha & Hc); injection Ha as <- _.
    apply stx_bind_inv in Hc as (a1 & u & Hv & Hc). injection Hc as <- <-.
    apply check_values_sound in Hv as (He1 & Hlk & kvs & Hks & Hf); [|done]. simpl in He1, Hlk, He |- *.
    rewrite !app_nil in He1. destruct He1 as ((((He1 & Ho) & Hb) & Hs) & Hm).
    apply order_errors_nil in Ho. apply bound_errors_nil in Hb. apply size_errors_nil in Hs as [Hle Hge].
    destruct (decide (length vs = length ks)) as [Hlen|]; [|done].
    rewrite fst_zip in Hks by lia. rewrite snd_zip in Hf by lia.
    split; [done|]. split; [done|]. exists kvs. split; [by apply rep_leaf|]. split; [|done].
    rewrite Hlk, <- Hks, length_fmap. done.
  - do 2 (apply stx_bind_inv in Hc as (? & ? & Ha & Hc); injection Ha as <- _).
    apply stx_bind_inv in Hc as (a1 & hs & Hcc & Hc). run in Hc. injection Hc as <- <-. simpl in He.
    apply app_nil in He as [He Hbal]. destruct (decide (1 < length (remove_dups hs))%nat) as [|Hone]; [done|].
    pose proof (check_children_errors _ _ _ _ _ _ _ _ _ (IH false) Hcc He) as [He1 Hlen].
    simpl in He1. rewrite !app_nil in He1. destruct He1 as (((((He1 & Ho) & Hb) & Hs) & Hm) & Hroot).
    apply order_errors_nil in Ho. apply bound_errors_nil in Hb. apply size_errors_nil in Hs as [Hle Hge].
    destruct (decide (length cs = length ks + 1)%nat) as [Hcs|]; [|done].
    destruct hs as [|h hs]; [simpl in Hlen; lia|].
    assert (Forall (eq h) hs) as Hall by (apply one_height; lia).
    apply (check_children_sound _ h lo hi [] ks) in Hcc as (_ & Hpos & kvs & Hk & Hlk);
      [|exact (IH false)|lia|done|by constructor].
    rewrite max_heights by done. split; [done|]. split; [lia|]. exists kvs. split.
    + apply rep_internal. exists (Z.to_nat h). split; [lia|]. split; [done|].
      split; [by eapply kids_inside|done].
    + split; [done|]. split; [done|]. split; [done|]. intros -> _. simpl in Hroot.
      unfold _num_keys. simpl. destruct (bool_decide_reflect (length ks < 1)%nat); [done|lia].
Qed.

End sound.

(** * Height *)

Section height.
Context {order : nat} {RN : nref -> bnode -> Prop} {RV : ref bytes -> pystr * bytes -> Prop}.
Implicit Types (lo hi : option pystr) (kvs l : kvlist).

Lemma kids_size h (b : nat) lo hi ks cs l :
  (forall lo hi r l, shape_kid order RN RV h lo hi r l -> (b <= length l)%nat) ->
  kids (shape_kid order RN RV h) lo hi ks cs l -> (length cs * b <= length l)%nat.
Proof.
  intros Hb. induction 1 as [lo hi r l Hr|lo hi k ks r cs l1 l2 Hr _ IH]; simpl; rewrite ?length_app;
    apply Hb in Hr; lia.
Qed.

(** A half-full subtree of height [h + 1] holds at least [min * (min + 1) ^ h] keys. *)
Lemma shape_size h lo hi n kvs :
  shape order RN RV (S h) lo hi n kvs -> occ order n ->
  (_min_keys order * (_min_keys order + 1) ^ h <= length kvs)%nat.
Proof.
  revert lo hi n kvs. induction h as [|h IH]; intros lo hi n kvs Hr [Hm _]; unfold _num_keys in Hm.
  - destruct n as [ks vs|ks cs].
    + apply rep_leaf in Hr as (_ & -> & _). simpl in *. rewrite length_fmap in Hm. lia.
    + apply rep_is_leaf in Hr. done.
  - destruct n as [ks vs|ks cs]; [apply rep_leaf in Hr as (? & _); lia|].
    apply rep_internal in Hr as (h' & [= <-] & _ & _ & Hk). simpl in Hm.
    pose proof (kids_length _ _ _ _ _ _ Hk) as Hc.
    apply (kids_size _ (_min_keys order * (_min_keys order + 1) ^ h)) in Hk.
    + rewrite Nat.pow_succ_r'. rewrite Hc in Hk.
      etransitivity; [|exact Hk]. rewrite Nat.mul_comm, <- Nat.mul_assoc. rewrite (Nat.mul_comm _ (_min_keys order)).
      apply Nat.mul_le_mono_r. lia.
    + intros ? ? ? ? (m & _ & Hm' & Ho). by eapply IH.
Qed.

(** The root may be small, but an internal root has two half-full children. *)
Lemma root_size h n kvs :
  shape order RN RV (S (S h)) None None n kvs -> (1 <= _num_keys n)%nat ->
  (2 * (_min_keys order * (_min_keys order + 1) ^ h) <= length kvs)%nat.
Proof.
  intros Hr Hn. destruct n as [ks vs|ks cs]; [apply rep_leaf in Hr as (? & _); lia|].
  apply rep_internal in Hr as (h' & [= <-] & _ & _ & Hk). unfold _num_keys in Hn. simpl in Hn.
  pose proof (kids_length _ _ _ _ _ _ Hk) as Hc.
  apply (kids_size _ (_min_keys order * (_min_keys order + 1) ^ h)) in Hk.
  - etransitivity; [|exact Hk]. apply Nat.mul_le_mono_r. lia.
  - intros ? ? ? ? (m & _ & Hm' & Ho). by eapply shape_size.
Qed.

Context (Horder : (3 <= order)%nat).

Lemma pow2_le_size h n kvs :
  shape order RN RV (S h) None None n kvs -> (1 <= _num_keys n)%nat -> (2 ^ h <= length kvs)%nat.
Proof using Horder.
  pose proof (min_keys_bounds order Horder) as [Hmin _]. intros Hr Hn. destruct h as [|h].
  - destruct n as [ks vs|ks cs]; [|by apply rep_is_leaf in Hr].
    apply rep_leaf in Hr as (_ & -> & _). unfold _num_keys in Hn. simpl in *. by rewrite length_fmap in Hn.
  - apply root_size in Hr; [|done]. etransitivity; [|exact Hr]. rewrite Nat.pow_succ_r'.
    apply Nat.mul_le_mono_l. transitivity (1 * (_min_keys order + 1) ^ h)%nat; [|by apply Nat.mul_le_mono_r].
    rewrite Nat.mul_1_l. apply Nat.pow_le_mono_l. lia.
Qed.

(** Any tree whose key count fits the 64-bit field of the superblock is at most
    64 levels deep. *)
Lemma height_u64 h n kvs :
  shape order RN RV h None None n kvs -> (1 <= _num_keys n)%nat -> Z.of_nat (length kvs) < 2 ^ 64 -> (h <= 64)%nat.
Proof using Horder.
  intros Hr Hn Hk. destruct h as [|h]; [lia|]. apply pow2_le_size in Hr; [|done].
  destruct (Nat.le_gt_cases (S h) 64) as [|Hgt]; [done|].
  assert (2 ^ 64 <= 2 ^ Z.of_nat h) by (apply Z.pow_le_mono_r; lia).
  apply Nat2Z.inj_le in Hr. rewrite Nat2Z.inj_pow in Hr. change (Z.of_nat 2) with 2 in Hr. lia.
Qed.

End height.
