(* ===== verification/BPlusStore.v ===== *)
(** Writing a B+ tree to the store: [LeafNode.store_refs],
    [InternalNode.store_refs] and [BPlusNodeRef.prepare_to_store]. *)

From S2P Require Import Prelude PyBase Struct SimDisk Logical KeyList Pickle BPlusTree BPlusRep BPlusInsert.

Section store.
Context `{Pickle} {S : Type} `{RecordStore S}.
Implicit Types (st : S) (lo hi : option pystr) (kvs l : kvlist).

(** Children are stored before their parent, so that the parent's record can
    name their addresses; what already has an address is not written again. *)
Fixpoint store_refs (n : bnode) : St S bnode :=
  match n with
  | LeafNode ks vs => vs' ← mapM_st value_store vs; mret (LeafNode ks vs')
  | InternalNode ks cs =>
      cs' ← mapM_st (ref_store store_refs referent_to_bytes) cs; mret (InternalNode ks cs')
  end.

Definition node_store (r : nref) : St S nref := ref_store store_refs referent_to_bytes r.

(** What reading a stored node back gives: its references known by address only. *)
Definition forget {A} (r : ref A) : ref A := Ref None (address r).
Definition reloaded (n : bnode) : bnode :=
  match n with
  | LeafNode ks vs => LeafNode ks (map forget vs)
  | InternalNode ks cs => InternalNode ks (map forget cs)
  end.

(** Serialising a node and loading it back. *)
Lemma node_roundtrip n : bytes_to_referent (referent_to_bytes n) = Ok (reloaded n).
Proof.
  unfold bytes_to_referent. destruct n as [ks vs|ks cs]; simpl; rewrite loads_dumps; simpl;
    rewrite map_map; done.
Qed.

Lemma reloaded_keys n : node_keys (reloaded n) = node_keys n.
Proof. by destruct n. Qed.

Context (order : nat).

Definition stored_kid st h lo hi (r : nref) l : Prop := kid order st h lo hi (forget r) l.

(** The outcome of storing: the reloaded node stands for the same bindings, or a
    record was refused and the store only gained records. *)
Definition stores st (out : S * res nref) h lo hi l : Prop :=
  exists st', writes st st' /\
    ((exists r', out = (st', Ok r') /\ stored_kid st' h lo hi r' l) \/ out = (st', Raise StructError)).

Lemma store_kids h st lo hi ks cs l :
  (forall st lo hi r l, rs_ok st -> kid order st h lo hi r l -> stores st (node_store r st) h lo hi l) ->
  rs_ok st -> kids (kid order st h) lo hi ks cs l ->
  exists st', writes st st' /\
    ((exists cs', mapM_st node_store cs st = (st', Ok cs') /\ kids (kid order st' h) lo hi ks (map forget cs') l) \/
     mapM_st node_store cs st = (st', Raise StructError)).
Proof.
  intros Hone Hok Hk. revert st ks lo l Hok Hk. induction cs as [|r cs IH]; intros st ks lo l Hok Hk; [inversion Hk|].
  cbn [mapM_st]. assert (exists ks0 lo1 l1 l2, kid order st h lo lo1 r l1 /\ l = l1 ++ l2 /\
    ((ks = [] /\ cs = [] /\ l2 = [] /\ lo1 = hi) \/
     exists k, ks = k :: ks0 /\ lo1 = Some k /\ kids (kid order st h) (Some k) hi ks0 cs l2))
    as (ks0 & lo1 & l1 & l2 & Hr & -> & Hrest).
  { inversion Hk; subst; [exists [], hi, l, []; rewrite app_nil_r; split_and!; auto|].
    exists ks0, (Some k), l1, l2. split_and!; eauto. }
  destruct (Hone st lo lo1 r l1 Hok Hr) as (st1 & Hw1 & [(r' & Hs & Hr')|Hs]).
  2:{ exists st1. split; [done|]. right. by apply stx_bind_raise. }
  destruct (writes_extends _ _ Hok Hw1) as [Hok1 He1]. erewrite stx_bind_ok by exact Hs.
  destruct Hrest as [(-> & -> & -> & ->)|(k & -> & -> & Hk2)].
  { exists st1. split; [done|]. left. exists [r']. rewrite app_nil_r. split; [done|]. by constructor. }
  destruct (IH st1 ks0 (Some k) l2 Hok1) as (st2 & Hw2 & [(cs' & Hcs & Hk')|Hcs]).
  { eapply kids_mono; [|exact Hk2]. intros ? ? ? ?. by apply kid_extends. }
  - exists st2. split; [by transitivity st1|]. left. exists (r' :: cs'). erewrite stx_bind_ok by exact Hcs.
    split; [done|]. simpl. constructor; [|done]. eapply kid_extends; [|exact Hr']. by eapply writes_extends.
  - exists st2. split; [by transitivity st1|]. right. by apply stx_bind_raise.
Qed.

Lemma store_refs_spec h st lo hi n l :
  (forall h' st lo hi r l, h = Datatypes.S h' -> rs_ok st -> kid order st h' lo hi r l -> stores st (node_store r st) h' lo hi l) ->
  rs_ok st -> rep order st h lo hi n l ->
  exists st', writes st st' /\
    ((exists n', store_refs n st = (st', Ok n') /\ rep order st' h lo hi (reloaded n') l /\ node_keys n' = node_keys n) \/
     store_refs n st = (st', Raise StructError)).
Proof.
  intros Hkids Hok Hr. destruct n as [ks vs|ks cs]; cbn [store_refs].
  - apply rep_leaf in Hr as (-> & -> & Hvs & Hs & Hin).
    destruct (mapM_store value_store vres (fun st r kv => vres st (forget r) kv)) with (st := st) (l := vs) (bs := l)
      as (st' & Hw & [(vs' & Hm & Hvs')|Hm]); try done; try (intros ? ? ? ?; by apply resolves_extends).
    { intros st0 r kv Hok0 Hv. by apply value_store_spec. }
    + exists st'. split; [done|]. left. eexists. erewrite stx_bind_ok by exact Hm. split; [reflexivity|].
      split; [|done]. apply rep_leaf. split_and!; try done. by apply Forall2_fmap_l.
    + exists st'. split; [done|]. right. by apply stx_bind_raise.
  - apply rep_internal in Hr as (h' & -> & Hs & Hin & Hk).
    destruct (store_kids h' st lo hi ks cs l) as (st' & Hw & [(cs' & Hm & Hk')|Hm]); try done.
    { intros. by apply Hkids. }
    + exists st'. split; [done|]. left. eexists. erewrite stx_bind_ok by exact Hm. split; [reflexivity|].
      split; [|done]. apply rep_internal. by exists h'.
    + exists st'. split; [done|]. right. by apply stx_bind_raise.
Qed.

Lemma node_store_mem h st lo hi n l :
  (forall h' st lo hi r l, h = Datatypes.S h' -> rs_ok st -> kid order st h' lo hi r l -> stores st (node_store r st) h' lo hi l) ->
  rs_ok st -> rep order st h lo hi n l ->
  exists st', writes st st' /\
    ((exists r' m, node_store (Ref (Some n) 0) st = (st', Ok r') /\ resolves bytes_to_referent st' (forget r') m /\
       rep order st' h lo hi m l /\ node_keys m = node_keys n) \/
     node_store (Ref (Some n) 0) st = (st', Raise StructError)).
Proof.
  intros Hkids Hok Hr. unfold node_store, ref_store. cbn [referent address]. change (0 =? 0) with true. cbv iota.
  destruct (store_refs_spec h st lo hi n l Hkids Hok Hr) as (st1 & Hw1 & [(n' & Hn & Hr' & Hks)|Hn]).
  2:{ exists st1. split; [done|]. right. by apply stx_bind_raise. }
  destruct (writes_extends _ _ Hok Hw1) as [Hok1 _]. erewrite stx_bind_ok by exact Hn.
  destruct (write_resolves bytes_to_referent st1 _ _ Hok1 (node_roundtrip n')) as (st2 & Hw2 & [(a & Ha & Hres)|Ha]).
  - exists st2. split; [by transitivity st1|]. left. eexists _, (reloaded n'). erewrite stx_bind_ok by exact Ha.
    split; [reflexivity|]. split; [done|]. rewrite reloaded_keys. split; [|done].
    eapply rep_extends; [|exact Hr']. by eapply writes_extends.
  - exists st2. split; [by transitivity st1|]. right. by apply stx_bind_raise.
Qed.

Lemma node_store_kid h st lo hi r l :
  rs_ok st -> kid order st h lo hi r l -> stores st (node_store r st) h lo hi l.
Proof.
  revert st lo hi r l. induction h as [|h IH]; intros st lo hi [rf a] l Hok (n & Hn & Hr & Ho); [done|].
  destruct Hn as [[E1 E2]|(E1 & Ha & Hb)]; simpl in *; subst.
  - destruct (node_store_mem (Datatypes.S h) st lo hi n l) as (st' & Hw & [(r' & m & E & Hm & Hrm & Hks)|E]); try done.
    { intros h' ? ? ? ? ? [= <-]. apply IH. }
    + exists st'. split; [done|]. left. exists r'. split; [done|]. exists m. split; [done|]. split; [done|].
      unfold occ, _num_keys in *. by rewrite Hks.
    + exists st'. split; [done|]. by right.
  - exists st. split; [apply writes_refl|]. left. eexists. split; [reflexivity|]. exists n.
    split; [by right|done].
Qed.

(** Storing a whole tree: afterwards its root address alone stands for it. *)
Lemma tree_store st h r l :
  rs_ok st -> tree order st h r l ->
  exists st', writes st st' /\
    ((exists r', node_store r st = (st', Ok r') /\ tree order st' h (forget r') l) \/
     node_store r st = (st', Raise StructError)).
Proof.
  intros Hok [(-> & -> & ->)|(n & Hn & Hr & Hk)].
  - exists st. split; [apply writes_refl|]. left. eexists. split; [reflexivity|]. by left.
  - destruct r as [rf a]. destruct Hn as [[E1 E2]|(E1 & Ha & Hb)]; simpl in *; subst.
    + destruct (node_store_mem h st None None n l) as (st' & Hw & [(r' & m & E & Hm & Hrm & Hks)|E]); try done.
      { intros h' ? ? ? ? ? _. apply node_store_kid. }
      * exists st'. split; [done|]. left. exists r'. split; [done|]. right. exists m. split; [done|].
        split; [done|]. unfold _num_keys in *. by rewrite Hks.
      * exists st'. split; [done|]. by right.
    + exists st. split; [apply writes_refl|]. left. eexists. split; [reflexivity|]. right. exists n.
      split; [by right|done].
Qed.

End store.
