(* ===== verification/BPlusProps.v ===== *)
(** The properties of the B+ tree: what its operations return and preserve on
    every branch, how deep it can get, and what its self-check decides. *)

From S2P Require Import Prelude PyBase Struct SimDisk Locking Physical PhysicalFacts Recovery StorageProps KeyList Logical Pickle.
From S2P Require Import BPlusTree BPlusRep BPlusInsert BPlusDelete BPlusAudit BPlusStore.

(** * A small tree for the witnesses *)

Definition key_a : pystr := str "a".
Definition key_b : pystr := str "b".
Definition val_1 : bytes := [Byte.x31].

#[local] Instance witness_pickle : Pickle := bit_pickle.

Definition tiny_leaf : bnode := LeafNode [key_a] [Ref (Some val_1) 0].
Definition tiny_root : nref := Ref (Some tiny_leaf) 0.

Lemma tiny_tree : tree 3 fresh 1 tiny_root [(key_a, val_1)].
Proof.
  right. exists tiny_leaf. split; [apply resolves_mem|]. split; [|unfold _num_keys; simpl; lia].
  apply rep_leaf. split; [done|]. split; [done|].
  split; [constructor; [apply resolves_mem|constructor]|]. split; repeat constructor.
Qed.

Section props.
Context `{Pickle} {S : Type} `{RecordStore S} (order : nat).
Implicit Types (st : S) (kvs : kvlist).

(** * Lookups and scans *)

(** C24: [_get] from the root of a well-formed tree returns the value bound to the
    key, and raises [KeyError] exactly when the key is not bound. *)
Theorem bplus_get_correct (fuel h : nat) st (r : nref) kvs (k : pystr) :
  tree order st h r kvs -> (h < fuel)%nat ->
  (n ← follow st r; _get fuel st n k) =
    match kv_get k kvs with Some v => Ok (Some v) | None => Raise (KeyError k) end.
Proof.
  intros Ht Hf. destruct (tree_follow _ _ _ _ _ Ht) as (n & -> & Hr). cbn [mbind result_bind].
  destruct n as [n|]; [|destruct Hr as [_ ->]; destruct fuel; [lia|done]].
  eapply (get_shape order st); [intros ? ?; apply resolves_follow|apply vres_follow|apply Hr|done|lia].
Qed.

(** C23: [_range_items] yields exactly the bindings with [start <= key < stop], in
    ascending key order, although it skips whole subtrees by their separators. *)
Theorem bplus_range_correct (fuel h : nat) st (r : nref) kvs (start stop : option pystr) :
  tree order st h r kvs -> (h < fuel)%nat ->
  (n ← follow st r; _range_items fuel st n start stop) = Ok (yields (kv_range start stop kvs)) /\
  kv_sorted (kv_range start stop kvs).
Proof.
  intros Ht Hf. split.
  - destruct (tree_follow _ _ _ _ _ Ht) as (n & -> & Hr). cbn [mbind result_bind].
    destruct n as [n|]; [|destruct Hr as [_ ->]; destruct fuel; [lia|done]].
    eapply (range_items_shape order st); [intros ? ?; apply resolves_follow|apply vres_follow|apply Hr|lia].
  - apply tree_sorted in Ht. unfold kv_sorted in *. by apply kv_range_sorted.
Qed.

(** The unrestricted iteration yields every binding once, in ascending order. *)
Theorem bplus_items_correct (fuel h : nat) st (r : nref) kvs :
  tree order st h r kvs -> (h < fuel)%nat ->
  (n ← follow st r; _items fuel st n) = Ok (yields kvs) /\ kv_sorted kvs.
Proof.
  intros Ht Hf. split; [|by eapply tree_sorted].
  destruct (tree_follow _ _ _ _ _ Ht) as (n & -> & Hr). cbn [mbind result_bind].
  destruct n as [n|]; [|destruct Hr as [_ ->]; destruct fuel; [lia|done]].
  eapply (items_shape order st); [intros ? ?; apply resolves_follow|apply vres_follow|apply Hr|lia].
Qed.

(** * Updates *)

(** C16: inserting refines the update of a sorted association list: the new root
    is a well-formed tree (balanced, every node within its occupancy bounds)
    that holds [kv_set k v kvs], the height grows by at most one, and the
    live-key count grows by one exactly when the key is new. *)
Theorem bplus_insert_refines (fuel h : nat) st (r : nref) kvs (k : pystr) (v : bytes) :
  (3 <= order)%nat -> tree order st h r kvs -> (h <= fuel)%nat ->
  exists h' r',
    (n ← lift_res (follow st r); _insert order fuel st n k (Ref (Some v) 0)) (Z.of_nat (length kvs)) =
      (Z.of_nat (length (kv_set k v kvs)), Ok r') /\
    tree order st h' r' (kv_set k v kvs) /\ (h <= h' <= Datatypes.S h)%nat.
Proof.
  intros Ho Ht Hf. destruct (tree_follow _ _ _ _ _ Ht) as (n & Hn & Hr).
  destruct (insert_rep order Ho fuel st h n kvs k v (Ref (Some v) 0) (Z.of_nat (length kvs)) Hr) as (h' & r' & E & Ht' & Hh & _);
    [apply resolves_mem|done|].
  exists h', r'. erewrite stx_bind_ok by (unfold lift_res; by rewrite Hn). rewrite E.
  split; [|done]. do 2 f_equal. rewrite kv_set_length by (by eapply tree_sorted). destruct (kv_get k kvs); lia.
Qed.

(** C9: deleting refines the removal from a sorted association list: an absent
    key raises [KeyError] and changes nothing; a present one gives a well-formed
    tree of [kv_del k kvs], whether nodes borrowed, merged or the root collapsed,
    and the count drops by one. *)
Theorem bplus_delete_refines (fuel h : nat) st (r : nref) kvs (k : pystr) :
  (3 <= order)%nat -> tree order st h r kvs -> (h <= fuel)%nat ->
  match kv_get k kvs with
  | None => (n ← lift_res (follow st r); _delete order fuel st n k) (Z.of_nat (length kvs)) =
              (Z.of_nat (length kvs), Raise (KeyError k))
  | Some _ => exists h' r',
      (n ← lift_res (follow st r); _delete order fuel st n k) (Z.of_nat (length kvs)) =
        (Z.of_nat (length (kv_del k kvs)), Ok r') /\
      tree order st h' r' (kv_del k kvs) /\ (h' <= h <= Datatypes.S h')%nat
  end.
Proof.
  intros Ho Ht Hf. destruct (tree_follow _ _ _ _ _ Ht) as (n & Hn & Hr).
  pose proof (delete_rep order Ho fuel st h n kvs k (Z.of_nat (length kvs)) Hr Hf) as Hd.
  pose proof (kv_del_length k kvs) as Hlen.
  destruct (kv_get k kvs); [destruct Hd as (h' & r' & E & Ht' & Hh); exists h', r'|];
    (erewrite stx_bind_ok by (unfold lift_res; by rewrite Hn)); [|done].
  rewrite E. split; [|done]. do 2 f_equal. lia.
Qed.

(** * Depth *)

(** A write to the tree; deleting an absent key raises and leaves the tree as it is. *)
Inductive edit : Type :=
| Put (k : pystr) (v : bytes)
| Remove (k : pystr).

Definition edit_tree (fuel : nat) st (e : edit) (r : nref) : stx exn Z nref :=
  n ← lift_res (follow st r);
  match e with
  | Put k v => _insert order fuel st n k (Ref (Some v) 0)
  | Remove k => _delete order fuel st n k
  end.

(** The root and the key count after a sequence of writes. *)
Fixpoint edit_all (fuel : nat) st (es : list edit) (r : nref) (count : Z) : nref * Z :=
  match es with
  | [] => (r, count)
  | e :: es =>
      match edit_tree fuel st e r count with
      | (count, Ok r) => edit_all fuel st es r count
      | (count, Raise _) => edit_all fuel st es r count
      end
  end.

Definition edited kvs (e : edit) : kvlist := match e with Put k v => kv_set k v kvs | Remove k => kv_del k kvs end.

Lemma edit_step (fuel h : nat) st (r : nref) kvs (e : edit) :
  (3 <= order)%nat -> tree order st h r kvs -> (h <= fuel)%nat ->
  exists h' r', tree order st h' r' (edited kvs e) /\ (h' <= Datatypes.S h)%nat /\
    forall es, edit_all fuel st (e :: es) r (Z.of_nat (length kvs)) = edit_all fuel st es r' (Z.of_nat (length (edited kvs e))).
Proof.
  intros Ho Ht Hf. destruct (tree_follow _ _ _ _ _ Ht) as (n & Hn & Hr). cbn [edit_all]. unfold edit_tree.
  erewrite stx_bind_ok by (unfold lift_res; by rewrite Hn). destruct e as [k v|k]; cbn [edited].
  - destruct (insert_rep order Ho fuel st h n kvs k v (Ref (Some v) 0) (Z.of_nat (length kvs)) Hr) as (h' & r' & -> & Ht' & Hh & _);
      [apply resolves_mem|done|].
    exists h', r'. split_and!; [done|lia|]. intros es. f_equal. rewrite kv_set_length by (by eapply tree_sorted). destruct (kv_get k kvs); lia.
  - pose proof (delete_rep order Ho fuel st h n kvs k (Z.of_nat (length kvs)) Hr Hf) as Hd. pose proof (kv_del_length k kvs) as Hlen.
    destruct (kv_get k kvs) eqn:Ek.
    + destruct Hd as (h' & r' & -> & Ht' & Hh). exists h', r'. split_and!; [done|lia|]. intros es. f_equal. lia.
    + rewrite Hd, kv_del_absent by done. exists h, r. split_and!; [done|lia|done].
Qed.

Lemma edit_all_tree (es : list edit) (fuel : nat) st : (3 <= order)%nat -> forall (h : nat) (r : nref) kvs,
  tree order st h r kvs -> (length es + h <= fuel)%nat ->
  exists h' r', tree order st h' r' (foldl edited kvs es) /\ (h' <= length es + h)%nat /\
    edit_all fuel st es r (Z.of_nat (length kvs)) = (r', Z.of_nat (length (foldl edited kvs es))).
Proof.
  intros Ho. induction es as [|e es IH]; intros h r kvs Ht Hf; [exists h, r; split_and!; [done|simpl; lia|done]|]. simpl in Hf.
  destruct (edit_step fuel h st r kvs e Ho Ht ltac:(lia)) as (h1 & r1 & Ht1 & Hh1 & ->).
  destruct (IH h1 r1 _ Ht1 ltac:(lia)) as (h' & r' & Ht' & Hh' & ->). exists h', r'. split_and!; [done|simpl; lia|done].
Qed.

(** C36: the tree stays shallow.  Whatever sequence of insertions and deletions
    built it from nothing, [height] reports a height [h], and a tree of height
    [h >= 2] holds at least [2 * m * (m + 1) ^ (h - 2)] keys, where [m] is half
    the order rounded down: no node but the root is ever less than half full, so
    the height is logarithmic in the number of keys.  The key count the tree keeps
    is right all along. *)
Theorem bplus_height_logarithmic (es : list edit) (fuel : nat) st :
  (3 <= order)%nat -> (length es < fuel)%nat ->
  let kvs := foldl edited [] es in
  let '(r, count) := edit_all fuel st es (Ref None 0) 0 in
  count = Z.of_nat (length kvs) /\
  exists h : nat, (n ← follow st r; _height fuel st n) = Ok (Z.of_nat h) /\
    ((2 <= h)%nat -> (2 * (order / 2 * (order / 2 + 1) ^ (h - 2)) <= length kvs)%nat).
Proof.
  intros Ho Hf kvs. destruct (edit_all_tree es fuel st Ho 0 (Ref None 0) []) as (h & r & Ht & Hh & E); [by left|lia|].
  change (Z.of_nat (length [])) with 0 in E. rewrite E. split; [done|]. exists h. fold kvs in Ht.
  destruct (tree_follow _ _ _ _ _ Ht) as (n & -> & Hr). cbn [mbind result_bind].
  destruct n as [n|]; [|destruct Hr as [-> _]; destruct fuel; [lia|]; split; [done|lia]].
  destruct Hr as [Hr Hk]. split; [eapply (height_shape order st); [intros ? ?; apply resolves_follow|apply Hr|lia]|].
  intros Hh2. destruct h as [|[|h]]; [lia..|]. replace (Datatypes.S (Datatypes.S h) - 2)%nat with h by lia.
  change (order / 2)%nat with (_min_keys order). eapply root_size; [exact Hr|lia].
Qed.

(** * Storage *)

(** Storing a dirty tree writes each new node after its children and yields an
    address from which the same bindings are read back, with nothing cached; a
    node or value whose record would exceed 4 GiB is refused and no record
    already in the store changes. *)
Theorem bplus_store_roundtrip st (h : nat) (r : nref) kvs :
  rs_ok st -> tree order st h r kvs ->
  exists st', extends st st' /\
    ((exists r', node_store r st = (st', Ok r') /\ tree order st' h (Ref None (address r')) kvs) \/
     node_store r st = (st', Raise StructError)).
Proof.
  intros Hok Ht. destruct (tree_store order st h r kvs Hok Ht) as (st' & Hw & Hst). exists st'.
  split; [by eapply writes_extends|done].
Qed.

(** * The self-check *)

(** The audit accepts every well-formed tree: no errors, and the reported key
    count, value count and height are the true ones. *)
Theorem audit_accepts_wellformed (fuel h : nat) st (r : nref) kvs :
  tree order st h r kvs -> (h <= fuel)%nat ->
  exists nodes, audit order fuel st r (Z.of_nat (length kvs)) =
    Ok {| report_keys := Z.of_nat (length kvs); report_nodes := nodes;
          report_values := Z.of_nat (length kvs); report_height := Z.of_nat h; report_errors := [] |}.
Proof.
  intros Ht Hf. destruct (tree_follow _ _ _ _ _ Ht) as (n & Hn & Hr). unfold audit. rewrite Hn. cbn [mbind result_bind].
  destruct n as [n|]; [|destruct Hr as [-> ->]; by exists 0].
  destruct Hr as [Hr Hk].
  edestruct (check_ok order st _ _ (fun r n => resolves_follow _ st r n) (fun r kv => vres_follow st r kv)
    fuel h true None None n kvs {| errors := []; nodes := 0; values := 0; leaf_keys := 0 |} Hr Hf) as [k E]; [lia..|].
  rewrite E. exists (Z.of_nat k). unfold tallied. cbn [errors nodes values leaf_keys mbind result_bind].
  by rewrite !Z.add_0_l, decide_True.
Qed.

(** C34: a clean audit report is never wrong: when the report of a non-null root
    has no errors, the tree below that root is balanced at the reported height,
    its keys are strictly ascending and within their separators, every node is
    within its occupancy bounds, every value loads, and it holds exactly as many
    keys as the superblock says. *)
Theorem audit_report_sound (fuel : nat) st (r : nref) (count : Z) (rep : AuditReport) (n : bnode) :
  (3 <= order)%nat -> follow st r = Ok (Some n) -> audit order fuel st r count = Ok rep ->
  report_ok rep = true ->
  exists kvs, shape order (node_loads st) (value_loads st) (Z.to_nat (report_height rep)) None None n kvs /\
    kv_sorted kvs /\ (_num_keys n <= order)%nat /\
    count = Z.of_nat (length kvs) /\ report_keys rep = Z.of_nat (length kvs).
Proof.
  intros Ho Hn Ha Hok. unfold audit in Ha. rewrite Hn in Ha. cbn [mbind result_bind] in Ha.
  destruct (check _ _ _ _ _ _ _ _) as [a [h|e]] eqn:E; [|done]. cbn [mbind result_bind] in Ha. injection Ha as <-.
  unfold report_ok in Hok. cbn [report_errors report_height report_keys] in *.
  destruct (errors a ++ _) eqn:Ee; [|done]. apply app_nil in Ee as [Ee Ec].
  apply check_sound in E as (_ & _ & kvs & Hr & Hlk & Hle & _); [|done..]. exists kvs.
  split; [done|]. split; [by apply rep_range in Hr as []|]. split; [done|].
  cbn [leaf_keys] in Hlk. rewrite Z.add_0_l in Hlk. destruct (decide (leaf_keys a = count)); [|done]. lia.
Qed.

End props.

(** * Witnesses *)

Lemma bplus_get_witness :
  (n ← follow fresh tiny_root; _get 2 fresh n key_b) = Raise (KeyError key_b).
Proof. apply (bplus_get_correct 3 2 1 fresh tiny_root [(key_a, val_1)] key_b tiny_tree). lia. Defined.

Lemma bplus_range_witness :
  (n ← follow fresh tiny_root; _range_items 2 fresh n (Some key_a) (Some key_b)) = Ok [(key_a, Some val_1)].
Proof. apply (bplus_range_correct 3 2 1 fresh tiny_root [(key_a, val_1)] (Some key_a) (Some key_b) tiny_tree). lia. Defined.

Lemma bplus_items_witness : (n ← follow fresh tiny_root; _items 2 fresh n) = Ok [(key_a, Some val_1)].
Proof. apply (bplus_items_correct 3 2 1 fresh tiny_root [(key_a, val_1)] tiny_tree). lia. Defined.

Lemma bplus_insert_witness : exists h' r',
  tree 3 fresh h' r' [(key_a, val_1); (key_b, val_1)].
Proof.
  destruct (bplus_insert_refines 3 1 1 fresh tiny_root [(key_a, val_1)] key_b val_1) as (h' & r' & _ & Ht & _);
    [lia|apply tiny_tree|lia|]. exists h', r'. exact Ht.
Defined.

Lemma bplus_delete_witness : exists h' r', tree 3 fresh h' r' [].
Proof.
  destruct (bplus_delete_refines 3 1 1 fresh tiny_root [(key_a, val_1)] key_a) as (h' & r' & _ & Ht & _);
    [lia|apply tiny_tree|lia|]. exists h', r'. exact Ht.
Defined.

(** Thirteen keys in ascending order and two deletions: three levels. *)
Definition climb : list edit := ((fun c => Put [c] val_1) <$> [97; 98; 99; 100; 101; 102; 103; 104; 105; 106; 107; 108; 109]%N) ++ [Remove [99%N]; Remove [100%N]].

Lemma bplus_height_witness :
  let '(r, count) := edit_all 3 16 fresh climb (Ref None 0) 0 in
  count = 11 /\ (n ← follow fresh r; _height 16 fresh n) = Ok 3 /\ (2 * (3 / 2 * (3 / 2 + 1) ^ (3 - 2)) <= 11)%nat.
Proof.
  pose proof (bplus_height_logarithmic 3 climb 16 fresh ltac:(lia) ltac:(vm_compute; lia)) as Hb. cbv zeta in Hb.
  destruct (edit_all 3 16 fresh climb (Ref None 0) 0) as [r count] eqn:E. destruct Hb as (Hc & h & Hh & Hlow).
  assert ((n ← follow fresh r; _height 16 fresh n) = Ok 3) as E3 by (vm_compute in E; injection E as <- _; vm_compute; reflexivity).
  rewrite E3 in Hh. injection Hh as Hh. assert (h = 3%nat) as -> by lia. split; [rewrite Hc; vm_compute; reflexivity|].
  split; [exact E3|]. vm_compute in Hlow |- *. apply Hlow. repeat constructor.
Defined.

Lemma bplus_store_witness : exists st' : Storage, extends fresh st'.
Proof.
  destruct (bplus_store_roundtrip 3 fresh 1 tiny_root [(key_a, val_1)]) as (st' & He & _).
  - split; [apply fresh_journaled|apply (journaled_super fresh meta0 fresh_journaled)].
  - apply tiny_tree.
  - exists st'. exact He.
Defined.

Lemma audit_accepts_witness : exists rep, audit 3 1 fresh tiny_root 1 = Ok rep /\ report_ok rep = true.
Proof.
  destruct (audit_accepts_wellformed 3 1 1 fresh tiny_root [(key_a, val_1)] tiny_tree) as [n E]; [lia|].
  eexists. split; [exact E|reflexivity].
Defined.

Lemma audit_sound_witness : exists kvs : kvlist, kv_sorted kvs /\ 1 = Z.of_nat (length kvs).
Proof.
  destruct (audit_report_sound 3 1 fresh tiny_root 1
    {| report_keys := 1; report_nodes := 1; report_values := 1; report_height := 1; report_errors := [] |} tiny_leaf)
    as (kvs & _ & Hs & _ & Hc & _); [lia|reflexivity|reflexivity|reflexivity|].
  exists kvs. split; [exact Hs|exact Hc].
Defined.
