(* ===== verification/Index.v ===== *)
(** What an index engine provides to [LogicalBase] and what it promises.

    [LogicalBase] calls the methods its subclasses [BPlusTree] and [BinaryTree]
    define; [Index] lists them and [IndexSpec] is the contract: an index is a
    sorted association list that survives being written to the store. *)

From S2P Require Import Prelude PyBase Struct SimDisk Locking Physical PhysicalFacts Recovery KeyList Logical.

Class Index (N : Type) := {
  (** [BPlusTree] overrides [_refresh_tree_ref] and [commit] to carry [_count]. *)
  ix_counts : bool;
  ix_follow : Storage -> ref N -> res (option N);
  ix_get : Storage -> option N -> pystr -> res (option bytes);
  ix_items : Storage -> option N -> res (list (pystr * option bytes));
  ix_range_items : Storage -> option N -> option pystr -> option pystr -> res (list (pystr * option bytes));
  ix_insert : Storage -> option N -> pystr -> ref bytes -> St Z (ref N);
  ix_delete : Storage -> option N -> pystr -> St Z (ref N);
  ix_store : ref N -> St Storage (ref N);
  ix_length : Storage -> ref N -> Z -> res Z
}.

(** How the count moves when a key is added or removed. *)
Definition counted (counts : bool) (c d : Z) : Z := if counts then c + d else c.

Class IndexSpec (N : Type) `{Index N} := {
  (** Reference [r] stands for the bindings [kvs] in this store. *)
  ix_tree : Storage -> ref N -> kvlist -> Prop;
  (** Sizes for which the recursion limit is no obstacle. *)
  ix_fits : kvlist -> Prop;
  ix_fits_le kvs kvs' : ix_fits kvs -> (length kvs' <= length kvs)%nat -> ix_fits kvs';
  ix_tree_null st : ix_tree st (Ref None 0) [];
  ix_tree_extends st st' r kvs : extends st st' -> ix_tree st r kvs -> ix_tree st' r kvs;
  ix_tree_sorted st r kvs : ix_tree st r kvs -> kv_sorted kvs;
  ix_get_ok st r kvs k : ix_tree st r kvs -> ix_fits kvs ->
    (n ← ix_follow st r; ix_get st n k) =
      match kv_get k kvs with Some v => Ok (Some v) | None => Raise (KeyError k) end;
  ix_items_ok st r kvs : ix_tree st r kvs -> ix_fits kvs ->
    (n ← ix_follow st r; ix_items st n) = Ok (yields kvs);
  ix_range_ok st r kvs a b : ix_tree st r kvs -> ix_fits kvs ->
    (n ← ix_follow st r; ix_range_items st n a b) = Ok (yields (kv_range a b kvs));
  ix_insert_ok st r kvs k v c : ix_tree st r kvs -> ix_fits kvs ->
    exists r', (n ← lift_res (ix_follow st r); ix_insert st n k (Ref (Some v) 0)) c =
        (counted ix_counts c (if kv_get k kvs then 0 else 1), Ok r') /\
      ix_tree st r' (kv_set k v kvs);
  ix_delete_ok st r kvs k c : ix_tree st r kvs -> ix_fits kvs ->
    match kv_get k kvs with
    | None => (n ← lift_res (ix_follow st r); ix_delete st n k) c = (c, Raise (KeyError k))
    | Some _ => exists r', (n ← lift_res (ix_follow st r); ix_delete st n k) c =
          (counted ix_counts c (-1), Ok r') /\
        ix_tree st r' (kv_del k kvs)
    end;
  ix_store_ok st r kvs : rs_ok st -> ix_tree st r kvs ->
    exists st', writes st st' /\
      ((exists r', ix_store r st = (st', Ok r') /\ ix_tree st' (Ref None (address r')) kvs) \/
       ix_store r st = (st', Raise StructError));
  ix_length_ok st r kvs c : ix_tree st r kvs -> (ix_counts = true -> c = Z.of_nat (length kvs)) ->
    ix_length st r c = Ok (Z.of_nat (length kvs))
}.

(** * [LogicalBase] *)

Record Tree (N : Type) : Type := mkTree {
  _storage : Storage;
  _tree_ref : ref N;
  _count : Z
}.
Arguments mkTree {N} _storage _tree_ref _count.
Arguments _storage {N} t.
Arguments _tree_ref {N} t.
Arguments _count {N} t.

Module logical.
Section logical_base.
Context {N : Type} `{Index N}.

Definition set_storage (s : Storage) (t : Tree N) : Tree N := mkTree s (_tree_ref t) (_count t).
Definition set_tree_ref (r : ref N) (t : Tree N) : Tree N := mkTree (_storage t) r (_count t).
Definition set_count (c : Z) (t : Tree N) : Tree N := mkTree (_storage t) (_tree_ref t) c.

Definition on_storage {A} (m : St Storage A) : St (Tree N) A := zoom _storage set_storage m.
Definition on_count {A} (m : St Z A) : St (Tree N) A := zoom _count set_count m.

(** [LogicalBase._refresh_tree_ref] and its override in [BPlusTree]. *)
Definition _refresh_tree_ref : St (Tree N) unit :=
  root ← on_storage storage.get_root_address;
  modify (set_tree_ref (Ref None root)) ;;
  if ix_counts then c ← on_storage storage.get_key_count; modify (set_count c) else mret tt.

(** [__init__]: a tree over an open storage. *)
Definition tree_init (s : Storage) : Tree N * res unit := _refresh_tree_ref (mkTree s (Ref None 0) 0).

Definition refresh_unless_locked : St (Tree N) unit :=
  t ← get_st;
  if storage.is_locked (_storage t) then mret tt else _refresh_tree_ref.

Definition refresh_if (fresh : bool) : St (Tree N) unit := if fresh then _refresh_tree_ref else mret tt.

Definition get (key : pystr) : St (Tree N) (option bytes) :=
  refresh_unless_locked ;;
  t ← get_st;
  lift_res (n ← ix_follow (_storage t) (_tree_ref t); ix_get (_storage t) n key).

Definition set (key : pystr) (value : bytes) : St (Tree N) unit :=
  fresh ← on_storage storage.lock;
  refresh_if fresh ;;
  t ← get_st;
  r ← on_count (n ← lift_res (ix_follow (_storage t) (_tree_ref t));
                ix_insert (_storage t) n key (Ref (Some value) 0));
  modify (set_tree_ref r).

Definition delete (key : pystr) : St (Tree N) unit :=
  fresh ← on_storage storage.lock;
  refresh_if fresh ;;
  t ← get_st;
  r ← on_count (n ← lift_res (ix_follow (_storage t) (_tree_ref t)); ix_delete (_storage t) n key);
  modify (set_tree_ref r).

Definition commit : St (Tree N) unit :=
  t ← get_st;
  r ← on_storage (ix_store (_tree_ref t));
  modify (set_tree_ref r) ;;
  t ← get_st;
  on_storage (storage.commit_root_address (address r) (if ix_counts then _count t else 0)) ;;
  _refresh_tree_ref.

Definition items : St (Tree N) (list (pystr * option bytes)) :=
  refresh_unless_locked ;;
  t ← get_st;
  lift_res (n ← ix_follow (_storage t) (_tree_ref t); ix_items (_storage t) n).

Definition range_items (start stop : option pystr) : St (Tree N) (list (pystr * option bytes)) :=
  refresh_unless_locked ;;
  t ← get_st;
  lift_res (n ← ix_follow (_storage t) (_tree_ref t); ix_range_items (_storage t) n start stop).

Definition length : St (Tree N) Z :=
  refresh_unless_locked ;;
  t ← get_st;
  lift_res (ix_length (_storage t) (_tree_ref t) (_count t)).

End logical_base.
End logical.
