(* ===== verification/BPlusIndex.v ===== *)
(** The B+ tree is an index: [BPlusTree] meets the contract of [Index]. *)

From S2P Require Import Prelude PyBase Struct SimDisk Locking Physical PhysicalFacts Recovery KeyList Logical Pickle Index.
From S2P Require Import BPlusTree BPlusRep BPlusInsert BPlusDelete BPlusAudit BPlusStore.

Definition DEFAULT_ORDER : nat := 64.

(** The levels a recursive method may descend; Python's default recursion limit
    is 1000 frames, and one level of a node takes at most three. *)
Definition RECURSION_LIMIT : nat := 300.

Definition bplus_index `{Pickle} (order : nat) : Index bnode := {|
  ix_counts := true;
  ix_follow := follow;
  ix_get := _get RECURSION_LIMIT;
  ix_items := _items RECURSION_LIMIT;
  ix_range_items := _range_items RECURSION_LIMIT;
  ix_insert := _insert order RECURSION_LIMIT;
  ix_delete := _delete order RECURSION_LIMIT;
  ix_store := node_store;
  ix_length _ _ c := Ok c
|}.

Section bplus_spec.
Context `{Pickle} (order : nat) (Horder : (3 <= order)%nat).
Implicit Types (st : Storage) (kvs : kvlist).

Definition bplus_tree st (r : nref) kvs : Prop := exists h, tree order st h r kvs.
Definition bplus_fits kvs : Prop := Z.of_nat (length kvs) < 2 ^ 64.

Lemma bplus_follow st r kvs :
  bplus_tree st r kvs -> bplus_fits kvs ->
  exists h n, follow st r = Ok n /\ root_of order st h n kvs /\ (h <= RECURSION_LIMIT)%nat.
Proof using Horder.
  intros (h & Ht) Hf. destruct (tree_follow _ _ _ _ _ Ht) as (n & Hn & Hr). exists h, n. split; [done|]. split; [done|].
  destruct n as [n|]; [|destruct Hr as [-> _]; apply Nat.le_0_l]. destruct Hr as [Hr [Hk _]].
  pose proof (height_u64 Horder h n kvs Hr Hk Hf). unfold RECURSION_LIMIT. lia.
Qed.

Lemma resolves_reads st : forall r n, resolves bytes_to_referent st r n -> follow st r = Ok (Some n).
Proof. intros r n. apply resolves_follow. Qed.

#[refine] Definition bplus_spec : @IndexSpec bnode (bplus_index order) := {|
  ix_tree := bplus_tree;
  ix_fits := bplus_fits
|}.
Proof using Horder.
  - unfold bplus_fits. intros. lia.
  - intros st. exists O. by left.
  - intros st st' r kvs He (h & Ht). exists h. by eapply tree_extends.
  - intros st r kvs (h & Ht). by eapply tree_sorted.
  - intros st r kvs k Ht Hf. destruct (bplus_follow _ _ _ Ht Hf) as (h & n & Hn & Hr & Hh). cbn [ix_follow ix_get bplus_index].
    rewrite Hn. cbn [mbind result_bind]. destruct n as [n|]; [|by destruct Hr as [_ ->]].
    eapply (get_shape order st); [apply resolves_reads|apply vres_follow|apply Hr|done|done].
  - intros st r kvs Ht Hf. destruct (bplus_follow _ _ _ Ht Hf) as (h & n & Hn & Hr & Hh). cbn [ix_follow ix_items bplus_index].
    rewrite Hn. cbn [mbind result_bind]. destruct n as [n|]; [|by destruct Hr as [_ ->]].
    eapply (items_shape order st); [apply resolves_reads|apply vres_follow|apply Hr|done].
  - intros st r kvs a b Ht Hf. destruct (bplus_follow _ _ _ Ht Hf) as (h & n & Hn & Hr & Hh). cbn [ix_follow ix_range_items bplus_index].
    rewrite Hn. cbn [mbind result_bind]. destruct n as [n|]; [|by destruct Hr as [_ ->]].
    eapply (range_items_shape order st); [apply resolves_reads|apply vres_follow|apply Hr|done].
  - intros st r kvs k v c Ht Hf. destruct (bplus_follow _ _ _ Ht Hf) as (h & n & Hn & Hr & Hh). cbn [ix_follow ix_insert bplus_index].
    erewrite stx_bind_ok by (unfold lift_res; by rewrite Hn).
    destruct (insert_rep order Horder RECURSION_LIMIT st h n kvs k v (Ref (Some v) 0) c Hr) as (h' & r' & E & Ht' & _); [|done|].
    { apply resolves_mem. }
    exists r'. split; [exact E|]. by exists h'.
  - intros st r kvs k c Ht Hf. destruct (bplus_follow _ _ _ Ht Hf) as (h & n & Hn & Hr & Hh). cbn [ix_follow ix_delete bplus_index].
    pose proof (delete_rep order Horder RECURSION_LIMIT st h n kvs k c Hr Hh) as Hd.
    erewrite stx_bind_ok by (unfold lift_res; by rewrite Hn). destruct (kv_get k kvs); [|done].
    destruct Hd as (h' & r' & E & Ht' & _). exists r'. split; [exact E|]. by exists h'.
  - intros st r kvs Hok (h & Ht). destruct (tree_store order st h r kvs Hok Ht) as (st' & Hw & [(r' & E & Ht')|E]);
      exists st'; (split; [done|]); [left; exists r'; split; [done|]; by exists h|by right].
  - intros st r kvs c _ Hc. cbn. by rewrite Hc.
Defined.

End bplus_spec.
