(* ===== verification/Engine.v ===== *)
(** The database engine over any index: what [LogicalBase]'s operations do to the
    bindings a handle sees, stages and commits. *)

From S2P Require Import Prelude PyBase Struct SimDisk Locking Physical PhysicalFacts Recovery KeyList Logical Index.

(** * Storage states that read alike *)

Lemma storage_rs_read (s : Storage) a : rs_read s a = record_at (live s) a.
Proof. change (rs_read s a) with ((storage.read a s).2). by destruct (storage_read_reads a s) as [p ->]. Qed.

Lemma extends_records s s' :
  (forall a, SUPERBLOCK_SIZE <= a -> record_at (live s') a = record_at (live s) a) -> extends s s'.
Proof. intros He a q Ha. rewrite !storage_rs_read. by rewrite He. Qed.

Lemma extends_live s s' : live s' = live s -> extends s s'.
Proof. intros Hl. apply extends_records. intros a _. by rewrite Hl. Qed.

Lemma journaled_ok s m : journaled s m -> rs_ok s.
Proof. intros Hj. split; [apply Hj|by eapply journaled_super]. Qed.

(** Only the file position moved. *)
Definition same_file (s s' : Storage) : Prop := exists p, _f s' = set_pos p (_f s).

Lemma same_file_refl s : same_file s s.
Proof. exists (_pos (_f s)). by destruct (_f s). Qed.

Lemma same_file_lock s l : same_file s (set_lock l s).
Proof. exists (_pos (_f s)). simpl. by destruct (_f s). Qed.

#[global] Instance same_file_trans : Transitive same_file.
Proof. intros s1 s2 s3 [p1 H1] [p2 H2]. exists p2. by rewrite H2, H1. Qed.

Lemma same_file_fields s s' :
  same_file s s' -> live s' = live s /\ _durable (_f s') = _durable (_f s) /\
    _crash_at_flush (_f s') = _crash_at_flush (_f s) /\ _closed (_f s') = _closed (_f s).
Proof. intros [p E]. unfold live. by rewrite E. Qed.

(** Record writes only append to the staged tail, whether they succeed or not. *)
Lemma journaled_writes s s' m :
  journaled s m -> writes s s' ->
  journaled s' m /\ _lock s' = _lock s /\ _durable (_f s') = _durable (_f s) /\
  _crash_at_flush (_f s') = _crash_at_flush (_f s).
Proof.
  intros Hj Hw. induction Hw as [s|s p s' r s'' Hw _ IH]; [done|].
  assert (journaled s' m /\ _lock s' = _lock s /\ _durable (_f s') = _durable (_f s) /\
          _crash_at_flush (_f s') = _crash_at_flush (_f s)) as (Hj' & Hl & Hd & Hc).
  { pose proof (journaled_super _ _ Hj) as Hsup. pose proof Hj as [Hr Hf Hm Hi [tail Ht]].
    change (rs_write p s) with (storage.write p s) in Hw.
    destruct (Z.lt_ge_cases (zlen p) (256 ^ 4)) as [Hp|Hp].
    - rewrite storage_write_spec in Hw by done. injection Hw as <- _. split; [|done].
      split; try done. exists (tail ++ record_bytes p). transitivity (live s ++ record_bytes p); [done|].
      rewrite Ht. by rewrite <- app_assoc.
    - unfold storage.write in Hw. erewrite stx_bind_ok in Hw by reflexivity. rewrite Hr in Hw.
      erewrite stx_bind_ok in Hw by apply file_size_spec. erewrite stx_bind_ok in Hw by apply seek_spec.
      assert (pack_uint 4 (zlen p) = Raise StructError) as E.
      { destruct (pack_uint_cases 4 (zlen p)) as [?|[? _]]; [done|]. change (Z.of_nat 4) with 4 in *. lia. }
      rewrite E in Hw. injection Hw as <- _. split; [|done]. split; try done. by exists tail. }
  destruct (IH Hj') as (? & ? & ? & ?). split_and!; congruence.
Qed.

Section engine.
Context {N : Type} `{IndexSpec N}.
Implicit Types (t : Tree N) (s : Storage) (m : _Meta) (base kvs : kvlist) (k : pystr).

Abbreviation len kvs := (Z.of_nat (Datatypes.length kvs)).

(** Meta [m] records the bindings [kvs]. *)
Definition holds s m kvs : Prop :=
  ix_tree s (Ref None (root_address m)) kvs /\ (ix_counts = true -> key_count m = len kvs).

(** The handle's in-memory tree stands for [kvs]. *)
Definition staged t kvs : Prop :=
  ix_tree (_storage t) (_tree_ref t) kvs /\ (ix_counts = true -> _count t = len kvs).

(** The file a crash leaves, as recovery sees it: the committed bytes. *)
Definition committed_image s m : Storage :=
  idle (SimDisk_init (committed (_durable (_f s)) m)) DURABILITY_FULL m.

(** A handle whose last known commit [m] holds [base], and whose tree stands for
    [kvs]: staged bindings while it holds the write lock, the commit otherwise. *)
Record handle t m base kvs : Prop := {
  hd_journal : journaled (_storage t) m;
  hd_base : holds (committed_image (_storage t) m) m base;
  hd_view : staged t kvs;
  hd_idle : storage.is_locked (_storage t) = false -> kvs = base;
  hd_fits : ix_fits kvs /\ ix_fits base
}.

Lemma holds_extends s s' m kvs : extends s s' -> holds s m kvs -> holds s' m kvs.
Proof. intros He [Ht Hc]. split; [by eapply ix_tree_extends|done]. Qed.

(** What is committed can be read from the open file. *)
Lemma image_extends s m : journaled s m -> extends (committed_image s m) s.
Proof.
  intros [_ _ _ Hi [tail Ht]]. intros a q Ha. rewrite !storage_rs_read.
  change (live (committed_image s m)) with (committed (_durable (_f s)) m). unfold committed.
  rewrite Ht. rewrite <- (take_drop (Z.to_nat (data_length m)) (_durable (_f s))) at 2.
  rewrite <- app_assoc. apply record_at_app.
Qed.

Lemma image_live s m base : journaled s m -> holds (committed_image s m) m base -> holds s m base.
Proof. intros Hj. by apply holds_extends, image_extends. Qed.

(** Changes that keep the durable bytes keep the committed image. *)
Lemma image_same s s' m base :
  committed (_durable (_f s')) m = committed (_durable (_f s)) m ->
  holds (committed_image s m) m base -> holds (committed_image s' m) m base.
Proof. intros E. apply holds_extends. by apply extends_live. Qed.

(** ** Refreshing *)

Lemma reload_spec {A} (f : _Meta -> A) s m :
  journaled s m -> exists p, storage._reload_meta f s = (at_pos p s, Ok (f m)).
Proof.
  intros Hj. pose proof (rec_best _ _ (journaled_live s m Hj)) as Hb.
  destruct (best_meta_run s m Hb) as [p Hp]. exists p. unfold storage._reload_meta.
  erewrite stx_bind_ok by exact Hp. erewrite stx_bind_ok by reflexivity. unfold mret, stx_ret. do 2 f_equal.
  pose proof (jr_cur _ _ Hj) as Hm. destruct s; simpl in *; subst. done.
Qed.

Lemma refresh_spec t m :
  journaled (_storage t) m ->
  exists p c, logical._refresh_tree_ref t = (mkTree (at_pos p (_storage t)) (Ref None (root_address m)) c, Ok tt) /\
    (ix_counts = true -> c = key_count m).
Proof.
  intros Hj. destruct t as [s r c]. simpl in Hj.
  destruct (reload_spec root_address s m Hj) as [p Hp].
  assert (journaled (at_pos p s) m) as Hj' by (by destruct Hj).
  destruct (reload_spec key_count (at_pos p s) m Hj') as [q Hq].
  unfold logical._refresh_tree_ref, logical.on_storage, storage.get_root_address, storage.get_key_count. run.
  cbn [_storage]. rewrite Hp. cbn [logical.set_storage logical.set_tree_ref _storage _tree_ref _count]. destruct ix_counts.
  - change (_storage (logical.set_tree_ref _ _)) with (at_pos p s). rewrite Hq. exists q, (key_count m). split; [reflexivity|done].
  - exists p, c. split; [reflexivity|done].
Qed.

(** A refresh shows the last commit. *)
Lemma refresh_staged t m base :
  journaled (_storage t) m -> holds (_storage t) m base ->
  exists t', logical._refresh_tree_ref t = (t', Ok tt) /\ journaled (_storage t') m /\
    holds (_storage t') m base /\ staged t' base /\
    _lock (_storage t') = _lock (_storage t) /\ same_file (_storage t) (_storage t').
Proof.
  intros Hj [Ht Hc]. destruct (refresh_spec t m Hj) as (p & c & E & Hcm). eexists. split; [exact E|]. simpl.
  assert (extends (_storage t) (at_pos p (_storage t))) as He by (by apply extends_live).
  split; [by destruct Hj|]. split; [by apply (holds_extends (_storage t))|].
  split; [|split; [done|by exists p]].
  split; [by eapply ix_tree_extends|]. intros Hx. simpl. rewrite (Hcm Hx). by apply Hc.
Qed.

(** Before a read: the view is loaded. *)
Lemma read_view t m base kvs :
  handle t m base kvs ->
  exists t', logical.refresh_unless_locked t = (t', Ok tt) /\ handle t' m base kvs /\ staged t' kvs /\
    same_file (_storage t) (_storage t') /\ _lock (_storage t') = _lock (_storage t).
Proof.
  intros Hh. pose proof Hh as [Hj Hb Hv Hi Hf]. unfold logical.refresh_unless_locked. run.
  destruct (storage.is_locked (_storage t)) eqn:El; [exists t; split_and!; try done; apply same_file_refl|]. specialize (Hi eq_refl). subst kvs.
  destruct (refresh_staged t m base Hj (image_live _ _ _ Hj Hb)) as (t' & E & Hj' & _ & Hs' & Hk & Hsf). exists t'.
  pose proof (same_file_fields _ _ Hsf) as (_ & Hd & _).
  split; [exact E|]. split; [|done]. split; try done.
  eapply image_same; [|exact Hb]. by rewrite Hd.
Qed.

(** Before a write: the lock is held and the view is loaded. *)
Lemma write_view t m base kvs :
  handle t m base kvs ->
  exists t', (fresh ← logical.on_storage storage.lock; logical.refresh_if fresh) t = (t', Ok tt) /\
    handle t' m base kvs /\ staged t' kvs /\ storage.is_locked (_storage t') = true /\
    same_file (_storage t) (_storage t').
Proof.
  intros [Hj Hb Hv Hi Hf]. set (s1 := set_lock {| locked := true |} (_storage t)).
  assert (logical.on_storage storage.lock t = (logical.set_storage s1 t, Ok (negb (storage.is_locked (_storage t))))) as E.
  { unfold logical.on_storage. run. by rewrite lock_spec. }
  erewrite stx_bind_ok by exact E.
  assert (journaled s1 m) as Hj1 by (by destruct Hj).
  assert (holds (committed_image s1 m) m base) as Hb1 by (by eapply image_same; [|exact Hb]).
  destruct (storage.is_locked (_storage t)) eqn:El; simpl.
  - exists (logical.set_storage s1 t). split; [done|]. assert (staged (logical.set_storage s1 t) kvs) as Hs.
    { destruct Hv as [Ht Hc]. split; [|done]. by apply (ix_tree_extends (_storage t)); [apply extends_live|]. }
    split; [split; try done; by intros ?|]. split; [done|]. split; [done|]. apply same_file_lock.
  - specialize (Hi eq_refl). subst kvs. destruct (refresh_staged (logical.set_storage s1 t) m base Hj1 (image_live _ _ _ Hj1 Hb1)) as (t' & E' & Hj' & _ & Hs' & Hk & Hsf).
    pose proof (same_file_fields _ _ Hsf) as (_ & Hd & _).
    exists t'. split; [exact E'|]. assert (storage.is_locked (_storage t') = true) as Hk' by (unfold storage.is_locked; by rewrite Hk).
    split; [|split; [done|split; [done|exact Hsf]]].
    split; try done. eapply image_same; [|exact Hb1]. by rewrite Hd.
Qed.

(** ** Reads *)

Lemma get_locked t m base kvs k :
  handle t m base kvs -> storage.is_locked (_storage t) = true ->
  logical.get k t = (t, match kv_get k kvs with Some v => Ok (Some v) | None => Raise (KeyError k) end).
Proof.
  intros [_ _ [Ht _] _ [Hf _]] Hl. unfold logical.get, logical.refresh_unless_locked.
  run. rewrite Hl. pose proof (ix_get_ok _ _ _ k Ht Hf) as E. run in E. by rewrite E.
Qed.

Lemma get_spec t m base kvs k :
  handle t m base kvs ->
  exists t', logical.get k t =
      (t', match kv_get k kvs with Some v => Ok (Some v) | None => Raise (KeyError k) end) /\
    handle t' m base kvs /\ same_file (_storage t) (_storage t').
Proof.
  intros Hh. destruct (read_view t m base kvs Hh) as (t' & E & Hh' & [Ht _] & Hsf & _). exists t'.
  unfold logical.get. erewrite stx_bind_ok by exact E. erewrite stx_bind_ok by reflexivity. unfold lift_res.
  rewrite (ix_get_ok _ _ _ k Ht) by apply Hh'. done.
Qed.

Lemma items_spec t m base kvs :
  handle t m base kvs ->
  exists t', logical.items t = (t', Ok (yields kvs)) /\ handle t' m base kvs /\ same_file (_storage t) (_storage t').
Proof.
  intros Hh. destruct (read_view t m base kvs Hh) as (t' & E & Hh' & [Ht _] & Hsf & _). exists t'.
  unfold logical.items. erewrite stx_bind_ok by exact E. erewrite stx_bind_ok by reflexivity. unfold lift_res.
  rewrite (ix_items_ok _ _ _ Ht) by apply Hh'. done.
Qed.

Lemma range_items_spec t m base kvs a b :
  handle t m base kvs ->
  exists t', logical.range_items a b t = (t', Ok (yields (kv_range a b kvs))) /\ handle t' m base kvs /\ same_file (_storage t) (_storage t').
Proof.
  intros Hh. destruct (read_view t m base kvs Hh) as (t' & E & Hh' & [Ht _] & Hsf & _). exists t'.
  unfold logical.range_items. erewrite stx_bind_ok by exact E. erewrite stx_bind_ok by reflexivity. unfold lift_res.
  rewrite (ix_range_ok _ _ _ a b Ht) by apply Hh'. done.
Qed.

Lemma length_spec t m base kvs :
  handle t m base kvs ->
  exists t', logical.length t = (t', Ok (len kvs)) /\ handle t' m base kvs /\ same_file (_storage t) (_storage t').
Proof.
  intros Hh. destruct (read_view t m base kvs Hh) as (t' & E & Hh' & [Ht Hc] & Hsf & _). exists t'.
  unfold logical.length. erewrite stx_bind_ok by exact E. erewrite stx_bind_ok by reflexivity. unfold lift_res.
  by rewrite (ix_length_ok _ _ kvs).
Qed.

(** ** Writes *)

(** Taking the lock and refreshing unconditionally: whatever was staged is gone. *)
Lemma lock_refresh t m base kvs :
  handle t m base kvs ->
  exists t', (logical.on_storage storage.lock ;; logical._refresh_tree_ref) t = (t', Ok tt) /\
    handle t' m base base /\ staged t' base /\ storage.is_locked (_storage t') = true /\
    same_file (_storage t) (_storage t').
Proof.
  intros [Hj Hb _ _ [_ Hf]]. set (s1 := set_lock {| locked := true |} (_storage t)).
  assert (journaled s1 m) as Hj1 by (by destruct Hj).
  assert (holds (committed_image s1 m) m base) as Hb1 by (by eapply image_same; [|exact Hb]).
  erewrite stx_bind_ok by (unfold logical.on_storage, zoom; rewrite lock_spec; reflexivity). fold s1.
  destruct (refresh_staged (logical.set_storage s1 t) m base Hj1 (image_live _ _ _ Hj1 Hb1)) as (t' & E' & Hj' & _ & Hs' & Hk & Hsf).
  pose proof (same_file_fields _ _ Hsf) as (_ & Hd & _).
  exists t'. split; [exact E'|].
  assert (storage.is_locked (_storage t') = true) as Hk' by (unfold storage.is_locked; by rewrite Hk).
  split; [|split_and!; done]. split; try done. eapply image_same; [|exact Hb1]. by rewrite Hd.
Qed.

(** Replacing the staged tree by one for other bindings. *)
Lemma handle_stage t m base kvs kvs' r c :
  handle t m base kvs -> storage.is_locked (_storage t) = true ->
  ix_tree (_storage t) r kvs' -> (ix_counts = true -> c = len kvs') -> ix_fits kvs' ->
  handle (mkTree (_storage t) r c) m base kvs'.
Proof. intros [Hj Hb Hv _ [_ Hf]] Hl Hr Hc Hf'. split; try done. cbn [_storage]. by rewrite Hl. Qed.

Lemma set_spec t m base kvs k v :
  handle t m base kvs -> ix_fits (kv_set k v kvs) ->
  exists t', logical.set k v t = (t', Ok tt) /\ handle t' m base (kv_set k v kvs) /\
    storage.is_locked (_storage t') = true /\ same_file (_storage t) (_storage t').
Proof.
  intros Hh Hf. destruct (write_view t m base kvs Hh) as (t1 & E & Hh1 & [Ht Hc] & Hl & Hsf).
  destruct (ix_insert_ok _ _ _ k v (_count t1) Ht) as (r' & Ei & Ht'); [apply Hh1|].
  pose proof (kv_set_length k v kvs (ix_tree_sorted _ _ _ Ht)) as Hlen.
  eexists. unfold logical.set. apply stx_bind_inv in E as (t0 & fresh & E0 & E1).
  erewrite stx_bind_ok by exact E0. erewrite stx_bind_ok by exact E1. erewrite stx_bind_ok by reflexivity.
  erewrite stx_bind_ok by (unfold logical.on_count, zoom; rewrite Ei; reflexivity). split; [reflexivity|].
  split; [|split; [done|exact Hsf]]. apply (handle_stage t1 m base kvs); try done. intros Hx. rewrite Hx. simpl. rewrite (Hc Hx), Hlen.
  destruct (kv_get k kvs); lia.
Qed.

Lemma delete_spec t m base kvs k :
  handle t m base kvs ->
  exists t', handle t' m base (kv_del k kvs) /\ storage.is_locked (_storage t') = true /\
    same_file (_storage t) (_storage t') /\
    logical.delete k t = (t', match kv_get k kvs with Some _ => Ok tt | None => Raise (KeyError k) end).
Proof.
  intros Hh. destruct (write_view t m base kvs Hh) as (t1 & E & Hh1 & [Ht Hc] & Hl & Hsf).
  pose proof (ix_delete_ok _ _ _ k (_count t1) Ht (proj1 (hd_fits _ _ _ _ Hh1))) as Hd.
  pose proof (kv_del_length k kvs) as Hlen.
  unfold logical.delete. apply stx_bind_inv in E as (t0 & fresh & E0 & E1).
  destruct (kv_get k kvs) as [v|] eqn:Eg.
  - destruct Hd as (r' & Ei & Ht'). eexists. split; [|split; [|split]].
    4:{ erewrite stx_bind_ok by exact E0. erewrite stx_bind_ok by exact E1. erewrite stx_bind_ok by reflexivity.
        erewrite stx_bind_ok by (unfold logical.on_count, zoom; rewrite Ei; reflexivity). reflexivity. }
    + apply (handle_stage t1 m base kvs); try done.
      * intros Hx. rewrite Hx. simpl. rewrite (Hc Hx). lia.
      * eapply ix_fits_le; [exact (proj1 (hd_fits _ _ _ _ Hh1))|lia].
    + done.
    + exact Hsf.
  - exists (logical.set_count (_count t1) t1). rewrite kv_del_absent by done. split; [|split; [|split]].
    + by destruct t1.
    + done.
    + exact Hsf.
    + erewrite stx_bind_ok by exact E0. erewrite stx_bind_ok by exact E1. erewrite stx_bind_ok by reflexivity.
      apply stx_bind_raise. unfold logical.on_count, zoom. by rewrite Hd.
Qed.

(** ** Opening and committing *)

(** Opening the bytes [l] gives a handle on the bindings [kvs]. *)
Definition opens (l : bytes) m kvs : Prop :=
  exists s t, storage.init (SimDisk_init l) DURABILITY_FULL false = (s, Ok tt) /\
    logical.tree_init s = (t, Ok tt) /\ handle t m kvs kvs /\ storage.is_locked (_storage t) = false /\
    _crash_at_flush (_f (_storage t)) = None.

Lemma open_spec l m kvs :
  recoverable l m -> holds (idle (SimDisk_init (committed l m)) DURABILITY_FULL m) m kvs -> ix_fits kvs ->
  opens l m kvs.
Proof.
  intros Hr Hh Hf. destruct (open_recoverable l m Hr) as (s & Ho & Hset & Hl & Hd & Hfull & Hlk & Hcr).
  exists s. assert (journaled s m) as Hj by (apply settled_journaled; congruence).
  assert (committed (_durable (_f s)) m = committed l m) as Hc.
  { rewrite Hd. unfold committed. rewrite take_take. f_equal. lia. }
  assert (holds (committed_image s m) m kvs) as Hb.
  { eapply holds_extends; [|exact Hh]. apply extends_live. exact Hc. }
  destruct (refresh_staged (mkTree s (Ref None 0) 0) m kvs Hj (image_live _ _ _ Hj Hb)) as (t & E & Hj' & _ & Hs & Hk & Hsf).
  pose proof (same_file_fields _ _ Hsf) as (Hl' & Hd' & Hcr' & _). exists t. split; [done|]. split; [exact E|]. cbn [_storage] in *.
  assert (storage.is_locked (_storage t) = false) as Hlk' by (unfold storage.is_locked in *; by rewrite Hk).
  split; [|split; [done|by rewrite Hcr']]. split; try done.
  eapply image_same; [|exact Hb]. by rewrite Hd'.
Qed.

(** The bytes on disk at any moment reopen to the last commit. *)
Lemma handle_durable t m base kvs :
  handle t m base kvs -> opens (_durable (_f (_storage t))) m base.
Proof. intros [Hj Hb _ _ [_ Hf]]. by apply open_spec; [apply Hj| |]. Qed.

(** The outcomes of a commit of the bindings [kvs] over [base]. *)
Definition commit_result t m base kvs (out : Tree N * res unit) : Prop :=
  (exists t' m', out = (t', Ok tt) /\ handle t' m' kvs kvs /\ storage.is_locked (_storage t') = false /\
     _durable (_f (_storage t')) = live (_storage t') /\ txn_id m' = txn_id m + 1 /\
     extends (_storage t) (_storage t')) \/
  (exists t', out = (t', Raise StructError) /\ journaled (_storage t') m /\
     holds (committed_image (_storage t') m) m base) \/
  (exists t', out = (t', Raise SimCrash) /\ _crash_at_flush (_f (_storage t)) <> None /\
     opens (_durable (_f (_storage t'))) m base).

Lemma publish_spec t m base kvs (r : ref N) :
  journaled (_storage t) m -> holds (committed_image (_storage t) m) m base ->
  ix_tree (_storage t) (Ref None (address r)) kvs -> (ix_counts = true -> _count t = len kvs) ->
  ix_fits kvs -> ix_fits base ->
  commit_result t m base kvs
    ((logical.on_storage (storage.commit_root_address (address r) (if ix_counts then _count t else 0)) ;;
      logical._refresh_tree_ref) t).
Proof.
  intros Hj Hb Ht Hc Hf Hfb. destruct t as [s r0 c0]. cbn [_storage _count] in *.
  set (c := if ix_counts then c0 else 0). set (m' := next_meta m (address r) c (zlen (live s))).
  destruct (meta_block_cases m') as [Hbad|Hfit].
  - destruct (commit_unfit s m (address r) c Hj Hbad) as (s' & [(E & Hj' & Hl)|(E & Hcr & Hd)]);
      (erewrite stx_bind_raise by (unfold logical.on_storage, zoom; cbn [_storage]; rewrite E; reflexivity)).
    + right. left. eexists. split; [reflexivity|]. split; [done|]. eapply image_same; [|exact Hb].
      pose proof Hj as [_ _ _ Hi [tail Htl]]. pose proof Hj' as [_ _ _ Hi' [tail' Htl']].
      unfold logical.set_storage. cbn [_storage].
      rewrite <- (committed_app (_durable (_f s')) m tail') by apply Hi'. rewrite <- Htl', Hl, Htl.
      apply committed_app, Hi.
    + right. right. eexists. split; [reflexivity|]. split; [done|]. unfold logical.set_storage. cbn [_storage].
      rewrite Hd. apply open_spec; [apply Hj|done|done].
  - destruct (commit_outcomes s m (address r) c Hj Hfit) as (s' & [(E & Hj' & Hld & Hz & Hlk & Hrec)|(E & Hcr & Hd)]).
    + assert (extends s s') as He by (by apply extends_records).
      assert (holds s' m' kvs) as Hh'.
      { split; [by eapply ix_tree_extends|]. intros Hx. unfold m', c. rewrite Hx. by apply Hc. }
      assert (holds (committed_image s' m') m' kvs) as Hb'.
      { eapply holds_extends; [|exact Hh']. apply extends_live. change (live (committed_image s' m')) with (committed (_durable (_f s')) m').
        rewrite <- Hld. unfold committed. apply take_ge. simpl. unfold zlen in *. lia. }
      erewrite stx_bind_ok by (unfold logical.on_storage, zoom; cbn [_storage]; rewrite E; reflexivity).
      destruct (refresh_staged (logical.set_storage s' (mkTree s r0 c0)) m' kvs Hj' Hh') as (t' & E' & Hj'' & _ & Hs & Hk & Hsf).
      pose proof (same_file_fields _ _ Hsf) as (Hl' & Hd' & _).
      unfold logical.set_storage in *. cbn [_storage] in *.
      assert (storage.is_locked (_storage t') = false) as Hlk' by (unfold storage.is_locked in *; by rewrite Hk).
      left. exists t', m'. split; [exact E'|]. split; [|split; [done|]].
      * split; try done. eapply image_same; [|exact Hb']. by rewrite Hd'.
      * split; [rewrite Hl', Hd'; by rewrite Hld|]. split; [done|]. transitivity s'; [done|]. by apply extends_live.
    + erewrite stx_bind_raise by (unfold logical.on_storage, zoom; cbn [_storage]; rewrite E; reflexivity).
      right. right. eexists. split; [reflexivity|]. split; [done|]. unfold logical.set_storage. cbn [_storage].
      pose proof Hj as [_ _ _ Hi [tail Htl]]. destruct Hd as [-> | ->].
      * by apply open_spec.
      * apply open_spec; [by eapply journaled_live| |done]. eapply holds_extends; [|exact Hb]. apply extends_live.
        change (committed (live s) m = committed (_durable (_f s)) m). rewrite Htl. apply committed_app, Hi.
Qed.

Lemma commit_spec t m base kvs :
  handle t m base kvs -> commit_result t m base kvs (logical.commit t).
Proof.
  intros [Hj Hb [Ht Hc] _ [Hf Hfb]]. destruct t as [s r0 c0]. cbn [_storage _tree_ref _count] in *.
  unfold logical.commit. erewrite stx_bind_ok by reflexivity. cbn [_tree_ref].
  destruct (ix_store_ok s r0 kvs (journaled_ok _ _ Hj) Ht) as (s' & Hw & Hst).
  destruct (journaled_writes _ _ _ Hj Hw) as (Hj' & Hlk & Hd & Hcr).
  destruct (writes_extends _ _ (journaled_ok _ _ Hj) Hw) as [_ He].
  assert (holds (committed_image s' m) m base) as Hb' by (eapply image_same; [|exact Hb]; by rewrite Hd).
  destruct Hst as [(r' & E & Ht')|E].
  - erewrite stx_bind_ok by (unfold logical.on_storage, zoom; cbn [_storage]; rewrite E; reflexivity).
    erewrite stx_bind_ok by reflexivity. erewrite stx_bind_ok by reflexivity.
    unfold logical.set_storage, logical.set_tree_ref. cbn [_storage _tree_ref _count].
    destruct (publish_spec (mkTree s' r' c0) m base kvs r') as [(t' & m' & Eo & Hh & Hl & Hdl & Htx & He')|[Hs|Hs]]; try done.
    + left. exists t', m'. split; [exact Eo|]. split_and!; try done. by transitivity s'.
    + right. by left.
    + right. right. destruct Hs as (t' & Eo & Hc' & Hop). exists t'. split; [exact Eo|]. split; [|done].
      cbn [_storage] in *. by rewrite <- Hcr.
  - erewrite stx_bind_raise by (unfold logical.on_storage, zoom; cbn [_storage]; rewrite E; reflexivity).
    right. left. eexists. split; [reflexivity|]. done.
Qed.

End engine.
