(* ===== verification/Session.v ===== *)
(** Handles on an index: only [close] closes a file, and sequences of calls refine
    a pair of association lists ([src/imustore/logical.py]). *)

From S2P Require Import Prelude PyBase Struct SimDisk Locking Physical PhysicalFacts Recovery KeyList Logical Index Engine.

(** Only [close] closes a file: reads, writes and commits leave the handle open. *)

(** [m] keeps [I], whether it returns or raises. *)
Definition preserves {E S A} (I : S -> Prop) (m : stx E S A) : Prop :=
  forall s s' r, I s -> m s = (s', r) -> I s'.

Create HintDb preserve.

Section preserve.
Context {E S : Type} (I : S -> Prop).

Lemma preserves_ret {A} (a : A) : preserves (E := E) I (mret a).
Proof. by intros s s' r Hs [= <- _]. Qed.

Lemma preserves_raise {A} (e : E) : preserves (A := A) I (raise e).
Proof. by intros s s' r Hs [= <- _]. Qed.

Lemma preserves_get : preserves (E := E) I get_st.
Proof. by intros s s' r Hs [= <- _]. Qed.

Lemma preserves_gets {A} (f : S -> A) : preserves (E := E) I (gets f).
Proof. by intros s s' r Hs [= <- _]. Qed.

Lemma preserves_lift {A} (a : result E A) : preserves I (lift_res a).
Proof. by intros s s' r Hs [= <- _]. Qed.

Lemma preserves_modify f : (forall s, I s -> I (f s)) -> preserves (E := E) I (modify f).
Proof. intros Hf s s' r Hs [= <- _]. auto. Qed.

Lemma preserves_bind {A B} (m : stx E S A) (f : A -> stx E S B) :
  preserves I m -> (forall a, preserves I (f a)) -> preserves I (m ≫= f).
Proof.
  intros Hm Hf s s' r Hs. unfold mbind, stx_bind. destruct (m s) as [s1 [a|e]] eqn:E1.
  - intros E2. eapply Hf; [|exact E2]. by eapply Hm.
  - intros [= <- _]. by eapply Hm.
Qed.

Lemma preserves_mapM {A B} (f : A -> stx E S B) l : (forall a, preserves I (f a)) -> preserves I (mapM_st f l).
Proof.
  intros Hf. induction l as [|a l IH]; cbn [mapM_st]; [apply preserves_ret|].
  apply preserves_bind; [done|]. intros b. apply preserves_bind; [done|]. intros bs. apply preserves_ret.
Qed.

End preserve.

#[export] Hint Resolve preserves_ret preserves_raise preserves_get preserves_gets preserves_lift : preserve.

(** Splits a computation into its steps. *)
Ltac preserve :=
  repeat first
    [ progress intros
    | match goal with
      | |- preserves _ (mbind _ _) => apply preserves_bind
      | |- preserves _ (mapM_st _ _) => apply preserves_mapM
      | |- preserves _ (if ?b then _ else _) => destruct b
      | |- preserves _ (match ?x with _ => _ end) => destruct x
      end ];
  auto with preserve.

Definition file_open (s : Storage) : Prop := _closed (_f s) = false.

Lemma same_file_open s s' : same_file s s' -> file_open s -> file_open s'.
Proof. intros Hs Ho. pose proof (same_file_fields _ _ Hs) as (_ & _ & _ & E). unfold file_open in *. by rewrite E. Qed.

Lemma on_f_open {A} (m : St SimDisk A) : preserves (fun d => _closed d = false) m -> preserves file_open (on_f m).
Proof.
  intros Hm s s' r Hs. unfold on_f, zoom. destruct (m (_f s)) as [d x] eqn:E. intros [= <- _]. by eapply Hm.
Qed.

Lemma on_lock_open {A} (m : St FileLock A) : preserves file_open (on_lock m).
Proof. intros s s' r Hs. unfold on_lock, zoom. destruct (m (_lock s)) as [l x]. by intros [= <- _]. Qed.

Lemma modify_open (f : SimDisk -> SimDisk) :
  (forall d, _closed (f d) = _closed d) -> preserves (E := exn) (fun d => _closed d = false) (modify f).
Proof. intros Hf. apply preserves_modify. intros d. by rewrite Hf. Qed.

Lemma meta_open m : preserves (E := exn) file_open (modify (set_meta m)).
Proof. by apply preserves_modify. Qed.

#[export] Hint Resolve on_f_open on_lock_open modify_open meta_open : preserve.

Lemma seek_open a b : preserves file_open (on_f (disk.seek a b)).
Proof. apply on_f_open. unfold disk.seek. preserve. Qed.
Lemma tell_open : preserves file_open (on_f disk.tell).
Proof. apply on_f_open. unfold disk.tell. preserve. Qed.
Lemma read_open n : preserves file_open (on_f (disk.read n)).
Proof. apply on_f_open. unfold disk.read. preserve. Qed.
Lemma write_open b : preserves file_open (on_f (disk.write b)).
Proof. apply on_f_open. unfold disk.write. preserve. Qed.
Lemma flush_open : preserves file_open storage.flush.
Proof. apply on_f_open. unfold disk.flush. preserve. Qed.
#[export] Hint Resolve seek_open tell_open read_open write_open flush_open : preserve.

Lemma file_size_open : preserves file_open storage._file_size.
Proof. unfold storage._file_size. preserve. Qed.
#[export] Hint Resolve file_size_open : preserve.

Lemma read_slot_open i : preserves file_open (storage._read_slot i).
Proof.
  unfold storage._read_slot. apply preserves_bind; [auto with preserve|]. intros _. apply preserves_bind; [auto with preserve|]. intros raw.
  destruct (_ <? _); [auto with preserve|]. cbv zeta. destruct (negb _); [auto with preserve|].
  destruct (unpack_meta_body _) as [[[[[? ?] ?] ?] ?] ?]. preserve.
Qed.
#[export] Hint Resolve read_slot_open : preserve.

Lemma best_meta_open : preserves file_open storage._read_best_meta.
Proof. unfold storage._read_best_meta. preserve. Qed.
#[export] Hint Resolve best_meta_open : preserve.

Lemma reload_open {A} (f : _Meta -> A) : preserves file_open (storage._reload_meta f).
Proof. unfold storage._reload_meta. preserve. Qed.
#[export] Hint Resolve reload_open : preserve.

Lemma commit_root_open root count : preserves file_open (storage.commit_root_address root count).
Proof. unfold storage.commit_root_address, storage.lock, storage.unlock, storage.cur_meta, storage._write_slot. preserve. Qed.

Lemma storage_write_open p : preserves file_open (storage.write p).
Proof. unfold storage.write. preserve. Qed.

Lemma writes_open (s s' : Storage) : file_open s -> writes s s' -> file_open s'.
Proof. intros Ho Hw. induction Hw as [s|s p s' r s'' Hw _ IH]; [done|]. apply IH. by eapply storage_write_open. Qed.

Section engine.
Context {N : Type} `{IndexSpec N}.
Implicit Types (t : Tree N) (m : _Meta) (base kvs : kvlist).

Lemma on_storage_open {A} (m : St Storage A) :
  preserves file_open m -> preserves (fun t : Tree N => file_open (_storage t)) (logical.on_storage m).
Proof. intros Hm t t' r Ht. unfold logical.on_storage, zoom. destruct (m (_storage t)) as [s x] eqn:E. intros [= <- _]. by eapply Hm. Qed.

Lemma refresh_open : preserves (fun t : Tree N => file_open (_storage t)) logical._refresh_tree_ref.
Proof.
  unfold logical._refresh_tree_ref, storage.get_root_address, storage.get_key_count.
  apply preserves_bind; [apply on_storage_open; auto with preserve|]. intros root.
  apply preserves_bind; [by apply preserves_modify|]. intros _. destruct ix_counts; [|auto with preserve].
  apply preserves_bind; [apply on_storage_open; auto with preserve|]. intros c. by apply preserves_modify.
Qed.

(** Committing, successfully or not, leaves the file open. *)
Lemma commit_open t m base kvs t' (r : res unit) :
  handle t m base kvs -> logical.commit t = (t', r) -> file_open (_storage t) -> file_open (_storage t').
Proof.
  intros [Hj _ [Ht _] _ _] E Ho. destruct t as [s r0 c0]. cbn [_storage _tree_ref] in *.
  unfold logical.commit in E. erewrite stx_bind_ok in E by reflexivity. cbn [_tree_ref] in E.
  destruct (ix_store_ok s r0 kvs (journaled_ok _ _ Hj) Ht) as (s' & Hw & Hst).
  pose proof (writes_open _ _ Ho Hw) as Ho'. destruct Hst as [(r' & Es & _)|Es].
  - erewrite stx_bind_ok in E by (unfold logical.on_storage, zoom; cbn [_storage]; rewrite Es; reflexivity).
    erewrite stx_bind_ok in E by reflexivity. erewrite stx_bind_ok in E by reflexivity.
    unfold mbind, stx_bind in E.
    match type of E with (let '(_, _) := ?x in _) = _ => destruct x as [t1 [u|e]] eqn:E1 end.
    + eapply refresh_open; [|exact E]. by eapply (on_storage_open _ (commit_root_open _ _)); [|exact E1].
    + injection E as <- _. by eapply (on_storage_open _ (commit_root_open _ _)); [|exact E1].
  - erewrite stx_bind_raise in E by (unfold logical.on_storage, zoom; cbn [_storage]; rewrite Es; reflexivity). by injection E as <- _.
Qed.

End engine.

(** Sessions: sequences of engine calls against the abstract database, a pair of
    the committed and the current bindings. *)

(** * Files *)

(** Every record of [l] is still in [l']. *)
Definition keeps (l l' : bytes) : Prop :=
  forall a p, SUPERBLOCK_SIZE <= a -> record_at l a = Ok p -> record_at l' a = Ok p.

#[global] Instance keeps_preorder : PreOrder keeps.
Proof. split; [by intros l a p|]. intros l1 l2 l3 H1 H2 a p Ha Hp. auto. Qed.

Lemma keeps_extends s s' : keeps (live s) (live s') -> extends s s'.
Proof. intros Hk a p Ha. rewrite !storage_rs_read. by apply Hk. Qed.

Lemma extends_keeps s s' : extends s s' -> keeps (live s) (live s').
Proof. intros He a p Ha. rewrite <- !storage_rs_read. by apply He. Qed.

(** * Calls *)

Inductive op : Type :=
| OGet (key : pystr)
| OSet (key : pystr) (value : bytes)
| ODelete (key : pystr)
| OItems
| ORange (start stop : option pystr)
| OLength
| OCommit.

Inductive answer : Type :=
| ADone
| AValue (v : option bytes)
| AItems (l : list (pystr * option bytes))
| ALength (n : Z).

(** ** The abstract database *)

Record contents : Type := { committed_kvs : kvlist; current_kvs : kvlist }.

Definition spec_exec (o : op) (c : contents) : contents * res answer :=
  let cur := current_kvs c in
  match o with
  | OGet k => (c, match kv_get k cur with Some v => Ok (AValue (Some v)) | None => Raise (KeyError k) end)
  | OSet k v => ({| committed_kvs := committed_kvs c; current_kvs := kv_set k v cur |}, Ok ADone)
  | ODelete k => ({| committed_kvs := committed_kvs c; current_kvs := kv_del k cur |},
                  match kv_get k cur with Some _ => Ok ADone | None => Raise (KeyError k) end)
  | OItems => (c, Ok (AItems (yields cur)))
  | ORange a b => (c, Ok (AItems (yields (kv_range a b cur))))
  | OLength => (c, Ok (ALength (Z.of_nat (length cur))))
  | OCommit => ({| committed_kvs := cur; current_kvs := cur |}, Ok ADone)
  end.

Fixpoint spec_run (ops : list op) (c : contents) : contents * list (res answer) :=
  match ops with
  | [] => (c, [])
  | o :: ops => let '(c, r) := spec_exec o c in let '(c, rs) := spec_run ops c in (c, r :: rs)
  end.

(** ** The engine *)

Section session.
Context {N : Type} `{IndexSpec N}.
Implicit Types (t : Tree N) (m : _Meta) (base kvs : kvlist).

Definition exec (o : op) : St (Tree N) answer :=
  match o with
  | OGet k => v ← logical.get k; mret (AValue v)
  | OSet k v => logical.set k v ;; mret ADone
  | ODelete k => logical.delete k ;; mret ADone
  | OItems => l ← logical.items; mret (AItems l)
  | ORange a b => l ← logical.range_items a b; mret (AItems l)
  | OLength => n ← logical.length; mret (ALength n)
  | OCommit => logical.commit ;; mret ADone
  end.

(** The caller handles the exceptions and goes on. *)
Fixpoint run_ops (ops : list op) (t : Tree N) : Tree N * list (res answer) :=
  match ops with
  | [] => (t, [])
  | o :: ops => let '(t, r) := exec o t in let '(t, rs) := run_ops ops t in (t, r :: rs)
  end.

Definition represents t (c : contents) : Prop := exists m, handle t m (committed_kvs c) (current_kvs c).

(** A failed disk or a record beyond the format's limits ends the session. *)
Definition fatal (r : res answer) : Prop := r = Raise SimCrash \/ r = Raise StructError.

Lemma exec_refines o t c t' r :
  represents t c -> ix_fits (current_kvs (spec_exec o c).1) -> exec o t = (t', r) ->
  fatal r \/
  represents t' (spec_exec o c).1 /\ r = (spec_exec o c).2 /\
    keeps (_durable (_f (_storage t))) (_durable (_f (_storage t'))).
Proof.
  intros [m Hh] Hf He. destruct c as [base kvs]. cbn [committed_kvs current_kvs] in *.
  assert (Hsame : forall t1, same_file (_storage t) (_storage t1) ->
    keeps (_durable (_f (_storage t))) (_durable (_f (_storage t1)))).
  { intros t1 (_ & -> & _)%same_file_fields. done. }
  destruct o as [k|k v|k| |a b| |]; cbn [spec_exec exec committed_kvs current_kvs fst snd] in *.
  - destruct (get_spec t m base kvs k Hh) as (t1 & E & Hh' & Hsf). right. unfold mbind, stx_bind in He. rewrite E in He.
    destruct (kv_get k kvs); injection He as <- <-; (split; [by exists m|]); split; auto.
  - destruct (set_spec t m base kvs k v Hh Hf) as (t1 & E & Hh' & _ & Hsf). right. erewrite stx_bind_ok in He by exact E.
    injection He as <- <-. split; [by exists m|]. auto.
  - destruct (delete_spec t m base kvs k Hh) as (t1 & Hh' & _ & Hsf & E). right. unfold mbind, stx_bind in He. rewrite E in He.
    destruct (kv_get k kvs); injection He as <- <-; (split; [by exists m|]); split; auto.
  - destruct (items_spec t m base kvs Hh) as (t1 & E & Hh' & Hsf). right. erewrite stx_bind_ok in He by exact E.
    injection He as <- <-. split; [by exists m|]. auto.
  - destruct (range_items_spec t m base kvs a b Hh) as (t1 & E & Hh' & Hsf). right. erewrite stx_bind_ok in He by exact E.
    injection He as <- <-. split; [by exists m|]. auto.
  - destruct (length_spec t m base kvs Hh) as (t1 & E & Hh' & Hsf). right. erewrite stx_bind_ok in He by exact E.
    injection He as <- <-. split; [by exists m|]. auto.
  - destruct (commit_spec t m base kvs Hh) as [(t1 & m' & E & Hh' & _ & Hd & _ & Hx)|[(t1 & E & _)|(t1 & E & _)]].
    + right. erewrite stx_bind_ok in He by exact E. injection He as <- <-. split; [by exists m'|]. split; [done|].
      rewrite Hd. transitivity (live (_storage t)); [|by apply extends_keeps].
      destruct Hh as [[_ _ _ _ [tail ->]] _ _ _ _]. intros a p _. apply record_at_app.
    + left. right. erewrite stx_bind_raise in He by exact E. by injection He as <- <-.
    + left. left. erewrite stx_bind_raise in He by exact E. by injection He as <- <-.
Qed.

(** Every intermediate state is within the index's limits. *)
Fixpoint all_fit (ops : list op) (c : contents) : Prop :=
  match ops with
  | [] => True
  | o :: ops => ix_fits (current_kvs (spec_exec o c).1) /\ all_fit ops (spec_exec o c).1
  end.

Lemma run_refines ops t c t' rs :
  represents t c -> all_fit ops c -> run_ops ops t = (t', rs) -> Forall (fun r => ~ fatal r) rs ->
  rs = (spec_run ops c).2 /\ represents t' (spec_run ops c).1 /\
  keeps (_durable (_f (_storage t))) (_durable (_f (_storage t'))).
Proof.
  revert t c rs. induction ops as [|o ops IH]; intros t c rs Hr Hf He Hok; cbn [run_ops spec_run all_fit] in *.
  - injection He as <- <-. done.
  - destruct (exec o t) as [t1 r] eqn:E1. destruct (run_ops ops t1) as [t2 rs'] eqn:E2.
    injection He as <- <-. apply Forall_cons in Hok as [Hno Hok]. destruct Hf as [Hf1 Hf2].
    destruct (exec_refines o t c t1 r Hr Hf1 E1) as [?|(Hr1 & -> & Hk1)]; [done|].
    destruct (IH t1 _ rs' Hr1 Hf2 E2 Hok) as (-> & Hr2 & Hk2).
    destruct (spec_exec o c) as [c1 r1] eqn:Ec. simpl in *. destruct (spec_run ops c1) as [c2 rs2]. simpl in *.
    split; [done|]. split; [done|]. by transitivity (_durable (_f (_storage t1))).
Qed.

End session.
