(* ===== verification/Database.v ===== *)
(** The database object, its snapshots and its transactions:
    [src/imustore/interface.py], [mvcc.py] and the protocol of [codec.py].

    Every method is one atomic step: in the source [_write_mutex] and the write
    lock serialise the critical sections. *)

From S2P Require Import Prelude PyBase Struct SimDisk Locking Physical PhysicalFacts Recovery KeyList Logical Pickle Index.
From S2P Require Import BPlusTree BPlusIndex.

(** * [codec.py] *)

(** The [Codec] protocol. *)
Class Codec (V : Type) := {
  encode : V -> res bytes;
  decode : bytes -> res V
}.

(** What the tables of values rely on: a value that can be encoded is read back.
    [BytesCodec] and [TextCodec] do so for all values, [JsonCodec] for those whose
    dictionaries have their keys sorted and whose strings have no surrogate pairs
    ([canon_codec] in [JsonStore]); others it reads back as such a value. *)
Class CodecLaws (V : Type) `{Codec V} := {
  decode_encode v b : encode v = Ok b -> decode b = Ok v
}.

(** A Python object, as far as [BytesCodec] looks at it. *)
Inductive pyobj : Type :=
| PyBytes (b : bytes)
| PyOther.

(** [BytesCodec] *)
#[global] Instance BytesCodec : Codec pyobj := {|
  encode v := match v with PyBytes b => Ok b | PyOther => Raise TypeError end;
  decode b := Ok (PyBytes b)
|}.

#[global] Instance BytesCodec_laws : CodecLaws pyobj.
Proof. constructor. intros [b|] b' E; by simplify_eq/=. Qed.

(** * [mvcc.Snapshot] *)

Record Snapshot : Type := mkSnapshot {
  sn_storage : Storage;
  sn_root_ref : ref bnode;
  sn_count : Z;
  sn_closed : bool
}.

Module snapshot.
Section snapshot.
Context `{Pickle} {V : Type} `{Codec V}.

(** [Snapshot.__init__] on a reader opened on the file [file]. *)
Definition init (file : bytes) (root_address key_count : Z) : res Snapshot :=
  let '(s, r) := storage.init (SimDisk_init file) DURABILITY_FULL true in
  r ;;
  let '(t, r) := @logical.tree_init bnode (bplus_index DEFAULT_ORDER) s in
  r ;;
  Ok (mkSnapshot (_storage t) (Ref None root_address) key_count false).

(** The reader's file holds [file] when a method is called. *)
Definition view (file : bytes) (sn : Snapshot) : Storage :=
  set_f (set_live file (_f (sn_storage sn))) (sn_storage sn).

Definition _root (file : bytes) (sn : Snapshot) : res (option bnode) := follow (view file sn) (sn_root_ref sn).

Definition _raw (file : bytes) (sn : Snapshot) (key : pystr) : res (option bytes) :=
  match n ← _root file sn; _get RECURSION_LIMIT (view file sn) n key with
  | Raise (KeyError _) => Ok None
  | r => r
  end.

Definition getitem (file : bytes) (sn : Snapshot) (key : pystr) : res V :=
  payload ← _raw file sn key;
  match payload with None => Raise (KeyError key) | Some p => decode p end.

Definition get (file : bytes) (sn : Snapshot) (key : pystr) (default : V) : res V :=
  payload ← _raw file sn key;
  match payload with None => Ok default | Some p => decode p end.

Definition contains (file : bytes) (sn : Snapshot) (key : pystr) : res bool :=
  payload ← _raw file sn key;
  Ok match payload with None => false | Some _ => true end.

Definition len (sn : Snapshot) : Z := sn_count sn.

End snapshot.

Section listing.
Context `{Pickle} {V : Type} `{Codec V}.

(** [for key, payload in ...: yield key, self._codec.decode(payload)]; decoding
    [None] fails on its missing attribute. *)
Fixpoint decode_all (l : list (pystr * option bytes)) : res (list (pystr * V)) :=
  match l with
  | [] => Ok []
  | (k, None) :: _ => Raise AttributeError
  | (k, Some p) :: l => v ← decode p; rest ← decode_all l; Ok ((k, v) :: rest)
  end.

(** The [prefix] filter of the scans: other pairs are not decoded. *)
Definition with_prefix (prefix : option pystr) (l : list (pystr * option bytes)) :
    list (pystr * option bytes) :=
  base.filter (fun kv => match prefix with None => true | Some p => startswith kv.1 p end = true) l.

Definition items (file : bytes) (sn : Snapshot) : res (list (pystr * V)) :=
  n ← _root file sn;
  l ← _items RECURSION_LIMIT (view file sn) n;
  decode_all l.

Definition scan (file : bytes) (sn : Snapshot) (prefix start stop : option pystr) : res (list (pystr * V)) :=
  n ← _root file sn;
  l ← _range_items RECURSION_LIMIT (view file sn) n start stop;
  decode_all (with_prefix prefix l).

Definition keys (file : bytes) (sn : Snapshot) (prefix start stop : option pystr) : res (list pystr) :=
  l ← scan file sn prefix start stop; Ok l.*1.

End listing.
End snapshot.

(** * [DBDB] *)

Record DBDB (N : Type) : Type := mkDBDB {
  db_path : option pystr;
  db_tree : Tree N;
  _open_snapshots : Z
}.
Arguments mkDBDB {N} db_path db_tree _open_snapshots.
Arguments db_path {N} d.
Arguments db_tree {N} d.
Arguments _open_snapshots {N} d.

Module dbdb.
Section dbdb.
Context `{Pickle} {N : Type} `{Index N} {V : Type} `{Codec V}.
Implicit Types (d : DBDB N).

Definition set_tree (t : Tree N) d : DBDB N := mkDBDB (db_path d) t (_open_snapshots d).
Definition set_snapshots (n : Z) d : DBDB N := mkDBDB (db_path d) (db_tree d) n.
Definition on_tree {A} (m : St (Tree N) A) : St (DBDB N) A := zoom db_tree set_tree m.
Definition the_storage d : Storage := _storage (db_tree d).

(** [DBDB.__init__] over an open file object *)
Definition init (fileobj : SimDisk) (path : option pystr) (durability : pystr) : res (DBDB N) :=
  let '(s, r) := storage.init fileobj durability false in
  r ;;
  let '(t, r) := logical.tree_init s in
  r ;;
  Ok (mkDBDB path t 0).

Definition _assert_open : St (DBDB N) unit :=
  d ← get_st; if storage.closed (the_storage d) then raise DatabaseClosedError else mret tt.

Definition _validate_key (key : pystr) : St (DBDB N) unit :=
  match key with [] => raise KeyEncodingError | _ => mret tt end.

Definition decode_payload (p : option bytes) : res V :=
  match p with Some p => decode p | None => Raise AttributeError end.

Definition getitem (key : pystr) : St (DBDB N) V :=
  _assert_open ;; _validate_key key ;;
  p ← on_tree (logical.get key);
  lift_res (decode_payload p).

Definition setitem (key : pystr) (value : V) : St (DBDB N) unit :=
  _assert_open ;; _validate_key key ;;
  p ← lift_res (encode value);
  on_tree (logical.set key p).

Definition delitem (key : pystr) : St (DBDB N) unit :=
  _assert_open ;; _validate_key key ;; on_tree (logical.delete key).

(** [get(key)] of [collections.abc.Mapping], with [None] for a missing key. *)
Definition get (key : pystr) : St (DBDB N) (option V) :=
  try_with (v ← getitem key; mret (Some v)) (fun e => match e with KeyError _ => mret None | e => raise e end).

Definition len : St (DBDB N) Z := _assert_open ;; on_tree logical.length.

Definition items : St (DBDB N) (list (pystr * V)) :=
  _assert_open ;;
  l ← on_tree logical.items;
  lift_res (snapshot.decode_all l).

Definition validate_opt (key : option pystr) : St (DBDB N) unit :=
  match key with Some k => _validate_key k | None => mret tt end.

Definition scan (prefix start stop : option pystr) : St (DBDB N) (list (pystr * V)) :=
  _assert_open ;;
  validate_opt prefix ;; validate_opt start ;; validate_opt stop ;;
  l ← on_tree (logical.range_items start stop);
  lift_res (snapshot.decode_all (snapshot.with_prefix prefix l)).

Definition keys (prefix start stop : option pystr) : St (DBDB N) (list pystr) :=
  l ← scan prefix start stop; mret l.*1.

Definition commit : St (DBDB N) unit := _assert_open ;; on_tree logical.commit.

Definition close : St (DBDB N) unit := on_tree (logical.on_storage storage.close).

Definition stats : St (DBDB N) StorageStats := _assert_open ;; on_tree (logical.on_storage storage.stats).

(** [update_value(key, updater, default=default)] *)
Definition update_value (key : pystr) (updater : V -> V) (default : V) : St (DBDB N) V :=
  _assert_open ;; _validate_key key ;;
  fresh ← on_tree (logical.on_storage storage.lock);
  on_tree (logical.refresh_if fresh) ;;
  current ← try_with (getitem key) (fun e => match e with KeyError _ => mret default | e => raise e end);
  let updated := updater current in
  setitem key updated ;;
  mret updated.

(** [snapshot()]: the reader opens the bytes that were flushed to the file. *)
Definition take_snapshot : St (DBDB N) Snapshot :=
  _assert_open ;;
  d ← get_st;
  match db_path d with
  | None => raise ValueError
  | Some _ =>
      root ← on_tree (logical.on_storage storage.get_root_address);
      count ← on_tree (logical.on_storage storage.get_key_count);
      modify (fun d => set_snapshots (_open_snapshots d + 1) d) ;;
      d ← get_st;
      lift_res (snapshot.init (disk.durable_bytes (_f (the_storage d))) root count)
  end.

Definition _snapshot_closed : St (DBDB N) unit :=
  modify (fun d => set_snapshots (Z.max 0 (_open_snapshots d - 1)) d).

(** ** Compaction *)

(** [compact] works on the database and on the file [<path>.compact.tmp], [None]
    when there is none. *)
Abbreviation CompactM A := (St (DBDB N * option SimDisk) A).

Definition on_self {A} (m : St (DBDB N) A) : CompactM A := zoom fst (fun d s => (d, s.2)) m.
Definition set_temp (f : option SimDisk) : CompactM unit := modify (fun s => (s.1, f)).

(** The [try] block, on the database of the temporary file. *)
Definition refill (kvs : list (pystr * V)) : St (DBDB N) StorageStats :=
  try_finally (mapM_st (fun kv => setitem kv.1 kv.2) kvs ;; commit ;; stats) close.

(** [compact()] up to the end of the [try] block.  [connect] creates the temporary
    file or opens the one that is there. *)
Definition compact_copy : CompactM StorageStats :=
  on_self _assert_open ;;
  s ← get_st;
  match db_path s.1 with
  | None => raise ValueError
  | Some path =>
      if 0 <? _open_snapshots s.1 then raise ImmuStoreError
      else
        kvs ← on_self items;
        s ← get_st;
        let durability := _durability (the_storage s.1) in
        let f := default (SimDisk_init []) s.2 in
        set_temp (Some (_f (storage.init f durability false).1)) ;;
        compacted ← lift_res (init f (Some path) durability);
        let '(compacted, r) := refill kvs compacted in
        set_temp (Some (_f (the_storage compacted))) ;;
        lift_res r
  end.

(** From [self.close()] on: [os.replace] gives the temporary file the path of the
    database, which is opened there. *)
Definition compact_swap (stats : StorageStats) : CompactM StorageStats :=
  on_self close ;;
  s ← get_st;
  set_temp None ;;
  let content := match s.2 with Some f => _live f | None => [] end in
  reopened ← lift_res (init (SimDisk_init content) (db_path s.1) (_durability (the_storage s.1)));
  on_self (modify (set_tree (db_tree reopened))) ;;
  mret stats.

Definition compact : CompactM StorageStats := stats ← compact_copy; compact_swap stats.

End dbdb.
End dbdb.

(** * [Transaction] *)

(** The write overlay is a [dict]: insertion order, one entry per key; [None] is
    the tombstone [_DELETED]. *)
Definition overlay : Type := list (pystr * option bytes).

Fixpoint ov_get (o : overlay) (key : pystr) : option (option bytes) :=
  match o with
  | [] => None
  | (k, p) :: o => if bool_decide (k = key) then Some p else ov_get o key
  end.

Fixpoint ov_set (o : overlay) (key : pystr) (p : option bytes) : overlay :=
  match o with
  | [] => [(key, p)]
  | (k, q) :: o => if bool_decide (k = key) then (k, p) :: o else (k, q) :: ov_set o key p
  end.

Record Transaction : Type := mkTransaction {
  _base : option Snapshot;
  _overlay : overlay
}.

Module transaction.
Section transaction.
Context `{Pickle} {N : Type} `{Index N} {V : Type} `{Codec V}.

(** A transaction and the database it works on. *)
Definition state : Type := DBDB N * Transaction.
Definition on_db {A} (m : St (DBDB N) A) : St state A := zoom fst (fun d s => (d, s.2)) m.
Definition set_overlay (o : overlay) : St state unit := modify (fun s => (s.1, mkTransaction (_base s.2) o)).

(** What a second handle on the database file reads: the flushed bytes. *)
Definition file (s : state) : bytes := disk.durable_bytes (_f (dbdb.the_storage s.1)).

Definition init (d : DBDB N) : state := (d, mkTransaction None []).

Definition _begin : St state unit :=
  s ← get_st;
  match _base s.2 with
  | Some _ => mret tt
  | None =>
      on_db dbdb._assert_open ;;
      sn ← on_db dbdb.take_snapshot;
      modify (fun s => (s.1, mkTransaction (Some sn) (_overlay s.2)))
  end.

(** [self._base[...]]; without [_begin] the base is [None]. *)
Definition base_raw (key : pystr) : St state (option bytes) :=
  s ← get_st;
  match _base s.2 with
  | Some sn => lift_res (snapshot._raw (file s) sn key)
  | None => raise AttributeError
  end.

Definition get (key : pystr) : St state V :=
  on_db (dbdb._validate_key key) ;;
  s ← get_st;
  match ov_get (_overlay s.2) key with
  | Some None => raise (KeyError key)
  | Some (Some p) => lift_res (decode p)
  | None =>
      match _base s.2 with
      | Some sn => lift_res (snapshot.getitem (file s) sn key)
      | None => raise TypeError
      end
  end.

Definition get_or_none (key : pystr) (default : V) : St state V :=
  try_with (get key) (fun e => match e with KeyError _ => mret default | e => raise e end).

Definition contains (key : pystr) : St state bool :=
  s ← get_st;
  match ov_get (_overlay s.2) key with
  | Some p => mret match p with None => false | Some _ => true end
  | None =>
      match _base s.2 with
      | Some sn => lift_res (snapshot.contains (file s) sn key)
      | None => raise TypeError
      end
  end.

Definition set (key : pystr) (value : V) : St state unit :=
  on_db (dbdb._validate_key key) ;;
  p ← lift_res (encode value);
  s ← get_st;
  set_overlay (ov_set (_overlay s.2) key (Some p)).

Definition delete (key : pystr) : St state unit :=
  on_db (dbdb._validate_key key) ;;
  there ← contains key;
  match there with
  | true => s ← get_st; set_overlay (ov_set (_overlay s.2) key None)
  | false => raise (KeyError key)
  end.

Definition update (key : pystr) (updater : V -> V) (default : V) : St state V :=
  current ← get_or_none key default;
  let updated := updater current in
  set key updated ;;
  mret updated.

(** [current_value]: the committed payload, [None] for a missing key. *)
Definition current_value (key : pystr) : St state (option bytes) :=
  try_with (on_db (dbdb.on_tree (logical.get key)))
           (fun e => match e with KeyError _ => mret None | e => raise e end).

Fixpoint _check_conflicts (ks : list pystr) : St state unit :=
  match ks with
  | [] => mret tt
  | key :: ks =>
      base_value ← base_raw key;
      value ← current_value key;
      if bool_decide (base_value = value) then _check_conflicts ks else raise (ConflictError key)
  end.

(** [for key, payload in self._overlay.items(): ...] *)
Fixpoint apply_overlay (o : overlay) : St state unit :=
  match o with
  | [] => mret tt
  | (key, None) :: o =>
      try_with (on_db (dbdb.on_tree (logical.delete key)))
               (fun e => match e with KeyError _ => mret tt | e => raise e end) ;;
      apply_overlay o
  | (key, Some p) :: o => on_db (dbdb.on_tree (logical.set key p)) ;; apply_overlay o
  end.

(** [Snapshot.close] with its [on_close] callback *)
Definition _close_base : St state unit :=
  s ← get_st;
  match _base s.2 with
  | None => mret tt
  | Some sn =>
      (if sn_closed sn then mret tt else on_db dbdb._snapshot_closed) ;;
      modify (fun s => (s.1, mkTransaction None (_overlay s.2)))
  end.

Definition unlock_if_locked : St state unit :=
  s ← get_st;
  if storage.is_locked (dbdb.the_storage s.1)
  then on_db (dbdb.on_tree (logical.on_storage storage.unlock)) else mret tt.

Definition commit : St state unit :=
  try_finally
    (s ← get_st;
     match _overlay s.2 with
     | [] => mret tt
     | o =>
         on_db (dbdb.on_tree (logical.on_storage storage.lock)) ;;
         try_finally
           (on_db (dbdb.on_tree logical._refresh_tree_ref) ;;
            _check_conflicts o.*1 ;;
            apply_overlay o ;;
            on_db (dbdb.on_tree logical.commit))
           unlock_if_locked
     end)
    _close_base.

Definition abort : St state unit := set_overlay [] ;; _close_base.

(** [__enter__] and [__exit__]; [failed] says that the block raised. *)
Definition __enter__ : St state unit := _begin.
Definition __exit__ (failed : bool) : St state unit := if failed then abort else commit.

End transaction.
End transaction.
