(* ===== verification/Transactions.v ===== *)
(** Snapshots and optimistic transactions ([src/imustore/mvcc.py],
    [interface.py]). *)

From S2P Require Import Prelude PyBase Struct SimDisk Locking Physical PhysicalFacts Recovery KeyList Logical Pickle BPlusTree BPlusRep.
From S2P Require Import BPlusInsert Index BPlusIndex Engine Session Database.

(** Snapshots read one version of the database for as long as they live. *)

(** * Opening a snapshot, whatever the index *)

Section opening.
Context `{Pickle}.

Lemma snapshot_init_spec l m root count :
  recoverable l m ->
  exists sn, snapshot.init l root count = Ok sn /\ sn_root_ref sn = Ref None root /\ sn_count sn = count /\
    sn_closed sn = false.
Proof.
  intros Hr. pose proof Hr as [Hb Hf Hlo Hhi]. unfold snapshot.init, storage.init. rewrite modes_full.
  set (s0 := {| _f := SimDisk_init l; _lock := _; _durability := _; _readonly := true; _meta := None |}).
  assert (exists p, storage._ensure_meta s0 = (set_meta (Some m) (at_pos p s0), Ok tt)) as (p & ->).
  { unfold storage._ensure_meta. erewrite stx_bind_ok by apply file_size_spec. erewrite stx_bind_ok by reflexivity.
    change (live s0) with l. rewrite (proj2 (Z.ltb_ge _ _)) by lia. cbn [_readonly at_pos set_f s0].
    destruct (best_meta_run (at_pos (zlen l) s0) m Hb) as [p Hp]. exists p.
    erewrite stx_bind_ok by exact Hp. reflexivity. }
  cbn [mbind result_bind].
  set (s1 := set_meta (Some m) (at_pos p s0)).
  assert (Hreload : forall A (f : _Meta -> A) s, live s = l -> _meta s = Some m ->
    exists q, storage._reload_meta f s = (at_pos q s, Ok (f m))).
  { intros A f s Hl Hm. destruct (best_meta_run s m) as [q Hq]; [by rewrite Hl|]. exists q.
    unfold storage._reload_meta. erewrite stx_bind_ok by exact Hq. erewrite stx_bind_ok by reflexivity.
    unfold mret, stx_ret. do 2 f_equal. destruct s; simpl in *; by subst. }
  destruct (Hreload _ root_address s1) as [q1 E1]; [done..|].
  destruct (Hreload _ key_count (at_pos q1 s1)) as [q2 E2]; [done..|].
  unfold logical.tree_init, logical._refresh_tree_ref, logical.on_storage, storage.get_root_address, storage.get_key_count.
  run. cbn [_storage]. rewrite E1. cbn [ix_counts bplus_index].
  change (_storage (logical.set_tree_ref _ _)) with (at_pos q1 s1). rewrite E2. eexists. split; [reflexivity|]. done.
Qed.

Context {N : Type} `{IndexSpec N}.
Implicit Types (d : DBDB N) (t : Tree N) (m : _Meta) (base kvs : kvlist).

Lemma handle_at_pos t m base kvs p :
  handle t m base kvs -> handle (logical.set_storage (at_pos p (_storage t)) t) m base kvs.
Proof.
  intros [Hj Hb [Ht Hc] Hi Hf]. split; try done.
  - by destruct Hj.
  - split; [|done]. by apply (ix_tree_extends (_storage t)); [apply extends_live|].
Qed.

(** [snapshot()] pins the root address and the key count of the last commit. *)
Lemma take_snapshot_run d m base kvs path :
  handle (db_tree d) m base kvs -> db_path d = Some path -> storage.closed (dbdb.the_storage d) = false ->
  exists t' sn, dbdb.take_snapshot d = (mkDBDB (db_path d) t' (_open_snapshots d + 1), Ok sn) /\
    handle t' m base kvs /\ same_file (dbdb.the_storage d) (_storage t') /\
    sn_root_ref sn = Ref None (root_address m) /\ sn_count sn = key_count m /\ sn_closed sn = false /\
    _lock (_storage t') = _lock (dbdb.the_storage d).
Proof.
  intros Hh Hp Hcl. pose proof Hh as [Hj _ _ _ _].
  destruct (reload_spec root_address _ _ Hj) as [p1 E1].
  set (t1 := logical.set_storage (at_pos p1 (_storage (db_tree d))) (db_tree d)).
  pose proof (handle_at_pos _ _ _ _ p1 Hh) as Hh1. fold t1 in Hh1.
  destruct (reload_spec key_count _ _ (hd_journal _ _ _ _ Hh1)) as [p2 E2].
  set (t2 := logical.set_storage (at_pos p2 (_storage t1)) t1).
  pose proof (handle_at_pos _ _ _ _ p2 Hh1) as Hh2. fold t2 in Hh2.
  destruct (snapshot_init_spec (_durable (_f (_storage t2))) m (root_address m) (key_count m)) as (sn & Es & Hr & Hc & Hn).
  { apply (jr_image _ _ (hd_journal _ _ _ _ Hh2)). }
  exists t2, sn. split_and!; [|done|by exists p2|done..].
  unfold dbdb.take_snapshot, dbdb._assert_open.
    erewrite stx_bind_ok by (unfold mbind, stx_bind, get_st; by rewrite Hcl). erewrite stx_bind_ok by reflexivity. rewrite Hp.
    erewrite stx_bind_ok.
    2:{ unfold dbdb.on_tree, logical.on_storage. apply zoom_eq, zoom_eq. exact E1. }
    erewrite stx_bind_ok.
    2:{ unfold dbdb.on_tree, logical.on_storage. apply zoom_eq. apply zoom_eq. exact E2. }
    erewrite stx_bind_ok by reflexivity. erewrite stx_bind_ok by reflexivity. unfold lift_res.
    change (disk.durable_bytes _) with (_durable (_f (_storage t2))). rewrite Es. by rewrite <- Hp.
Qed.

End opening.

Section snapshots.
Context `{Pickle} (order : nat) (Horder : (3 <= order)%nat).
#[local] Hint Extern 0 (Index bnode) => exact (bplus_index order) : typeclass_instances.
#[local] Hint Extern 0 (IndexSpec bnode) => exact (bplus_spec order Horder) : typeclass_instances.
Implicit Types (sn : Snapshot) (base kvs : kvlist) (file : bytes) (t : Tree bnode) (m : _Meta).

(** Through the reader's file, the snapshot's root stands for [base]. *)
Definition pins file sn base : Prop :=
  ix_tree (snapshot.view file sn) (sn_root_ref sn) base /\ ix_fits (N := bnode) base.

Lemma pins_keeps file file' sn base : keeps file file' -> pins file sn base -> pins file' sn base.
Proof.
  intros Hk [Ht Hf]. split; [|done]. eapply ix_tree_extends; [|exact Ht]. by apply keeps_extends.
Qed.

(** ** Reading *)

Lemma raw_spec file sn base k : pins file sn base -> snapshot._raw file sn k = Ok (kv_get k base).
Proof.
  intros [Ht Hf]. unfold snapshot._raw, snapshot._root.
  pose proof (ix_get_ok _ _ _ k Ht Hf) as E. cbn [ix_follow ix_get bplus_index] in E. rewrite E.
  by destruct (kv_get k base).
Qed.

Section values.
Context {V : Type} `{Codec V}.

Lemma snapshot_items_spec file sn base :
  pins file sn base -> snapshot.items file sn = snapshot.decode_all (V := V) (yields base).
Proof.
  intros [Ht Hf]. unfold snapshot.items, snapshot._root.
  pose proof (ix_items_ok _ _ _ Ht Hf) as E. cbn [ix_follow ix_items bplus_index] in E.
  destruct (follow _ _) as [n|]; [|done]. cbn [mbind result_bind] in E |- *. by rewrite E.
Qed.

Lemma snapshot_scan_spec file sn base prefix start stop :
  pins file sn base ->
  snapshot.scan file sn prefix start stop =
    snapshot.decode_all (V := V) (snapshot.with_prefix prefix (yields (kv_range start stop base))).
Proof.
  intros [Ht Hf]. unfold snapshot.scan, snapshot._root.
  pose proof (ix_range_ok _ _ _ start stop Ht Hf) as E. cbn [ix_follow ix_range_items bplus_index] in E.
  destruct (follow _ _) as [n|]; [|done]. cbn [mbind result_bind] in E |- *. by rewrite E.
Qed.

End values.

(** ** Taking one from an open handle *)

Lemma handle_pins t m base kvs sn :
  handle t m base kvs -> sn_root_ref sn = Ref None (root_address m) ->
  pins (_durable (_f (_storage t))) sn base.
Proof.
  intros [Hj [Ht _] _ _ [_ Hf]] Hs. split; [|done]. rewrite Hs. eapply ix_tree_extends; [|exact Ht].
  apply keeps_extends. change (live (snapshot.view ?l sn)) with l.
  change (live (committed_image (_storage t) m)) with (committed (_durable (_f (_storage t))) m).
  intros a p _ Hp. unfold committed in Hp.
  rewrite <- (take_drop (Z.to_nat (data_length m)) (_durable (_f (_storage t)))). by apply record_at_app.
Qed.

End snapshots.

(** Optimistic transactions: what [Transaction.commit] publishes, refuses and
    leaves behind. *)

(** * Overlays *)

(** The bindings after the overlay's writes, in order. *)
Fixpoint ov_apply (o : overlay) (kvs : kvlist) : kvlist :=
  match o with
  | [] => kvs
  | (k, None) :: o => ov_apply o (kv_del k kvs)
  | (k, Some p) :: o => ov_apply o (kv_set k p kvs)
  end.

Lemma ov_get_set o k k' p : ov_get (ov_set o k p) k' = if decide (k' = k) then Some p else ov_get o k'.
Proof.
  induction o as [|[x q] o IH]; simpl.
  - destruct (decide (k' = k)) as [->|]; [by rewrite bool_decide_true|by rewrite bool_decide_false by congruence].
  - destruct (bool_decide_reflect (x = k)) as [->|Hx]; simpl.
    + destruct (decide (k' = k)) as [->|]; [by rewrite bool_decide_true|by rewrite bool_decide_false by congruence].
    + rewrite IH. destruct (bool_decide_reflect (x = k')) as [->|]; [by rewrite decide_False|done].
Qed.

Lemma ov_set_keys o k p x : x ∈ (ov_set o k p).*1 <-> x = k \/ x ∈ o.*1.
Proof.
  induction o as [|[y q] o IH]; simpl; [set_solver|].
  destruct (bool_decide_reflect (y = k)) as [->|]; simpl; set_solver.
Qed.

Lemma ov_set_nodup o k p : NoDup o.*1 -> NoDup (ov_set o k p).*1.
Proof.
  induction o as [|[x q] o IH]; simpl; [intros _; by apply NoDup_singleton|].
  intros [Hx Hn]%NoDup_cons. destruct (bool_decide_reflect (x = k)) as [->|Hne]; simpl; apply NoDup_cons; split; auto.
  intros [->|?]%ov_set_keys; done.
Qed.

Lemma ov_apply_sorted o kvs : kv_sorted kvs -> kv_sorted (ov_apply o kvs).
Proof.
  revert kvs. induction o as [|[k [p|]] o IH]; intros kvs Hs; simpl; [done|..]; apply IH;
    [by apply kv_set_sorted|by apply kv_del_sorted].
Qed.

(** A committed overlay is what every key of the database now shows. *)
Lemma ov_apply_get o kvs k :
  NoDup o.*1 -> kv_sorted kvs ->
  kv_get k (ov_apply o kvs) = match ov_get o k with Some p => p | None => kv_get k kvs end.
Proof.
  revert kvs. induction o as [|[x q] o IH]; intros kvs Hn Hs; simpl; [done|].
  apply NoDup_cons in Hn as [Hx Hn].
  assert (Hx' : ov_get o x = None).
  { clear -Hx. induction o as [|[y r] o IH]; simpl in *; [done|].
    destruct (bool_decide_reflect (y = x)) as [->|]; [destruct Hx; by left|]. apply IH. intros ?. apply Hx. by right. }
  destruct q as [p|]; rewrite IH by (done || by apply kv_set_sorted || by apply kv_del_sorted);
    rewrite ?kv_get_set, ?kv_get_del by done;
    (destruct (bool_decide_reflect (x = k)) as [->|Hne]; [by rewrite Hx', decide_True|by rewrite decide_False by congruence]).
Qed.

Lemma ov_apply_length o kvs :
  kv_sorted kvs -> (length (ov_apply o kvs) <= length kvs + length o)%nat.
Proof.
  revert kvs. induction o as [|[k [p|]] o IH]; intros kvs Hs; simpl; [lia|..].
  - pose proof (kv_set_length k p kvs Hs). pose proof (IH _ (kv_set_sorted k p kvs Hs)). destruct (kv_get k kvs); lia.
  - pose proof (kv_del_length k kvs). pose proof (IH _ (kv_del_sorted k kvs Hs)). destruct (kv_get k kvs); lia.
Qed.

(** The first written key whose committed value is no longer the snapshot's. *)
Fixpoint first_conflict (base cur : kvlist) (ks : list pystr) : option pystr :=
  match ks with
  | [] => None
  | k :: ks => if bool_decide (kv_get k base = kv_get k cur) then first_conflict base cur ks else Some k
  end.

Lemma first_conflict_none base cur ks :
  first_conflict base cur ks = None <-> forall k, k ∈ ks -> kv_get k base = kv_get k cur.
Proof.
  induction ks as [|x ks IH]; simpl; [split; [intros _ k Hk; by apply elem_of_nil in Hk|done]|].
  destruct (bool_decide_reflect (kv_get x base = kv_get x cur)) as [E|Hne].
  - rewrite IH. split; [intros Ha k [->|Hk]%elem_of_cons; auto|intros Ha k Hk; apply Ha; by right].
  - split; [done|]. intros Ha. destruct Hne. apply Ha. by left.
Qed.

Lemma first_conflict_some base cur ks k :
  first_conflict base cur ks = Some k -> k ∈ ks /\ kv_get k base <> kv_get k cur.
Proof.
  induction ks as [|x ks IH]; simpl; [done|].
  destruct (bool_decide_reflect (kv_get x base = kv_get x cur)) as [E|Hne].
  - intros [? ?]%IH. split; [by right|done].
  - intros [= ->]. split; [by left|done].
Qed.

Section transactions.
Context `{Pickle} (order : nat) (Horder : (3 <= order)%nat).
#[local] Hint Extern 0 (Index bnode) => exact (bplus_index order) : typeclass_instances.
#[local] Hint Extern 0 (IndexSpec bnode) => exact (bplus_spec order Horder) : typeclass_instances.
Implicit Types (d : DBDB bnode) (tx : Transaction) (sn : Snapshot) (m : _Meta) (base cur kvs : kvlist) (o : overlay).

Abbreviation state := (transaction.state (N := bnode)).

(** ** Checking *)

Lemma on_tree_same {A} d tx (f : St (Tree bnode) A) r :
  f (db_tree d) = (db_tree d, r) -> transaction.on_db (dbdb.on_tree f) (d, tx) = ((d, tx), r).
Proof.
  intros E. unfold transaction.on_db, dbdb.on_tree. erewrite zoom_eq; [|apply zoom_eq; exact E].
  by destruct d, tx.
Qed.

Lemma current_value_spec d tx m cur kvs k :
  handle (db_tree d) m cur kvs -> storage.is_locked (dbdb.the_storage d) = true ->
  transaction.current_value k (d, tx) = ((d, tx), Ok (kv_get k kvs)).
Proof.
  intros Hh Hl. unfold transaction.current_value, try_with.
  erewrite on_tree_same by (by apply (get_locked (db_tree d) m cur kvs)).
  by destruct (kv_get k kvs).
Qed.

Lemma check_conflicts_spec d tx m cur kvs sn base ks :
  handle (db_tree d) m cur kvs -> storage.is_locked (dbdb.the_storage d) = true ->
  _base tx = Some sn -> pins order Horder (_durable (_f (dbdb.the_storage d))) sn base ->
  transaction._check_conflicts ks (d, tx) =
    ((d, tx), match first_conflict base kvs ks with None => Ok tt | Some k => Raise (ConflictError k) end).
Proof.
  intros Hh Hl Hb Hp. induction ks as [|k ks IH]; cbn [transaction._check_conflicts first_conflict]; [done|].
  assert (transaction.base_raw k (d, tx) = ((d, tx), Ok (kv_get k base))) as E.
  { unfold transaction.base_raw. erewrite stx_bind_ok by reflexivity. cbn [snd]. rewrite Hb.
    unfold lift_res, transaction.file. by erewrite raw_spec by exact Hp. }
  erewrite stx_bind_ok by exact E. erewrite stx_bind_ok by (by apply (current_value_spec d tx m cur kvs)).
  by destruct (bool_decide (kv_get k base = kv_get k kvs)).
Qed.

(** ** Applying *)

Lemma bplus_fits_iff kvs : ix_fits (N := bnode) kvs <-> Z.of_nat (length kvs) < 2 ^ 64.
Proof. done. Qed.

(** One entry of the overlay, on the engine. *)
Lemma apply_entry d tx m cur kvs k q :
  handle (db_tree d) m cur kvs -> Z.of_nat (length kvs + 1) < 2 ^ 64 ->
  let kvs' := match q with None => kv_del k kvs | Some p => kv_set k p kvs end in
  exists t', handle t' m cur kvs' /\ storage.is_locked (_storage t') = true /\
    same_file (dbdb.the_storage d) (_storage t') /\
    (match q with
     | None => try_with (transaction.on_db (dbdb.on_tree (logical.delete k)))
                        (fun e => match e with KeyError _ => mret tt | e => raise e end)
     | Some p => transaction.on_db (dbdb.on_tree (logical.set k p))
     end) (d, tx) = ((dbdb.set_tree t' d, tx), Ok tt).
Proof.
  intros Hh Hf. destruct q as [p|]; cbv zeta.
  - destruct (set_spec (db_tree d) m cur kvs k p Hh) as (t' & E & Hh' & Hl & Hsf).
    { apply bplus_fits_iff. rewrite kv_set_length by (apply (ix_tree_sorted _ _ _ (proj1 (hd_view _ _ _ _ Hh)))).
      destruct (kv_get k kvs); lia. }
    exists t'. split_and!; try done. unfold transaction.on_db, dbdb.on_tree. erewrite zoom_eq; [|apply zoom_eq; exact E]. done.
  - destruct (delete_spec (db_tree d) m cur kvs k Hh) as (t' & Hh' & Hl & Hsf & E).
    exists t'. split_and!; try done. unfold try_with, transaction.on_db, dbdb.on_tree.
    erewrite zoom_eq; [|apply zoom_eq; exact E]. by destruct (kv_get k kvs).
Qed.

Lemma apply_overlay_spec o d tx m cur kvs :
  handle (db_tree d) m cur kvs -> storage.is_locked (dbdb.the_storage d) = true ->
  Z.of_nat (length kvs + length o) < 2 ^ 64 ->
  exists t', transaction.apply_overlay o (d, tx) = ((dbdb.set_tree t' d, tx), Ok tt) /\
    handle t' m cur (ov_apply o kvs) /\ storage.is_locked (_storage t') = true /\
    same_file (dbdb.the_storage d) (_storage t').
Proof.
  revert d kvs. induction o as [|[k q] o IH]; intros d kvs Hh Hl Hf.
  - exists (db_tree d). split; [by destruct d|]. split; [done|]. split; [done|]. apply same_file_refl.
  - simpl in Hf. destruct (apply_entry d tx m cur kvs k q Hh) as (t1 & Hh1 & Hl1 & Hsf1 & E1); [lia|].
    assert (length (match q with None => kv_del k kvs | Some p => kv_set k p kvs end) <= length kvs + 1)%nat as Hlen.
    { pose proof (ix_tree_sorted _ _ _ (proj1 (hd_view _ _ _ _ Hh))) as Hs. destruct q as [p|].
      - rewrite kv_set_length by done. destruct (kv_get k kvs); lia.
      - pose proof (kv_del_length k kvs). lia. }
    destruct (IH (dbdb.set_tree t1 d) _ Hh1 Hl1) as (t2 & E2 & Hh2 & Hl2 & Hsf2); [lia|].
    exists t2. split; [|split; [by destruct q|split; [done|by transitivity (_storage t1)]]].
    destruct q as [p|]; cbn [transaction.apply_overlay]; erewrite stx_bind_ok by exact E1; exact E2.
Qed.

(** ** Committing *)

(** The transaction after its base snapshot was closed. *)
Definition finished tx : Transaction := mkTransaction None (_overlay tx).

Lemma close_base_spec d tx sn :
  _base tx = Some sn -> sn_closed sn = false ->
  transaction._close_base (d, tx) = ((dbdb.set_snapshots (Z.max 0 (_open_snapshots d - 1)) d, finished tx), Ok tt).
Proof.
  intros Hb Hc. unfold transaction._close_base. erewrite stx_bind_ok by reflexivity. cbn [snd]. rewrite Hb, Hc. done.
Qed.

Lemma unlock_if_locked_spec d tx :
  exists t', transaction.unlock_if_locked (d, tx) = ((dbdb.set_tree t' d, tx), Ok tt) /\
    t' = logical.set_storage (set_lock FileLock_init (dbdb.the_storage d)) (db_tree d).
Proof.
  unfold transaction.unlock_if_locked. eexists. split; [|reflexivity]. erewrite stx_bind_ok by reflexivity. cbn [fst].
  destruct (storage.is_locked (dbdb.the_storage d)) eqn:El.
  - unfold transaction.on_db, dbdb.on_tree, logical.on_storage.
    erewrite zoom_eq; [|apply zoom_eq; apply zoom_eq; apply unlock_spec]. done.
  - unfold mret, stx_ret. do 2 f_equal. unfold dbdb.the_storage, storage.is_locked in *. destruct d as [? [[? [lk] ? ? ?] ? ?] ?].
    simpl in El. subst lk. done.
Qed.

(** Releasing the lock keeps the handle when nothing is staged. *)
Lemma handle_unlock (t : Tree bnode) m cur :
  handle t m cur cur -> handle (logical.set_storage (set_lock FileLock_init (_storage t)) t) m cur cur.
Proof.
  intros [Hj Hb [Ht Hc] _ Hf]. split; try done.
  - by destruct Hj.
  - split; [|done]. by apply (ix_tree_extends (_storage t)); [apply extends_live|].
Qed.

(** The critical section, and what the two [finally] clauses make of its end state. *)
Definition critical (o : overlay) : St state unit :=
  transaction.on_db (dbdb.on_tree logical._refresh_tree_ref) ;;
  transaction._check_conflicts o.*1 ;;
  transaction.apply_overlay o ;;
  transaction.on_db (dbdb.on_tree logical.commit).

Definition released d : DBDB bnode :=
  mkDBDB (db_path d) (logical.set_storage (set_lock FileLock_init (dbdb.the_storage d)) (db_tree d))
         (Z.max 0 (_open_snapshots d - 1)).

Lemma commit_run d tx t0 b dB r sn :
  _overlay tx <> [] -> _base tx = Some sn -> sn_closed sn = false ->
  logical.on_storage storage.lock (db_tree d) = (t0, Ok b) ->
  critical (_overlay tx) (dbdb.set_tree t0 d, tx) = ((dB, tx), r) ->
  transaction.commit (d, tx) = ((released dB, finished tx), r).
Proof.
  intros Ho Hb Hc E0 EB. unfold transaction.commit. unfold try_finally at 1. erewrite stx_bind_ok by reflexivity. cbn [snd].
  destruct (_overlay tx) as [|e o] eqn:Eo; [done|].
  erewrite stx_bind_ok by (unfold transaction.on_db, dbdb.on_tree; apply zoom_eq, zoom_eq; exact E0). cbn [fst snd].
  unfold try_finally at 1. unfold critical in EB. rewrite EB.
  destruct (unlock_if_locked_spec dB tx) as (t' & -> & ->). rewrite (close_base_spec _ tx sn Hb Hc). done.
Qed.

(** Everything [Transaction.commit] can do with a non-empty overlay. *)
Definition tx_result d tx m cur new (out : state * res unit) : Prop :=
  (exists d' m', out = ((d', finished tx), Ok tt) /\ handle (db_tree d') m' new new /\
     storage.is_locked (dbdb.the_storage d') = false /\ db_path d' = db_path d /\
     (file_open (dbdb.the_storage d) -> file_open (dbdb.the_storage d')) /\ txn_id m' = txn_id m + 1 /\
     _durable (_f (dbdb.the_storage d')) = live (dbdb.the_storage d') /\
     keeps (_durable (_f (dbdb.the_storage d))) (_durable (_f (dbdb.the_storage d')))) \/
  (exists d', out = ((d', finished tx), Raise StructError) /\ journaled (dbdb.the_storage d') m /\
     holds (N := bnode) (committed_image (dbdb.the_storage d') m) m cur /\ storage.is_locked (dbdb.the_storage d') = false) \/
  (exists d', out = ((d', finished tx), Raise SimCrash) /\ _crash_at_flush (_f (dbdb.the_storage d)) <> None /\
     opens (N := bnode) (_durable (_f (dbdb.the_storage d'))) m cur).

Definition tx_refused d tx m cur k (out : state * res unit) : Prop :=
  exists d', out = ((d', finished tx), Raise (ConflictError k)) /\ handle (db_tree d') m cur cur /\
    storage.is_locked (dbdb.the_storage d') = false /\
    same_file (dbdb.the_storage d) (dbdb.the_storage d').

Lemma tx_commit_spec d tx m cur kvs sn base :
  handle (db_tree d) m cur kvs -> _base tx = Some sn -> sn_closed sn = false ->
  pins order Horder (_durable (_f (dbdb.the_storage d))) sn base -> _overlay tx <> [] ->
  Z.of_nat (length cur + length (_overlay tx)) < 2 ^ 64 ->
  match first_conflict base cur (_overlay tx).*1 with
  | Some k => tx_refused d tx m cur k (transaction.commit (d, tx))
  | None => tx_result d tx m cur (ov_apply (_overlay tx) cur) (transaction.commit (d, tx))
  end.
Proof.
  intros Hh Hb Hcl Hp Ho Hf.
  destruct (lock_refresh (db_tree d) m cur kvs Hh) as (t1 & E1 & Hh1 & _ & Hl1 & Hsf1).
  pose proof (same_file_fields _ _ Hsf1) as (_ & Hd1 & Hcr1 & _).
  set (d1 := dbdb.set_tree t1 d).
  assert (Hp1 : pins order Horder (_durable (_f (dbdb.the_storage d1))) sn base).
  { change (dbdb.the_storage d1) with (_storage t1). by rewrite Hd1. }
  pose proof E1 as (t0 & fresh & E0 & Er)%stx_bind_inv.
  assert (Hstart : critical (_overlay tx) (dbdb.set_tree t0 d, tx) =
    (transaction._check_conflicts (_overlay tx).*1 ;; transaction.apply_overlay (_overlay tx) ;;
     transaction.on_db (dbdb.on_tree logical.commit)) (d1, tx)).
  { unfold critical. erewrite stx_bind_ok; [reflexivity|]. unfold transaction.on_db, dbdb.on_tree.
    erewrite zoom_eq; [|apply zoom_eq; exact Er]. done. }
  pose proof (check_conflicts_spec d1 tx m cur cur sn base (_overlay tx).*1 Hh1 Hl1 Hb Hp1) as Ec.
  destruct (first_conflict base cur (_overlay tx).*1) as [k|].
  - exists (released d1). split; [|split; [by apply handle_unlock|split; [done|]]].
    + eapply commit_run; try done. rewrite Hstart. by apply stx_bind_raise.
    + transitivity (_storage t1); [done|]. apply same_file_lock.
  - destruct (apply_overlay_spec (_overlay tx) d1 tx m cur cur Hh1 Hl1 Hf) as (t2 & E2 & Hh2 & Hl2 & Hsf2).
    pose proof (same_file_fields _ _ Hsf2) as (_ & Hd2 & Hcr2 & _).
    change (dbdb.the_storage d1) with (_storage t1) in *.
    assert (Hend : forall t3 r, logical.commit t2 = (t3, r) ->
      transaction.commit (d, tx) = ((released (dbdb.set_tree t3 d), finished tx), r)).
    { intros t3 r E3. eapply commit_run; try done. rewrite Hstart. erewrite stx_bind_ok by exact Ec.
      erewrite stx_bind_ok by exact E2. unfold transaction.on_db, dbdb.on_tree. erewrite zoom_eq; [|apply zoom_eq; exact E3]. done. }
    destruct (commit_spec t2 m cur _ Hh2) as [(t3 & m' & E3 & Hh3 & Hl3 & Hdl & Htx & Hx)|[(t3 & E3 & Hj3 & Hb3)|(t3 & E3 & Hc3 & Hop)]];
      rewrite (Hend _ _ E3).
    + left. exists (released (dbdb.set_tree t3 d)), m'. split; [done|]. split; [by apply handle_unlock|]. split_and!; try done.
      { intros Ho1. change (file_open (_storage t3)). eapply (commit_open t2); [exact Hh2|exact E3|]. by apply (same_file_open _ _ Hsf2), (same_file_open _ _ Hsf1). }
      change (_durable (_f (dbdb.the_storage (released (dbdb.set_tree t3 d))))) with (_durable (_f (_storage t3))).
      rewrite Hdl. transitivity (live (_storage t2)); [|by apply extends_keeps].
      unfold dbdb.the_storage. rewrite <- Hd1, <- Hd2. destruct Hh2 as [[_ _ _ _ [tail ->]] _ _ _ _].
      intros a p _. apply record_at_app.
    + right. left. exists (released (dbdb.set_tree t3 d)). split; [done|]. split; [by destruct Hj3|]. done.
    + right. right. exists (released (dbdb.set_tree t3 d)). split; [done|]. split; [|done].
      unfold dbdb.the_storage. by rewrite <- Hcr1, <- Hcr2.
Qed.

End transactions.
