(* ===== verification/DatabaseProps.v ===== *)
(** The properties of the database as its callers see it: sessions, crashes,
    snapshots and transactions. *)

From S2P Require Import Prelude PyBase Struct SimDisk Locking Physical PhysicalFacts Recovery StorageProps KeyList Logical Pickle Index.
From S2P Require Import BPlusTree BPlusRep BPlusInsert BPlusIndex Engine Session Database Transactions.

Section props.
Context `{Pickle} (order : nat) (Horder : (3 <= order)%nat).
#[local] Hint Extern 0 (Index bnode) => exact (bplus_index order) : typeclass_instances.
#[local] Hint Extern 0 (IndexSpec bnode) => exact (bplus_spec order Horder) : typeclass_instances.
Implicit Types (d : DBDB bnode) (tx : Transaction) (sn : Snapshot) (m : _Meta) (base cur kvs : kvlist) (t : Tree bnode).

(** * Helper facts *)

Lemma take_snapshot_spec d m base kvs path :
  handle (db_tree d) m base kvs -> db_path d = Some path -> storage.closed (dbdb.the_storage d) = false ->
  exists t' sn, dbdb.take_snapshot d = (mkDBDB (db_path d) t' (_open_snapshots d + 1), Ok sn) /\
    handle t' m base kvs /\ same_file (dbdb.the_storage d) (_storage t') /\
    pins order Horder (_durable (_f (_storage t'))) sn base /\ sn_closed sn = false /\
    sn_count sn = Z.of_nat (length base) /\ _lock (_storage t') = _lock (dbdb.the_storage d).
Proof.
  intros Hh Hp Hcl. destruct (take_snapshot_run d m base kvs path Hh Hp Hcl) as (t' & sn & E & Hh' & Hsf & Hr & Hc & Hn & Hl).
  exists t', sn. split_and!; [done|done|done|by eapply handle_pins|done| |done].
  rewrite Hc. pose proof Hh as [_ Hb _ _ _]. by apply Hb.
Qed.

(** * Sessions *)

(** C1: a session on the database refines the abstract one.  Any sequence of
    lookups, writes, deletes, scans and commits returns exactly what a pair of
    sorted association lists (committed, current) would return, as long as no
    call fails on the disk or on a record beyond the format's limits; and the
    handle ends up representing exactly those two lists. *)
Theorem session_refines_spec (ops : list op) t (c : contents) t' (rs : list (res answer)) :
  represents t c -> all_fit (N := bnode) ops c -> run_ops ops t = (t', rs) -> Forall (fun r => ~ fatal r) rs ->
  rs = (spec_run ops c).2 /\ represents t' (spec_run ops c).1.
Proof. intros Hr Hf He Hok. destruct (run_refines ops t c t' rs Hr Hf He Hok) as (? & ? & _). done. Qed.

(** C18: losing power at any point of a session loses exactly the uncommitted
    writes: reopening the bytes that reached the disk gives a working handle on
    the bindings of the last commit. *)
Theorem power_loss_recovers_last_commit (ops : list op) t (c : contents) t' (rs : list (res answer)) :
  represents t c -> all_fit (N := bnode) ops c -> run_ops ops t = (t', rs) -> Forall (fun r => ~ fatal r) rs ->
  exists m, opens (N := bnode) (disk.durable_bytes (_f (_storage t'))) m (committed_kvs (spec_run ops c).1).
Proof.
  intros Hr Hf He Hok. destruct (run_refines ops t c t' rs Hr Hf He Hok) as (_ & [m Hh] & _).
  exists m. by eapply handle_durable.
Qed.

(** C6: a commit is all or nothing.  If it returns, its bindings are on disk; if
    the disk fails in either flush, or a record or the meta block cannot be
    encoded, the disk still holds the previous commit, and reopening it gives
    that commit's bindings. *)
Theorem engine_commit_atomic t m base kvs t' (r : res unit) :
  handle t m base kvs -> logical.commit t = (t', r) ->
  exists m', opens (N := bnode) (disk.durable_bytes (_f (_storage t'))) m' (match r with Ok _ => kvs | Raise _ => base end) /\
    match r with
    | Ok _ => txn_id m' = txn_id m + 1
    | Raise e => m' = m /\ (e = StructError \/ (e = SimCrash /\ _crash_at_flush (_f (_storage t)) <> None))
    end.
Proof.
  intros Hh Hc. destruct (commit_spec t m base kvs Hh) as
    [(t1 & m' & E & Hh' & _ & _ & Htx & _)|[(t1 & E & Hj & Hb)|(t1 & E & Hcr & Ho)]];
    rewrite E in Hc; injection Hc as <- <-.
  - exists m'. split; [by eapply handle_durable|done].
  - exists m. split; [|auto]. apply open_spec; [apply Hj|exact Hb|apply Hh].
  - exists m. split; [done|auto].
Qed.

(** * Snapshots *)

(** C14: snapshot isolation.  A snapshot taken from an open database keeps
    answering from the version committed at that moment: after any session of
    further writes and commits, looking a key up in the snapshot gives the old
    binding, and its length is the old key count. *)
Theorem snapshot_isolation d m base kvs (path : pystr) d' sn (ops : list op) (t' : Tree bnode) (rs : list (res answer)) (k : pystr) :
  handle (db_tree d) m base kvs -> db_path d = Some path -> storage.closed (dbdb.the_storage d) = false ->
  dbdb.take_snapshot d = (d', Ok sn) ->
  all_fit (N := bnode) ops {| committed_kvs := base; current_kvs := kvs |} ->
  run_ops ops (db_tree d') = (t', rs) -> Forall (fun r => ~ fatal r) rs ->
  snapshot._raw (disk.durable_bytes (_f (_storage t'))) sn k = Ok (kv_get k base) /\
  snapshot.len sn = Z.of_nat (length base).
Proof.
  intros Hh Hp Hcl Hs Hf He Hok.
  destruct (take_snapshot_spec d m base kvs path Hh Hp Hcl) as (t1 & sn1 & E & Hh1 & _ & Hpin & _ & Hcnt & _).
  rewrite E in Hs. injection Hs as <- <-.
  destruct (run_refines ops t1 {| committed_kvs := base; current_kvs := kvs |} t' rs) as (_ & _ & Hk); try done; [by exists m|].
  split; [|done]. eapply raw_spec. eapply pins_keeps; [exact Hk|exact Hpin].
Qed.

(** * Transactions *)

(** C15: a transaction commits exactly when none of the keys it wrote was changed
    since its snapshot.  If one was, it raises [ConflictError] for the first such
    key and the database is untouched; otherwise the outcome is that of one
    atomic commit of the overlay applied to the committed bindings, every written
    key showing the transaction's value and every other key its committed one. *)
Theorem transaction_commit_exact d tx m cur kvs sn base :
  handle (db_tree d) m cur kvs -> _base tx = Some sn -> sn_closed sn = false ->
  pins order Horder (_durable (_f (dbdb.the_storage d))) sn base ->
  _overlay tx <> [] -> NoDup (_overlay tx).*1 ->
  Z.of_nat (length cur + length (_overlay tx)) < 2 ^ 64 ->
  let new := ov_apply (_overlay tx) cur in
  (forall k, kv_get k new = match ov_get (_overlay tx) k with Some p => p | None => kv_get k cur end) /\
  match first_conflict base cur (_overlay tx).*1 with
  | Some k => tx_refused order Horder d tx m cur k (transaction.commit (d, tx))
  | None => tx_result order Horder d tx m cur new (transaction.commit (d, tx))
  end.
Proof.
  intros Hh Hb Hc Hp Ho Hn Hf new. split.
  - intros k. apply ov_apply_get; [done|]. destruct Hh as [_ [Ht _] _ _ _]. by eapply ix_tree_sorted.
  - by apply (tx_commit_spec order Horder d tx m cur kvs sn base).
Qed.

(** C17: first committer wins.  Two transactions start from the same version and
    write a common key; once one of them has committed a different value for it,
    the other's commit raises [ConflictError] and leaves the database as the
    first one made it. *)
Theorem first_committer_wins d m base tx1 tx2 sn1 sn2 d1 tx1' (k : pystr) :
  handle (db_tree d) m base base ->
  _base tx1 = Some sn1 -> _base tx2 = Some sn2 -> sn_closed sn1 = false -> sn_closed sn2 = false ->
  pins order Horder (_durable (_f (dbdb.the_storage d))) sn1 base ->
  pins order Horder (_durable (_f (dbdb.the_storage d))) sn2 base ->
  NoDup (_overlay tx1).*1 ->
  (exists p, ov_get (_overlay tx1) k = Some p /\ p <> kv_get k base) -> k ∈ (_overlay tx2).*1 ->
  Z.of_nat (length base + length (_overlay tx1) + length (_overlay tx2)) < 2 ^ 64 ->
  transaction.commit (d, tx1) = ((d1, tx1'), Ok tt) ->
  exists k' m' d2, k' ∈ (_overlay tx2).*1 /\
    transaction.commit (d1, tx2) = ((d2, finished tx2), Raise (ConflictError k')) /\
    handle (db_tree d2) m' (ov_apply (_overlay tx1) base) (ov_apply (_overlay tx1) base).
Proof.
  intros Hh Hb1 Hb2 Hc1 Hc2 Hp1 Hp2 Hn (p & Hk1 & Hne) Hk2 Hf E.
  assert (_overlay tx1 <> []) as Ho1 by (intros E0; by rewrite E0 in Hk1).
  assert (_overlay tx2 <> []) as Ho2 by (intros E0; rewrite E0 in Hk2; by apply elem_of_nil in Hk2).
  assert (Z.of_nat (length base + length (_overlay tx1)) < 2 ^ 64) as Hf1 by lia.
  pose proof (tx_commit_spec order Horder d tx1 m base base sn1 base Hh Hb1 Hc1 Hp1 Ho1 Hf1) as Hs1.
  destruct (first_conflict base base (_overlay tx1).*1) as [x|] eqn:Ec.
  { apply first_conflict_some in Ec as [_ ?]. done. }
  destruct Hs1 as [(d' & m' & E' & Hh' & _ & _ & _ & _ & _ & Hk)|[(d' & E' & _)|(d' & E' & _)]];
    rewrite E in E'; [|discriminate E'..]. injection E' as -> ->.
  assert (kv_sorted base) as Hsort by (destruct Hh as [_ [Ht _] _ _ _]; by eapply ix_tree_sorted).
  pose proof (ov_apply_length (_overlay tx1) base Hsort) as Hlen.
  assert (Z.of_nat (length (ov_apply (_overlay tx1) base) + length (_overlay tx2)) < 2 ^ 64) as Hf2 by lia.
  pose proof (tx_commit_spec order Horder d' tx2 m' _ _ sn2 base Hh' Hb2 Hc2 (pins_keeps _ _ _ _ _ _ Hk Hp2) Ho2 Hf2) as Hs2.
  destruct (first_conflict base (ov_apply (_overlay tx1) base) (_overlay tx2).*1) as [x|] eqn:Ec2.
  - apply first_conflict_some in Ec2 as [Hx _].
    destruct Hs2 as (d2 & E2 & Hh2 & _). exists x, m', d2. split; [done|]. split; [exact E2|exact Hh2].
  - apply (proj1 (first_conflict_none _ _ _)) with (k := k) in Ec2; [|done].
    rewrite ov_apply_get, Hk1 in Ec2 by done. congruence.
Qed.

(** A transaction's commit refreshes the handle's tree before it applies its
    own writes, so writes staged directly on the same handle but not committed
    are dropped without an error: after the commit a key outside the overlay
    shows its committed value, whatever was staged for it. *)
Theorem transaction_drops_staged_writes d tx m cur kvs sn base d' tx' (k : pystr) :
  handle (db_tree d) m cur kvs -> _base tx = Some sn -> sn_closed sn = false ->
  pins order Horder (_durable (_f (dbdb.the_storage d))) sn base ->
  _overlay tx <> [] -> NoDup (_overlay tx).*1 -> ov_get (_overlay tx) k = None ->
  Z.of_nat (length cur + length (_overlay tx)) < 2 ^ 64 ->
  transaction.commit (d, tx) = ((d', tx'), Ok tt) ->
  exists t', logical.get k (db_tree d') =
    (t', match kv_get k cur with Some v => Ok (Some v) | None => Raise (KeyError k) end).
Proof.
  intros Hh Hb Hc Hp Ho Hn Hk Hf E.
  assert (kv_sorted cur) as Hsort by (destruct Hh as [_ [Ht _] _ _ _]; by eapply ix_tree_sorted).
  pose proof (tx_commit_spec order Horder d tx m cur kvs sn base Hh Hb Hc Hp Ho Hf) as Hs.
  destruct (first_conflict base cur (_overlay tx).*1) as [x|]; [destruct Hs as (d2 & E2 & _); rewrite E in E2; discriminate E2|].
  destruct Hs as [(d2 & m' & E2 & Hh' & _)|[(d2 & E2 & _)|(d2 & E2 & _)]];
    rewrite E in E2; [|discriminate E2..]. injection E2 as -> ->.
  destruct (get_spec _ _ _ _ k Hh') as (t' & Eg & _). exists t'. rewrite Eg.
  by rewrite ov_apply_get, Hk.
Qed.

End props.

(** * Values *)

Section values.
Context `{Pickle} (order : nat) (Horder : (3 <= order)%nat) {V : Type} `{CodecLaws V}.
#[local] Hint Extern 0 (Index bnode) => exact (bplus_index order) : typeclass_instances.
#[local] Hint Extern 0 (IndexSpec bnode) => exact (bplus_spec order Horder) : typeclass_instances.
Implicit Types (d : DBDB bnode) (tx : Transaction) (m : _Meta) (base kvs : kvlist) (v : V).

Lemma assert_open_ok d : storage.closed (dbdb.the_storage d) = false -> dbdb._assert_open d = (d, Ok tt).
Proof. intros Hc. unfold dbdb._assert_open. run. by rewrite Hc. Qed.

Lemma validate_ok d (k : pystr) : k <> [] -> dbdb._validate_key k d = (d, Ok tt).
Proof. by destruct k. Qed.

Lemma getitem_spec d m base kvs (k : pystr) :
  handle (db_tree d) m base kvs -> storage.closed (dbdb.the_storage d) = false -> k <> [] ->
  (dbdb.getitem k d).2 = match kv_get k kvs with Some p => decode (V := V) p | None => Raise (KeyError k) end.
Proof.
  intros Hh Hc Hk. destruct (get_spec _ _ _ _ k Hh) as (t' & E & _). unfold dbdb.getitem.
  erewrite stx_bind_ok by (by apply assert_open_ok). erewrite stx_bind_ok by (by apply validate_ok).
  assert (dbdb.on_tree (logical.get k) d = (dbdb.set_tree t' d,
    match kv_get k kvs with Some v => Ok (Some v) | None => Raise (KeyError k) end)) as E' by (by apply zoom_eq).
  destruct (kv_get k kvs); [by erewrite stx_bind_ok by exact E'|by erewrite stx_bind_raise by exact E'].
Qed.

(** The database is a mapping: after [db[k] = v] the key reads back as [v]
    through any lawful codec, every other key reads as before, and the guards
    hold: an empty key is refused with [KeyEncodingError], a closed database
    with [DatabaseClosedError], both without touching the state. *)
Theorem setitem_getitem d m base kvs (k : pystr) v (p : bytes) :
  handle (db_tree d) m base kvs -> storage.closed (dbdb.the_storage d) = false -> k <> [] ->
  encode v = Ok p -> Z.of_nat (length kvs + 1) < 2 ^ 64 ->
  (exists d', dbdb.setitem k v d = (d', Ok tt) /\ (dbdb.getitem k d').2 = Ok v /\
     forall k', k' <> k -> k' <> [] -> (dbdb.getitem (V := V) k' d').2 = (dbdb.getitem k' d).2) /\
  dbdb.setitem [] v d = (d, Raise KeyEncodingError) /\
  (forall d0 : DBDB bnode, storage.closed (dbdb.the_storage d0) = true -> dbdb.setitem k v d0 = (d0, Raise DatabaseClosedError)).
Proof.
  intros Hh Hc Hk He Hf. split; [|split].
  - assert (kv_sorted kvs) as Hs by (destruct Hh as [_ _ [Ht _] _ _]; by eapply ix_tree_sorted).
    destruct (set_spec _ _ _ _ k p Hh) as (t' & E & Hh' & _ & Hsf).
    { change (Z.of_nat (length (kv_set k p kvs)) < 2 ^ 64). rewrite kv_set_length by done. destruct (kv_get k kvs); lia. }
    pose proof (same_file_fields _ _ Hsf) as (_ & _ & _ & Hcl).
    assert (storage.closed (dbdb.the_storage (dbdb.set_tree t' d)) = false) as Hc'
      by (etransitivity; [exact Hcl|exact Hc]).
    exists (dbdb.set_tree t' d). split; [|split].
    + unfold dbdb.setitem. erewrite stx_bind_ok by (by apply assert_open_ok). erewrite stx_bind_ok by (by apply validate_ok).
      erewrite stx_bind_ok by (unfold lift_res; by rewrite He). by apply zoom_eq.
    + rewrite (getitem_spec (dbdb.set_tree t' d) m base (kv_set k p kvs) k Hh' Hc' Hk).
      rewrite kv_get_set, decide_True by done. by apply decode_encode.
    + intros k' Hne Hk'. rewrite (getitem_spec (dbdb.set_tree t' d) m base (kv_set k p kvs) k' Hh' Hc' Hk').
      rewrite (getitem_spec d m base kvs k' Hh Hc Hk'). by rewrite kv_get_set, decide_False.
  - unfold dbdb.setitem. by erewrite stx_bind_ok by (by apply assert_open_ok).
  - intros d0 Hd0. unfold dbdb.setitem. apply stx_bind_raise. unfold dbdb._assert_open. run. by rewrite Hd0.
Qed.

(** A transaction reads its own writes: after [set(k, v)] it reads [v] at
    [k] and every other key as before, after [delete(k)] reading [k] raises
    [KeyError], and the database itself is not touched by either. *)
Theorem transaction_reads_own_writes d tx (k : pystr) v (p : bytes) :
  k <> [] -> encode v = Ok p ->
  exists tx', transaction.set k v (d, tx) = ((d, tx'), Ok tt) /\
    transaction.get k (d, tx') = ((d, tx'), Ok v) /\
    (forall k', k' <> k -> (transaction.get (V := V) k' (d, tx')).2 = (transaction.get k' (d, tx)).2) /\
    exists tx'', transaction.delete k (d, tx') = ((d, tx''), Ok tt) /\
      transaction.get (V := V) k (d, tx'') = ((d, tx''), Raise (KeyError k)).
Proof.
  intros Hk He. exists (mkTransaction (_base tx) (ov_set (_overlay tx) k (Some p))).
  assert (Hv : forall tx0, transaction.on_db (dbdb._validate_key k) (d, tx0) = ((d, tx0), Ok tt)).
  { intros tx0. unfold transaction.on_db. by erewrite zoom_eq by (by apply validate_ok). }
  split; [|split; [|split]].
  - unfold transaction.set. erewrite stx_bind_ok by apply Hv. erewrite stx_bind_ok by (unfold lift_res; by rewrite He). done.
  - unfold transaction.get. erewrite stx_bind_ok by apply Hv. erewrite stx_bind_ok by reflexivity. cbn [snd _overlay].
    rewrite ov_get_set, decide_True by done. unfold lift_res. by rewrite (decode_encode v p He).
  - intros k' Hne. unfold transaction.get.
    destruct k' as [|c k']; [done|]. erewrite !stx_bind_ok by reflexivity. cbn [snd fst _overlay _base].
    rewrite ov_get_set, decide_False by done. destruct (ov_get (_overlay tx) (c :: k')) as [[q|]|]; [done..|].
    by destruct (_base tx).
  - exists (mkTransaction (_base tx) (ov_set (ov_set (_overlay tx) k (Some p)) k None)). split.
    + unfold transaction.delete. erewrite stx_bind_ok by apply Hv.
      erewrite stx_bind_ok; [|unfold transaction.contains; erewrite stx_bind_ok by reflexivity; cbn [snd _overlay];
        rewrite ov_get_set, decide_True by done; reflexivity]. done.
    + unfold transaction.get. erewrite stx_bind_ok by apply Hv. erewrite stx_bind_ok by reflexivity. cbn [snd _overlay].
      by rewrite ov_get_set, decide_True.
Qed.

End values.

(** * Witnesses *)

Section witnesses.
#[local] Instance witness_pickle : Pickle := bit_pickle.
#[local] Hint Extern 0 (Index bnode) => exact (bplus_index 3) : typeclass_instances.

Lemma three : (3 <= 3)%nat.
Proof. lia. Qed.

#[local] Hint Extern 0 (IndexSpec bnode) => exact (bplus_spec 3 three) : typeclass_instances.

(** A new database, and a transaction on it that writes one key. *)
Definition key_a : pystr := str "a".
Definition key_b : pystr := str "b".
Definition val_1 : bytes := [Byte.x31].
Definition tree0 : Tree bnode := mkTree fresh (Ref None 0) 0.
Definition db0 : DBDB bnode := mkDBDB (Some (str "db")) tree0 0.
Definition sn0 : Snapshot := mkSnapshot fresh (Ref None 0) 0 false.
Definition tx0 : Transaction := mkTransaction (Some sn0) [(key_a, Some val_1)].
Definition nothing : contents := {| committed_kvs := []; current_kvs := [] |}.

Lemma handle0 : handle tree0 meta0 [] [].
Proof.
  split; try done.
  - exact fresh_journaled.
  - split; [exact (ix_tree_null (N := bnode) _)|done].
  - split; [exact (ix_tree_null (N := bnode) _)|done].
Qed.

Lemma pins0 (file : bytes) : pins 3 three file sn0 [].
Proof. split; [exact (ix_tree_null (N := bnode) _)|done]. Qed.

Lemma open0 : storage.closed (dbdb.the_storage db0) = false.
Proof. reflexivity. Qed.

Definition ops0 : list op := [OSet key_a val_1; OGet key_a; OLength].

Lemma fit0 : all_fit (N := bnode) ops0 nothing.
Proof. by repeat split. Qed.

Lemma session_witness :
  (run_ops ops0 tree0).2 = [Ok ADone; Ok (AValue (Some val_1)); Ok (ALength 1)].
Proof.
  apply (session_refines_spec 3 three ops0 tree0 nothing (run_ops ops0 tree0).1 (run_ops ops0 tree0).2).
  - exists meta0. exact handle0.
  - exact fit0.
  - apply surjective_pairing.
  - vm_compute. repeat constructor; intros [E|E]; discriminate E.
Defined.

Lemma power_loss_witness : exists m,
  opens (N := bnode) (disk.durable_bytes (_f (_storage (run_ops ops0 tree0).1))) m [].
Proof.
  apply (power_loss_recovers_last_commit 3 three ops0 tree0 nothing (run_ops ops0 tree0).1 (run_ops ops0 tree0).2).
  - exists meta0. exact handle0.
  - exact fit0.
  - apply surjective_pairing.
  - vm_compute. repeat constructor; intros [E|E]; discriminate E.
Defined.

Lemma engine_commit_witness : exists m', opens (N := bnode) (disk.durable_bytes (_f (_storage (logical.commit tree0).1))) m' [].
Proof.
  destruct (engine_commit_atomic 3 three tree0 meta0 [] [] (logical.commit tree0).1 (logical.commit tree0).2 handle0)
    as (m' & Ho & _); [apply surjective_pairing|].
  exists m'. destruct (logical.commit tree0).2; exact Ho.
Defined.

Lemma snapshot_witness : exists sn,
  snapshot._raw (disk.durable_bytes (_f (_storage (run_ops ops0 (db_tree (dbdb.take_snapshot db0).1)).1))) sn key_a = Ok None.
Proof.
  destruct (take_snapshot_spec 3 three db0 meta0 [] [] (str "db") handle0 eq_refl open0) as (t' & sn & E & _).
  exists sn. rewrite E.
  apply (snapshot_isolation 3 three db0 meta0 [] [] (str "db") _ sn ops0
    (run_ops ops0 t').1 (run_ops ops0 t').2 key_a handle0 eq_refl open0 E fit0); [apply surjective_pairing|].
  apply (f_equal fst) in E. apply (f_equal db_tree) in E. cbn [fst db_tree] in E. rewrite <- E.
  vm_compute. repeat constructor; intros [E'|E']; discriminate E'.
Defined.

Lemma transaction_commit_witness :
  tx_result 3 three db0 tx0 meta0 [] [(key_a, val_1)] (transaction.commit (db0, tx0)).
Proof.
  apply (transaction_commit_exact 3 three db0 tx0 meta0 [] [] sn0 []).
  - exact handle0.
  - reflexivity.
  - reflexivity.
  - apply pins0.
  - discriminate.
  - repeat constructor. by intros Hin%elem_of_nil.
  - reflexivity.
Defined.

Lemma first_committer_witness : exists k' m' d2,
  transaction.commit ((transaction.commit (db0, tx0)).1.1, tx0) = ((d2, finished tx0), Raise (ConflictError k')) /\
  handle (db_tree d2) m' [(key_a, val_1)] [(key_a, val_1)].
Proof.
  destruct (first_committer_wins 3 three db0 meta0 [] tx0 tx0 sn0 sn0 (transaction.commit (db0, tx0)).1.1
    (transaction.commit (db0, tx0)).1.2 key_a) as (k' & m' & d2 & _ & E & Hh).
  - exact handle0.
  - reflexivity.
  - reflexivity.
  - reflexivity.
  - reflexivity.
  - apply pins0.
  - apply pins0.
  - repeat constructor. by intros Hin%elem_of_nil.
  - exists (Some val_1). split; [reflexivity|discriminate].
  - by left.
  - reflexivity.
  - assert ((transaction.commit (db0, tx0)).2 = Ok tt) as E by (vm_compute; reflexivity).
    rewrite <- E. destruct (transaction.commit (db0, tx0)) as [[? ?] ?]. reflexivity.
  - exists k', m', d2. split; [exact E|exact Hh].
Defined.

(** The handle had staged a write of [key_b] when the transaction committed. *)
Definition staged_db : DBDB bnode := dbdb.set_tree (logical.set key_b val_1 tree0).1 db0.

Lemma staged_handle : handle (db_tree staged_db) meta0 [] [(key_b, val_1)].
Proof.
  destruct (set_spec tree0 meta0 [] [] key_b val_1 handle0) as (t' & E & Hh & _); [done|].
  unfold staged_db. rewrite E. exact Hh.
Qed.

Lemma drops_staged_witness : exists t',
  logical.get key_b (db_tree (transaction.commit (staged_db, tx0)).1.1) = (t', Raise (KeyError key_b)).
Proof.
  apply (transaction_drops_staged_writes 3 three staged_db tx0 meta0 [] [(key_b, val_1)] sn0 []
    _ (transaction.commit (staged_db, tx0)).1.2 key_b).
  - exact staged_handle.
  - reflexivity.
  - reflexivity.
  - apply pins0.
  - discriminate.
  - repeat constructor. by intros Hin%elem_of_nil.
  - reflexivity.
  - reflexivity.
  - assert ((transaction.commit (staged_db, tx0)).2 = Ok tt) as E by (vm_compute; reflexivity).
    rewrite <- E. destruct (transaction.commit (staged_db, tx0)) as [[? ?] ?]. reflexivity.
Defined.

Lemma setitem_witness : exists d',
  dbdb.setitem key_a (PyBytes val_1) db0 = (d', Ok tt) /\ (dbdb.getitem key_a d').2 = Ok (PyBytes val_1).
Proof.
  destruct (setitem_getitem 3 three db0 meta0 [] [] key_a (PyBytes val_1) val_1) as [(d' & E & Hg & _) _].
  - exact handle0.
  - exact open0.
  - discriminate.
  - reflexivity.
  - reflexivity.
  - exists d'. split; [exact E|exact Hg].
Defined.

Lemma own_writes_witness : exists tx',
  transaction.get key_a (db0, tx') = ((db0, tx'), Ok (PyBytes val_1)).
Proof.
  destruct (transaction_reads_own_writes db0 tx0 key_a (PyBytes val_1) val_1) as (tx' & _ & E & _);
    [discriminate|reflexivity|]. exists tx'. exact E.
Defined.

End witnesses.
