(* ===== verification/BinaryTree.v ===== *)
(** The persistent binary search tree: [src/imustore/binary_tree.py].

    The functions follow the methods of [BinaryTree].  The tree keeps no counter
    of its own, every node records the size of its subtree; the store is only
    read.  Recursion over nodes loaded from the store carries the recursion limit
    as fuel. *)

From S2P Require Import Prelude PyBase Struct SimDisk Logical KeyList Pickle.

(** * Nodes *)

Inductive binode : Type :=
| BinaryNode (left_ref : ref binode) (key : pystr) (value_ref : ref bytes) (right_ref : ref binode) (length : Z).

Abbreviation biref := (ref binode).

Definition node_length (n : binode) : Z := let '(BinaryNode _ _ _ _ len) := n in len.

(** What [BinaryTree.audit] reports. *)
Inductive binary_error : Type :=
| NotAboveLower (key lower : pystr)
| NotBelowUpper (key upper : pystr)
| ValueUnreadable (key : pystr) (exc : exn)
| LengthMismatch (key : pystr) (length expected : Z).

Record BinaryReport : Type := mkReport {
  br_keys : Z;
  br_nodes : Z;
  br_values : Z;
  br_height : Z;
  br_errors : list binary_error
}.

(** [errors] and [values], the variables [walk] closes over. *)
Abbreviation walk_state := (list binary_error * Z)%type.

Module binary.
Section binary.
Context `{Pickle} {S : Type} `{RecordStore S}.
Implicit Types (st : S) (node : option binode) (key : pystr).

(** ** [BinaryNodeRef] *)

Definition referent_to_bytes (n : binode) : bytes :=
  let '(BinaryNode l k v r len) := n in dumps (PBinary (address l) k (address v) (address r) len).

Definition bytes_to_referent (b : bytes) : res binode :=
  data ← loads b;
  match data with
  | PBinary l k v r len => Ok (BinaryNode (Ref None l) k (Ref None v) (Ref None r) len)
  | PLeaf _ _ | PInternal _ _ => Raise (KeyError (str "left"))
  end.

(** [BinaryNode.store_refs] and [BinaryNodeRef.prepare_to_store] *)
Fixpoint store_refs (n : binode) : St S binode :=
  let '(BinaryNode l k v r len) := n in
  v' ← value_store v;
  l' ← ref_store store_refs referent_to_bytes l;
  r' ← ref_store store_refs referent_to_bytes r;
  mret (BinaryNode l' k v' r' len).

Definition node_store (r : biref) : St S biref := ref_store store_refs referent_to_bytes r.

Definition follow st (r : biref) : res (option binode) := _follow bytes_to_referent st r.

Definition _ref_length st (r : biref) : res Z :=
  node ← follow st r; Ok (match node with Some n => node_length n | None => 0 end).

Definition _node_ref st (l : biref) (key : pystr) (v : ref bytes) (r : biref) : res biref :=
  ll ← _ref_length st l;
  lr ← _ref_length st r;
  Ok (Ref (Some (BinaryNode l key v r (1 + ll + lr))) 0).

(** ** Reads *)

Fixpoint _get (fuel : nat) st node key : res (option bytes) :=
  match fuel with
  | O => Raise RecursionError
  | Datatypes.S fuel =>
      match node with
      | None => Raise (KeyError key)
      | Some (BinaryNode l k v r _) =>
          if str_ltb key k then n ← follow st l; _get fuel st n key
          else if str_ltb k key then n ← follow st r; _get fuel st n key
          else value_follow st v
      end
  end.

Fixpoint _items (fuel : nat) st node : res (list (pystr * option bytes)) :=
  match fuel with
  | O => Raise RecursionError
  | Datatypes.S fuel =>
      match node with
      | None => Ok []
      | Some (BinaryNode l k v r _) =>
          n ← follow st l;
          xs ← _items fuel st n;
          x ← value_follow st v;
          m ← follow st r;
          ys ← _items fuel st m;
          Ok (xs ++ (k, x) :: ys)
      end
  end.

Fixpoint _range_items (fuel : nat) st node (start stop : option pystr) : res (list (pystr * option bytes)) :=
  match fuel with
  | O => Raise RecursionError
  | Datatypes.S fuel =>
      match node with
      | None => Ok []
      | Some (BinaryNode l k v r _) =>
          let from_start := match start with Some a => str_leb a k | None => true end in
          let before_stop := match stop with Some b => str_ltb k b | None => true end in
          xs ← (if from_start then n ← follow st l; _range_items fuel st n start stop else Ok []);
          x ← (if from_start && before_stop then x ← value_follow st v; Ok [(k, x)] else Ok []);
          ys ← (if before_stop then m ← follow st r; _range_items fuel st m start stop else Ok []);
          Ok (xs ++ x ++ ys)
      end
  end.

Fixpoint _height (fuel : nat) st node : res Z :=
  match fuel with
  | O => Raise RecursionError
  | Datatypes.S fuel =>
      match node with
      | None => Ok 0
      | Some (BinaryNode l _ _ r _) =>
          n ← follow st l;
          hl ← _height fuel st n;
          m ← follow st r;
          hr ← _height fuel st m;
          Ok (1 + Z.max hl hr)
      end
  end.

(** ** Updates *)

Fixpoint _insert (fuel : nat) st node key (value_ref : ref bytes) : res biref :=
  match fuel with
  | O => Raise RecursionError
  | Datatypes.S fuel =>
      match node with
      | None => _node_ref st (Ref None 0) key value_ref (Ref None 0)
      | Some (BinaryNode l k v r _) =>
          if str_ltb key k then
            n ← follow st l;
            left_ref ← _insert fuel st n key value_ref;
            _node_ref st left_ref k v r
          else if str_ltb k key then
            n ← follow st r;
            right_ref ← _insert fuel st n key value_ref;
            _node_ref st l k v right_ref
          else _node_ref st l key value_ref r
      end
  end.

(** The successor's key and value, and what is left of the subtree. *)
Fixpoint _pop_min (fuel : nat) st (n : binode) : res (pystr * ref bytes * biref) :=
  match fuel with
  | O => Raise RecursionError
  | Datatypes.S fuel =>
      let '(BinaryNode l k v r _) := n in
      ln ← follow st l;
      match ln with
      | None => Ok (k, v, r)
      | Some ln =>
          '(succ_key, succ_value, new_left_ref) ← _pop_min fuel st ln;
          new_ref ← _node_ref st new_left_ref k v r;
          Ok (succ_key, succ_value, new_ref)
      end
  end.

Fixpoint _delete (fuel : nat) st node key : res biref :=
  match fuel with
  | O => Raise RecursionError
  | Datatypes.S fuel =>
      match node with
      | None => Raise (KeyError key)
      | Some (BinaryNode l k v r _) =>
          if str_ltb key k then
            n ← follow st l;
            left_ref ← _delete fuel st n key;
            _node_ref st left_ref k v r
          else if str_ltb k key then
            n ← follow st r;
            right_ref ← _delete fuel st n key;
            _node_ref st l k v right_ref
          else
            ln ← follow st l;
            rn ← follow st r;
            match ln, rn with
            | None, _ => Ok r
            | Some _, None => Ok l
            | Some _, Some rn =>
                '(succ_key, succ_value, new_right_ref) ← _pop_min fuel st rn;
                _node_ref st l succ_key succ_value new_right_ref
            end
      end
  end.

(** ** Audit *)

Definition add_errors (es : list binary_error) : St walk_state unit := modify (fun '(errors, values) => (errors ++ es, values)).
Definition count_value : St walk_state unit := modify (fun '(errors, values) => (errors, values + 1)).

Definition bound_errors (lower upper : option pystr) key : list binary_error :=
  match lower with Some a => if str_leb key a then [NotAboveLower key a] else [] | None => [] end ++
  match upper with Some b => if str_leb b key then [NotBelowUpper key b] else [] | None => [] end.

(** [walk] returns the number of nodes and the deepest level. *)
Fixpoint walk (fuel : nat) st node (lower upper : option pystr) (depth : Z) : St walk_state (Z * Z) :=
  match fuel with
  | O => raise RecursionError
  | Datatypes.S fuel =>
      match node with
      | None => mret (0, depth - 1)
      | Some (BinaryNode l k v r len) =>
          add_errors (bound_errors lower upper k) ;;
          (match value_follow st v with
           | Ok _ => count_value
           | Raise e => add_errors [ValueUnreadable k e]
           end) ;;
          n ← lift_res (follow st l);
          '(left_count, left_height) ← walk fuel st n lower (Some k) (depth + 1);
          m ← lift_res (follow st r);
          '(right_count, right_height) ← walk fuel st m (Some k) upper (depth + 1);
          let expected := 1 + left_count + right_count in
          add_errors (if len =? expected then [] else [LengthMismatch k len expected]) ;;
          mret (expected, Z.max (Z.max depth left_height) right_height)
      end
  end.

(** The body of [audit] on the followed root. *)
Definition audit (fuel : nat) st (root : biref) : res BinaryReport :=
  node ← follow st root;
  match walk fuel st node None None 1 ([], 0) with
  | ((errors, values), Ok (count, height)) =>
      Ok (mkReport count count values (match node with Some _ => height | None => 0 end) errors)
  | (_, Raise e) => Raise e
  end.

End binary.
End binary.
