(* ===== verification/BinaryRep.v ===== *)
(** The binary tree represents a sorted association list and meets the contract of
    [Index] ([src/imustore/binary_tree.py]). *)

From S2P Require Import Prelude PyBase Struct SimDisk Locking Physical PhysicalFacts Recovery KeyList Logical Pickle BPlusStore Index BPlusIndex.
From S2P Require Import BinaryTree.

(** Binary search trees as functional trees specified by their in-order
    traversal, and which stored nodes represent them. *)

(** * Functional trees *)

Inductive bst (V : Type) : Type :=
| Empty
| Node (l : bst V) (k : pystr) (v : V) (r : bst V).
Arguments Empty {V}.
Arguments Node {V} l k v r.

Section trees.
Context {V : Type}.
Implicit Types (t l r : bst V) (key k : pystr) (value v : V) (L R : list (pystr * V)).

Fixpoint inorder t : list (pystr * V) :=
  match t with Empty => [] | Node l k v r => inorder l ++ (k, v) :: inorder r end.

Fixpoint depth t : nat :=
  match t with Empty => 0 | Node l _ _ r => S (Nat.max (depth l) (depth r)) end.

Fixpoint ins key value t : bst V :=
  match t with
  | Empty => Node Empty key value Empty
  | Node l k v r =>
      if str_ltb key k then Node (ins key value l) k v r
      else if str_ltb k key then Node l k v (ins key value r)
      else Node l key value r
  end.

(** The least binding of [Node l k v r] and the tree without it. *)
Fixpoint popmin l k v r : (pystr * V) * bst V :=
  match l with
  | Empty => ((k, v), r)
  | Node ll lk lv lr => let '(m, l') := popmin ll lk lv lr in (m, Node l' k v r)
  end.

Fixpoint del key t : bst V :=
  match t with
  | Empty => Empty
  | Node l k v r =>
      if str_ltb key k then Node (del key l) k v r
      else if str_ltb k key then Node l k v (del key r)
      else match l, r with
           | Empty, _ => r
           | Node _ _ _ _, Empty => l
           | Node _ _ _ _, Node rl rk rv rr => let '((mk, mv), r') := popmin rl rk rv rr in Node l mk mv r'
           end
  end.

Definition size t : Z := Z.of_nat (length (inorder t)).

Lemma size_node l k v r : size (Node l k v r) = 1 + size l + size r.
Proof. unfold size. simpl. rewrite length_app. simpl. lia. Qed.

Lemma depth_length t : (depth t <= length (inorder t))%nat.
Proof. induction t as [|l IHl k v r IHr]; simpl; [lia|]. rewrite length_app. simpl. lia. Qed.

(** ** Bindings around a node *)

Lemma str_not_lt_eq a b : ~ str_lt a b -> ~ str_lt b a -> a = b.
Proof. destruct (str_lt_total a b) as [?|[?|?]]; done. Qed.

Lemma kv_sorted_node L R k v :
  kv_sorted (L ++ (k, v) :: R) <-> kv_sorted L /\ kv_sorted R /\ below k L /\ above k R.
Proof.
  rewrite kv_sorted_app, kv_sorted_cons. split.
  - intros (HL & [HR Ha] & Hlt). split_and!; try done. apply Forall_forall. intros [x y] Hx. apply Hlt; [|by left].
    apply list_elem_of_fmap. by exists (x, y).
  - intros (HL & HR & Hb & Ha). split_and!; try done. intros x y Hx Hy.
    apply list_elem_of_fmap in Hx as ([x' ?] & -> & Hx). apply list_elem_of_fmap in Hy as ([y' ?] & -> & Hy). simpl.
    assert (str_lt x' k) by exact (proj1 (Forall_forall _ _) Hb _ Hx).
    apply elem_of_cons in Hy as [[= -> ->]|Hy]; [done|].
    assert (str_lt k y') by exact (proj1 (Forall_forall _ _) Ha _ Hy). key_order.
Qed.

Lemma above_node R key k v : str_lt key k -> above k R -> above key ((k, v) :: R).
Proof. intros Hlt Ha. constructor; [done|]. eapply above_weaken; [|exact Ha]. by left. Qed.

Lemma below_node L key k v : str_lt k key -> below k L -> below key (L ++ [(k, v)]).
Proof.
  intros Hlt Hb. apply Forall_app. split; [|by repeat constructor].
  eapply Forall_impl; [exact Hb|]. intros [x y] Hx. simpl in *. key_order.
Qed.

Lemma app_node L R kv : L ++ kv :: R = (L ++ [kv]) ++ R.
Proof. by rewrite <- app_assoc. Qed.

(** ** The operations on the traversal *)

Lemma inorder_ins key value t : kv_sorted (inorder t) -> inorder (ins key value t) = kv_set key value (inorder t).
Proof.
  induction t as [|l IHl k v r IHr]; [done|]. simpl. intros (HL & HR & Hb & Ha)%kv_sorted_node. str_cases; simpl.
  - rewrite IHl by done. symmetry. apply kv_set_app_r. by apply above_node.
  - rewrite IHr, (app_node (inorder l) (inorder r)), kv_set_app_l by (done || by apply below_node). by rewrite <- app_assoc.
  - assert (key = k) as -> by (by apply str_not_lt_eq).
    by rewrite kv_set_app_l, kv_set_hit by done.
Qed.

Lemma inorder_popmin l k v r :
  let '(m, t) := popmin l k v r in m :: inorder t = inorder l ++ (k, v) :: inorder r.
Proof.
  revert k v r. induction l as [|ll IHl lk lv lr _]; intros k v r; simpl; [done|].
  specialize (IHl lk lv lr). destruct (popmin ll lk lv lr) as [m l']. simpl. by rewrite app_comm_cons, IHl.
Qed.

Lemma inorder_del key t : kv_sorted (inorder t) -> inorder (del key t) = kv_del key (inorder t).
Proof.
  induction t as [|l IHl k v r IHr]; [done|]. simpl. intros (HL & HR & Hb & Ha)%kv_sorted_node. str_cases; simpl.
  - rewrite IHl by done. symmetry. apply kv_del_app_r. by apply above_node.
  - rewrite IHr, (app_node (inorder l) (inorder r)), kv_del_app_l by (done || by apply below_node). by rewrite <- app_assoc.
  - assert (key = k) as -> by (by apply str_not_lt_eq).
    rewrite kv_del_app_l, kv_del_hit by done.
    destruct l as [|ll lk lv lr]; [done|]. destruct r as [|rl rk rv rr]; [by rewrite app_nil_r|].
    pose proof (inorder_popmin rl rk rv rr) as Hp. destruct (popmin rl rk rv rr) as [[mk mv] r']. simpl in *. by rewrite Hp.
Qed.

End trees.

(** * Representation *)

Section rep.
Context `{Pickle} {S : Type} `{RecordStore S}.
Implicit Types (st : S) (t : bst bytes) (r : biref).

Abbreviation vresolves st := (resolves (fun b => Ok b) st).

Fixpoint brep st r t : Prop :=
  match t with
  | Empty => r = Ref None 0
  | Node l k v rt => exists lr vr rr,
      resolves binary.bytes_to_referent st r (BinaryNode lr k vr rr (size t)) /\
      vresolves st vr v /\ brep st lr l /\ brep st rr rt
  end.

(** The same of a node already loaded. *)
Definition nrep st (node : option binode) t : Prop :=
  match t with
  | Empty => node = None
  | Node l k v rt => exists lr vr rr,
      node = Some (BinaryNode lr k vr rr (size t)) /\ vresolves st vr v /\ brep st lr l /\ brep st rr rt
  end.

Lemma brep_follow st r t : brep st r t -> exists node, binary.follow st r = Ok node /\ nrep st node t.
Proof.
  destruct t as [|l k v rt]; simpl.
  - intros ->. by exists None.
  - intros (lr & vr & rr & Hr & Hv & Hl & Hrt). eexists. split; [by apply resolves_follow|]. by exists lr, vr, rr.
Qed.

Lemma brep_extends st st' r t : extends st st' -> brep st r t -> brep st' r t.
Proof.
  intros He. revert r. induction t as [|l IHl k v rt IHr]; intros r; [done|].
  intros (lr & vr & rr & Hr & Hv & Hl & Hrt). exists lr, vr, rr.
  split_and!; [by eapply resolves_extends|by eapply resolves_extends|by apply IHl|by apply IHr].
Qed.

Lemma ref_length_rep st r t : brep st r t -> binary._ref_length st r = Ok (size t).
Proof.
  intros (node & Hn & Ht)%brep_follow. unfold binary._ref_length. rewrite Hn. simpl.
  destruct t as [|l k v rt]; [by rewrite Ht|]. by destruct Ht as (lr & vr & rr & -> & _).
Qed.

Lemma node_ref_rep st lr l k vr v rr rt :
  brep st lr l -> vresolves st vr v -> brep st rr rt ->
  exists r, binary._node_ref st lr k vr rr = Ok r /\ brep st r (Node l k v rt).
Proof.
  intros Hl Hv Hr. unfold binary._node_ref. rewrite (ref_length_rep st lr l Hl), (ref_length_rep st rr rt Hr). simpl.
  eexists. split; [reflexivity|]. exists lr, vr, rr. split_and!; try done.
  rewrite size_node. apply resolves_mem.
Qed.

(** Loads the child a hypothesis [brep st r t] is about. *)
Ltac load r :=
  match goal with
  | Hb : brep _ r _ |- _ =>
      let n := fresh "n" in let Hf := fresh "Hf" in let Hn := fresh "Hn" in
      destruct (brep_follow _ _ _ Hb) as (n & Hf & Hn); rewrite ?Hf; cbn [mbind result_bind]
  end.

(** ** Reads *)

Lemma get_rep fuel st node t key :
  (depth t < fuel)%nat -> kv_sorted (inorder t) -> nrep st node t ->
  binary._get fuel st node key = match kv_get key (inorder t) with Some v => Ok (Some v) | None => Raise (KeyError key) end.
Proof.
  revert fuel node. induction t as [|l IHl k v r IHr]; intros [|fuel] node Hd Hs Hn; simpl in Hd; try lia.
  { by rewrite Hn. }
  destruct Hn as (lr & vr & rr & -> & Hv & Hl & Hr). cbn [binary._get inorder] in *.
  apply kv_sorted_node in Hs as (HL & HR & Hb & Ha). str_cases.
  - load lr. rewrite (IHl fuel n) by (done || lia). rewrite kv_get_app_r; [done|]. by apply above_node.
  - load rr. rewrite (IHr fuel n0) by (done || lia). rewrite (app_node (inorder l) (inorder r)), kv_get_app_l; [done|]. by apply below_node.
  - assert (key = k) as -> by (by apply str_not_lt_eq).
    rewrite kv_get_app_l by done. simpl. rewrite decide_True by done. by apply resolves_follow.
Qed.

Lemma items_rep fuel st node t : (depth t < fuel)%nat -> nrep st node t -> binary._items fuel st node = Ok (yields (inorder t)).
Proof.
  revert fuel node. induction t as [|l IHl k v r IHr]; intros [|fuel] node Hd Hn; simpl in Hd; try lia.
  { by rewrite Hn. }
  destruct Hn as (lr & vr & rr & -> & Hv & Hl & Hr). cbn [binary._items inorder].
  load lr. rewrite (IHl fuel n) by (done || lia). cbn [mbind result_bind].
  unfold value_follow. rewrite (resolves_follow _ _ _ _ Hv). cbn [mbind result_bind].
  load rr. rewrite (IHr fuel n0) by (done || lia). cbn [mbind result_bind]. by rewrite yields_app.
Qed.

Lemma range_rep fuel st node t a b :
  (depth t < fuel)%nat -> kv_sorted (inorder t) -> nrep st node t ->
  binary._range_items fuel st node a b = Ok (yields (kv_range a b (inorder t))).
Proof.
  revert fuel node. induction t as [|l IHl k v r IHr]; intros [|fuel] node Hd Hs Hn; simpl in Hd; try lia.
  { by rewrite Hn. }
  destruct Hn as (lr & vr & rr & -> & Hv & Hl & Hr). cbn [binary._range_items inorder] in *.
  apply kv_sorted_node in Hs as (HL & HR & Hb & Ha). rewrite kv_range_app, kv_range_cons, !yields_app.
  assert (Ex : (if match a with Some a => str_leb a k | None => true end then n ← binary.follow st lr; binary._range_items fuel st n a b else Ok [])
    = Ok (yields (kv_range a b (inorder l)))).
  { load lr. destruct a as [a|]; [|by apply IHl; [lia|..]]. str_cases; [by apply IHl; [lia|..]|].
    rewrite kv_range_before_start; [done|]. eapply Forall_impl; [exact Hb|]. intros [x y] Hx. simpl in *.
    assert (str_lt k a) by (destruct (str_ltb_spec k a) as [?|Hge]; [done|]; by apply str_le_not_lt in Hge). key_order. }
  assert (Ey : (if match b with Some b => str_ltb k b | None => true end then m ← binary.follow st rr; binary._range_items fuel st m a b else Ok [])
    = Ok (yields (kv_range a b (inorder r)))).
  { load rr. destruct b as [b|]; [|by apply IHr; [lia|..]]. str_cases; [by apply IHr; [lia|..]|].
    rewrite kv_range_past_stop; [done|]. eapply Forall_impl; [exact Ha|]. intros [x y] Hx. simpl in *.
    assert (str_le b k) by (by apply str_le_not_lt). left. key_order. }
  rewrite Ex. cbn [mbind result_bind]. rewrite Ey.
  unfold value_follow. rewrite (resolves_follow _ _ _ _ Hv). cbn [mbind result_bind].
  unfold in_range. destruct a, b; unfold str_leb; simpl; repeat case_match; simpl in *; try done.
Qed.

Lemma height_rep fuel st node t : (depth t < fuel)%nat -> nrep st node t -> binary._height fuel st node = Ok (Z.of_nat (depth t)).
Proof.
  revert fuel node. induction t as [|l IHl k v r IHr]; intros [|fuel] node Hd Hn; simpl in Hd; try lia.
  { by rewrite Hn. }
  destruct Hn as (lr & vr & rr & -> & Hv & Hl & Hr). cbn [binary._height depth].
  load lr. rewrite (IHl fuel n) by (done || lia). cbn [mbind result_bind].
  load rr. rewrite (IHr fuel n0) by (done || lia). cbn [mbind result_bind]. f_equal. lia.
Qed.

(** ** Updates *)

Lemma binary_insert_rep fuel st node t key vr value :
  (depth t < fuel)%nat -> nrep st node t -> vresolves st vr value ->
  exists r, binary._insert fuel st node key vr = Ok r /\ brep st r (ins key value t).
Proof.
  revert fuel node. induction t as [|l IHl k v r IHr]; intros [|fuel] node Hd Hn Hvr; simpl in Hd; try lia.
  { rewrite Hn. by apply node_ref_rep. }
  destruct Hn as (lr & vr' & rr & -> & Hv & Hl & Hr). cbn [binary._insert ins]. str_cases.
  - load lr. destruct (IHl fuel n) as (l' & -> & Hl'); try done; [lia|]. by apply node_ref_rep.
  - load rr. destruct (IHr fuel n0) as (r' & -> & Hr'); try done; [lia|]. by apply node_ref_rep.
  - by apply node_ref_rep.
Qed.

Lemma popmin_rep fuel st n (l : bst bytes) k v (r : bst bytes) :
  (depth (Node l k v r) <= fuel)%nat -> nrep st (Some n) (Node l k v r) ->
  let '((mk, mv), t) := popmin l k v r in
  exists vr rf, binary._pop_min fuel st n = Ok (mk, vr, rf) /\ vresolves st vr mv /\ brep st rf t.
Proof.
  revert fuel n k v r. induction l as [|ll IHl lk lv lr _]; intros [|fuel] n k v r Hd Hn; simpl in Hd; try lia;
    destruct Hn as (lrf & vr & rr & [= ->] & Hv & Hl & Hr); cbn [binary._pop_min popmin]; load lrf.
  - rewrite Hn. by exists vr, rr.
  - destruct n as [n|]; [|by destruct Hn as (? & ? & ? & ? & _)].
    specialize (IHl fuel n lk lv lr ltac:(simpl; lia) Hn). destruct (popmin ll lk lv lr) as [[mk mv] l'].
    destruct IHl as (vr' & rf & -> & Hv' & Hl'). cbn [mbind result_bind].
    destruct (node_ref_rep st rf l' k vr v rr r Hl' Hv Hr) as (x & -> & Hx). by exists vr', x.
Qed.

Lemma binary_delete_rep fuel st node t key :
  (depth t < fuel)%nat -> kv_sorted (inorder t) -> nrep st node t ->
  match kv_get key (inorder t) with
  | None => binary._delete fuel st node key = Raise (KeyError key)
  | Some _ => exists r, binary._delete fuel st node key = Ok r /\ brep st r (del key t)
  end.
Proof.
  revert fuel node. induction t as [|l IHl k v r IHr]; intros [|fuel] node Hd Hs Hn; simpl in Hd; try lia.
  { by rewrite Hn. }
  destruct Hn as (lr & vr & rr & -> & Hv & Hl & Hr). cbn [binary._delete inorder del] in *.
  apply kv_sorted_node in Hs as (HL & HR & Hb & Ha). str_cases.
  - rewrite kv_get_app_r by (by apply above_node). load lr. specialize (IHl fuel n ltac:(lia) HL Hn).
    destruct (kv_get key (inorder l)); [|by rewrite IHl]. destruct IHl as (l' & -> & Hl'). by apply node_ref_rep.
  - rewrite (app_node (inorder l) (inorder r)), kv_get_app_l by (by apply below_node). load rr. specialize (IHr fuel n0 ltac:(lia) HR Hn).
    destruct (kv_get key (inorder r)); [|by rewrite IHr]. destruct IHr as (r' & -> & Hr'). by apply node_ref_rep.
  - assert (key = k) as -> by (by apply str_not_lt_eq).
    rewrite kv_get_app_l by done. simpl. rewrite decide_True by done. load lr. load rr.
    destruct l as [|ll lk lv lrt]; [rewrite Hn; by exists rr|]. destruct n1 as [n1|]; [|by destruct Hn as (? & ? & ? & ? & _)].
    destruct r as [|rl rk rv rrt]; [rewrite Hn0; by exists lr|]. destruct n2 as [n2|]; [|by destruct Hn0 as (? & ? & ? & ? & _)].
    pose proof (popmin_rep fuel st n2 rl rk rv rrt ltac:(simpl in *; lia) Hn0) as Hp.
    destruct (popmin rl rk rv rrt) as [[mk mv] r']. destruct Hp as (vr' & rf & -> & Hv' & Hr'). by apply node_ref_rep.
Qed.

(** ** Storing *)

Definition forget_all (n : binode) : binode :=
  let '(BinaryNode l k v r len) := n in BinaryNode (forget l) k (forget v) (forget r) len.

(** Serialising a node and loading it back. *)
Lemma binode_roundtrip n : binary.bytes_to_referent (binary.referent_to_bytes n) = Ok (forget_all n).
Proof. destruct n as [l k v r len]. unfold binary.bytes_to_referent. simpl. by rewrite loads_dumps. Qed.

(** The outcome of storing: the address alone stands for the same tree, or a
    record was refused and the store only gained records. *)
Lemma node_store_rep st r t :
  rs_ok st -> brep st r t -> exists st', writes st st' /\
    ((exists r', binary.node_store r st = (st', Ok r') /\ brep st' (forget r') t) \/ binary.node_store r st = (st', Raise StructError)).
Proof.
  revert st r. induction t as [|l IHl k v rt IHr]; intros st r Hok Ht.
  { simpl in Ht. subst r. exists st. split; [apply writes_refl|]. left. by eexists. }
  destruct Ht as (lr & vr & rr & Hn & Hv & Hl & Hr). destruct r as [rf a].
  destruct Hn as [[E1 E2]|(E1 & Ha & Hb)]; simpl in E1; try simpl in E2; subst.
  2:{ exists st. split; [apply writes_refl|]. left. eexists. split; [reflexivity|]. exists lr, vr, rr. split_and!; try done. by right. }
  unfold binary.node_store at 1 2, ref_store at 1 2. cbn [referent address]. change (0 =? 0) with true. cbv iota. cbn [binary.store_refs].
  destruct (value_store_spec st vr v Hok Hv) as (st1 & Hw1 & [(vr' & Ev & Hv')|Ev]).
  2:{ exists st1. split; [done|]. right. apply stx_bind_raise. by apply stx_bind_raise. }
  destruct (writes_extends _ _ Hok Hw1) as [Hok1 He1].
  destruct (IHl st1 lr Hok1 (brep_extends _ _ _ _ He1 Hl)) as (st2 & Hw2 & [(lr' & El & Hl')|El]).
  2:{ exists st2. split; [by transitivity st1|]. right. apply stx_bind_raise. erewrite stx_bind_ok by exact Ev. by apply stx_bind_raise. }
  destruct (writes_extends _ _ Hok1 Hw2) as [Hok2 He2].
  destruct (IHr st2 rr Hok2) as (st3 & Hw3 & [(rr' & Er & Hr')|Er]).
  { do 2 (eapply brep_extends; [eassumption|]). done. }
  2:{ exists st3. split; [by transitivity st1; [|transitivity st2]|]. right. apply stx_bind_raise.
      erewrite stx_bind_ok by exact Ev. erewrite stx_bind_ok by exact El. by apply stx_bind_raise. }
  destruct (writes_extends _ _ Hok2 Hw3) as [Hok3 He3].
  set (n' := BinaryNode lr' k vr' rr' (size (Node l k v rt))).
  assert (binary.store_refs (BinaryNode lr k vr rr (size (Node l k v rt))) st = (st3, Ok n')) as En.
  { cbn [binary.store_refs]. erewrite stx_bind_ok by exact Ev. erewrite stx_bind_ok by exact El. by erewrite stx_bind_ok by exact Er. }
  cbn [binary.store_refs] in En. destruct (write_resolves binary.bytes_to_referent st3 _ _ Hok3 (binode_roundtrip n')) as (st4 & Hw4 & Hout).
  exists st4. split; [by transitivity st1; [|transitivity st2; [|transitivity st3]]|].
  destruct (writes_extends _ _ Hok3 Hw4) as [_ He4].
  destruct Hout as [(a & Ea & Hres)|Ea]; [left|right]; (erewrite stx_bind_ok by exact En).
  - eexists. erewrite stx_bind_ok by exact Ea. split; [reflexivity|]. exists (forget lr'), (forget vr'), (forget rr'). split_and!.
    + exact Hres.
    + do 3 (eapply resolves_extends; [eassumption|]). exact Hv'.
    + do 2 (eapply brep_extends; [eassumption|]). exact Hl'.
    + by eapply brep_extends.
  - by apply stx_bind_raise.
Qed.

End rep.

(** The binary tree is an index: [BinaryTree] meets the contract of [Index], and
    its self-check accepts exactly the trees that satisfy the contract. *)

Definition binary_index `{Pickle} : Index binode := {|
  ix_counts := false;
  ix_follow := binary.follow;
  ix_get := binary._get RECURSION_LIMIT;
  ix_items := binary._items RECURSION_LIMIT;
  ix_range_items := binary._range_items RECURSION_LIMIT;
  ix_insert st n k v := lift_res (binary._insert RECURSION_LIMIT st n k v);
  ix_delete st n k := lift_res (binary._delete RECURSION_LIMIT st n k);
  ix_store := binary.node_store;
  ix_length st r _ := binary._ref_length st r
|}.

Section binary_spec.
Context `{Pickle}.
Implicit Types (st : Storage) (kvs : kvlist).

Definition binary_tree st (r : biref) kvs : Prop := exists t, inorder t = kvs /\ kv_sorted kvs /\ brep st r t.

(** The tree is not balanced, so its depth is bounded by its size only. *)
Definition binary_fits kvs : Prop := (length kvs < RECURSION_LIMIT)%nat.

Lemma binary_follow st r kvs :
  binary_tree st r kvs -> exists n t, binary.follow st r = Ok n /\ nrep st n t /\ kv_sorted kvs /\ inorder t = kvs /\
    (binary_fits kvs -> (depth t < RECURSION_LIMIT)%nat).
Proof.
  intros (t & <- & Hs & Ht). destruct (brep_follow _ _ _ Ht) as (n & Hn & Hr). exists n, t. split_and!; try done.
  unfold binary_fits. pose proof (depth_length t). lia.
Qed.

#[refine] Definition binary_spec : @IndexSpec binode binary_index := {|
  ix_tree := binary_tree;
  ix_fits := binary_fits
|}.
Proof.
  - unfold binary_fits. intros. lia.
  - intros st. exists Empty. split_and!; [done|constructor|done].
  - intros st st' r kvs He (t & Ei & Hs & Ht). exists t. split_and!; try done. by eapply brep_extends.
  - by intros st r kvs (t & <- & Hs & _).
  - intros st r kvs k Ht Hf. destruct (binary_follow _ _ _ Ht) as (n & t & Hn & Hr & Hs & <- & Hd).
    cbn [ix_follow ix_get binary_index]. rewrite Hn. cbn [mbind result_bind]. apply get_rep; auto.
  - intros st r kvs Ht Hf. destruct (binary_follow _ _ _ Ht) as (n & t & Hn & Hr & Hs & <- & Hd).
    cbn [ix_follow ix_items binary_index]. rewrite Hn. cbn [mbind result_bind]. apply items_rep; auto.
  - intros st r kvs a b Ht Hf. destruct (binary_follow _ _ _ Ht) as (n & t & Hn & Hr & Hs & <- & Hd).
    cbn [ix_follow ix_range_items binary_index]. rewrite Hn. cbn [mbind result_bind]. apply range_rep; auto.
  - intros st r kvs k v c Ht Hf. destruct (binary_follow _ _ _ Ht) as (n & t & Hn & Hr & Hs & <- & Hd).
    cbn [ix_follow ix_insert binary_index ix_counts counted]. erewrite stx_bind_ok by (unfold lift_res; by rewrite Hn).
    destruct (binary_insert_rep RECURSION_LIMIT st n t k (Ref (Some v) 0) v) as (r' & E & Hr'); auto. { apply resolves_mem. }
    exists r'. split; [unfold lift_res; by rewrite E|]. exists (ins k v t).
    split_and!; [by apply inorder_ins|by apply kv_set_sorted|done].
  - intros st r kvs k c Ht Hf. destruct (binary_follow _ _ _ Ht) as (n & t & Hn & Hr & Hs & <- & Hd).
    cbn [ix_follow ix_delete binary_index ix_counts counted].
    pose proof (binary_delete_rep RECURSION_LIMIT st n t k (Hd Hf) Hs Hr) as Hdel.
    destruct (kv_get k (inorder t)) as [v|].
    + destruct Hdel as (r' & E & Hr'). exists r'. erewrite stx_bind_ok by (unfold lift_res; by rewrite Hn).
      split; [unfold lift_res; by rewrite E|]. exists (del k t). split_and!; [by apply inorder_del|by apply kv_del_sorted|done].
    + erewrite stx_bind_ok by (unfold lift_res; by rewrite Hn). unfold lift_res. by rewrite Hdel.
  - intros st r kvs Hok (t & <- & Hs & Ht). destruct (node_store_rep st r t Hok Ht) as (st' & Hw & [(r' & E & Ht')|E]);
      exists st'; (split; [done|]); [left; exists r'; split; [done|]; by exists t|by right].
  - intros st r kvs c (t & <- & Hs & Ht) _. by apply ref_length_rep.
Defined.

End binary_spec.
