(* ===== verification/BinaryProps.v ===== *)
(** The binary tree's audit is exact, and databases with either index answer alike
    ([src/imustore/binary_tree.py], [mvcc.py]). *)

From S2P Require Import Prelude PyBase Struct SimDisk Locking Physical PhysicalFacts Recovery StorageProps KeyList Logical Pickle BPlusTree BPlusRep.
From S2P Require Import Index BPlusIndex Engine Session Database Transactions BinaryTree BinaryRep.

(** [BinaryTree.audit] reports no error exactly for the trees that can be read,
    are ordered and record their sizes. *)

Section audit.
Context `{Pickle} {S : Type} `{RecordStore S}.
Implicit Types (st : S) (t : bst (option bytes)) (r : biref) (node : option binode) (lo hi : option pystr).

(** What can be read from a store: the tree below a reference, with the values
    that following its references gives. *)
Fixpoint reads st r t : Prop :=
  match t with
  | Empty => binary.follow st r = Ok None
  | Node l k v rt => exists lr vr rr,
      binary.follow st r = Ok (Some (BinaryNode lr k vr rr (size t))) /\
      value_follow st vr = Ok v /\ reads st lr l /\ reads st rr rt
  end.

Definition nreads st node t : Prop :=
  match t with
  | Empty => node = None
  | Node l k v rt => exists lr vr rr,
      node = Some (BinaryNode lr k vr rr (size t)) /\ value_follow st vr = Ok v /\ reads st lr l /\ reads st rr rt
  end.

Lemma reads_iff st r t : reads st r t <-> exists node, binary.follow st r = Ok node /\ nreads st node t.
Proof.
  destruct t as [|l k v rt]; simpl.
  - split; [intros ->; by exists None|]. by intros (node & -> & ->).
  - split.
    + intros (lr & vr & rr & -> & Hv & Hl & Hr). eexists. split; [done|]. by exists lr, vr, rr.
    + intros (node & -> & lr & vr & rr & -> & Hv & Hl & Hr). by exists lr, vr, rr.
Qed.

(** Ordered, with every key strictly between the bounds. *)
Fixpoint ordered lo hi t : Prop :=
  match t with
  | Empty => True
  | Node l k _ r => inside lo hi k /\ ordered lo (Some k) l /\ ordered (Some k) hi r
  end.

Lemma ordered_keys lo hi t : ordered lo hi t -> Forall (fun kv => inside lo hi kv.1) (inorder t).
Proof.
  revert lo hi. induction t as [|l IHl k v r IHr]; intros lo hi; simpl; [by constructor|].
  intros (Hk & Hl & Hr). apply Forall_app. split; [|constructor; [done|]].
  - eapply Forall_impl; [by apply IHl|]. intros [x y] Hx. simpl in *. destruct Hx, Hk. bounds.
  - eapply Forall_impl; [by apply IHr|]. intros [x y] Hx. simpl in *. destruct Hx, Hk. bounds.
Qed.

Lemma ordered_sorted lo hi t :
  ordered lo hi t <-> kv_sorted (inorder t) /\ Forall (fun kv => inside lo hi kv.1) (inorder t).
Proof.
  split.
  - intros Ho. split; [|by apply ordered_keys]. revert lo hi Ho. induction t as [|l IHl k v r IHr]; intros lo hi; simpl; [constructor|].
    intros (Hk & Hl & Hr). apply kv_sorted_node. split_and!; [by eapply IHl|by eapply IHr|..].
    + eapply Forall_impl; [by apply ordered_keys|]. intros [x y] [_ Hx]. done.
    + eapply Forall_impl; [by apply ordered_keys|]. intros [x y] [Hx _]. done.
  - intros [Hs Hf]. revert lo hi Hf Hs. induction t as [|l IHl k v r IHr]; intros lo hi; simpl; [done|].
    intros [Hfl [Hk Hfr]%Forall_cons]%Forall_app (Hsl & Hsr & Hb & Ha)%kv_sorted_node. split_and!; [done|apply IHl|apply IHr]; try done.
    + apply Forall_forall. intros [x y] Hx. split; [exact (proj1 (proj1 (Forall_forall _ _) Hfl _ Hx))|exact (proj1 (Forall_forall _ _) Hb _ Hx)].
    + apply Forall_forall. intros [x y] Hx. split; [exact (proj1 (Forall_forall _ _) Ha _ Hx)|exact (proj2 (proj1 (Forall_forall _ _) Hfr _ Hx))].
Qed.

Lemma bound_errors_none lo hi k : binary.bound_errors lo hi k = [] <-> inside lo hi k.
Proof.
  unfold binary.bound_errors, inside, lo_lt, lt_hi.
  assert (Hle : forall a b (e : binary_error), (if str_leb a b then [e] else []) = [] <-> str_lt b a).
  { intros a b e. destruct (str_leb_spec a b) as [Hl|Hl]; (split; [intros Hn; try done|intros Hn; try done]); [key_order|].
    destruct (str_lt_total a b) as [?|[?|?]]; [|..]; try done; exfalso; apply Hl; unfold str_le; auto. }
  destruct lo as [a|], hi as [b|]; rewrite ?app_nil_r, ?app_nil; rewrite ?Hle; tauto.
Qed.

(** A read-only invariant of [walk]: errors are only added. *)
Lemma walk_errors fuel st node lo hi d es vs es' vs' out :
  binary.walk fuel st node lo hi d (es, vs) = ((es', vs'), out) -> exists x, es' = es ++ x.
Proof.
  revert node lo hi d es vs es' vs' out. induction fuel as [|fuel IH]; intros node lo hi d es vs es' vs' out; simpl.
  { intros [= <- _ _]. exists []. by rewrite app_nil_r. }
  destruct node as [[l k v r len]|]; [|intros [= <- _ _]; exists []; by rewrite app_nil_r].
  unfold mbind, stx_bind. simpl.
  assert (exists a vs1, (match value_follow st v with Ok _ => binary.count_value | Raise e => binary.add_errors [ValueUnreadable k e] end)
    (es ++ binary.bound_errors lo hi k, vs) = ((es ++ a, vs1), Ok tt)) as (a & vs1 & ->).
  { destruct (value_follow st v); unfold binary.count_value, binary.add_errors, modify; [by eexists _, _|]. rewrite <- app_assoc. by eexists _, _. }
  unfold lift_res. destruct (binary.follow st l) as [n|]; [|intros [= <- _ _]; by eexists].
  destruct (binary.walk fuel st n lo (Some k) (d + 1) (es ++ a, vs1)) as [[es2 vs2] [[c1 h1]|]] eqn:E1;
    apply IH in E1 as [x1 ->]; [|intros [= <- _ _]; rewrite <- app_assoc; by eexists].
  destruct (binary.follow st r) as [m|]; [|intros [= <- _ _]; rewrite <- app_assoc; by eexists].
  destruct (binary.walk fuel st m (Some k) hi (d + 1) ((es ++ a) ++ x1, vs2)) as [[es3 vs3] [[c2 h2]|]] eqn:E2;
    apply IH in E2 as [x2 ->]; intros [= <- _ _]; rewrite <- !app_assoc; by eexists.
Qed.

Lemma walk_complete fuel st node t lo hi d es vs :
  nreads st node t -> ordered lo hi t -> (depth t < fuel)%nat ->
  binary.walk fuel st node lo hi d (es, vs) = ((es, vs + size t), Ok (size t, d - 1 + Z.of_nat (depth t))).
Proof.
  revert fuel node lo hi d es vs. induction t as [|l IHl k v r IHr]; intros [|fuel] node lo hi d es vs Hn Ho Hd; simpl in Hd; try lia.
  { rewrite Hn. simpl. unfold size. simpl. by rewrite !Z.add_0_r. }
  destruct Hn as (lr & vr & rr & -> & Hv & (n & Hl & Hln)%reads_iff & (m & Hr & Hrn)%reads_iff). destruct Ho as (Hk & Hol & Hor).
  cbn [binary.walk]. erewrite stx_bind_ok by reflexivity. rewrite (proj2 (bound_errors_none _ _ _) Hk), app_nil_r, Hv.
  erewrite stx_bind_ok by reflexivity. erewrite stx_bind_ok by (unfold lift_res; by rewrite Hl).
  erewrite stx_bind_ok by (apply (IHl fuel); [done..|lia]). cbv beta iota. erewrite stx_bind_ok by (unfold lift_res; by rewrite Hr).
  erewrite stx_bind_ok by (apply (IHr fuel); [done..|lia]). cbv beta iota. rewrite size_node, Z.eqb_refl. erewrite stx_bind_ok by reflexivity.
  rewrite app_nil_r. unfold mret, stx_ret. f_equal; [f_equal; lia|]. do 2 f_equal. cbn [depth]. lia.
Qed.

Lemma walk_sound fuel st node lo hi d es vs vs' c h :
  binary.walk fuel st node lo hi d (es, vs) = ((es, vs'), Ok (c, h)) ->
  exists t, nreads st node t /\ ordered lo hi t /\ (depth t < fuel)%nat /\
    c = size t /\ vs' = vs + size t /\ h = d - 1 + Z.of_nat (depth t).
Proof.
  revert node lo hi d es vs vs' c h. induction fuel as [|fuel IH]; intros node lo hi d es vs vs' c h E; [done|].
  destruct node as [[l k v r len]|].
  2:{ injection E as <- <- <-. exists Empty. unfold size. simpl. split_and!; try done; lia. }
  cbn [binary.walk] in E. erewrite stx_bind_ok in E by reflexivity.
  assert (exists a vs1, (match value_follow st v with Ok _ => binary.count_value | Raise e => binary.add_errors [ValueUnreadable k e] end)
    (es ++ binary.bound_errors lo hi k, vs) = ((es ++ a, vs1), Ok tt) /\
    (a = [] -> inside lo hi k /\ vs1 = vs + 1 /\ exists x, value_follow st v = Ok x)) as (a & vs1 & Ea & Ha).
  { destruct (value_follow st v); unfold binary.count_value, binary.add_errors, modify.
    - eexists _, _. split; [reflexivity|]. intros ?%bound_errors_none. eauto.
    - rewrite <- app_assoc. eexists _, _. split; [reflexivity|]. by intros [_ ?]%app_nil. }
  erewrite stx_bind_ok in E by exact Ea.
  destruct (binary.follow st l) as [n|] eqn:El; [|by erewrite stx_bind_raise in E by reflexivity]. erewrite stx_bind_ok in E by reflexivity.
  destruct (binary.walk fuel st n lo (Some k) (d + 1) (es ++ a, vs1)) as [[es2 vs2] [[c1 h1]|]] eqn:E1;
    [|by erewrite stx_bind_raise in E by exact E1]. erewrite stx_bind_ok in E by exact E1. cbv beta iota in E.
  destruct (binary.follow st r) as [m|] eqn:Er; [|by erewrite stx_bind_raise in E by reflexivity]. erewrite stx_bind_ok in E by reflexivity.
  destruct (binary.walk fuel st m (Some k) hi (d + 1) (es2, vs2)) as [[es3 vs3] [[c2 h2]|]] eqn:E2;
    [|by erewrite stx_bind_raise in E by exact E2]. erewrite stx_bind_ok in E by exact E2. cbv beta iota in E.
  destruct (walk_errors _ _ _ _ _ _ _ _ _ _ _ E1) as [x1 ->]. destruct (walk_errors _ _ _ _ _ _ _ _ _ _ _ E2) as [x2 ->].
  erewrite stx_bind_ok in E by reflexivity. injection E as Ees <- <- <-. rewrite <- !app_assoc in Ees. rewrite <- (app_nil_r es) in Ees at 2.
  apply app_inv_head in Ees. apply app_nil in Ees as [-> [-> [-> Elen]%app_nil]%app_nil].
  rewrite ?(app_nil_r es) in E1, E2. rewrite ?(app_nil_r es) in E2. destruct (Ha eq_refl) as (Hin & -> & x & Hx).
  destruct (IH _ _ _ _ _ _ _ _ _ E1) as (tl & Hl & Hol & Hdl & -> & -> & ->).
  destruct (IH _ _ _ _ _ _ _ _ _ E2) as (tr & Hr & Hor & Hdr & -> & -> & ->).
  destruct (Z.eqb_spec len (1 + size tl + size tr)) as [->|]; [|done].
  exists (Node tl k x tr). rewrite size_node. split_and!; try done; [|simpl; lia..].
  exists l, v, r. rewrite size_node, !reads_iff. split_and!; eauto.
Qed.

(** C40: the binary tree's self-check is exact.  [audit] returns a report without
    errors if and only if the stored tree can be read within the recursion limit,
    its keys are in search order, every value loads and every node records the
    size of its subtree; the report then states the true number of keys and the
    true height. *)
Theorem binary_audit_exact (fuel : nat) st r (report : BinaryReport) :
  (binary.audit fuel st r = Ok report /\ br_errors report = []) <->
  exists t, reads st r t /\ kv_sorted (inorder t) /\ (depth t < fuel)%nat /\
    report = mkReport (size t) (size t) (size t) (Z.of_nat (depth t)) [].
Proof.
  unfold binary.audit. split.
  - intros [E He]. destruct (binary.follow st r) as [node|] eqn:Ef; [|done]. cbn [mbind result_bind] in E.
    destruct (binary.walk fuel st node None None 1 ([], 0)) as [[es vs] [[c h]|]] eqn:Ew; [|done].
    injection E as <-. simpl in He. subst es. destruct (walk_sound _ _ _ _ _ _ _ _ _ _ _ Ew) as (t & Hn & Ho & Hd & -> & -> & ->).
    exists t. split_and!; [apply reads_iff; eauto|by eapply ordered_sorted|done|].
    f_equal. destruct t as [|l k v rt]; [by rewrite Hn|]. destruct Hn as (? & ? & ? & -> & _). lia.
  - intros (t & (node & Ef & Hn)%reads_iff & Hs & Hd & ->). rewrite Ef. cbn [mbind result_bind].
    rewrite (walk_complete fuel st node t); [|done| |done].
    + split; [|done]. do 2 f_equal. destruct t as [|l k v rt]; [by rewrite Hn|]. destruct Hn as (? & ? & ? & -> & _). lia.
    + apply ordered_sorted. split; [done|]. by apply Forall_forall.
Qed.

End audit.

(** The binary index against the B+ tree: databases opened with either index
    answer alike, except through snapshots, which only read B+ trees. *)

Section props.
Context `{Pickle} (order : nat) (Horder : (3 <= order)%nat).
#[local] Hint Extern 0 (Index bnode) => exact (bplus_index order) : typeclass_instances.
#[local] Hint Extern 0 (IndexSpec bnode) => exact (bplus_spec order Horder) : typeclass_instances.
#[local] Hint Extern 0 (Index binode) => exact binary_index : typeclass_instances.
#[local] Hint Extern 0 (IndexSpec binode) => exact binary_spec : typeclass_instances.

(** What fits the unbalanced tree fits the balanced one. *)
Lemma fit_both ops c : all_fit (N := binode) ops c -> all_fit (N := bnode) ops c.
Proof.
  revert c. induction ops as [|o ops IH]; intros c; [done|]. intros [Hf Hfs]. split; [|by apply IH].
  change (binary_fits (current_kvs (spec_exec o c).1)) in Hf. change (bplus_fits (current_kvs (spec_exec o c).1)).
  unfold binary_fits, bplus_fits, RECURSION_LIMIT in *. lia.
Qed.

(** C22: the two index engines are interchangeable.  Handles over a B+ tree and over
    a binary tree that represent the same contents give the same answers, errors
    included, to any sequence of lookups, writes, deletes, scans, length queries
    and commits, and end up representing the same contents, as long as no call
    fails on the disk and the table has fewer than 300 keys at every point: the
    binary tree is not balanced, and with more keys its recursion may reach the
    interpreter's limit. *)
Theorem engines_equivalent (ops : list op) (c : contents) (tb tb' : Tree bnode) (tn tn' : Tree binode) (rb rn : list (res answer)) :
  represents tb c -> represents tn c -> all_fit (N := binode) ops c ->
  run_ops ops tb = (tb', rb) -> run_ops ops tn = (tn', rn) ->
  Forall (fun r => ~ fatal r) rb -> Forall (fun r => ~ fatal r) rn ->
  rb = rn /\ exists c', represents tb' c' /\ represents tn' c'.
Proof.
  intros Hb Hn Hf Eb En Hob Hon.
  destruct (run_refines ops tb c tb' rb Hb (fit_both _ _ Hf) Eb Hob) as (-> & Hb' & _).
  destruct (run_refines ops tn c tn' rn Hn Hf En Hon) as (-> & Hn' & _). eauto.
Qed.

End props.

Section blind.
Context `{Pickle}.
#[local] Hint Extern 0 (Index binode) => exact binary_index : typeclass_instances.
#[local] Hint Extern 0 (IndexSpec binode) => exact binary_spec : typeclass_instances.

(** A record written by a binary tree is not a B+ tree node. *)
Lemma binary_record_foreign (b : bytes) n :
  binary.bytes_to_referent b = Ok n -> BPlusTree.bytes_to_referent b = Raise (KeyError (str "leaf")).
Proof.
  unfold binary.bytes_to_referent, BPlusTree.bytes_to_referent.
  destruct (loads b) as [[ks vs|ks cs|l k v r len]|]; by simpl.
Qed.

(** A snapshot of a database opened with the binary index finds nothing.
    [Snapshot] builds a [BPlusTree] whatever the index; reading a binary node's
    record raises [KeyError], which the lookup takes for a missing key, so every
    key looks absent although the database holds it. *)
Theorem binary_snapshot_blind (d d' : DBDB binode) (m : _Meta) (base kvs : kvlist) (path : pystr) (sn : Snapshot) (k : pystr) :
  handle (db_tree d) m base kvs -> db_path d = Some path -> storage.closed (dbdb.the_storage d) = false ->
  dbdb.take_snapshot d = (d', Ok sn) ->
  snapshot._raw (disk.durable_bytes (_f (dbdb.the_storage d'))) sn k = Ok None.
Proof.
  intros Hh Hp Hcl Hs. destruct (take_snapshot_run d m base kvs path Hh Hp Hcl) as (t' & sn' & E & Hh' & _ & Hr & _).
  rewrite E in Hs. injection Hs as <- <-. change (dbdb.the_storage _) with (_storage t').
  destruct Hh' as [Hj [Ht _] _ _ _]. unfold snapshot._raw, snapshot._root. rewrite Hr.
  set (file := disk.durable_bytes (_f (_storage t'))).
  assert (brep_root : exists t, brep (snapshot.view file sn') (Ref None (root_address m)) t).
  { destruct Ht as (t & _ & _ & Ht). exists t. eapply brep_extends; [|exact Ht]. apply keeps_extends.
    change (live (snapshot.view ?l sn')) with l. change (live (committed_image (_storage t') m)) with (committed file m).
    intros a p _ Hp'. unfold committed in Hp'. rewrite <- (take_drop (Z.to_nat (data_length m)) file). by apply record_at_app. }
  destruct brep_root as [[|l key v r] Hb].
  - simpl in Hb. injection Hb as ->. reflexivity.
  - destruct Hb as (lr & vr & rr & [[? _]|(_ & Ha & b & Hb & Hx)] & _); [done|]. cbn [address] in Ha, Hb.
    unfold follow, _follow, ref_get. cbn [referent address]. 
    rewrite (proj2 (Z.eqb_neq (root_address m) 0)) by (pose proof (rs_low_pos (S := Storage)); lia). rewrite Hb. cbn [mbind result_bind]. by rewrite (binary_record_foreign _ _ Hx).
Qed.

End blind.

(** * Witnesses *)

Section witnesses.
#[local] Instance witness_pickle : Pickle := bit_pickle.
#[local] Hint Extern 0 (Index bnode) => exact (bplus_index 3) : typeclass_instances.
#[local] Hint Extern 0 (Index binode) => exact binary_index : typeclass_instances.
#[local] Hint Extern 0 (IndexSpec binode) => exact binary_spec : typeclass_instances.

Definition ka : pystr := str "a".
Definition kb : pystr := str "b".
Definition va : bytes := [Byte.x31].
Definition bplus0 : Tree bnode := mkTree fresh (Ref None 0) 0.
Definition binary0 : Tree binode := mkTree fresh (Ref None 0) 0.
Definition script : list op := [OSet kb va; OSet ka va; ODelete kb; OGet kb; ORange None (Some kb); OLength].
Definition empty_contents : contents := {| committed_kvs := []; current_kvs := [] |}.

Lemma bplus_order3 : (3 <= 3)%nat.
Proof. lia. Qed.

Lemma null_handle {N} (I : Index N) (J : IndexSpec N) : ix_fits (N := N) [] -> handle (mkTree fresh (Ref None 0) 0) meta0 [] [].
Proof.
  intros Hf. split; try done.
  - exact fresh_journaled.
  - split; [apply ix_tree_null|done].
  - split; [apply ix_tree_null|done].
Qed.

Lemma engines_witness :
  (run_ops script bplus0).2 = (run_ops script binary0).2 /\
  (run_ops script binary0).2 = [Ok ADone; Ok ADone; Ok ADone; Raise (KeyError kb); Ok (AItems [(ka, Some va)]); Ok (ALength 1)].
Proof.
  split; [|vm_compute; reflexivity].
  apply (engines_equivalent 3 bplus_order3 script empty_contents bplus0 (run_ops script bplus0).1 binary0 (run_ops script binary0).1
    (run_ops script bplus0).2 (run_ops script binary0).2).
  - exists meta0. apply (null_handle (bplus_index 3) (bplus_spec 3 bplus_order3)). reflexivity.
  - exists meta0. apply (null_handle binary_index binary_spec). vm_compute. lia.
  - vm_compute. repeat split; lia.
  - apply surjective_pairing.
  - apply surjective_pairing.
  - vm_compute. repeat constructor; intros [E|E]; discriminate E.
  - vm_compute. repeat constructor; intros [E|E]; discriminate E.
Defined.

(** A binary database with one committed key. *)
Definition staged1 : Tree binode := (logical.set ka va binary0).1.
Definition binary1 : Tree binode := (logical.commit staged1).1.

Lemma binary1_handle : exists m, handle binary1 m [(ka, va)] [(ka, va)].
Proof.
  assert (handle binary0 meta0 [] []) as H0 by (apply (null_handle binary_index binary_spec); vm_compute; lia).
  destruct (set_spec binary0 meta0 [] [] ka va H0) as (t1 & E1 & H1 & _); [vm_compute; lia|].
  assert (staged1 = t1) as <- by (unfold staged1; by rewrite E1). change (kv_set ka va []) with [(ka, va)] in H1.
  assert ((logical.commit staged1).2 = Ok tt) as Ec by (vm_compute; reflexivity).
  destruct (commit_spec _ _ _ _ H1) as [(t2 & m & E2 & H2 & _)|[(t2 & E2 & _)|(t2 & E2 & _)]]; rewrite E2 in Ec; try discriminate Ec.
  exists m. unfold binary1. rewrite E2. exact H2.
Qed.

Lemma snapshot_blind_witness :
  let d := mkDBDB (Some (str "db")) binary1 0 in
  (logical.get ka binary1).2 = Ok (Some va) /\
  exists d' sn, dbdb.take_snapshot d = (d', Ok sn) /\ snapshot._raw (disk.durable_bytes (_f (dbdb.the_storage d'))) sn ka = Ok None.
Proof.
  intros d. split; [vm_compute; reflexivity|]. destruct binary1_handle as [m Hm].
  destruct (take_snapshot_run d m _ _ (str "db") Hm eq_refl) as (t' & sn & E & _).
  { vm_compute. reflexivity. }
  eexists _, sn. split; [exact E|].
  apply (binary_snapshot_blind d _ m [(ka, va)] [(ka, va)] (str "db") sn ka Hm eq_refl); [vm_compute; reflexivity|exact E].
Defined.

End witnesses.
