(* ===== verification/RaftLog.v ===== *)
(** The Raft messages and the persistent state of a node:
    [src/imustore/raft/messages.py] and [src/imustore/raft/log.py].

    Terms, indexes and node identifiers are Python integers; the log is
    1-indexed, index 0 being the position before the first entry.  Commands are
    the dictionaries the state machines understand. *)

From S2P Require Import Prelude PyBase.

(** * Python indexing *)

(** [l[i]]: a negative index counts from the end. *)
Definition py_index {A} (l : list A) (i : Z) : res A :=
  let j := if i <? 0 then i + Z.of_nat (length l) else i in
  if j <? 0 then Raise IndexError
  else match l !! Z.to_nat j with Some a => Ok a | None => Raise IndexError end.

Lemma py_index_in {A} (l : list A) (i : Z) (a : A) :
  0 <= i -> l !! Z.to_nat i = Some a -> py_index l i = Ok a.
Proof.
  intros Hi Ha. unfold py_index. rewrite (proj2 (Z.ltb_ge i 0)) by done.
  rewrite (proj2 (Z.ltb_ge i 0)) by done. by rewrite Ha.
Qed.

(** * [messages.py] *)

(** [{"op": "set", "key": key, "value": value}], [{"op": "del", "key": key}],
    [{"op": "noop"}], or [{"op": op}] alone, for any [op]: a [set] or [del] that
    lacks its fields too. *)
Inductive command (V : Type) : Type :=
| CmdSet (key : pystr) (value : V)
| CmdDel (key : pystr)
| CmdNoop
| CmdOther (op : pystr).
Arguments CmdSet {V} key value.
Arguments CmdDel {V} key.
Arguments CmdNoop {V}.
Arguments CmdOther {V} op.

Record LogEntry (V : Type) : Type := mkEntry {
  term : Z;
  cmd : command V
}.
Arguments mkEntry {V} term cmd.
Arguments term {V} l.
Arguments cmd {V} l.

(** The bodies of the four RPC messages, in the order of the source. *)
Inductive message (V : Type) : Type :=
| RequestVote (term candidate_id last_log_index last_log_term : Z)
| RequestVoteReply (term : Z) (vote_granted : bool)
| AppendEntries (term leader_id prev_log_index prev_log_term : Z)
    (entries : list (LogEntry V)) (leader_commit : Z)
| AppendEntriesReply (term : Z) (success : bool) (match_index : Z).
Arguments RequestVote {V} term candidate_id last_log_index last_log_term.
Arguments RequestVoteReply {V} term vote_granted.
Arguments AppendEntries {V} term leader_id prev_log_index prev_log_term entries leader_commit.
Arguments AppendEntriesReply {V} term success match_index.

Record Envelope (V : Type) : Type := mkEnvelope {
  src : Z;
  dst : Z;
  body : message V
}.
Arguments mkEnvelope {V} src dst body.
Arguments src {V} e.
Arguments dst {V} e.
Arguments body {V} e.

(** * [log.py] *)

(** The JSON document [save] writes. *)
Record raft_document (V : Type) : Type := mkDocument {
  p_current_term : Z;
  p_voted_for : option Z;
  p_entries : list (LogEntry V)
}.
Arguments mkDocument {V} p_current_term p_voted_for p_entries.
Arguments p_current_term {V} r.
Arguments p_voted_for {V} r.
Arguments p_entries {V} r.

(** [RaftLog]: its entries, the term and vote of the last [save], and its file:
    [None] when the log has no path, [Some None] when the file does not exist,
    [Some (Some p)] when it holds the document [p].  [save] replaces the file
    atomically, so no other contents are ever seen. *)
Record RaftLog (V : Type) : Type := mkLog {
  entries : list (LogEntry V);
  saved_term : Z;
  saved_vote : option Z;
  _file : option (option (raft_document V))
}.
Arguments mkLog {V} entries saved_term saved_vote _file.
Arguments entries {V} r.
Arguments saved_term {V} r.
Arguments saved_vote {V} r.
Arguments _file {V} r.

Module raftlog.
Section raftlog.
Context {V : Type}.
Implicit Types (l : RaftLog V) (e : LogEntry V).

(** [RaftLog(path)], with [_load] when the file exists. *)
Definition init (file : option (option (raft_document V))) : RaftLog V :=
  match file with
  | Some (Some p) => mkLog (p_entries p) (p_current_term p) (p_voted_for p) file
  | _ => mkLog [] 0 None file
  end.

Definition last_index l : Z := Z.of_nat (length (entries l)).

Definition last_term l : Z := match last (entries l) with Some e => term e | None => 0 end.

Definition term_at l (index : Z) : Z :=
  if index <=? 0 then 0
  else if Z.of_nat (length (entries l)) <? index then -1
  else match entries l !! Z.to_nat (index - 1) with Some e => term e | None => -1 end.

Definition get l (index : Z) : res (LogEntry V) := py_index (entries l) (index - 1).

Definition entries_from l (index : Z) : list (LogEntry V) := py_from (entries l) (Z.max (index - 1) 0).

Definition set_entries (es : list (LogEntry V)) l : RaftLog V := mkLog es (saved_term l) (saved_vote l) (_file l).

Definition append_new e l : RaftLog V * Z :=
  let l' := set_entries (entries l ++ [e]) l in (l', last_index l').

(** The loop of [append_from]: [index] is the position of the last entry looked
    at. *)
Fixpoint append_loop (index : Z) (new_entries : list (LogEntry V)) : St (RaftLog V) unit :=
  match new_entries with
  | [] => mret tt
  | entry :: rest =>
      l ← get_st;
      let index := index + 1 in
      (if index <=? last_index l then
         mine ← lift_res (py_index (entries l) (index - 1));
         if term mine =? term entry then mret tt
         else put_st (set_entries (py_upto (entries l) (index - 1) ++ [entry]) l)
       else put_st (set_entries (entries l ++ [entry]) l)) ;;
      append_loop index rest
  end.

Definition append_from (prev_index : Z) (new_entries : list (LogEntry V)) : St (RaftLog V) unit :=
  append_loop prev_index new_entries.

Definition save (current_term : Z) (voted_for : option Z) l : RaftLog V :=
  mkLog (entries l) current_term voted_for
    match _file l with
    | None => None
    | Some _ => Some (Some (mkDocument current_term voted_for (entries l)))
    end.

End raftlog.
End raftlog.

(** * Splicing *)

(** What [append_from] computes on the entries: the first conflicting entry
    cuts the log. *)
Fixpoint splice {V} (log new : list (LogEntry V)) : list (LogEntry V) :=
  match log, new with
  | _, [] => log
  | [], _ => new
  | m :: log', e :: new' => if term m =? term e then m :: splice log' new' else new
  end.

Section splice.
Context {V : Type}.
Implicit Types (log new pre es : list (LogEntry V)) (l : RaftLog V).

Lemma append_loop_splice new pre log l :
  entries l = pre ++ log ->
  raftlog.append_loop (Z.of_nat (length pre)) new l = (raftlog.set_entries (pre ++ splice log new) l, Ok tt).
Proof.
  revert pre log l. induction new as [|e new IH]; intros pre log l He; simpl.
  { destruct log; by destruct l; simpl in *; subst. }
  erewrite stx_bind_ok by reflexivity. unfold raftlog.last_index. rewrite He, length_app.
  replace (Z.of_nat (length pre) + 1) with (Z.of_nat (length (pre ++ [e]))) by (rewrite length_app; simpl; lia).
  destruct log as [|m log]; simpl.
  - rewrite (proj2 (Z.leb_gt _ _)) by (rewrite length_app; simpl; lia).
    erewrite stx_bind_ok by reflexivity.
    rewrite (IH (pre ++ [e]) []) by (simpl; by rewrite ?He, !app_nil_r).
    unfold raftlog.set_entries; simpl. rewrite <- app_assoc. by destruct new.
  - rewrite (proj2 (Z.leb_le _ _)) by (rewrite length_app; simpl; lia).
    replace (Z.of_nat (length (pre ++ [e])) - 1) with (Z.of_nat (length pre)) by (rewrite length_app; simpl; lia).
    rewrite (py_index_in _ _ m) by (rewrite ?Nat2Z.id; first [lia|by apply list_lookup_middle]).
    destruct (term m =? term e) eqn:Et.
    + erewrite stx_bind_ok by (run; by rewrite Et).
      replace (length (pre ++ [e])) with (length (pre ++ [m])) by (rewrite !length_app; done).
      rewrite (IH (pre ++ [m]) log) by (rewrite <- app_assoc; done). by rewrite <- app_assoc.
    + erewrite stx_bind_ok by (run; by rewrite Et).
      rewrite py_upto_nat, Nat2Z.id, take_app_length by lia.
      rewrite (IH (pre ++ [e]) []) by (simpl; by rewrite app_nil_r).
      unfold raftlog.set_entries; simpl. rewrite <- app_assoc. by destruct new.
Qed.

(** [append_from] keeps the entries up to [prev_index] and splices the new ones
    into the rest. *)
Lemma append_from_spec (prev : nat) new l :
  (prev <= length (entries l))%nat ->
  raftlog.append_from (Z.of_nat prev) new l =
    (raftlog.set_entries (take prev (entries l) ++ splice (drop prev (entries l)) new) l, Ok tt).
Proof.
  intros Hp. unfold raftlog.append_from.
  rewrite <- (append_loop_splice new (take prev (entries l)) (drop prev (entries l)) l) by (by rewrite take_drop).
  by rewrite length_take_le.
Qed.

End splice.
