(* ===== verification/RaftNode.v ===== *)
(** A Raft node: [src/imustore/raft/node.py].

    The node reads no clock and performs no input or output: it is driven by
    [tick], [step] and [propose], which return the messages to send.  Its random
    numbers come from a generator and committed commands go to a state machine;
    both are interfaces here. *)

From S2P Require Import Prelude PyBase RaftLog.

(** * Interfaces *)

(** [random.Random]: only [randint] is used. *)
Class Rng := {
  rng : Type;
  randint : Z -> Z -> rng -> Z * rng
}.

(** Its documented range. *)
Class RngLaws `{Rng} := {
  randint_range lo hi g : lo <= hi -> lo <= (randint lo hi g).1 <= hi
}.

(** The object whose [apply] method the node calls with each committed command,
    and which knows how far it got. *)
Class StateMachine (V SM : Type) := {
  sm_apply : Z -> command V -> St SM unit;
  sm_applied_index : St SM Z
}.

(** The exceptions of a node's methods: [NotLeaderError], a [KeyError] on one of
    its dictionaries of peers, or an exception of another component; and the
    simulator's [NoLeaderError]. *)
Inductive raft_exn : Type :=
| NotLeaderError (leader_id : option Z)
| NoLeaderError
| PeerKeyError (peer : Z)
| PyError (e : exn).

(** * The node *)

Inductive Role : Type := FOLLOWER | CANDIDATE | LEADER.

#[global] Instance Role_eq_dec : EqDecision Role.
Proof. solve_decision. Defined.

Record RaftConfig : Type := mkConfig {
  election_timeout_min : Z;
  election_timeout_max : Z;
  heartbeat_interval : Z
}.

Definition default_config : RaftConfig := mkConfig 10 20 3.

Record RaftNode (V SM : Type) `{Rng} : Type := mkNode {
  node_id : Z;
  peers : list Z;
  cluster_size : Z;
  config : RaftConfig;
  log : RaftLog V;
  machine : SM;
  _rng : rng;
  current_term : Z;
  voted_for : option Z;
  role : Role;
  leader_id : option Z;
  commit_index : Z;
  last_applied : Z;
  votes : gset Z;
  next_index : gmap Z Z;
  match_index : gmap Z Z;
  election_elapsed : Z;
  heartbeat_elapsed : Z;
  election_timeout : Z;
  _outbox : list (Envelope V)
}.
Arguments node_id {V SM H} r.
Arguments peers {V SM H} r.
Arguments cluster_size {V SM H} r.
Arguments config {V SM H} r.
Arguments log {V SM H} r.
Arguments machine {V SM H} r.
Arguments _rng {V SM H} r.
Arguments current_term {V SM H} r.
Arguments voted_for {V SM H} r.
Arguments role {V SM H} r.
Arguments leader_id {V SM H} r.
Arguments commit_index {V SM H} r.
Arguments last_applied {V SM H} r.
Arguments votes {V SM H} r.
Arguments next_index {V SM H} r.
Arguments match_index {V SM H} r.
Arguments election_elapsed {V SM H} r.
Arguments heartbeat_elapsed {V SM H} r.
Arguments election_timeout {V SM H} r.
Arguments _outbox {V SM H} r.
Arguments mkNode {V SM H} node_id peers cluster_size config log machine _rng current_term voted_for role leader_id commit_index last_applied votes next_index match_index election_elapsed heartbeat_elapsed election_timeout _outbox.

Module node.
Section node.
Context `{Rng} {V SM : Type} `{StateMachine V SM}.
Implicit Types (n : RaftNode V SM).

(** ** Assignments to the attributes *)

Definition set_log (x : RaftLog V) n : RaftNode V SM :=
  mkNode (node_id n) (peers n) (cluster_size n) (config n) x (machine n) (_rng n) (current_term n) (voted_for n) (role n) (leader_id n) (commit_index n) (last_applied n) (votes n) (next_index n) (match_index n) (election_elapsed n) (heartbeat_elapsed n) (election_timeout n) (_outbox n).
Definition set_machine (x : SM) n : RaftNode V SM :=
  mkNode (node_id n) (peers n) (cluster_size n) (config n) (log n) x (_rng n) (current_term n) (voted_for n) (role n) (leader_id n) (commit_index n) (last_applied n) (votes n) (next_index n) (match_index n) (election_elapsed n) (heartbeat_elapsed n) (election_timeout n) (_outbox n).
Definition set_rng (x : rng) n : RaftNode V SM :=
  mkNode (node_id n) (peers n) (cluster_size n) (config n) (log n) (machine n) x (current_term n) (voted_for n) (role n) (leader_id n) (commit_index n) (last_applied n) (votes n) (next_index n) (match_index n) (election_elapsed n) (heartbeat_elapsed n) (election_timeout n) (_outbox n).
Definition set_current_term (x : Z) n : RaftNode V SM :=
  mkNode (node_id n) (peers n) (cluster_size n) (config n) (log n) (machine n) (_rng n) x (voted_for n) (role n) (leader_id n) (commit_index n) (last_applied n) (votes n) (next_index n) (match_index n) (election_elapsed n) (heartbeat_elapsed n) (election_timeout n) (_outbox n).
Definition set_voted_for (x : option Z) n : RaftNode V SM :=
  mkNode (node_id n) (peers n) (cluster_size n) (config n) (log n) (machine n) (_rng n) (current_term n) x (role n) (leader_id n) (commit_index n) (last_applied n) (votes n) (next_index n) (match_index n) (election_elapsed n) (heartbeat_elapsed n) (election_timeout n) (_outbox n).
Definition set_role (x : Role) n : RaftNode V SM :=
  mkNode (node_id n) (peers n) (cluster_size n) (config n) (log n) (machine n) (_rng n) (current_term n) (voted_for n) x (leader_id n) (commit_index n) (last_applied n) (votes n) (next_index n) (match_index n) (election_elapsed n) (heartbeat_elapsed n) (election_timeout n) (_outbox n).
Definition set_leader_id (x : option Z) n : RaftNode V SM :=
  mkNode (node_id n) (peers n) (cluster_size n) (config n) (log n) (machine n) (_rng n) (current_term n) (voted_for n) (role n) x (commit_index n) (last_applied n) (votes n) (next_index n) (match_index n) (election_elapsed n) (heartbeat_elapsed n) (election_timeout n) (_outbox n).
Definition set_commit_index (x : Z) n : RaftNode V SM :=
  mkNode (node_id n) (peers n) (cluster_size n) (config n) (log n) (machine n) (_rng n) (current_term n) (voted_for n) (role n) (leader_id n) x (last_applied n) (votes n) (next_index n) (match_index n) (election_elapsed n) (heartbeat_elapsed n) (election_timeout n) (_outbox n).
Definition set_last_applied (x : Z) n : RaftNode V SM :=
  mkNode (node_id n) (peers n) (cluster_size n) (config n) (log n) (machine n) (_rng n) (current_term n) (voted_for n) (role n) (leader_id n) (commit_index n) x (votes n) (next_index n) (match_index n) (election_elapsed n) (heartbeat_elapsed n) (election_timeout n) (_outbox n).
Definition set_votes (x : gset Z) n : RaftNode V SM :=
  mkNode (node_id n) (peers n) (cluster_size n) (config n) (log n) (machine n) (_rng n) (current_term n) (voted_for n) (role n) (leader_id n) (commit_index n) (last_applied n) x (next_index n) (match_index n) (election_elapsed n) (heartbeat_elapsed n) (election_timeout n) (_outbox n).
Definition set_next_index (x : gmap Z Z) n : RaftNode V SM :=
  mkNode (node_id n) (peers n) (cluster_size n) (config n) (log n) (machine n) (_rng n) (current_term n) (voted_for n) (role n) (leader_id n) (commit_index n) (last_applied n) (votes n) x (match_index n) (election_elapsed n) (heartbeat_elapsed n) (election_timeout n) (_outbox n).
Definition set_match_index (x : gmap Z Z) n : RaftNode V SM :=
  mkNode (node_id n) (peers n) (cluster_size n) (config n) (log n) (machine n) (_rng n) (current_term n) (voted_for n) (role n) (leader_id n) (commit_index n) (last_applied n) (votes n) (next_index n) x (election_elapsed n) (heartbeat_elapsed n) (election_timeout n) (_outbox n).
Definition set_election_elapsed (x : Z) n : RaftNode V SM :=
  mkNode (node_id n) (peers n) (cluster_size n) (config n) (log n) (machine n) (_rng n) (current_term n) (voted_for n) (role n) (leader_id n) (commit_index n) (last_applied n) (votes n) (next_index n) (match_index n) x (heartbeat_elapsed n) (election_timeout n) (_outbox n).
Definition set_heartbeat_elapsed (x : Z) n : RaftNode V SM :=
  mkNode (node_id n) (peers n) (cluster_size n) (config n) (log n) (machine n) (_rng n) (current_term n) (voted_for n) (role n) (leader_id n) (commit_index n) (last_applied n) (votes n) (next_index n) (match_index n) (election_elapsed n) x (election_timeout n) (_outbox n).
Definition set_election_timeout (x : Z) n : RaftNode V SM :=
  mkNode (node_id n) (peers n) (cluster_size n) (config n) (log n) (machine n) (_rng n) (current_term n) (voted_for n) (role n) (leader_id n) (commit_index n) (last_applied n) (votes n) (next_index n) (match_index n) (election_elapsed n) (heartbeat_elapsed n) x (_outbox n).
Definition set_outbox (x : list (Envelope V)) n : RaftNode V SM :=
  mkNode (node_id n) (peers n) (cluster_size n) (config n) (log n) (machine n) (_rng n) (current_term n) (voted_for n) (role n) (leader_id n) (commit_index n) (last_applied n) (votes n) (next_index n) (match_index n) (election_elapsed n) (heartbeat_elapsed n) (election_timeout n) x.

Abbreviation NodeM A := (stx raft_exn (RaftNode V SM) A).

(** A call on another object, its exceptions passed through. *)
Definition py_res {A} (r : res A) : result raft_exn A :=
  match r with Ok a => Ok a | Raise e => Raise (PyError e) end.
Definition on_log {A} (m : St (RaftLog V) A) : NodeM A :=
  fun n => let '(l, r) := m (log n) in (set_log l n, py_res r).
Definition on_machine {A} (m : St SM A) : NodeM A :=
  fun n => let '(m, r) := m (machine n) in (set_machine m n, py_res r).

(** ** Helpers *)

Definition _has_majority n (count : Z) : bool := cluster_size n / 2 + 1 <=? count.

Definition _reset_election_timer : NodeM unit :=
  modify (fun n =>
    let n := set_election_elapsed 0 n in
    let '(t, g) := randint (election_timeout_min (config n)) (election_timeout_max (config n)) (_rng n) in
    set_election_timeout t (set_rng g n)).

Definition _persist : NodeM unit :=
  modify (fun n => set_log (raftlog.save (current_term n) (voted_for n) (log n)) n).

Definition _send (to : Z) (b : message V) : NodeM unit :=
  modify (fun n => set_outbox (_outbox n ++ [mkEnvelope (node_id n) to b]) n).

Definition _drain : NodeM (list (Envelope V)) :=
  n ← get_st; put_st (set_outbox [] n) ;; mret (_outbox n).

(** [self.next_index[peer]] *)
Definition get_next_index (peer : Z) : NodeM Z :=
  n ← get_st;
  match next_index n !! peer with Some i => mret i | None => raise (PeerKeyError peer) end.

(** [for peer in self.peers: f(peer)] *)
Fixpoint for_peers (f : Z -> NodeM unit) (ps : list Z) : NodeM unit :=
  match ps with
  | [] => mret tt
  | p :: ps => f p ;; for_peers f ps
  end.

(** ** Applying committed entries *)

(** The [while] loop of [_apply] runs once per entry between [last_applied] and
    [commit_index]. *)
Fixpoint apply_loop (fuel : nat) : NodeM unit :=
  match fuel with
  | O => mret tt
  | S fuel =>
      n ← get_st;
      if last_applied n <? commit_index n then
        let i := last_applied n + 1 in
        modify (set_last_applied i) ;;
        entry ← lift_res (py_res (raftlog.get (log n) i));
        on_machine (sm_apply i (cmd entry)) ;;
        apply_loop fuel
      else mret tt
  end.

Definition _apply : NodeM unit :=
  n ← get_st; apply_loop (Z.to_nat (commit_index n - last_applied n)).

(** ** Log replication: the leader's side *)

Definition _send_append_to (peer : Z) : NodeM unit :=
  i ← get_next_index peer;
  n ← get_st;
  let prev_index := i - 1 in
  _send peer (AppendEntries (current_term n) (node_id n) prev_index (raftlog.term_at (log n) prev_index)
                (raftlog.entries_from (log n) (prev_index + 1)) (commit_index n)).

Definition _broadcast_append : NodeM unit := n ← get_st; for_peers _send_append_to (peers n).

(** [1 + sum(1 for peer in self.peers if self.match_index.get(peer, 0) >= index)] *)
Definition replicas n (index : Z) : Z :=
  1 + Z.of_nat (length (base.filter (fun p => index <= default 0 (match_index n !! p)) (peers n))).

(** [range(hi, lo, -1)] *)
Definition range_down (hi lo : Z) : list Z :=
  (fun k => hi - Z.of_nat k) <$> seq 0 (Z.to_nat (hi - lo)).

Fixpoint advance_loop (indexes : list Z) : NodeM unit :=
  match indexes with
  | [] => mret tt
  | index :: rest =>
      n ← get_st;
      if negb (raftlog.term_at (log n) index =? current_term n) then advance_loop rest
      else if _has_majority n (replicas n index) then
        modify (set_commit_index index) ;; _apply
      else advance_loop rest
  end.

Definition _maybe_advance_commit : NodeM unit :=
  n ← get_st; advance_loop (range_down (raftlog.last_index (log n)) (commit_index n)).

(** ** Elections *)

Definition append_entry (c : command V) : NodeM Z :=
  n ← get_st;
  let '(l, index) := raftlog.append_new (mkEntry (current_term n) c) (log n) in
  put_st (set_log l n) ;; mret index.

Definition _become_leader : NodeM unit :=
  modify (fun n =>
    let n := set_leader_id (Some (node_id n)) (set_role LEADER n) in
    let n := set_next_index (list_to_map ((fun p => (p, raftlog.last_index (log n) + 1)) <$> peers n)) n in
    let n := set_match_index (list_to_map ((fun p => (p, 0)) <$> peers n)) n in
    set_heartbeat_elapsed 0 n) ;;
  append_entry CmdNoop ;;
  _persist ;;
  _broadcast_append ;;
  _maybe_advance_commit.

Definition _become_follower (t : Z) : NodeM unit :=
  modify (set_role FOLLOWER) ;;
  n ← get_st;
  (if current_term n <? t then modify (fun n => set_voted_for None (set_current_term t n)) else mret tt) ;;
  modify (set_leader_id None) ;;
  _reset_election_timer ;;
  _persist.

Definition _become_candidate : NodeM unit :=
  modify (fun n =>
    let n := set_current_term (current_term n + 1) (set_role CANDIDATE n) in
    let n := set_leader_id None (set_voted_for (Some (node_id n)) n) in
    set_votes {[ node_id n ]} n) ;;
  _reset_election_timer ;;
  _persist ;;
  n ← get_st;
  if _has_majority n (Z.of_nat (size (votes n))) then _become_leader
  else
    for_peers (fun p =>
      n ← get_st;
      _send p (RequestVote (current_term n) (node_id n) (raftlog.last_index (log n)) (raftlog.last_term (log n))))
      (peers n).

Definition _handle_request_vote (from t candidate_id last_log_index last_log_term : Z) : NodeM unit :=
  n ← get_st;
  if t <? current_term n then _send from (RequestVoteReply (current_term n) false)
  else
    (if current_term n <? t then _become_follower t else mret tt) ;;
    n ← get_st;
    let log_ok := (raftlog.last_term (log n) <? last_log_term) ||
      ((last_log_term =? raftlog.last_term (log n)) && (raftlog.last_index (log n) <=? last_log_index)) in
    if bool_decide (voted_for n = None \/ voted_for n = Some candidate_id) && log_ok then
      modify (set_voted_for (Some candidate_id)) ;;
      _reset_election_timer ;;
      _persist ;;
      n ← get_st;
      _send from (RequestVoteReply (current_term n) true)
    else _send from (RequestVoteReply (current_term n) false).

Definition _handle_request_vote_reply (from t : Z) (vote_granted : bool) : NodeM unit :=
  n ← get_st;
  if current_term n <? t then _become_follower t
  else if bool_decide (role n <> CANDIDATE) || (t <? current_term n) then mret tt
  else if vote_granted then
    modify (fun n => set_votes ({[ from ]} ∪ votes n) n) ;;
    n ← get_st;
    if _has_majority n (Z.of_nat (size (votes n))) then _become_leader else mret tt
  else mret tt.

(** ** Log replication: the follower's side and the replies *)

Definition _handle_append_entries (from t leader prev_log_index prev_log_term : Z)
    (new_entries : list (LogEntry V)) (leader_commit : Z) : NodeM unit :=
  n ← get_st;
  if t <? current_term n then
    _send from (AppendEntriesReply (current_term n) false (raftlog.last_index (log n)))
  else
    (if current_term n <? t then _become_follower t else mret tt) ;;
    modify (fun n => set_leader_id (Some leader) (set_role FOLLOWER n)) ;;
    _reset_election_timer ;;
    n ← get_st;
    if (raftlog.last_index (log n) <? prev_log_index) ||
       negb (raftlog.term_at (log n) prev_log_index =? prev_log_term) then
      _send from (AppendEntriesReply (current_term n) false (raftlog.last_index (log n)))
    else
      on_log (raftlog.append_from prev_log_index new_entries) ;;
      let new_last := prev_log_index + Z.of_nat (length new_entries) in
      n ← get_st;
      (if commit_index n <? leader_commit then
         modify (set_commit_index (Z.min leader_commit new_last)) ;; _apply
       else mret tt) ;;
      _persist ;;
      n ← get_st;
      _send from (AppendEntriesReply (current_term n) true new_last).

Definition _handle_append_entries_reply (from t : Z) (success : bool) (matched : Z) : NodeM unit :=
  n ← get_st;
  if current_term n <? t then _become_follower t
  else if bool_decide (role n <> LEADER) || (t <? current_term n) then mret tt
  else if success then
    modify (fun n => set_next_index (<[from := matched + 1]> (next_index n))
                       (set_match_index (<[from := matched]> (match_index n)) n)) ;;
    _maybe_advance_commit
  else
    i ← get_next_index from;
    modify (fun n => set_next_index (<[from := Z.max 1 (Z.min (i - 1) (matched + 1))]> (next_index n)) n) ;;
    _send_append_to from.

(** ** The driving interface *)

(** [RaftNode(node_id, peers, apply, log, rng, config, last_applied)] *)
Definition init (id : Z) (ps : list Z) (m : SM) (l : RaftLog V) (g : rng) (c : RaftConfig) (applied : Z) :
    RaftNode V SM :=
  let '(t, g) := randint (election_timeout_min c) (election_timeout_max c) g in
  mkNode id ps (Z.of_nat (length ps) + 1) c l m g
    (saved_term l) (saved_vote l) FOLLOWER None 0 applied ∅ ∅ ∅ 0 0 t [].

Definition tick : NodeM (list (Envelope V)) :=
  modify (set_outbox []) ;;
  n ← get_st;
  (if bool_decide (role n = LEADER) then
     let e := heartbeat_elapsed n + 1 in
     if heartbeat_interval (config n) <=? e then
       modify (set_heartbeat_elapsed 0) ;; _broadcast_append
     else modify (set_heartbeat_elapsed e)
   else
     let e := election_elapsed n + 1 in
     modify (set_election_elapsed e) ;;
     if election_timeout n <=? e then _become_candidate else mret tt) ;;
  _drain.

Definition step (env : Envelope V) : NodeM (list (Envelope V)) :=
  modify (set_outbox []) ;;
  (match body env with
   | RequestVote t c i lt => _handle_request_vote (src env) t c i lt
   | RequestVoteReply t g => _handle_request_vote_reply (src env) t g
   | AppendEntries t l pi pt es lc => _handle_append_entries (src env) t l pi pt es lc
   | AppendEntriesReply t s m => _handle_append_entries_reply (src env) t s m
   end) ;;
  _drain.

Definition propose (c : command V) : NodeM (Z * list (Envelope V)) :=
  n ← get_st;
  if bool_decide (role n <> LEADER) then raise (NotLeaderError (leader_id n))
  else
    modify (set_outbox []) ;;
    index ← append_entry c;
    _persist ;;
    _broadcast_append ;;
    _maybe_advance_commit ;;
    out ← _drain;
    mret (index, out).

Definition is_leader n : bool := bool_decide (role n = LEADER).

End node.
End node.
