(* ===== verification/RaftAbstract.v ===== *)
(** The Raft protocol, abstractly.

    One node is a [core] (its term, vote, role, log and indexes) and the whole
    history is a [ghost]: the candidacies, the votes, the elections with the log
    of each elected leader, and the acknowledgements.  A node takes an [astep],
    which may read and extend the history.  Messages do not appear: what a
    message of the implementation says is a fact about the history, and facts
    about the history are never withdrawn.

    Log positions are natural numbers here: [take k l] is the log up to index
    [k]. *)

From S2P Require Import Prelude PyBase RaftLog RaftNode.

(** * Data *)

Section data.
Context (V : Type).

Record core : Type := mkCore {
  c_term : Z;
  c_vote : option Z;
  c_role : Role;
  c_log : list (LogEntry V);
  c_votes : gset Z;
  c_match : Z -> nat;
  c_commit : nat;
  c_applied : nat
}.

(** A node asked for votes in a term, with this log. *)
Record candidacy : Type := mkCandidacy {
  cd_term : Z;
  cd_id : Z;
  cd_log : list (LogEntry V)
}.

(** A node voted, having this log; [v_early] when the term had no leader yet. *)
Record vote : Type := mkVote {
  v_term : Z;
  v_voter : Z;
  v_cand : Z;
  v_log : list (LogEntry V);
  v_early : bool
}.

(** The election of a term: the leader, its log when elected, its voters, and
    its log as far as it extended it in that term. *)
Record election : Type := mkElection {
  e_leader : Z;
  e_elog : list (LogEntry V);
  e_quorum : gset Z;
  e_tlog : list (LogEntry V)
}.

(** A node confirmed to hold the leader's log of a term up to an index. *)
Record ack : Type := mkAck {
  k_term : Z;
  k_node : Z;
  k_index : nat
}.

Record ghost : Type := mkGhost {
  g_cands : list candidacy;
  g_votes : list vote;
  g_acks : list ack;
  g_elect : gmap Z election
}.

End data.

Arguments mkCore {V} c_term c_vote c_role c_log c_votes c_match c_commit c_applied.
Arguments c_term {V} c.
Arguments c_vote {V} c.
Arguments c_role {V} c.
Arguments c_log {V} c.
Arguments c_votes {V} c.
Arguments c_match {V} c _.
Arguments c_commit {V} c.
Arguments c_applied {V} c.
Arguments mkCandidacy {V} cd_term cd_id cd_log.
Arguments cd_term {V} c.
Arguments cd_id {V} c.
Arguments cd_log {V} c.
Arguments mkVote {V} v_term v_voter v_cand v_log v_early.
Arguments v_term {V} v.
Arguments v_voter {V} v.
Arguments v_cand {V} v.
Arguments v_log {V} v.
Arguments v_early {V} v.
Arguments mkElection {V} e_leader e_elog e_quorum e_tlog.
Arguments e_leader {V} e.
Arguments e_elog {V} e.
Arguments e_quorum {V} e.
Arguments e_tlog {V} e.
Arguments mkGhost {V} g_cands g_votes g_acks g_elect.
Arguments g_cands {V} g.
Arguments g_votes {V} g.
Arguments g_acks {V} g.
Arguments g_elect {V} g.

(** * Logs and quorums *)

Section facts.
Context {V : Type} (ids : gset Z).
Implicit Types (g : ghost V) (L : list (LogEntry V)) (c : core V) (e : election V).

Definition majority (Q : gset Z) : Prop := (size ids / 2 < size Q)%nat.

Lemma quorum_intersect Q1 Q2 :
  Q1 ⊆ ids -> Q2 ⊆ ids -> majority Q1 -> majority Q2 -> exists v, v ∈ Q1 /\ v ∈ Q2.
Proof.
  unfold majority. intros H1 H2 M1 M2. destruct (decide (Q1 ∩ Q2 = ∅)) as [E|E].
  - exfalso. assert (size (Q1 ∪ Q2) = size Q1 + size Q2)%nat as Hs by (apply size_union; set_solver).
    assert (size (Q1 ∪ Q2) <= size ids)%nat as Hle by (apply subseteq_size; set_solver).
    pose proof (Nat.div_mod_eq (size ids) 2). pose proof (Nat.mod_upper_bound (size ids) 2). lia.
  - apply set_choose_L in E as [v Hv]. exists v. set_solver.
Qed.

(** The term of the entry at index [k]; 0 before the first entry. *)
Definition pos_term L (k : nat) : Z :=
  match k with O => 0 | S k => match L !! k with Some x => term x | None => -1 end end.

Definition log_last_term L : Z := match last L with Some x => term x | None => 0 end.

(** A candidate's log is at least as up to date as a voter's. *)
Definition up_to_date (cand voter : list (LogEntry V)) : Prop :=
  log_last_term voter < log_last_term cand \/
  (log_last_term cand = log_last_term voter /\ (length voter <= length cand)%nat).

(** Every entry was made by the leader of its term, and the log up to it is that
    leader's. *)
Definition logged g L : Prop :=
  forall k x, L !! k = Some x ->
    exists e, g_elect g !! term x = Some e /\ take (S k) L = take (S k) (e_tlog e).

(** A majority confirmed the entry at index [k], made in term [t]. *)
Definition committed g (t : Z) (k : nat) : Prop :=
  exists e Q, g_elect g !! t = Some e /\ pos_term (e_tlog e) k = t /\
    Q ⊆ ids /\ majority Q /\ forall v, v ∈ Q -> exists m, (k <= m)%nat /\ mkAck t v m ∈ g_acks g.

(** The first [k] entries of [L] are committed, by a leader of term at most
    [t]. *)
Definition covered g (t : Z) L (k : nat) : Prop :=
  k = O \/ exists t0 k0 e0, t0 <= t /\ committed g t0 k0 /\ g_elect g !! t0 = Some e0 /\
    (k <= k0)%nat /\ take k L = take k (e_tlog e0).

(** [L] still agrees with the leader of [t] up to [k], unless a later leader, of
    term at most [b], did not. *)
Definition kept g (t : Z) (k : nat) L (b : Z) : Prop :=
  forall e, g_elect g !! t = Some e -> take k L = take k (e_tlog e) \/
    exists t' e', t < t' <= b /\ g_elect g !! t' = Some e' /\ take k (e_elog e') <> take k (e_tlog e).

(** * Invariants *)

Record ghost_ok g : Prop := {
  go_vote_unique x y : x ∈ g_votes g -> y ∈ g_votes g ->
    v_term x = v_term y -> v_voter x = v_voter y -> v_cand x = v_cand y;
  go_cand_unique d d' : d ∈ g_cands g -> d' ∈ g_cands g ->
    cd_term d = cd_term d' -> cd_id d = cd_id d' -> cd_log d = cd_log d';
  go_cand d : d ∈ g_cands g -> 1 <= cd_term d /\ cd_id d ∈ ids /\ logged g (cd_log d) /\
    forall x, x ∈ cd_log d -> term x < cd_term d;
  go_vote x : x ∈ g_votes g -> v_voter x ∈ ids /\ logged g (v_log x) /\
    exists d, d ∈ g_cands g /\ cd_term d = v_term x /\ cd_id d = v_cand x /\ up_to_date (cd_log d) (v_log x);
  go_early x : x ∈ g_votes g -> g_elect g !! v_term x = None -> v_early x = true;
  go_kept x a k : x ∈ g_votes g -> v_early x = true -> a ∈ g_acks g -> k_node a = v_voter x ->
    k_term a < v_term x -> (k <= k_index a)%nat -> kept g (k_term a) k (v_log x) (v_term x - 1);
  go_elect t e : g_elect g !! t = Some e ->
    mkCandidacy t (e_leader e) (e_elog e) ∈ g_cands g /\ e_quorum e ⊆ ids /\ majority (e_quorum e) /\
    (forall v, v ∈ e_quorum e -> exists x, x ∈ g_votes g /\ v_early x = true /\
       v_term x = t /\ v_voter x = v /\ v_cand x = e_leader e) /\
    (exists new, e_tlog e = e_elog e ++ new /\ forall x, x ∈ new -> term x = t) /\
    logged g (e_tlog e);
  go_ack a : a ∈ g_acks g -> k_node a ∈ ids /\
    exists e, g_elect g !! k_term a = Some e /\ (k_index a <= length (e_tlog e))%nat
}.

Record node_ok g (i : Z) c : Prop := {
  no_term : 0 <= c_term c;
  no_vote x : x ∈ g_votes g -> v_voter x = i ->
    v_term x <= c_term c /\ (v_term x = c_term c -> c_vote c = Some (v_cand x));
  no_cand d : d ∈ g_cands g -> cd_id d = i -> cd_term d <= c_term c;
  no_elect t e : g_elect g !! t = Some e -> e_leader e = i -> t <= c_term c;
  no_ack a : a ∈ g_acks g -> k_node a = i -> k_term a <= c_term c /\
    forall k, (k <= k_index a)%nat -> kept g (k_term a) k (c_log c) (c_term c);
  no_candidate : c_role c = CANDIDATE ->
    mkCandidacy (c_term c) i (c_log c) ∈ g_cands g /\
    (forall e, g_elect g !! c_term c = Some e -> e_leader e <> i) /\ c_votes c ⊆ ids /\
    forall v, v ∈ c_votes c -> exists x, x ∈ g_votes g /\ v_term x = c_term c /\ v_voter x = v /\ v_cand x = i;
  no_leader : c_role c = LEADER -> exists e, g_elect g !! c_term c = Some e /\ e_leader e = i /\
    e_tlog e = c_log c /\ mkAck (c_term c) i (length (c_log c)) ∈ g_acks g /\
    forall p, (0 < c_match c p)%nat -> mkAck (c_term c) p (c_match c p) ∈ g_acks g;
  no_log : logged g (c_log c);
  no_terms x : x ∈ c_log c -> term x <= c_term c;
  no_commit : covered g (c_term c) (c_log c) (Nat.max (c_commit c) (c_applied c))
}.

(** * Extension of the history *)

(** What stays true of the history. *)
Record g_le g g' : Prop := {
  le_cands d : d ∈ g_cands g -> d ∈ g_cands g';
  le_votes x : x ∈ g_votes g -> x ∈ g_votes g';
  le_acks a : a ∈ g_acks g -> a ∈ g_acks g';
  le_elect t e : g_elect g !! t = Some e -> exists e', g_elect g' !! t = Some e' /\
    e_leader e' = e_leader e /\ e_elog e' = e_elog e /\ e_quorum e' = e_quorum e /\
    e_tlog e `prefix_of` e_tlog e'
}.

(** What node [i] adds to the history is about itself. *)
Record g_by (i : Z) g g' : Prop := {
  by_le : g_le g g';
  by_cands d : d ∈ g_cands g' -> d ∈ g_cands g \/ cd_id d = i;
  by_votes x : x ∈ g_votes g' -> x ∈ g_votes g \/ v_voter x = i;
  by_acks a : a ∈ g_acks g' -> a ∈ g_acks g \/ k_node a = i;
  by_elect t e' : g_elect g' !! t = Some e' -> e_leader e' = i \/ g_elect g !! t = Some e'
}.

End facts.
