(* ===== verification/RaftHistory.v ===== *)
(** Facts about histories: what an extension preserves, agreement of logs, and
    leader completeness. *)

From S2P Require Import Prelude PyBase RaftLog RaftNode RaftAbstract.

(** * Prefixes of logs *)

Section prefixes.
Context {A : Type}.
Implicit Types l : list A.

Lemma take_prefix l l' k : l `prefix_of` l' -> (k <= length l)%nat -> take k l' = take k l.
Proof. intros [r ->] Hk. by rewrite take_app_le. Qed.

Lemma take_le_eq l l' j k : (j <= k)%nat -> take k l = take k l' -> take j l = take j l'.
Proof. intros Hj E. rewrite <- (Nat.min_l j k), <- !take_take by done. by rewrite E. Qed.

Lemma take_length_ge l l' k : take k l = take k l' -> (k <= length l')%nat -> (k <= length l)%nat.
Proof. intros E Hk. apply (f_equal length) in E. rewrite !length_take in E. lia. Qed.

Lemma take_lookup_eq l l' k j : take k l = take k l' -> (j < k)%nat -> l !! j = l' !! j.
Proof. intros E Hj. rewrite <- (lookup_take_lt l k j), <- (lookup_take_lt l' k j) by done. by rewrite E. Qed.

Lemma take_prefix_le l j k : (j <= k)%nat -> take j l `prefix_of` take k l.
Proof. intros Hj. rewrite <- (Nat.min_l j k), <- take_take by done. apply prefix_take. Qed.

End prefixes.

(** * Monotonicity *)

Section history.
Context {V : Type} (ids : gset Z).
Implicit Types (g : ghost V) (L : list (LogEntry V)) (c : core V) (e : election V).

Lemma g_le_refl g : g_le g g.
Proof. split; try done. intros t e He. by exists e. Qed.

Lemma g_le_trans g1 g2 g3 : g_le g1 g2 -> g_le g2 g3 -> g_le g1 g3.
Proof.
  intros H1 H2. split.
  - intros d Hd. by apply H2, H1.
  - intros d Hd. by apply H2, H1.
  - intros d Hd. by apply H2, H1.
  - intros t e He. apply H1 in He as (e1 & He & ? & ? & ? & ?). apply H2 in He as (e2 & ? & ? & ? & ? & ?).
    exists e2. split_and!; [done|congruence..|by etrans].
Qed.

Lemma logged_le g g' L : g_le g g' -> logged g L -> logged g' L.
Proof.
  intros Hle HL k x Hx. destruct (HL k x Hx) as (e & He & Et).
  apply Hle in He as (e' & He' & _ & _ & _ & Hp). exists e'. split; [done|].
  rewrite Et. symmetry. apply take_prefix; [done|].
  eapply take_length_ge; [symmetry; exact Et|]. by apply lookup_lt_Some in Hx.
Qed.

Lemma logged_prefix g L L' : L' `prefix_of` L -> logged g L -> logged g L'.
Proof.
  intros Hp HL k x Hx. destruct (HL k x) as (e & He & Et); [by eapply prefix_lookup_Some|].
  exists e. split; [done|]. rewrite <- Et. symmetry. apply take_prefix; [done|]. by apply lookup_lt_Some in Hx.
Qed.

Lemma pos_term_prefix L L' k : L `prefix_of` L' -> (k <= length L)%nat -> pos_term L' k = pos_term L k.
Proof.
  intros Hp Hk. destruct k as [|k]; [done|]. simpl.
  destruct (lookup_lt_is_Some_2 L k) as [x Hx]; [lia|]. by rewrite Hx, (prefix_lookup_Some _ _ _ _ Hx Hp).
Qed.

Lemma pos_term_pos L k t : pos_term L k = t -> 0 < t -> (1 <= k <= length L)%nat /\ exists x, L !! (k - 1)%nat = Some x /\ term x = t.
Proof.
  intros E Ht. destruct k as [|k]; simpl in E; [lia|]. destruct (L !! k) as [x|] eqn:Hx; [|lia].
  replace (S k - 1)%nat with k by lia. split; [|by exists x]. apply lookup_lt_Some in Hx. lia.
Qed.

Section ok.
Context (g : ghost V) (Hg : ghost_ok ids g).

Lemma elect_pos t e : g_elect g !! t = Some e -> 1 <= t.
Proof. intros He. apply (go_elect _ _ Hg) in He as (Hc & _). by apply (go_cand _ _ Hg) in Hc as [? _]. Qed.

Lemma elog_prefix t e : g_elect g !! t = Some e -> e_elog e `prefix_of` e_tlog e.
Proof. intros He. apply (go_elect _ _ Hg) in He as (_ & _ & _ & _ & (new & E & _) & _). rewrite E. by exists new. Qed.

Lemma elog_terms t e x : g_elect g !! t = Some e -> x ∈ e_elog e -> term x < t.
Proof. intros He Hx. apply (go_elect _ _ Hg) in He as (Hc & _). apply (go_cand _ _ Hg) in Hc as (_ & _ & _ & Ht). by apply Ht. Qed.

Lemma tlog_terms t e x : g_elect g !! t = Some e -> x ∈ e_tlog e -> term x <= t.
Proof.
  intros He Hx. pose proof (elog_terms t e x He) as Ht.
  apply (go_elect _ _ Hg) in He as (_ & _ & _ & _ & (new & E & Hn) & _). rewrite E in Hx.
  apply elem_of_app in Hx as [Hx|Hx]; [apply Ht in Hx; lia|]. apply Hn in Hx. lia.
Qed.

(** An entry that the leader of [t] made lies beyond the log it was elected
    with. *)
Lemma own_entry_new t e k x :
  g_elect g !! t = Some e -> e_tlog e !! k = Some x -> term x = t -> (length (e_elog e) <= k)%nat.
Proof.
  intros He Hx Ht. destruct (Nat.le_gt_cases (length (e_elog e)) k) as [|Hk]; [done|exfalso].
  destruct (lookup_lt_is_Some_2 (e_elog e) k Hk) as [y Hy].
  pose proof (prefix_lookup_Some _ _ _ _ Hy (elog_prefix t e He)) as Hy'. rewrite Hx in Hy'. injection Hy' as <-.
  apply list_elem_of_lookup_2, (elog_terms t e) in Hy; [lia|done].
Qed.

(** Terms never decrease along a log. *)
Lemma logged_sorted L j k x y :
  logged g L -> L !! j = Some x -> L !! k = Some y -> (j <= k)%nat -> term x <= term y.
Proof.
  intros HL Hx Hy Hjk. destruct (HL k y Hy) as (e & He & Et).
  apply (tlog_terms (term y) e); [done|]. apply (list_elem_of_lookup_2 _ j).
  rewrite <- (take_lookup_eq L _ (S k) j Et) by lia. done.
Qed.

Lemma logged_last_term L k x : logged g L -> L !! k = Some x -> term x <= log_last_term L.
Proof.
  intros HL Hx. unfold log_last_term. destruct (last L) as [y|] eqn:Hl.
  - rewrite last_lookup in Hl. eapply logged_sorted; [done..|]. apply lookup_lt_Some in Hx. lia.
  - apply last_None in Hl. by subst.
Qed.

Lemma logged_last L y : logged g L -> last L = Some y -> exists e, g_elect g !! term y = Some e /\ L `prefix_of` e_tlog e.
Proof.
  intros HL Hl. assert (L <> []) as Hne by (intros ->; done). rewrite last_lookup in Hl.
  destruct (HL _ _ Hl) as (e & He & Et). exists e. split; [done|].
  replace (S (pred (length L))) with (length L) in Et by (destruct L; done || simpl; lia).
  rewrite firstn_all in Et. rewrite Et. apply prefix_take.
Qed.

(** Log matching: logs whose entries at index [k] have the same term agree up to
    [k]. *)
Lemma logged_match L L' k x x' :
  logged g L -> logged g L' -> L !! k = Some x -> L' !! k = Some x' -> term x = term x' -> take (S k) L = take (S k) L'.
Proof.
  intros HL HL' Hx Hx' Ht. destruct (HL k x Hx) as (e & He & ->), (HL' k x' Hx') as (e' & He' & ->).
  rewrite Ht in He. rewrite He' in He. by injection He as ->.
Qed.

Lemma pos_match L L' k :
  logged g L -> logged g L' -> (k <= length L)%nat -> (k <= length L')%nat -> pos_term L k = pos_term L' k -> take k L = take k L'.
Proof.
  intros HL HL' Hk Hk' E. destruct k as [|k]; [done|]. simpl in E.
  destruct (lookup_lt_is_Some_2 L k) as [x Hx]; [lia|]. destruct (lookup_lt_is_Some_2 L' k) as [x' Hx']; [lia|].
  rewrite Hx, Hx' in E. by eapply logged_match.
Qed.

(** * Leader completeness *)

Lemma quorum_witness t k t' e' :
  committed ids g t k -> g_elect g !! t' = Some e' ->
  exists m x, (k <= m)%nat /\ mkAck t (v_voter x) m ∈ g_acks g /\ x ∈ g_votes g /\ v_early x = true /\
    v_term x = t' /\ v_cand x = e_leader e'.
Proof.
  intros (e & Q & _ & _ & HQ & HM & Hack) He'.
  destruct (go_elect _ _ Hg t' e' He') as (_ & HQ' & HM' & Hv & _).
  destruct (quorum_intersect ids Q (e_quorum e')) as (v & Hv1 & Hv2); try done.
  destruct (Hack v Hv1) as (m & Hm & Ha), (Hv v Hv2) as (x & Hx & Hearly & Ht & <- & Hc). eauto 10.
Qed.

(** A leader elected with a log at least as up to date as one that holds the
    committed prefix holds it too. *)
Lemma up_to_date_keeps t k e t' e' Lv :
  g_elect g !! t = Some e -> pos_term (e_tlog e) k = t -> g_elect g !! t' = Some e' -> logged g Lv ->
  take k Lv = take k (e_tlog e) -> up_to_date (e_elog e') Lv ->
  (forall u eu, t < u < t' -> g_elect g !! u = Some eu -> take k (e_elog eu) = take k (e_tlog e)) ->
  take k (e_elog e') = take k (e_tlog e).
Proof.
  intros He Hpos He' HLv Hk Hutd IH. pose proof (elect_pos t e He) as Ht1.
  destruct (pos_term_pos _ _ _ Hpos) as (Hk1 & x & Hx & Hxt); [lia|].
  assert (Lv !! (k - 1)%nat = Some x) as HxL by (rewrite <- Hx; apply (take_lookup_eq _ _ k); [done|lia]).
  pose proof (logged_last_term Lv _ x HLv HxL) as Hlast.
  assert (k <= length Lv)%nat as HkL by (eapply take_length_ge; [exact Hk|lia]).
  assert (logged g (e_elog e')) as HLe.
  { eapply logged_prefix; [by eapply elog_prefix|]. by apply (go_elect _ _ Hg) in He' as (_ & _ & _ & _ & _ & ?). }
  assert (exists y, last (e_elog e') = Some y /\ term y = log_last_term (e_elog e')) as (y & Hy & Hyt).
  { unfold up_to_date, log_last_term in *. destruct (last (e_elog e')); [eauto|]. exfalso. destruct (last Lv); lia. }
  destruct (logged_last _ y HLe Hy) as (eu & Heu & Hpu).
  destruct Hutd as [Hlt|[Heq Hlen]].
  - assert (term y < t') as Hyt'.
    { apply (elog_terms t' e'); [done|]. rewrite last_lookup in Hy. by apply list_elem_of_lookup_2 in Hy. }
    pose proof (IH (term y) eu ltac:(lia) Heu) as Eu. pose proof (elog_prefix _ _ Heu) as Hpe.
    assert (k <= length (e_elog eu))%nat as Hku by (eapply take_length_ge; [exact Eu|lia]).
    assert (length (e_elog eu) <= pred (length (e_elog e')))%nat as Hown.
    { apply (own_entry_new (term y) eu _ y); [done| |done]. rewrite last_lookup in Hy. by eapply prefix_lookup_Some. }
    rewrite <- Eu, <- (take_prefix (e_elog e') (e_tlog eu) k), <- (take_prefix (e_elog eu) (e_tlog eu) k); [done|done|lia|done|lia].
  - assert (exists z, last Lv = Some z /\ term z = term y) as (z & Hz & Hzt).
    { unfold log_last_term in Heq at 2. destruct (last Lv) as [z|] eqn:Hz; [exists z; split; [done|lia]|].
      apply last_None in Hz. by subst. }
    destruct (logged_last Lv z HLv Hz) as (ez & Hez & Hpz). rewrite Hzt, Heu in Hez. injection Hez as <-.
    rewrite <- Hk, <- (take_prefix (e_elog e') (e_tlog eu) k), <- (take_prefix Lv (e_tlog eu) k); [done|done|lia|done|lia].
Qed.

(** Every leader elected after a commit has the committed entries. *)
Lemma leader_completeness_history t k e t' e' :
  committed ids g t k -> g_elect g !! t = Some e -> t < t' -> g_elect g !! t' = Some e' ->
  take k (e_elog e') = take k (e_tlog e).
Proof.
  intros Hc He. revert t' e'. induction t' as [t' IH] using (well_founded_induction (Z.lt_wf t)).
  intros e' Ht He'. destruct (quorum_witness t k t' e' Hc He') as (m & x & Hm & Ha & Hx & Hearly & Hxt & Hxc).
  assert (forall u eu, t < u < t' -> g_elect g !! u = Some eu -> take k (e_elog eu) = take k (e_tlog e)) as IH'
    by (intros u eu Hu Heu; apply (IH u); [lia|lia|done]).
  destruct (go_vote _ _ Hg x Hx) as (_ & HLv & d & Hd & Hdt & Hdi & Hutd).
  destruct (go_elect _ _ Hg t' e' He') as (Hd' & _).
  rewrite (go_cand_unique _ _ Hg d _ Hd Hd') in Hutd by (simpl; congruence). simpl in Hutd.
  destruct Hc as (e0 & Q & He0 & Hpos & _). rewrite He in He0. injection He0 as <-.
  apply (up_to_date_keeps t k e t' e' (v_log x)); try done.
  destruct (go_kept _ _ Hg x _ k Hx Hearly Ha) with (e := e) as [Hk|(u & eu & Hu & Heu & Hne)]; simpl; try done; try lia.
  exfalso. simpl in Hu. apply Hne, (IH' u); [lia|done].
Qed.

Lemma committed_length t k e : committed ids g t k -> g_elect g !! t = Some e -> (k <= length (e_tlog e))%nat.
Proof.
  intros (e0 & Q & He0 & Hpos & _) He. rewrite He in He0. injection He0 as <-.
  pose proof (elect_pos t e He). apply (pos_term_pos _ _ t) in Hpos; lia.
Qed.

Lemma covered_in t L k : covered ids g t L k -> (k <= length L)%nat.
Proof.
  intros [->|(t0 & k0 & e0 & _ & Hc & He & Hk & E)]; [lia|].
  pose proof (committed_length t0 k0 e0 Hc He). eapply take_length_ge; [exact E|lia].
Qed.

(** A committed prefix is in the log of every leader of the same or a later
    term. *)
Lemma covered_leader t L k u e :
  covered ids g t L k -> t <= u -> g_elect g !! u = Some e -> take k L = take k (e_tlog e) /\ (k <= length (e_tlog e))%nat.
Proof.
  intros [->|(t0 & k0 & e0 & Ht & Hc & He0 & Hk & E)] Hu He; [split; [done|lia]|].
  pose proof (committed_length t0 k0 e0 Hc He0) as Hlen. rewrite E.
  destruct (decide (t0 = u)) as [->|Hne].
  { rewrite He0 in He. injection He as ->. split; [done|lia]. }
  pose proof (leader_completeness_history t0 k0 e0 u e Hc He0 ltac:(lia) He) as Elc.
  assert (k0 <= length (e_elog e))%nat as Hl by (eapply take_length_ge; [exact Elc|done]).
  pose proof (elog_prefix u e He) as Hp. pose proof (prefix_length _ _ Hp).
  split; [|lia]. rewrite (take_prefix _ _ k Hp) by lia. symmetry. by apply (take_le_eq _ _ k k0).
Qed.

(** Two committed prefixes agree. *)
Lemma covered_agree t1 L1 k1 t2 L2 k2 :
  covered ids g t1 L1 k1 -> covered ids g t2 L2 k2 -> take (Nat.min k1 k2) L1 = take (Nat.min k1 k2) L2.
Proof.
  assert (forall t1 L1 k1 t0 k0 e0 L2 k2, covered ids g t1 L1 k1 -> t1 <= t0 -> committed ids g t0 k0 -> g_elect g !! t0 = Some e0 ->
    (k2 <= k0)%nat -> take k2 L2 = take k2 (e_tlog e0) -> take (Nat.min k1 k2) L1 = take (Nat.min k1 k2) L2) as Hone.
  { clear -Hg. intros t1 L1 k1 t0 k0 e0 L2 k2 H1 Ht Hc He0 Hk E.
    destruct (covered_leader _ _ _ _ _ H1 Ht He0) as [E1 _].
    rewrite (take_le_eq L1 (e_tlog e0) _ k1), (take_le_eq L2 (e_tlog e0) _ k2); [done|lia|done|lia|done]. }
  intros H1 H2. destruct H1 as [->|(t & k & e & Ht & Hc & He & Hk & E)]; [done|].
  destruct H2 as [->|(u & j & f & Hu & Hd & Hf & Hj & F)]; [by rewrite Nat.min_0_r|].
  destruct (Z.le_ge_cases t u) as [Hle|Hle].
  - eapply (Hone t); [right; exists t, k, e; done|done..].
  - rewrite Nat.min_comm. symmetry. eapply (Hone u); [right; exists u, j, f; done|done..].
Qed.

End ok.

(** * What extensions preserve *)

Lemma committed_le g g' t k : ghost_ok ids g -> g_le g g' -> committed ids g t k -> committed ids g' t k.
Proof.
  intros Hg Hle Hc. destruct Hc as (e & Q & He & Hpos & HQ & HM & Ha) eqn:E0. clear E0.
  pose proof (committed_length g Hg t k e Hc He) as Hlen.
  apply Hle in He as (e' & He' & _ & _ & _ & Hp). exists e', Q. split_and!; try done.
  - by rewrite (pos_term_prefix _ _ k Hp).
  - intros v Hv. destruct (Ha v Hv) as (m & ? & ?). exists m. split; [done|]. by apply Hle.
Qed.

Lemma covered_le g g' t L k : ghost_ok ids g -> g_le g g' -> covered ids g t L k -> covered ids g' t L k.
Proof.
  intros Hg Hle [->|(t0 & k0 & e0 & Ht & Hc & He & Hk & E)]; [by left|right].
  pose proof (committed_length g Hg t0 k0 e0 Hc He) as Hlen.
  pose proof He as He1. apply Hle in He1 as (e' & He' & _ & _ & _ & Hp). exists t0, k0, e'. split_and!; try done.
  - by eapply committed_le.
  - rewrite E. symmetry. apply take_prefix; [done|lia].
Qed.

Lemma covered_term g t t' L k : t <= t' -> covered ids g t L k -> covered ids g t' L k.
Proof. intros Ht [->|(t0 & k0 & e0 & Ht0 & H)]; [by left|right]. exists t0, k0, e0. split; [lia|done]. Qed.

Lemma covered_shorter g t L k k' : (k' <= k)%nat -> covered ids g t L k -> covered ids g t L k'.
Proof.
  intros Hk' [->|(t0 & k0 & e0 & Ht0 & Hc & He & Hk & E)]; [left; lia|right].
  exists t0, k0, e0. split_and!; [done..|lia|by apply (take_le_eq _ _ _ k)].
Qed.

Lemma covered_log g t L L' k : take k L' = take k L -> covered ids g t L k -> covered ids g t L' k.
Proof. intros E [->|(t0 & k0 & e0 & H0 & H1 & H2 & H3 & H4)]; [by left|right]. exists t0, k0, e0. by rewrite E. Qed.

Lemma kept_le g g' t k L b b' :
  g_le g g' -> b <= b' -> (exists e, g_elect g !! t = Some e /\ (k <= length (e_tlog e))%nat) -> kept g t k L b -> kept g' t k L b'.
Proof.
  intros Hle Hb (e & He & Hk) Hkept e1 He1. pose proof He as He0. apply Hle in He0 as (e' & He' & _ & _ & _ & Hp).
  rewrite He1 in He'. injection He' as <-. rewrite (take_prefix _ _ k Hp Hk).
  destruct (Hkept e He) as [E|(t' & e'' & Ht' & He'' & Hne)]; [by left|right].
  apply Hle in He'' as (e3 & He3 & _ & Eel & _). exists t', e3. rewrite Eel. split; [lia|done].
Qed.

(** What node [i] adds leaves the other nodes' invariants alone. *)
Lemma node_ok_others i j g g' c :
  ghost_ok ids g -> g_by i g g' -> j <> i -> node_ok ids g j c -> node_ok ids g' j c.
Proof.
  intros Hg Hby Hji [Nt Nv Nc Ne Na Nca Nl NL Nts Nco]. pose proof (by_le _ _ _ Hby) as Hle.
  assert (forall t e', g_elect g' !! t = Some e' -> e_leader e' = j -> g_elect g !! t = Some e') as Hel.
  { intros t e' He' Hl. apply (by_elect _ _ _ Hby) in He' as [?|?]; [congruence|done]. }
  split; try done.
  - intros x Hx Hv. apply (by_votes _ _ _ Hby) in Hx as [Hx|?]; [by apply Nv|congruence].
  - intros d Hd Hi. apply (by_cands _ _ _ Hby) in Hd as [Hd|?]; [by apply Nc|congruence].
  - intros t e He Hl. apply (Ne t e); [by apply Hel|done].
  - intros a Ha Hn. apply (by_acks _ _ _ Hby) in Ha as [Ha|?]; [|congruence]. destruct (Na a Ha Hn) as [Ht Hk].
    split; [done|]. intros k Hki. destruct (go_ack _ _ Hg a Ha) as (_ & e & He & Hlen).
    eapply kept_le; [done|reflexivity|exists e; split; [done|lia]|by apply Hk].
  - intros Hr. destruct (Nca Hr) as (H1 & H2 & H3 & H4). split_and!; [by apply Hle|..|done|].
    + intros e He. intros El. apply Hel in He; [|done]. by apply H2 in He.
    + intros v Hv. destruct (H4 v Hv) as (x & Hx & ?). exists x. split; [by apply Hle|done].
  - intros Hr. destruct (Nl Hr) as (e & He & El & Et & Ha & Hm).
    exists e. split_and!; [|done..|by apply Hle|].
    + pose proof He as He0. apply Hle in He0 as (e' & He' & El' & _). by rewrite (Hel _ _ He') in He by congruence; simplify_eq.
    + intros p Hp. by apply Hle, Hm.
  - by eapply logged_le.
  - by eapply covered_le.
Qed.

End history.
