(* ===== verification/RaftSteps.v ===== *)
(** The steps of the abstract protocol, and that each of them preserves the
    invariants of the history and of every node. *)

From stdpp Require Import functions.
From S2P Require Import Prelude PyBase RaftLog RaftNode RaftAbstract RaftHistory.

(** * Steps *)

Section steps.
Context {V : Type} (ids : gset Z).
Implicit Types (g : ghost V) (L : list (LogEntry V)) (c : core V) (e : election V).

Definition add_cand (d : candidacy V) g : ghost V := mkGhost (d :: g_cands g) (g_votes g) (g_acks g) (g_elect g).
Definition add_vote (x : vote V) g : ghost V := mkGhost (g_cands g) (x :: g_votes g) (g_acks g) (g_elect g).
Definition add_ack (a : ack) g : ghost V := mkGhost (g_cands g) (g_votes g) (a :: g_acks g) (g_elect g).
Definition set_elect (t : Z) e g : ghost V := mkGhost (g_cands g) (g_votes g) (g_acks g) (<[t := e]> (g_elect g)).

(** The vote of node [i], recorded with its log. *)
Definition ballot g (t i cand : Z) L : vote V := mkVote t i cand L (bool_decide (g_elect g !! t = None)).

Definition no_match : Z -> nat := fun _ => O.
Definition entry_at (t : Z) (x : command V) : LogEntry V := mkEntry t x.

(** One step of node [i], from one state and history to the next. *)
Inductive astep (i : Z) : core V -> ghost V -> core V -> ghost V -> Prop :=
| as_timeout c g :
    let t := c_term c + 1 in
    astep i c g (mkCore t (Some i) CANDIDATE (c_log c) {[ i ]} (c_match c) (c_commit c) (c_applied c))
      (add_vote (ballot g t i i (c_log c)) (add_cand (mkCandidacy t i (c_log c)) g))
| as_term c g t : c_term c < t ->
    astep i c g (mkCore t None FOLLOWER (c_log c) (c_votes c) (c_match c) (c_commit c) (c_applied c)) g
| as_follow c g :
    astep i c g (mkCore (c_term c) (c_vote c) FOLLOWER (c_log c) (c_votes c) (c_match c) (c_commit c) (c_applied c)) g
| as_grant c g d : d ∈ g_cands g -> cd_term d = c_term c -> c_vote c = None \/ c_vote c = Some (cd_id d) ->
    up_to_date (cd_log d) (c_log c) ->
    astep i c g
      (mkCore (c_term c) (Some (cd_id d)) (c_role c) (c_log c) (c_votes c) (c_match c) (c_commit c) (c_applied c))
      (add_vote (ballot g (c_term c) i (cd_id d) (c_log c)) g)
| as_vote c g x : c_role c = CANDIDATE -> x ∈ g_votes g -> v_term x = c_term c -> v_cand x = i ->
    astep i c g
      (mkCore (c_term c) (c_vote c) (c_role c) (c_log c) ({[ v_voter x ]} ∪ c_votes c) (c_match c) (c_commit c) (c_applied c)) g
| as_elect c g x : c_role c = CANDIDATE -> majority ids (c_votes c) ->
    let L := c_log c ++ [entry_at (c_term c) x] in
    astep i c g (mkCore (c_term c) (c_vote c) LEADER L (c_votes c) no_match (c_commit c) (c_applied c))
      (add_ack (mkAck (c_term c) i (length L)) (set_elect (c_term c) (mkElection i (c_log c) (c_votes c) L) g))
| as_append c g e x : c_role c = LEADER -> g_elect g !! c_term c = Some e ->
    let L := c_log c ++ [entry_at (c_term c) x] in
    astep i c g (mkCore (c_term c) (c_vote c) LEADER L (c_votes c) (c_match c) (c_commit c) (c_applied c))
      (add_ack (mkAck (c_term c) i (length L)) (set_elect (c_term c) (mkElection (e_leader e) (e_elog e) (e_quorum e) L) g))
| as_accept c g e p n : g_elect g !! c_term c = Some e -> (p <= n <= length (e_tlog e))%nat ->
    (p <= length (c_log c))%nat -> pos_term (c_log c) p = pos_term (e_tlog e) p ->
    astep i c g
      (mkCore (c_term c) (c_vote c) FOLLOWER
        (take p (c_log c) ++ splice (drop p (c_log c)) (take (n - p) (drop p (e_tlog e))))
        (c_votes c) (c_match c) (c_commit c) (c_applied c))
      (add_ack (mkAck (c_term c) i n) g)
| as_match c g p m : c_role c = LEADER -> m = O \/ mkAck (c_term c) p m ∈ g_acks g ->
    astep i c g
      (mkCore (c_term c) (c_vote c) (c_role c) (c_log c) (c_votes c) (<[p := m]> (c_match c)) (c_commit c) (c_applied c)) g
| as_commit c g k : covered ids g (c_term c) (c_log c) k ->
    astep i c g (mkCore (c_term c) (c_vote c) (c_role c) (c_log c) (c_votes c) (c_match c) k (c_applied c)) g
| as_apply c g k : (k <= c_commit c)%nat ->
    astep i c g (mkCore (c_term c) (c_vote c) (c_role c) (c_log c) (c_votes c) (c_match c) (c_commit c) k) g
| as_restart c g :
    astep i c g (mkCore (c_term c) (c_vote c) FOLLOWER (c_log c) ∅ no_match O (c_applied c)) g.

(** * The history *)

Lemma add_cand_by i d g : cd_id d = i -> g_by i g (add_cand d g).
Proof.
  intros Hd. split; try (by auto).
  - split; try done; [intros; by apply list_elem_of_further|]. intros t e He. by exists e.
  - intros d' Hd'. apply elem_of_cons in Hd' as [->|?]; auto.
Qed.

Lemma add_vote_by i x g : v_voter x = i -> g_by i g (add_vote x g).
Proof.
  intros Hx. split; try (by auto).
  - split; try done; [intros; by apply list_elem_of_further|]. intros t e He. by exists e.
  - intros y Hy. apply elem_of_cons in Hy as [->|?]; auto.
Qed.

Lemma add_ack_by i a g : k_node a = i -> g_by i g (add_ack a g).
Proof.
  intros Ha. split; try (by auto).
  - split; try done; [intros; by apply list_elem_of_further|]. intros t e He. by exists e.
  - intros y Hy. apply elem_of_cons in Hy as [->|?]; auto.
Qed.

Lemma g_by_trans i g1 g2 g3 : g_by i g1 g2 -> g_by i g2 g3 -> g_by i g1 g3.
Proof.
  intros H1 H2. split.
  - eapply g_le_trans; [apply H1|apply H2].
  - intros d Hd. apply H2 in Hd as [Hd|?]; [|auto]. apply H1 in Hd as [?|?]; auto.
  - intros d Hd. apply H2 in Hd as [Hd|?]; [|auto]. apply H1 in Hd as [?|?]; auto.
  - intros d Hd. apply H2 in Hd as [Hd|?]; [|auto]. apply H1 in Hd as [?|?]; auto.
  - intros t e He. apply H2 in He as [?|He]; [auto|]. apply H1 in He as [?|?]; auto.
Qed.

Lemma g_by_refl i g : g_by i g g.
Proof. split; try (by auto). apply g_le_refl. Qed.

(** An election recorded for the first time, or whose log grew. *)
Lemma set_elect_by i t e g :
  e_leader e = i ->
  (forall e0, g_elect g !! t = Some e0 -> e_leader e0 = i /\ e_elog e = e_elog e0 /\ e_quorum e = e_quorum e0 /\ e_tlog e0 `prefix_of` e_tlog e) ->
  g_by i g (set_elect t e g).
Proof.
  intros Hl Hold. split; try (by auto).
  - split; try done. intros t0 e0 He0. simpl. destruct (decide (t = t0)) as [<-|Hne].
    + exists e. rewrite lookup_insert_eq. destruct (Hold e0 He0) as (? & ? & ? & ?). split_and!; congruence || done.
    + exists e0. by rewrite lookup_insert_ne.
  - intros t0 e0. simpl. destruct (decide (t = t0)) as [<-|Hne].
    + rewrite lookup_insert_eq. intros [= <-]. by left.
    + rewrite lookup_insert_ne by done. by right.
Qed.

Lemma ghost_add_cand d g :
  ghost_ok ids g -> 1 <= cd_term d -> cd_id d ∈ ids -> logged g (cd_log d) -> (forall x, x ∈ cd_log d -> term x < cd_term d) ->
  (forall d', d' ∈ g_cands g -> cd_term d' = cd_term d -> cd_id d' = cd_id d -> cd_log d' = cd_log d) ->
  ghost_ok ids (add_cand d g).
Proof.
  intros Hg H1 H2 H3 H4 Hu. split; try apply Hg.
  - intros d1 d2 Hd1 Hd2 Et Ei. apply elem_of_cons in Hd1 as [->|Hd1], Hd2 as [->|Hd2]; auto.
    + symmetry. by apply Hu.
    + by eapply (go_cand_unique _ _ Hg).
  - intros d1 [->|Hd1]%elem_of_cons; [done|]. by apply (go_cand _ _ Hg).
  - intros x Hx. destruct (go_vote _ _ Hg x Hx) as (? & ? & d0 & ? & ?). split_and!; [done..|].
    exists d0. split; [by apply list_elem_of_further|done].
  - intros t e He. destruct (go_elect _ _ Hg t e He) as (? & ?). split; [by apply list_elem_of_further|done].
Qed.

Lemma ghost_add_vote x g :
  ghost_ok ids g -> v_voter x ∈ ids -> logged g (v_log x) ->
  (exists d, d ∈ g_cands g /\ cd_term d = v_term x /\ cd_id d = v_cand x /\ up_to_date (cd_log d) (v_log x)) ->
  (forall y, y ∈ g_votes g -> v_term y = v_term x -> v_voter y = v_voter x -> v_cand y = v_cand x) ->
  (g_elect g !! v_term x = None -> v_early x = true) ->
  (forall a k, v_early x = true -> a ∈ g_acks g -> k_node a = v_voter x -> k_term a < v_term x -> (k <= k_index a)%nat ->
     kept g (k_term a) k (v_log x) (v_term x - 1)) ->
  ghost_ok ids (add_vote x g).
Proof.
  intros Hg H1 H2 H3 Hu He Hk. split; try apply Hg.
  - intros y z Hy Hz Et Ev. apply elem_of_cons in Hy as [->|Hy], Hz as [->|Hz]; auto.
    + symmetry. by apply Hu.
    + by eapply (go_vote_unique _ _ Hg).
  - intros y [->|Hy]%elem_of_cons; [done|]. by apply (go_vote _ _ Hg).
  - intros y [->|Hy]%elem_of_cons; [done|]. by apply (go_early _ _ Hg).
  - intros y a k [->|Hy]%elem_of_cons; [by apply Hk|]. by apply (go_kept _ _ Hg).
  - intros t e Hte. destruct (go_elect _ _ Hg t e Hte) as (? & ? & ? & Hv & ? & ?). split_and!; try done.
    intros v Hv'. destruct (Hv v Hv') as (y & ? & ?). exists y. split; [by apply list_elem_of_further|done].
Qed.

(** A new acknowledgement comes from a node that has not voted in a later
    term. *)
Lemma ghost_add_ack a g :
  ghost_ok ids g -> k_node a ∈ ids -> (exists e, g_elect g !! k_term a = Some e /\ (k_index a <= length (e_tlog e))%nat) ->
  (forall x, x ∈ g_votes g -> v_voter x = k_node a -> v_term x <= k_term a) ->
  ghost_ok ids (add_ack a g).
Proof.
  intros Hg Hn He Hv. split; try apply Hg.
  - intros x a' k Hx Hearly [->|Ha]%elem_of_cons Hn' Ht Hk; [|by eapply (go_kept _ _ Hg)].
    specialize (Hv x Hx ltac:(congruence)). lia.
  - intros a' [->|Ha]%elem_of_cons; [done|]. by apply (go_ack _ _ Hg).
Qed.

Lemma ghost_set_elect t e g :
  ghost_ok ids g -> g_le g (set_elect t e g) ->
  mkCandidacy t (e_leader e) (e_elog e) ∈ g_cands g -> e_quorum e ⊆ ids -> majority ids (e_quorum e) ->
  (forall v, v ∈ e_quorum e -> exists x, x ∈ g_votes g /\ v_early x = true /\ v_term x = t /\ v_voter x = v /\ v_cand x = e_leader e) ->
  (exists new, e_tlog e = e_elog e ++ new /\ forall x, x ∈ new -> term x = t) ->
  logged (set_elect t e g) (e_tlog e) ->
  ghost_ok ids (set_elect t e g).
Proof.
  intros Hg Hle H1 H2 H3 H4 H5 H6. split; try apply Hg.
  - intros d Hd. destruct (go_cand _ _ Hg d Hd) as (? & ? & ? & ?). split_and!; try done. by eapply logged_le.
  - intros x Hx. destruct (go_vote _ _ Hg x Hx) as (? & ? & ?). split_and!; try done. by eapply logged_le.
  - intros x Hx Hn. apply (go_early _ _ Hg x Hx). destruct (g_elect g !! v_term x) as [e0|] eqn:E; [|done].
    apply Hle in E as (e' & E & _). rewrite E in Hn. done.
  - intros x a k Hx Hearly Ha Hn Ht Hk. destruct (go_ack _ _ Hg a Ha) as (_ & ea & Hea & Hlen).
    eapply kept_le; [exact Hle|reflexivity|exists ea; split; [done|lia]|by apply (go_kept _ _ Hg)].
  - intros t0 e0. simpl. destruct (decide (t = t0)) as [<-|Hne].
    + rewrite lookup_insert_eq. intros [= <-]. done.
    + rewrite lookup_insert_ne by done. intros He0.
      destruct (go_elect _ _ Hg t0 e0 He0) as (? & ? & ? & ? & ? & ?). split_and!; try done. by eapply logged_le.
  - intros a Ha. destruct (go_ack _ _ Hg a Ha) as (? & ea & Hea & Hlen). split; [done|].
    apply Hle in Hea as (e' & He' & _ & _ & _ & Hp%prefix_length). exists e'. split; [done|lia].
Qed.

End steps.
