(* ===== verification/RaftInvariant.v ===== *)
(** Every step of the abstract protocol preserves the invariants. *)

From stdpp Require Import functions.
From S2P Require Import Prelude PyBase RaftLog RaftNode RaftAbstract RaftHistory RaftSteps.

(** * Accepting the leader's entries *)

Section splicing.
Context {V : Type}.
Implicit Types (log T : list (LogEntry V)).

(** A follower's log after it spliced in the leader's entries from [p] to [n]. *)
Definition accept_log log T (p n : nat) : list (LogEntry V) :=
  take p log ++ splice (drop p log) (take (n - p) (drop p T)).

Definition conflict log T (j : nat) : Prop :=
  exists x y, log !! j = Some x /\ T !! j = Some y /\ term x <> term y /\ take j log = take j T.

Definition matches log T : Prop :=
  forall k x y, log !! k = Some x -> T !! k = Some y -> term x = term y -> take (S k) log = take (S k) T.

Lemma splice_cases log T (m p : nat) :
  matches log T -> (p + m <= length T)%nat -> (p <= length log)%nat -> take p log = take p T ->
  let L := take p log ++ splice (drop p log) (take m (drop p T)) in
  (L = log /\ take (p + m) log = take (p + m) T /\ (p + m <= length log)%nat) \/
  (L = take (p + m) T /\
    ((length log <= p + m)%nat /\ log `prefix_of` T \/ exists j, (j < p + m)%nat /\ conflict log T j)).
Proof.
  intros Hm. revert p. induction m as [|m IH]; intros p HT Hp Heq L.
  { left. subst L. rewrite take_0, Nat.add_0_r. split; [|split; [done|lia]].
    destruct (drop p log) eqn:E; simpl; [|by rewrite <- E, take_drop].
    rewrite app_nil_r. apply (f_equal length) in E. rewrite length_drop in E. rewrite take_ge; [done|]. simpl in E. lia. }
  destruct (lookup_lt_is_Some_2 T p) as [y Hy]; [lia|].
  assert (take (p + S m) T = take p T ++ take (S m) (drop p T)) as Hsum by (by rewrite take_take_drop).
  destruct (log !! p) as [x|] eqn:Hx.
  - pose proof (drop_S _ _ _ Hx) as Dl. pose proof (drop_S _ _ _ Hy) as DT.
    destruct (Z.eqb_spec (term x) (term y)) as [Et|Et].
    + destruct (IH (S p)) as [(E1 & E2 & E3)|(E1 & E2)]; [lia|apply lookup_lt_Some in Hx; lia|by eapply Hm| |].
      * left. replace (p + S m)%nat with (S p + m)%nat by lia. split; [|done].
        etransitivity; [|exact E1]. subst L. rewrite Dl, DT. simpl. rewrite Et, Z.eqb_refl.
        rewrite (take_S_r _ _ _ Hx). by rewrite <- app_assoc.
      * right. replace (p + S m)%nat with (S p + m)%nat by lia. split; [|done].
        etransitivity; [|exact E1]. subst L. rewrite Dl, DT. simpl. rewrite Et, Z.eqb_refl.
        rewrite (take_S_r _ _ _ Hx). by rewrite <- app_assoc.
    + right. split; [|right; exists p; split; [lia|by exists x, y]].
      subst L. rewrite Hsum, Dl, DT, Heq. simpl. by rewrite (proj2 (Z.eqb_neq _ _) Et).
  - apply lookup_ge_None in Hx. right. split.
    + subst L. rewrite Hsum, Heq. f_equal. rewrite (drop_ge log) by done. by destruct (take (S m) (drop p T)).
    + left. split; [lia|]. rewrite <- (firstn_all log). replace (length log) with p by lia. rewrite Heq. apply prefix_take.
Qed.

Section accept.
Context (log T : list (LogEntry V)) (p n : nat).
Context (Hm : matches log T) (Hn : (p <= n <= length T)%nat) (Hp : (p <= length log)%nat) (Heq : take p log = take p T).

Lemma accept_cases :
  (accept_log log T p n = log /\ take n log = take n T /\ (n <= length log)%nat) \/
  (accept_log log T p n = take n T /\
    ((length log <= n)%nat /\ log `prefix_of` T \/ exists j, (j < n)%nat /\ conflict log T j)).
Proof.
  destruct (splice_cases log T (n - p) p) as [H|H]; try done; [lia|..];
    replace (p + (n - p))%nat with n in H by lia; [by left|by right].
Qed.

Lemma accept_take : take n (accept_log log T p n) = take n T.
Proof. destruct accept_cases as [(-> & ? & _)|(-> & _)]; [done|]. rewrite take_take. f_equal. lia. Qed.

Lemma accept_keeps k :
  (k <= length log)%nat ->
  take k (accept_log log T p n) = take k log \/ exists j, (j < k)%nat /\ conflict log T j.
Proof.
  intros Hk. destruct accept_cases as [(-> & _)|(-> & [[Hl Hpre]|(j & Hj & Hc)])]; [by left|left|].
  - rewrite take_take, Nat.min_l by lia. by apply take_prefix.
  - destruct (Nat.lt_ge_cases j k); [by right; exists j|left].
    rewrite take_take, Nat.min_l by lia. destruct Hc as (x & y & _ & _ & _ & E).
    symmetry. by apply (take_le_eq _ _ k j).
Qed.

Lemma accept_logged (g : ghost V) : logged g log -> logged g T -> logged g (accept_log log T p n).
Proof.
  intros HL HT. destruct accept_cases as [(-> & _)|(-> & _)]; [done|].
  eapply logged_prefix; [apply prefix_take|done].
Qed.

Lemma accept_elem x : x ∈ accept_log log T p n -> x ∈ log \/ x ∈ T.
Proof.
  destruct accept_cases as [(-> & _)|(-> & _)]; [by left|]. intros Hx. right. by eapply subseteq_take.
Qed.

End accept.
End splicing.

(** * Preservation *)

Section preservation.
Context {V : Type} (ids : gset Z).
Implicit Types (g : ghost V) (L : list (LogEntry V)) (c : core V) (e : election V).

(** What a step of node [i] owes: an extension of the history about itself, and
    the invariants again. *)
Definition step_ok (i : Z) g c' g' : Prop := g_by i g g' /\ ghost_ok ids g' /\ node_ok ids g' i c'.

Lemma kept_bound g t k L b b' : b <= b' -> kept g t k L b -> kept g t k L b'.
Proof.
  intros Hb H e He. destruct (H e He) as [?|(t' & e' & ? & ?)]; [by left|right]. exists t', e'. split; [lia|done].
Qed.

Lemma up_to_date_refl L : up_to_date L L.
Proof. right. done. Qed.

Lemma entries_match g L e t : ghost_ok ids g -> logged g L -> g_elect g !! t = Some e -> matches L (e_tlog e).
Proof.
  intros Hg HL He k x y Hx Hy Ht. apply (go_elect _ _ Hg) in He as (_ & _ & _ & _ & _ & HT). by eapply logged_match.
Qed.

Section one.
Context (i : Z) (Hi : i ∈ ids) (c : core V) (g : ghost V) (Hg : ghost_ok ids g) (Hc : node_ok ids g i c).

Lemma ack_kept a k : a ∈ g_acks g -> k_node a = i -> (k <= k_index a)%nat -> kept g (k_term a) k (c_log c) (c_term c).
Proof. intros Ha Hn Hk. destruct (no_ack _ _ _ _ Hc a Ha Hn) as [_ H]. by apply H. Qed.

Lemma timeout_ok :
  let t := c_term c + 1 in
  step_ok i g (mkCore t (Some i) CANDIDATE (c_log c) {[ i ]} (c_match c) (c_commit c) (c_applied c))
    (add_vote (ballot g t i i (c_log c)) (add_cand (mkCandidacy t i (c_log c)) g)).
Proof.
  intros t. pose proof (no_term _ _ _ _ Hc) as H0.
  assert (ghost_ok ids (add_cand (mkCandidacy t i (c_log c)) g)) as Hg1.
  { apply ghost_add_cand; simpl; try done; [lia|apply Hc|..].
    - intros x Hx. apply (no_terms _ _ _ _ Hc) in Hx. lia.
    - intros d Hd Ht Hid. apply (no_cand _ _ _ _ Hc d Hd) in Hid. lia. }
  split; [|split].
  - apply (g_by_trans i g (add_cand (mkCandidacy t i (c_log c)) g)); [by apply add_cand_by|by apply add_vote_by].
  - apply ghost_add_vote; simpl; try done.
    + apply Hc.
    + exists (mkCandidacy t i (c_log c)). split_and!; [by apply list_elem_of_here|done..|apply up_to_date_refl].
    + intros y Hy Ht Hv. apply (no_vote _ _ _ _ Hc y Hy) in Hv as [? _]. lia.
    + intros E. by rewrite bool_decide_true.
    + intros a k _ Ha Hn _ Hk. replace (t - 1) with (c_term c) by lia. by apply ack_kept.
  - split; simpl; try done.
    + lia.
    + intros x [->|Hx]%elem_of_cons Hv; [split; [simpl; lia|done]|]. apply (no_vote _ _ _ _ Hc x Hx) in Hv as [? _]. lia.
    + intros d [->|Hd]%elem_of_cons Hid; [simpl; lia|]. apply (no_cand _ _ _ _ Hc d Hd) in Hid. lia.
    + intros t0 e He Hl. apply (no_elect _ _ _ _ Hc t0 e He) in Hl. lia.
    + intros a Ha Hn. pose proof (no_ack _ _ _ _ Hc a Ha Hn) as [Ht Hk]. split; [lia|].
      intros k Hki. eapply kept_bound; [|by apply Hk]. lia.
    + intros _. split_and!; [by apply list_elem_of_here| |set_solver|].
      * intros e He Hl. apply (no_elect _ _ _ _ Hc _ e He) in Hl. lia.
      * intros v ->%elem_of_singleton. eexists. split; [by apply list_elem_of_here|done].
    + apply Hc.
    + intros x Hx. apply (no_terms _ _ _ _ Hc) in Hx. lia.
    + eapply covered_term; [|exact (no_commit _ _ _ _ Hc)]. lia.
Qed.

Lemma term_ok t : c_term c < t ->
  step_ok i g (mkCore t None FOLLOWER (c_log c) (c_votes c) (c_match c) (c_commit c) (c_applied c)) g.
Proof.
  intros Ht. pose proof (no_term _ _ _ _ Hc) as H0. split; [apply g_by_refl|split; [done|]]. split; simpl; try done.
  - lia.
  - intros x Hx Hv. apply (no_vote _ _ _ _ Hc x Hx) in Hv as [? _]. lia.
  - intros d Hd Hid. apply (no_cand _ _ _ _ Hc d Hd) in Hid. lia.
  - intros t0 e He Hl. apply (no_elect _ _ _ _ Hc t0 e He) in Hl. lia.
  - intros a Ha Hn. pose proof (no_ack _ _ _ _ Hc a Ha Hn) as [Hat Hk]. split; [lia|].
    intros k Hki. eapply kept_bound; [|by apply Hk]. lia.
  - apply Hc.
  - intros x Hx. apply (no_terms _ _ _ _ Hc) in Hx. lia.
  - eapply covered_term; [|exact (no_commit _ _ _ _ Hc)]. lia.
Qed.

(** Changes that leave term, vote, log and role alone, or give the role up. *)
Lemma quiet_ok vote' role' vs m k a :
  (forall x, x ∈ g_votes g -> v_voter x = i -> v_term x = c_term c -> vote' = Some (v_cand x)) ->
  (role' = CANDIDATE -> c_role c = CANDIDATE /\ vs ⊆ ids /\
    forall v, v ∈ vs -> exists x, x ∈ g_votes g /\ v_term x = c_term c /\ v_voter x = v /\ v_cand x = i) ->
  (role' = LEADER -> c_role c = LEADER /\ forall p, (0 < m p)%nat -> mkAck (c_term c) p (m p) ∈ g_acks g) ->
  covered ids g (c_term c) (c_log c) (Nat.max k a) ->
  step_ok i g (mkCore (c_term c) vote' role' (c_log c) vs m k a) g.
Proof.
  intros Hv Hcand Hlead Hcov. split; [apply g_by_refl|split; [done|]].
  split; simpl; try apply Hc; try done.
  - intros x Hx Hvo. destruct (no_vote _ _ _ _ Hc x Hx Hvo) as [? _]. auto.
  - intros Hr. apply Hcand in Hr as (Hr & Hvs & Hall). destruct (no_candidate _ _ _ _ Hc Hr) as (? & ? & _). done.
  - intros Hr. apply Hlead in Hr as (Hr & Hall). destruct (no_leader _ _ _ _ Hc Hr) as (e & ? & ? & ? & ? & _). by exists e.
Qed.

Lemma own_votes x : x ∈ g_votes g -> v_voter x = i -> v_term x = c_term c -> c_vote c = Some (v_cand x).
Proof. intros Hx Hv. by apply (no_vote _ _ _ _ Hc x Hx Hv). Qed.

Lemma keep_candidate : c_role c = CANDIDATE -> c_role c = CANDIDATE /\ c_votes c ⊆ ids /\
  forall v, v ∈ c_votes c -> exists x, x ∈ g_votes g /\ v_term x = c_term c /\ v_voter x = v /\ v_cand x = i.
Proof. intros Hr. by destruct (no_candidate _ _ _ _ Hc Hr) as (_ & _ & ? & ?). Qed.

Lemma keep_leader : c_role c = LEADER -> c_role c = LEADER /\
  forall p, (0 < c_match c p)%nat -> mkAck (c_term c) p (c_match c p) ∈ g_acks g.
Proof. intros Hr. by destruct (no_leader _ _ _ _ Hc Hr) as (e & _ & _ & _ & _ & ?). Qed.

Lemma grant_ok d : d ∈ g_cands g -> cd_term d = c_term c -> c_vote c = None \/ c_vote c = Some (cd_id d) ->
  up_to_date (cd_log d) (c_log c) ->
  step_ok i g
    (mkCore (c_term c) (Some (cd_id d)) (c_role c) (c_log c) (c_votes c) (c_match c) (c_commit c) (c_applied c))
    (add_vote (ballot g (c_term c) i (cd_id d) (c_log c)) g).
Proof.
  intros Hd Hdt Hv Hutd.
  assert (forall y, y ∈ g_votes g -> v_voter y = i -> v_term y = c_term c -> v_cand y = cd_id d) as Hold.
  { intros y Hy Hvo Ht. pose proof (own_votes y Hy Hvo Ht) as E. destruct Hv as [Hv|Hv]; rewrite Hv in E; congruence. }
  split; [by apply add_vote_by|split].
  - apply ghost_add_vote; simpl; try done.
    + apply Hc.
    + by exists d.
    + intros y Hy Ht Hvo. by apply Hold.
    + intros E. by rewrite bool_decide_true.
    + intros a k Hearly Ha Hn Ht Hk. apply bool_decide_eq_true in Hearly.
      intros e He. destruct (ack_kept a k Ha Hn Hk e He) as [?|(t' & e' & Ht' & He' & Hne)]; [by left|right].
      exists t', e'. split; [|done]. assert (t' <> c_term c) by congruence. lia.
  - pose proof (quiet_ok (Some (cd_id d)) (c_role c) (c_votes c) (c_match c) (c_commit c) (c_applied c)) as Hq.
    destruct Hq as (_ & _ & [Nt Nv Nc Ne Na Nca Nl NL Nts Nco]).
    + intros x Hx Hvo Ht. f_equal. symmetry. by apply Hold.
    + apply keep_candidate.
    + apply keep_leader.
    + apply Hc.
    + split; try done.
      * intros x [->|Hx]%elem_of_cons Hvo; [by split|by apply Nv].
      * intros Hr. destruct (Nca Hr) as (? & ? & ? & Hall). split_and!; try done.
        intros v Hvv. destruct (Hall v Hvv) as (x & ? & ?). exists x. split; [by apply list_elem_of_further|done].
Qed.

(** A candidate with a majority is the first to be elected in its term. *)
Lemma term_free : c_role c = CANDIDATE -> majority ids (c_votes c) -> g_elect g !! c_term c = None.
Proof.
  intros Hr HM. destruct (no_candidate _ _ _ _ Hc Hr) as (_ & Hne & Hvs & Hall).
  destruct (g_elect g !! c_term c) as [e|] eqn:He; [exfalso|done].
  destruct (go_elect _ _ Hg _ e He) as (_ & HQ & HMQ & Hv & _).
  destruct (quorum_intersect ids (c_votes c) (e_quorum e)) as (v & Hv1 & Hv2); try done.
  destruct (Hall v Hv1) as (x & Hx & Hxt & Hxv & Hxc), (Hv v Hv2) as (y & Hy & _ & Hyt & Hyv & Hyc).
  apply (Hne e eq_refl). rewrite <- Hyc, <- Hxc. apply (go_vote_unique _ _ Hg); congruence.
Qed.

(** The log of a leader extended by one entry of its own. *)
Lemma logged_snoc x e :
  term x = c_term c -> e_tlog e = c_log c ++ [x] -> g_le g (set_elect (c_term c) e g) ->
  logged (set_elect (c_term c) e g) (c_log c ++ [x]).
Proof.
  intros Hx Ht Hle k y Hy. destruct (decide (k < length (c_log c))%nat) as [Hk|Hk].
  - rewrite lookup_app_l in Hy by done.
    destruct (logged_le _ _ _ Hle (no_log _ _ _ _ Hc) k y Hy) as (e' & He' & E). exists e'. split; [done|].
    by rewrite take_app_le by lia.
  - assert (k = length (c_log c)) as -> by (apply lookup_lt_Some in Hy; rewrite length_app in Hy; simpl in Hy; lia).
    rewrite list_lookup_middle in Hy by done. injection Hy as <-. exists e. rewrite Hx. simpl. rewrite lookup_insert_eq, Ht. done.
Qed.

(** The state of a leader whose log grew by one entry of its own. *)
Lemma leads_ok x e vs m :
  let L := c_log c ++ [x] in
  let g1 := set_elect (c_term c) e g in
  term x = c_term c -> e_tlog e = L -> e_leader e = i -> g_by i g g1 -> ghost_ok ids g1 ->
  (forall p, (0 < m p)%nat -> mkAck (c_term c) p (m p) ∈ g_acks g) ->
  step_ok i g (mkCore (c_term c) (c_vote c) LEADER L vs m (c_commit c) (c_applied c))
    (add_ack (mkAck (c_term c) i (length L)) g1).
Proof.
  intros L g1 Hx Ht Hl Hby Hg1 Hm. set (g2 := add_ack _ g1).
  assert (g_elect g1 !! c_term c = Some e) as He by (simpl; by rewrite lookup_insert_eq).
  assert (g_le g g2) as Hle2 by (eapply g_le_trans; [apply Hby|by apply add_ack_by with (i := i)]).
  split; [|split].
  - apply (g_by_trans i g g1); [done|by apply add_ack_by].
  - apply ghost_add_ack; simpl; try done.
    + exists e. split; [exact He|]. by rewrite Ht.
    + intros y Hy Hv. by destruct (no_vote _ _ _ _ Hc y Hy Hv).
  - split; simpl; try done; try apply Hc.
    + intros t e0 He0 Hl0. destruct (decide (c_term c = t)) as [->|Hne]; [done|].
      rewrite lookup_insert_ne in He0 by done. by apply (no_elect _ _ _ _ Hc t e0).
    + intros a [->|Ha]%elem_of_cons Hn; simpl.
      { split; [done|]. intros k Hk e0 He0. left. simpl in He0. rewrite lookup_insert_eq in He0. injection He0 as <-. by rewrite Ht. }
      destruct (no_ack _ _ _ _ Hc a Ha Hn) as [Hat Hk]. split; [done|]. intros k Hki.
      destruct (go_ack _ _ Hg a Ha) as (_ & ea & Hea & Hlen).
      intros e0 He0. destruct (Hk k Hki ea Hea) as [E|(t' & e' & Ht' & He' & Hne)]; pose proof Hea as Hea1;
        apply Hle2 in Hea1 as (e0' & He0' & _ & _ & _ & Hp); simpl in He0, He0'; rewrite He0 in He0'; injection He0' as <-;
        rewrite (take_prefix _ _ k Hp) by lia.
      * left. rewrite <- E. apply take_prefix; [by eexists|]. eapply take_length_ge; [exact E|lia].
      * right. apply Hle2 in He' as (e3 & He3 & _ & Eel & _). exists t', e3. rewrite Eel. done.
    + intros _. exists e. split_and!; [exact He|done|by rewrite Ht|by apply list_elem_of_here|].
      intros p Hp. by apply list_elem_of_further, Hm.
    + change (logged g1 L). apply logged_snoc; [done|done|apply Hby].
    + intros y [Hy|Hy]%elem_of_app; [by apply (no_terms _ _ _ _ Hc)|]. apply list_elem_of_singleton in Hy as ->. lia.
    + apply (covered_le ids g); [done|done|]. eapply covered_log; [|apply Hc].
      apply take_app_le. exact (covered_in _ _ Hg _ _ _ (no_commit _ _ _ _ Hc)).
Qed.

Lemma elect_ok x : c_role c = CANDIDATE -> majority ids (c_votes c) ->
  let L := c_log c ++ [entry_at (c_term c) x] in
  step_ok i g (mkCore (c_term c) (c_vote c) LEADER L (c_votes c) no_match (c_commit c) (c_applied c))
    (add_ack (mkAck (c_term c) i (length L)) (set_elect (c_term c) (mkElection i (c_log c) (c_votes c) L) g)).
Proof.
  intros Hr HM L. pose proof (term_free Hr HM) as Hfree.
  destruct (no_candidate _ _ _ _ Hc Hr) as (Hd & _ & Hvs & Hall).
  set (e := mkElection i (c_log c) (c_votes c) L).
  assert (g_by i g (set_elect (c_term c) e g)) as Hby.
  { apply set_elect_by; [done|]. intros e0 He0. rewrite Hfree in He0. done. }
  apply leads_ok; try done.
  - apply ghost_set_elect; simpl; try done; [apply Hby|..].
    + intros v Hv. destruct (Hall v Hv) as (y & Hy & Ht & Hvo & Hca). exists y. split_and!; try done.
      apply (go_early _ _ Hg y Hy). by rewrite Ht.
    + eexists. split; [done|]. intros y Hy. apply list_elem_of_singleton in Hy as ->. done.
    + apply logged_snoc; [done|done|apply Hby].
  - unfold no_match. lia.
Qed.

Lemma append_ok e x : c_role c = LEADER -> g_elect g !! c_term c = Some e ->
  let L := c_log c ++ [entry_at (c_term c) x] in
  step_ok i g (mkCore (c_term c) (c_vote c) LEADER L (c_votes c) (c_match c) (c_commit c) (c_applied c))
    (add_ack (mkAck (c_term c) i (length L)) (set_elect (c_term c) (mkElection (e_leader e) (e_elog e) (e_quorum e) L) g)).
Proof.
  intros Hr He L. destruct (no_leader _ _ _ _ Hc Hr) as (e0 & He0 & Hl & Ht & _ & Hm).
  rewrite He in He0. injection He0 as <-. set (e' := mkElection _ _ _ L).
  assert (g_by i g (set_elect (c_term c) e' g)) as Hby.
  { apply set_elect_by; [done|]. intros e0 He0. rewrite He in He0. injection He0 as <-. split_and!; try done.
    simpl. rewrite Ht. by eexists. }
  destruct (go_elect _ _ Hg _ e He) as (Hd & HQ & HM & Hv & (new & En & Hnew) & _).
  apply leads_ok; try done.
  apply ghost_set_elect; simpl; try done; [apply Hby|..].
  - exists (new ++ [entry_at (c_term c) x]). subst L. rewrite <- Ht, En, <- app_assoc. split; [done|].
    intros y [Hy|Hy]%elem_of_app; [by apply Hnew|]. apply list_elem_of_singleton in Hy as ->. done.
  - apply logged_snoc; [done|done|apply Hby].
Qed.

(** A conflicting entry is missing in the log the leader was elected with. *)
Lemma conflict_elog L e j k : g_elect g !! c_term c = Some e -> conflict L (e_tlog e) j -> (j < k <= length L)%nat ->
  take k (e_elog e) <> take k L.
Proof.
  intros He (x & y & Hx & Hy & Hne & _) Hk E. apply Hne.
  assert (e_elog e !! j = Some x) as Hex by (rewrite <- Hx; apply (take_lookup_eq _ _ k); [done|lia]).
  rewrite (prefix_lookup_Some _ _ _ _ Hex (elog_prefix ids g Hg _ e He)) in Hy. by injection Hy as ->.
Qed.

Lemma accept_ok e p n : g_elect g !! c_term c = Some e -> (p <= n <= length (e_tlog e))%nat ->
  (p <= length (c_log c))%nat -> pos_term (c_log c) p = pos_term (e_tlog e) p ->
  step_ok i g
    (mkCore (c_term c) (c_vote c) FOLLOWER (accept_log (c_log c) (e_tlog e) p n)
      (c_votes c) (c_match c) (c_commit c) (c_applied c))
    (add_ack (mkAck (c_term c) i n) g).
Proof.
  intros He Hn Hp Hpos. pose proof (no_log _ _ _ _ Hc) as HL.
  destruct (go_elect _ _ Hg _ e He) as (_ & _ & _ & _ & _ & HT).
  pose proof (entries_match g (c_log c) e _ Hg HL He) as Hm.
  assert (take p (c_log c) = take p (e_tlog e)) as Heq by (eapply pos_match; [exact HL|exact HT|lia|lia|done]).
  set (L := accept_log _ _ _ _).
  pose proof (accept_keeps (c_log c) (e_tlog e) p n Hm Hn Hp Heq) as Hkeep. fold L in Hkeep.
  split; [by apply add_ack_by|split].
  - apply ghost_add_ack; simpl; try done; [exists e; split; [done|lia]|].
    intros x Hx Hv. by destruct (no_vote _ _ _ _ Hc x Hx Hv).
  - split; simpl; try apply Hc; try done.
    + intros a [->|Ha]%elem_of_cons Hna; simpl.
      { split; [done|]. intros k Hk e0 He0. left. simpl in He0. rewrite He in He0. injection He0 as <-.
        apply (take_le_eq _ _ k n Hk). by apply accept_take. }
      destruct (no_ack _ _ _ _ Hc a Ha Hna) as [Hat Hk]. split; [done|]. intros k Hki ea Hea. simpl in Hea.
      destruct (go_ack _ _ Hg a Ha) as (_ & ea' & Hea' & Hlen). rewrite Hea in Hea'. injection Hea' as <-.
      destruct (Hk k Hki ea Hea) as [E|?]; [|by right].
      assert (k <= length (c_log c))%nat as Hkl by (eapply take_length_ge; [exact E|lia]).
      destruct (Hkeep k Hkl) as [->|(j & Hj & Hcf)]; [by left|].
      destruct (decide (k_term a = c_term c)) as [Et|Hne].
      * exfalso. rewrite Et, He in Hea. injection Hea as <-. destruct Hcf as (x & y & Hx & Hy & Hne & _). apply Hne.
        rewrite (take_lookup_eq _ _ k j E Hj), Hy in Hx. by injection Hx as ->.
      * right. exists (c_term c), e. split_and!; [lia|done|done|]. rewrite <- E. eapply conflict_elog; [done|done|lia].
    + change (logged g L). by apply accept_logged.
    + intros x Hx. destruct (accept_elem _ _ _ _ Hm Hn Hp Heq x Hx) as [Hx'|Hx']; [by apply Hc|by eapply tlog_terms].
    + apply (covered_le ids g); [done|by apply add_ack_by with (i := i)|]. pose proof (no_commit _ _ _ _ Hc) as Hcov.
      set (k := Nat.max _ _) in *. eapply covered_log; [|exact Hcov].
      destruct (Hkeep k (covered_in _ _ Hg _ _ _ Hcov)) as [E|(j & Hj & x & y & Hx & Hy & Hne & _)]; [done|exfalso].
      destruct (covered_leader ids g Hg _ _ _ (c_term c) e Hcov ltac:(lia) He) as [E _]. apply Hne.
      rewrite (take_lookup_eq _ _ k j E Hj), Hy in Hx. by injection Hx as ->.
Qed.

(** An entry of a leader's own term that a majority confirmed is committed. *)
Lemma advance_covered k Q :
  c_role c = LEADER -> pos_term (c_log c) k = c_term c -> Q ⊆ ids -> majority ids Q ->
  (forall v, v ∈ Q -> v = i \/ (0 < k <= c_match c v)%nat) -> covered ids g (c_term c) (c_log c) k.
Proof.
  intros Hr Hpos HQ HM Hv. destruct (no_leader _ _ _ _ Hc Hr) as (e & He & _ & Ht & Ha & Hm).
  pose proof (elect_pos ids g Hg _ e He). destruct (pos_term_pos _ _ _ Hpos) as [Hk _]; [lia|].
  right. exists (c_term c), k, e. rewrite Ht. split_and!; try done.
  exists e, Q. rewrite Ht. split_and!; try done. intros v Hvq. destruct (Hv v Hvq) as [->|Hkm].
  - exists (length (c_log c)). split; [lia|done].
  - exists (c_match c v). split; [lia|]. apply Hm. lia.
Qed.

End one.

(** Every step preserves the invariants. *)
Lemma astep_ok i c g c' g' :
  i ∈ ids -> ghost_ok ids g -> node_ok ids g i c -> astep ids i c g c' g' -> step_ok i g c' g'.
Proof.
  intros Hi Hg Hc Hs. destruct Hs as [| | | | | | | |c g p m Hrole Hack| | |].
  - by apply timeout_ok.
  - by apply term_ok.
  - apply quiet_ok; [done|done|by apply own_votes|done|done|apply Hc].
  - by apply grant_ok.
  - apply quiet_ok; [done|done|by apply own_votes| |by intros Hr; rewrite Hr in *|apply Hc].
    intros Hr. destruct (keep_candidate _ _ _ Hc Hr) as (_ & Hvs & Hall). split; [done|]. split.
    + destruct (go_vote _ _ Hg x) as (? & _); [done|]. set_solver.
    + intros v [->%elem_of_singleton|Hv]%elem_of_union; [by exists x|by apply Hall].
  - by apply elect_ok.
  - by apply append_ok.
  - by apply accept_ok.
  - apply quiet_ok; [done|done|by apply own_votes|by intros Hr; rewrite Hr in *| |apply Hc].
    intros Hr. destruct (keep_leader _ _ _ Hc Hr) as (_ & Hm). split; [done|]. intros q Hq.
    destruct (decide (p = q)) as [->|Hne].
    + rewrite fn_lookup_insert in *. destruct Hack as [->|?]; [lia|done].
    + rewrite fn_lookup_insert_ne in * by done. by apply Hm.
  - apply quiet_ok; [done|done|by apply own_votes|by apply keep_candidate|by eapply keep_leader|].
    destruct (Nat.max_spec k (c_applied c)) as [[_ ->]|[_ ->]]; [|done].
    eapply covered_shorter; [|apply Hc]. lia.
  - apply quiet_ok; [done|done|by apply own_votes|by apply keep_candidate|by eapply keep_leader|].
    eapply covered_shorter; [|apply Hc]. lia.
  - apply quiet_ok; [done|done|by apply own_votes|done|done|]. eapply covered_shorter; [|apply Hc]. lia.
Qed.

End preservation.
