(* ===== verification/RaftRefine.v ===== *)
(** A node of the implementation refines the abstract protocol: the relation
    between the two states, and a program logic for the node's methods.

    [wp g n m Q] says that running [m] on the node [n] under the history [g]
    raises nothing and ends, after some steps of the abstract protocol, in a
    history and a state of which [Q] holds. *)

From stdpp Require Import functions.
From S2P Require Import Prelude PyBase RaftLog RaftNode RaftAbstract RaftHistory RaftSteps RaftInvariant.

(** * Interfaces *)

(** A state machine that takes every command, as [Recorder] does: [consumed l m]
    says that [m] was fed exactly the entries [l], from index 1 on.  A database
    may refuse a command; [RaftKV] carries what is proved here over to it. *)
Class MachineSpec (V SM : Type) `{StateMachine V SM} := {
  consumed : list (LogEntry V) -> SM -> Prop;
  apply_consumes l m x : consumed l m ->
    exists m', sm_apply (Z.of_nat (S (length l))) (cmd x) m = (m', Ok tt) /\ consumed (l ++ [x]) m';
  applied_index_consumed l m : consumed l m -> sm_applied_index m = (m, Ok (Z.of_nat (length l)))
}.

(** * The relation *)

(** What a restarted process finds: the contents of the file, if there is one. *)
Definition reload {V} (l : RaftLog V) : RaftLog V :=
  match _file l with None => l | Some _ => raftlog.init (_file l) end.

Section relation.
Context `{Rng} {V SM : Type} `{MachineSpec V SM} (ids : gset Z).
Implicit Types (n : RaftNode V SM) (c : core V) (g : ghost V) (env : Envelope V).

Record view n c : Prop := {
  vw_term : current_term n = c_term c;
  vw_vote : voted_for n = c_vote c;
  vw_role : role n = c_role c;
  vw_log : entries (log n) = c_log c;
  vw_votes : votes n = c_votes c;
  vw_match p : default 0 (match_index n !! p) = Z.of_nat (c_match c p);
  vw_commit : commit_index n = Z.of_nat (c_commit c);
  vw_applied : last_applied n = Z.of_nat (c_applied c)
}.

(** A message states a fact about the history. *)
Definition says g env : Prop :=
  match body env with
  | RequestVote t cand li lt => cand = src env /\ exists d, d ∈ g_cands g /\ cd_term d = t /\ cd_id d = cand /\
      li = Z.of_nat (length (cd_log d)) /\ lt = log_last_term (cd_log d)
  | RequestVoteReply t true => exists x, x ∈ g_votes g /\ v_term x = t /\ v_voter x = src env /\ v_cand x = dst env
  | RequestVoteReply t false => True
  | AppendEntries t l p pt es lc => exists e pn ln, g_elect g !! t = Some e /\ p = Z.of_nat pn /\ lc = Z.of_nat ln /\
      (pn + length es <= length (e_tlog e))%nat /\ es = take (length es) (drop pn (e_tlog e)) /\
      pt = pos_term (e_tlog e) pn /\ (ln <= pn + length es)%nat /\ covered ids g t (e_tlog e) ln
  | AppendEntriesReply t true m => exists mn, m = Z.of_nat mn /\ mkAck t (src env) mn ∈ g_acks g
  | AppendEntriesReply t false m => 0 <= m
  end.

Definition msg_ok g env : Prop := src env ∈ ids /\ dst env ∈ ids /\ src env <> dst env /\ says g env.

Lemma says_le g g' env : ghost_ok ids g -> g_le g g' -> says g env -> says g' env.
Proof.
  intros Hg Hle. unfold says. destruct (body env) as [t cd li lt|t [|]|t l p pt es lc|t [|] m]; try done.
  - intros (? & d & Hd & ?). split; [done|]. exists d. split; [by apply Hle|done].
  - intros (x & Hx & ?). exists x. split; [by apply Hle|done].
  - intros (e & pn & ln & He & -> & -> & Hlen & Hes & -> & Hln & Hcov). pose proof He as He1.
    apply Hle in He1 as (e' & He' & _ & _ & _ & Hp). exists e', pn, ln. pose proof (prefix_length _ _ Hp).
    split_and!; try done; [lia|..].
    + rewrite Hes at 1. destruct Hp as [r ->]. rewrite drop_app_le by lia. rewrite take_app_le by (rewrite length_drop; lia).
      done.
    + symmetry. apply pos_term_prefix; [done|lia].
    + eapply covered_log; [|by eapply covered_le]. apply take_prefix; [done|lia].
  - intros (mn & ? & ?). exists mn. split; [done|]. by apply Hle.
Qed.

Lemma msg_ok_le g g' env : ghost_ok ids g -> g_le g g' -> msg_ok g env -> msg_ok g' env.
Proof. intros Hg Hle (? & ? & ? & ?). split_and!; try done. by eapply says_le. Qed.

Context (i : Z) (Hi : i ∈ ids).

(** The node [n] is in the abstract state [c] under the history [g]. *)
Record st g c n : Prop := {
  st_ghost : ghost_ok ids g;
  st_node : node_ok ids g i c;
  st_view : view n c;
  st_id : node_id n = i;
  st_nodup : NoDup (peers n);
  st_peers p : p ∈ peers n <-> p ∈ ids /\ p <> i;
  st_size : cluster_size n = Z.of_nat (size ids);
  st_next : role n = LEADER -> forall p, p ∈ peers n ->
    exists k, next_index n !! p = Some k /\ 1 <= k <= Z.of_nat (length (c_log c)) + 1;
  st_out : Forall (msg_ok g) (_outbox n);
  st_machine : consumed (take (c_applied c) (c_log c)) (machine n)
}.

(** The term, vote and log are saved: in the log object, and on disk if it has a
    file. *)
Definition persisted c (l : RaftLog V) : Prop :=
  saved_term l = c_term c /\ saved_vote l = c_vote c /\
  entries (reload l) = c_log c /\ saved_term (reload l) = c_term c /\ saved_vote (reload l) = c_vote c.

(** What may change between two methods: nothing is lost, and what is applied
    stays applied. *)
Definition later c c' : Prop :=
  c_term c <= c_term c' /\ (c_applied c <= c_applied c')%nat /\ take (c_applied c) (c_log c') = take (c_applied c) (c_log c).

Lemma later_refl c : later c c.
Proof. done. Qed.

Lemma later_trans c1 c2 c3 : later c1 c2 -> later c2 c3 -> later c1 c3.
Proof.
  intros (T1 & A1 & E1) (T2 & A2 & E2). split_and!; [lia..|]. rewrite <- E1. by apply (take_le_eq _ _ _ (c_applied c2)).
Qed.

Lemma step_applied g c c' g' :
  ghost_ok ids g -> node_ok ids g i c -> step_ok ids i g c' g' -> (c_applied c <= c_applied c')%nat ->
  take (c_applied c) (c_log c') = take (c_applied c) (c_log c).
Proof.
  intros Hg Hc (Hby & Hg' & Hc') Ha.
  pose proof (covered_agree ids g' Hg' _ _ _ _ _ _ (no_commit _ _ _ _ Hc')
    (covered_le ids g g' _ _ _ Hg (by_le _ _ _ Hby) (no_commit _ _ _ _ Hc))) as E.
  by eapply take_le_eq; [|exact E]; lia.
Qed.

(** A step of the protocol, matched by an assignment to the node. *)
Lemma st_step g c n c' g' n' :
  st g c n -> astep ids i c g c' g' -> c_applied c' = c_applied c -> view n' c' ->
  node_id n' = node_id n -> peers n' = peers n -> cluster_size n' = cluster_size n -> _outbox n' = _outbox n -> machine n' = machine n ->
  (role n' = LEADER -> forall p, p ∈ peers n -> exists k, next_index n' !! p = Some k /\ 1 <= k <= Z.of_nat (length (c_log c')) + 1) ->
  g_by i g g' /\ st g' c' n' /\ take (c_applied c) (c_log c') = take (c_applied c) (c_log c).
Proof.
  intros Hst Hs Ha Hv E1 E2 E3 E4 E5 Hnext. pose proof Hst as [Hg Hn _ Hid Hnd Hp Hsz _ Hout Hm].
  destruct (astep_ok ids i c g c' g' Hi Hg Hn Hs) as (Hby & Hg' & Hc').
  assert (take (c_applied c) (c_log c') = take (c_applied c) (c_log c)) as Et.
  { eapply (step_applied g c c' g'); [done..|lia]. }
  split_and!; [done| |done]. split; try done; try congruence.
  - intros p. rewrite E2. apply Hp.
  - intros Hr p Hpp. rewrite E2 in Hpp. by apply Hnext.
  - rewrite E4. eapply Forall_impl; [exact Hout|]. intros e He. apply (msg_ok_le g g'); [done|apply Hby|done].
Qed.

(** * Running methods *)

Definition wp {A} g n (m : stx raft_exn (RaftNode V SM) A) (Q : A -> ghost V -> core V -> RaftNode V SM -> Prop) : Prop :=
  exists g' c' n' a, m n = (n', Ok a) /\ g_by i g g' /\ st g' c' n' /\ Q a g' c' n'.

Lemma wp_ret {A} g c n (a : A) (Q : A -> ghost V -> core V -> RaftNode V SM -> Prop) :
  st g c n -> Q a g c n -> wp g n (mret a) Q.
Proof. intros Hst HQ. exists g, c, n, a. split_and!; [done|apply g_by_refl|done|done]. Qed.

Lemma wp_bind {A B} g n (m : stx raft_exn (RaftNode V SM) A) (f : A -> stx raft_exn (RaftNode V SM) B) Q R :
  wp g n m Q ->
  (forall a g' c' n', g_by i g g' -> st g' c' n' -> Q a g' c' n' -> wp g' n' (f a) R) -> wp g n (m ≫= f) R.
Proof.
  intros (g' & c' & n' & a & E & Hby & Hst & HQ) Hf.
  destruct (Hf a g' c' n' Hby Hst HQ) as (g2 & c2 & n2 & b & E2 & Hby2 & Hst2 & HR).
  exists g2, c2, n2, b. split_and!; [by rewrite (stx_bind_ok _ _ _ _ _ E)|by eapply g_by_trans|done|done].
Qed.

Lemma wp_get {B} g n (f : RaftNode V SM -> stx raft_exn (RaftNode V SM) B) R : wp g n (f n) R -> wp g n (get_st ≫= f) R.
Proof. intros Hf. exact Hf. Qed.

Lemma wp_mono {A} g n (m : stx raft_exn (RaftNode V SM) A) (Q R : A -> ghost V -> core V -> RaftNode V SM -> Prop) :
  wp g n m Q -> (forall a g' c' n', st g' c' n' -> Q a g' c' n' -> R a g' c' n') -> wp g n m R.
Proof. intros (g' & c' & n' & a & E & Hby & Hst & HQ) HR. exists g', c', n', a. split_and!; auto. Qed.

Lemma wp_modify {A} g n f (k : unit -> stx raft_exn (RaftNode V SM) A) Q :
  wp g (f n) (k tt) Q -> wp g n (modify f ≫= k) Q.
Proof. intros Hk. exact Hk. Qed.

End relation.
