(* ===== verification/RaftHandlers.v ===== *)
(** The methods of a node refine the abstract protocol, one after the other. *)

From stdpp Require Import functions.
From S2P Require Import Prelude PyBase RaftLog RaftNode RaftAbstract RaftHistory RaftSteps RaftInvariant RaftRefine.

Section handlers.
Context `{Rng} {V SM : Type} `{MachineSpec V SM} (ids : gset Z) (i : Z) (Hi : i ∈ ids).
Implicit Types (n : RaftNode V SM) (c : core V) (g : ghost V) (env : Envelope V).

Local Abbreviation wp := (wp ids i).
Local Abbreviation st := (st ids i).
Local Abbreviation post A := (A -> ghost V -> core V -> RaftNode V SM -> Prop).

(** * Lists and dictionaries *)

Lemma term_at_pos (l : RaftLog V) (k : nat) : raftlog.term_at l (Z.of_nat k) = pos_term (entries l) k.
Proof.
  unfold raftlog.term_at. destruct k as [|k]; [done|]. simpl pos_term.
  rewrite (proj2 (Z.leb_gt _ _)) by lia. destruct (Z.ltb_spec (Z.of_nat (length (entries l))) (Z.of_nat (S k))) as [Hlt|Hge].
  - by rewrite lookup_ge_None_2 by lia.
  - by replace (Z.to_nat (Z.of_nat (S k) - 1)) with k by lia.
Qed.

Lemma last_term_log (l : RaftLog V) : raftlog.last_term l = log_last_term (entries l).
Proof. done. Qed.

Lemma peers_map (ps : list Z) (v p : Z) :
  p ∈ ps -> (list_to_map ((fun q => (q, v)) <$> ps) : gmap Z Z) !! p = Some v.
Proof.
  intros Hp. induction ps as [|q ps IH]; [by apply elem_of_nil in Hp|]. simpl.
  destruct (decide (q = p)) as [->|Hne]; [by rewrite lookup_insert_eq|]. rewrite lookup_insert_ne by done.
  apply IH. by apply elem_of_cons in Hp as [->|?].
Qed.

Lemma peers_map_default (ps : list Z) (p : Z) :
  default 0 ((list_to_map ((fun q => (q, 0)) <$> ps) : gmap Z Z) !! p) = 0.
Proof.
  induction ps as [|q ps IH]; [done|]. simpl.
  destruct (decide (q = p)) as [->|Hne]; [by rewrite lookup_insert_eq|]. by rewrite lookup_insert_ne.
Qed.

(** * Assignments that the protocol does not see *)

(** [n'] differs from [n] in its timers, generator, leader hint or saved copy
    only. *)
Record same n n' : Prop := {
  sm_id : node_id n' = node_id n;
  sm_peers : peers n' = peers n;
  sm_size : cluster_size n' = cluster_size n;
  sm_term : current_term n' = current_term n;
  sm_vote : voted_for n' = voted_for n;
  sm_role : role n' = role n;
  sm_entries : entries (log n') = entries (log n);
  sm_votes : votes n' = votes n;
  sm_match : match_index n' = match_index n;
  sm_commit : commit_index n' = commit_index n;
  sm_applied : last_applied n' = last_applied n;
  sm_next : next_index n' = next_index n;
  sm_out : _outbox n' = _outbox n;
  sm_machine : machine n' = machine n
}.

Lemma same_refl n : same n n.
Proof. by split. Qed.

Lemma view_same n n' c : same n n' -> view n c -> view n' c.
Proof. intros [] []. split; try congruence. Qed.

Lemma st_same g c n n' : same n n' -> st g c n -> st g c n'.
Proof.
  intros Hs [Hg Hn Hv Hid Hnd Hp Hsz Hnx Hout Hm]. pose proof (view_same _ _ _ Hs Hv). destruct Hs.
  split; try done; try congruence.
  - intros p. rewrite sm_peers0. apply Hp.
  - intros Hr p Hpp. rewrite sm_next0. apply Hnx; congruence.
Qed.

Lemma reset_same n : exists n', node._reset_election_timer n = (n', Ok tt) /\ same n n' /\ log n' = log n.
Proof.
  unfold node._reset_election_timer, modify. cbv zeta. simpl.
  destruct (randint _ _ _) as [t r]. eexists. split; [done|]. by split.
Qed.

Lemma wp_reset {A} g n (k : unit -> stx raft_exn (RaftNode V SM) A) (Q : post A) :
  (forall n', same n n' -> log n' = log n -> wp g n' (k tt) Q) -> wp g n (node._reset_election_timer ≫= k) Q.
Proof.
  intros Hk. destruct (reset_same n) as (n' & E & Hs & Hl). specialize (Hk n' Hs Hl).
  destruct Hk as (g' & c' & n2 & a & E2 & Hrest). exists g', c', n2, a. split; [|done].
  by rewrite (stx_bind_ok _ _ _ _ _ E).
Qed.

Lemma saved_persisted g c n n' :
  st g c n -> persisted c (raftlog.save (current_term n) (voted_for n) (log n)).
Proof.
  intros [_ _ [E1 E2 _ E3 _ _ _ _] _ _ _ _ _ _ _]. unfold persisted, reload, raftlog.save. simpl.
  destruct (_file (log n)); simpl; by split_and!.
Qed.

Lemma persist_st g c n : st g c n ->
  exists n', node._persist n = (n', Ok tt) /\ same n n' /\ persisted c (log n').
Proof. intros Hst. eexists. split; [done|]. split; [by split|]. by eapply saved_persisted. Qed.

Lemma wp_persist {A} g c n (k : unit -> stx raft_exn (RaftNode V SM) A) (Q : post A) :
  st g c n -> (forall n', same n n' -> st g c n' -> persisted c (log n') -> wp g n' (k tt) Q) ->
  wp g n (node._persist ≫= k) Q.
Proof.
  intros Hst Hk. destruct (persist_st g c n Hst) as (n' & E & Hs & Hp).
  destruct (Hk n' Hs (st_same _ _ _ _ Hs Hst) Hp) as (g' & c' & n2 & a & E2 & Hrest). exists g', c', n2, a. split; [|done].
  by rewrite (stx_bind_ok _ _ _ _ _ E).
Qed.

(** * Sending *)

(** Sending changes the outbox only. *)
Lemma send_st g c n to b :
  st g c n -> msg_ok ids g (mkEnvelope i to b) ->
  exists n', node._send to b n = (n', Ok tt) /\ st g c n' /\ log n' = log n.
Proof.
  intros [Hg Hn [] Hid Hnd Hp Hsz Hnx Hout Hm] Hb. eexists. split; [done|]. split; [|done].
  split; try done. simpl. rewrite Hid. apply Forall_app. split; [done|]. by apply Forall_singleton.
Qed.

(** What a method that only sends leaves alone. *)
Definition quiet g c n : post unit := fun _ g' c' n' => g' = g /\ c' = c /\ log n' = log n.

Lemma wp_send g c n to b : st g c n -> msg_ok ids g (mkEnvelope i to b) -> wp g n (node._send to b) (quiet g c n).
Proof.
  intros Hst Hb. destruct (send_st g c n to b Hst Hb) as (n' & E & Hst' & Hl).
  exists g, c, n', tt. split_and!; [done|apply g_by_refl|done|done].
Qed.

Lemma wp_for_peers g c n (f : Z -> stx raft_exn (RaftNode V SM) unit) (ps : list Z) :
  st g c n -> (forall n' p, st g c n' -> p ∈ ps -> wp g n' (f p) (quiet g c n')) ->
  wp g n (node.for_peers f ps) (quiet g c n).
Proof.
  revert n. induction ps as [|p ps IH]; intros n Hst Hf; simpl.
  { eapply wp_ret; [exact Hst|done]. }
  eapply wp_bind; [apply Hf; [exact Hst|by apply list_elem_of_here]|].
  intros [] g' c' n' Hby Hst' (-> & -> & Hl). eapply wp_mono.
  - apply IH; [done|]. intros n2 q Hn2 Hq. apply Hf; [done|by apply list_elem_of_further].
  - intros [] g' c' n2 _ (-> & -> & Hl2). split_and!; congruence.
Qed.

Lemma to_peer g c n p b : st g c n -> p ∈ ids -> p <> i -> says ids g (mkEnvelope i p b) -> msg_ok ids g (mkEnvelope i p b).
Proof. intros _ Hp Hne Hs. split_and!; simpl; congruence || done. Qed.

(** An [AppendEntries] of a leader is a piece of its log. *)
Lemma append_says g c n p k :
  st g c n -> role n = LEADER -> 1 <= k <= Z.of_nat (length (c_log c)) + 1 ->
  says ids g (mkEnvelope i p (AppendEntries (current_term n) (node_id n) (k - 1) (raftlog.term_at (log n) (k - 1))
    (raftlog.entries_from (log n) (k - 1 + 1)) (commit_index n))).
Proof.
  intros Hst Hr Hk. pose proof Hst as [Hg Hn [Ht _ Hro Hl _ _ Hc _] _ _ _ _ _ _ _].
  destruct (no_leader _ _ _ _ Hn) as (e & He & _ & Et & _); [congruence|]. unfold says. simpl.
  replace (k - 1) with (Z.of_nat (Z.to_nat (k - 1))) by lia. set (pn := Z.to_nat (k - 1)).
  pose proof (covered_in ids g Hg _ _ _ (no_commit _ _ _ _ Hn)) as Hin.
  assert (raftlog.entries_from (log n) (Z.of_nat pn + 1) = drop pn (c_log c)) as ->.
  { unfold raftlog.entries_from. rewrite py_from_nat by lia. rewrite Hl. f_equal. lia. }
  exists e, pn, (c_commit c). rewrite Ht, term_at_pos, Hl, Et, length_drop. split_and!; try done; try lia.
  - by rewrite take_ge by (rewrite length_drop; lia).
  - eapply covered_shorter; [|apply Hn]. lia.
Qed.

Lemma wp_send_append g c n p : st g c n -> role n = LEADER -> p ∈ peers n -> wp g n (node._send_append_to p) (quiet g c n).
Proof.
  intros Hst Hr Hp. destruct (st_next _ _ _ _ _ Hst Hr p Hp) as (k & Hk & Hb).
  unfold node._send_append_to, node.get_next_index. apply wp_bind with (Q := fun a g' c' n' => a = k /\ g' = g /\ c' = c /\ n' = n).
  { apply wp_get. rewrite Hk. by eapply wp_ret. }
  intros a g' c' n' _ _ (-> & -> & -> & ->). apply wp_get.
  apply wp_send; [done|]. apply (st_peers _ _ _ _ _ Hst) in Hp as [Hp Hne]. eapply to_peer; [done..|]. by eapply append_says.
Qed.

Lemma wp_broadcast g c n : st g c n -> role n = LEADER -> wp g n node._broadcast_append (quiet g c n).
Proof.
  intros Hst Hr. unfold node._broadcast_append. apply wp_get. apply wp_for_peers; [done|].
  intros n' p Hst' Hp. apply wp_send_append; [done|..].
  - rewrite (vw_role _ _ (st_view _ _ _ _ _ Hst')), <- (vw_role _ _ (st_view _ _ _ _ _ Hst)). done.
  - apply (st_peers _ _ _ _ _ Hst'). by apply (st_peers _ _ _ _ _ Hst).
Qed.

(** * Applying and committing *)

Definition with_commit c (k a : nat) : core V :=
  mkCore (c_term c) (c_vote c) (c_role c) (c_log c) (c_votes c) (c_match c) k a.

Lemma st_commit g c n k n' :
  st g c n -> covered ids g (c_term c) (c_log c) k -> n' = node.set_commit_index (Z.of_nat k) n ->
  st g (with_commit c k (c_applied c)) n'.
Proof.
  intros Hst Hk ->. pose proof Hst as [Hg Hn [] Hid Hnd Hp Hsz Hnx Hout Hm].
  destruct (st_step ids i Hi g c n (with_commit c k (c_applied c)) g (node.set_commit_index (Z.of_nat k) n))
    as (_ & ? & _); try done. by apply as_commit.
Qed.

(** One turn of the loop: the machine consumes the next entry. *)
Lemma st_apply g c n x m' :
  st g c n -> (c_applied c < c_commit c)%nat -> c_log c !! c_applied c = Some x ->
  consumed (take (c_applied c) (c_log c) ++ [x]) m' ->
  st g (with_commit c (c_commit c) (S (c_applied c)))
    (node.set_machine m' (node.set_last_applied (last_applied n + 1) n)).
Proof.
  intros Hst Hlt Hx Hm'. pose proof Hst as [Hg Hn [] Hid Hnd Hp Hsz Hnx Hout Hm].
  destruct (astep_ok ids i c g (with_commit c (c_commit c) (S (c_applied c))) g) as (_ & _ & Hn'); try done.
  { apply as_apply. lia. }
  split; try done; [split; simpl; try done; lia|]. simpl. by rewrite (take_S_r _ _ _ Hx).
Qed.

Definition applied_up g c n : post unit :=
  fun _ g' c' n' => g' = g /\ c' = with_commit c (c_commit c) (Nat.max (c_commit c) (c_applied c)) /\ log n' = log n.

Lemma core_eta c : with_commit c (c_commit c) (c_applied c) = c.
Proof. by destruct c. Qed.

Lemma wp_apply_loop g c n fuel :
  st g c n -> fuel = (c_commit c - c_applied c)%nat -> wp g n (node.apply_loop fuel) (applied_up g c n).
Proof.
  revert c n. induction fuel as [|fuel IH]; intros c n Hst Hf; simpl.
  { eapply wp_ret; [exact Hst|]. split_and!; [done| |done]. rewrite Nat.max_r by lia. by rewrite core_eta. }
  pose proof Hst as [Hg Hn [_ _ _ Hl _ _ Hco Hap] _ _ _ _ _ _ Hm]. apply wp_get.
  rewrite (proj2 (Z.ltb_lt _ _)) by lia. apply wp_modify.
  pose proof (covered_in ids g Hg _ _ _ (no_commit _ _ _ _ Hn)) as Hin.
  destruct (lookup_lt_is_Some_2 (c_log c) (c_applied c)) as [x Hx]; [lia|].
  assert (raftlog.get (log n) (last_applied n + 1) = Ok x) as Hget.
  { unfold raftlog.get. apply py_index_in; [lia|]. rewrite Hl. by replace (Z.to_nat (last_applied n + 1 - 1)) with (c_applied c) by lia. }
  destruct (apply_consumes _ (machine n) x Hm) as (m' & Ea & Hm').
  rewrite length_take_le in Ea by lia.
  pose proof (st_apply g c n x m' Hst ltac:(lia) Hx Hm') as Hst'. eapply wp_mono.
  - unfold RaftRefine.wp. rewrite Hget. unfold lift_res. simpl. erewrite stx_bind_ok by reflexivity.
    erewrite stx_bind_ok; [apply (IH _ _ Hst'); simpl; lia|].
    unfold node.on_machine. simpl. replace (last_applied n + 1) with (Z.of_nat (S (c_applied c))) by lia. by rewrite Ea.
  - intros [] g' c' n' _ (-> & -> & E). split_and!; [done| |done]. unfold with_commit; simpl. f_equal. lia.
Qed.

Lemma wp_apply g c n : st g c n -> wp g n node._apply (applied_up g c n).
Proof.
  intros Hst. unfold node._apply. apply wp_get. apply wp_apply_loop; [done|].
  pose proof Hst as [_ _ [_ _ _ _ _ _ Hco Hap] _ _ _ _ _ _ _]. lia.
Qed.

(** What commits and applies leaves alone; it applies all it commits. *)
Definition forward g c n : post unit := fun _ g' c' n' =>
  exists k a, g' = g /\ c' = with_commit c k a /\ log n' = log n /\ (c_applied c <= a)%nat /\
    ((c_commit c <= c_applied c)%nat -> (k <= a)%nat).

Lemma forward_refl g c n : forward g c n tt g c n.
Proof. exists (c_commit c), (c_applied c). by rewrite core_eta. Qed.

Lemma replica_quorum g c n k :
  st g c n -> node._has_majority n (node.replicas n (Z.of_nat k)) = true -> (0 < k)%nat ->
  exists Q, Q ⊆ ids /\ majority ids Q /\ forall v, v ∈ Q -> v = i \/ (0 < k <= c_match c v)%nat.
Proof.
  intros [_ _ [_ _ _ _ _ Hmt _ _] _ Hnd Hp Hsz _ _ _] Hmaj Hk.
  set (l := base.filter (fun p => Z.of_nat k <= default 0 (match_index n !! p)) (peers n)).
  assert (forall v, v ∈ l -> v ∈ ids /\ v <> i /\ (k <= c_match c v)%nat) as Hl.
  { intros v [Hv Hvp]%list_elem_of_filter. rewrite Hmt in Hv. apply Hp in Hvp as [? ?]. split_and!; try done. lia. }
  exists (list_to_set (i :: l)). split_and!.
  - intros v [->|Hv]%elem_of_list_to_set%elem_of_cons; [done|]. by apply Hl in Hv as [? _].
  - unfold majority. rewrite size_list_to_set.
    + unfold node._has_majority, node.replicas in Hmaj. fold l in Hmaj. apply Z.leb_le in Hmaj.
      rewrite Hsz in Hmaj. change 2 with (Z.of_nat 2) in Hmaj. rewrite <- Nat2Z.inj_div in Hmaj. change (length (i :: l)) with (S (length l)). lia.
    + apply NoDup_cons. split; [|by apply NoDup_filter]. intros Hil. apply Hl in Hil as (_ & ? & _). done.
  - intros v [->|Hv]%elem_of_list_to_set%elem_of_cons; [by left|right]. apply Hl in Hv as (_ & _ & ?). lia.
Qed.

Lemma wp_advance_loop g c n (ks : list Z) :
  st g c n -> role n = LEADER -> (forall k, k ∈ ks -> 0 < k) -> wp g n (node.advance_loop ks) (forward g c n).
Proof.
  intros Hst Hr. pose proof Hst as [Hg Hn [Ht _ Hro Hl _ _ _ _] _ _ _ _ _ _ _].
  induction ks as [|k ks IH]; intros Hks; simpl; [eapply wp_ret; [exact Hst|apply forward_refl]|].
  assert (wp g n (node.advance_loop ks) (forward g c n)) as Hrest
    by (apply IH; intros; by apply Hks, list_elem_of_further).
  apply wp_get. destruct (raftlog.term_at (log n) k =? current_term n) eqn:Et; simpl; [|done].
  destruct (node._has_majority n (node.replicas n k)) eqn:Em; [|done]. clear Hrest IH.
  assert (0 < k) as Hk by apply Hks, list_elem_of_here.
  apply Z.eqb_eq in Et. replace k with (Z.of_nat (Z.to_nat k)) in Et, Em |- * by lia.
  rewrite term_at_pos, Hl, Ht in Et.
  destruct (replica_quorum g c n _ Hst Em ltac:(lia)) as (Q & HQ & HM & Hv).
  pose proof (advance_covered ids i c g Hg Hn (Z.to_nat k) Q ltac:(congruence) Et HQ HM Hv) as Hcov.
  pose proof (st_commit g c n _ _ Hst Hcov eq_refl) as Hst'.
  apply wp_modify. eapply wp_mono; [by apply wp_apply|]. intros [] g' c' n' _ (-> & -> & El).
  eexists _, _. split_and!; [done|done|done|simpl; lia..].
Qed.

Lemma wp_advance g c n : st g c n -> role n = LEADER -> wp g n node._maybe_advance_commit (forward g c n).
Proof.
  intros Hst Hr. unfold node._maybe_advance_commit. apply wp_get. apply wp_advance_loop; [done|done|].
  pose proof Hst as [_ _ [_ _ _ _ _ _ Hco _] _ _ _ _ _ _ _].
  intros k Hk. unfold node.range_down in Hk. apply list_elem_of_fmap in Hk as (j & -> & Hj%elem_of_seq). lia.
Qed.

(** * Elections *)

Lemma wp_run {A B} g n n' a (m : stx raft_exn (RaftNode V SM) A) (k : A -> stx raft_exn (RaftNode V SM) B) (Q : post B) :
  m n = (n', Ok a) -> wp g n' (k a) Q -> wp g n (m ≫= k) Q.
Proof.
  intros E (g' & c' & n2 & b & E2 & Hrest). exists g', c', n2, b. split; [|done]. by rewrite (stx_bind_ok _ _ _ _ _ E).
Qed.

(** After some steps of the protocol. *)
Lemma wp_after {A} g g' n (m : stx raft_exn (RaftNode V SM) A) (Q : post A) : g_by i g g' -> wp g' n m Q -> wp g n m Q.
Proof.
  intros Hby (g2 & c2 & n2 & a & E & Hby2 & ?). exists g2, c2, n2, a. split_and!; [done|by eapply g_by_trans|..]; by destruct_and?.
Qed.

(** The state in which a method leaves the node: term, vote and log on disk,
    every committed entry applied, and nothing lost. *)
Definition finished {A} c : post A := fun _ _ c' n' =>
  persisted c' (log n') /\ (c_commit c' <= c_applied c')%nat /\ later c c'.

Definition elected c : core V :=
  mkCore (c_term c) (c_vote c) LEADER (c_log c ++ [mkEntry (c_term c) CmdNoop]) (c_votes c) no_match (c_commit c) (c_applied c).

Lemma majority_votes g c n : st g c n -> node._has_majority n (Z.of_nat (size (votes n))) = true -> majority ids (c_votes c).
Proof.
  intros [_ _ [_ _ _ _ Hv _ _ _] _ _ _ Hsz _ _ _] Hm. unfold node._has_majority in Hm. apply Z.leb_le in Hm.
  rewrite Hsz, Hv in Hm. change 2 with (Z.of_nat 2) in Hm. rewrite <- Nat2Z.inj_div in Hm. unfold majority. lia.
Qed.

Lemma wp_lead g c n : st g c n -> role n = LEADER -> (c_commit c <= c_applied c)%nat ->
  wp g n (node._persist ;; node._broadcast_append ;; node._maybe_advance_commit) (finished c).
Proof.
  intros Hst Hr Hca. eapply wp_persist; [exact Hst|]. intros n1 Hs Hst1 Hp.
  assert (role n1 = LEADER) as Hr1 by (rewrite (sm_role _ _ Hs); done).
  eapply wp_bind; [by apply wp_broadcast|]. intros [] g' c' n2 _ Hst2 (-> & -> & E2).
  eapply wp_mono; [apply wp_advance; [done|]|].
  - rewrite (vw_role _ _ (st_view _ _ _ _ _ Hst2)), <- (vw_role _ _ (st_view _ _ _ _ _ Hst1)). done.
  - intros [] g' c' n3 _ (k & a & -> & -> & E3 & Ha & Hka). unfold finished. rewrite E3, E2. split_and!; [done|simpl; auto|].
    split_and!; simpl; done.
Qed.

Lemma wp_become_leader g c n :
  st g c n -> role n = CANDIDATE -> majority ids (c_votes c) -> (c_commit c <= c_applied c)%nat ->
  wp g n node._become_leader (finished c).
Proof.
  intros Hst Hr HM Hca. unfold node._become_leader. apply wp_modify. eapply wp_run; [reflexivity|].
  match goal with |- RaftRefine.wp _ _ _ ?x _ _ => set (n1 := x) end.
  pose proof Hst as [Hg Hn [Ht Hvo Hro Hl Hv _ Hco Hap] _ _ Hp _ _ _ _].
  destruct (st_step ids i Hi g c n (elected c) _ n1 Hst (as_elect ids i c g CmdNoop ltac:(congruence) HM)) as (Hby & Hst1 & Et); try done.
  - split; simpl; try done.
    + by rewrite Hl, Ht.
    + intros q. by rewrite peers_map_default.
  - intros _ q Hq. eexists. split; [by apply peers_map|]. unfold raftlog.last_index. simpl. rewrite Hl, length_app. simpl. lia.
  - eapply wp_after; [exact Hby|]. eapply wp_mono; [by apply wp_lead|].
    intros [] g' c' n' _ (? & ? & Hlat). split_and!; [done..|]. eapply later_trans; [|exact Hlat]. by split_and!.
Qed.

Definition termed c (t : Z) : core V :=
  mkCore t None FOLLOWER (c_log c) (c_votes c) (c_match c) (c_commit c) (c_applied c).

Definition followed g c (t : Z) : post unit := fun _ g' c' n' => g' = g /\ c' = termed c t /\ persisted c' (log n').

Lemma wp_become_follower g c n t : st g c n -> c_term c < t -> wp g n (node._become_follower t) (followed g c t).
Proof.
  intros Hst Ht. pose proof Hst as [_ _ [E1 E2 E3 E4 E5 E6 E7 E8] _ _ _ _ _ _ _].
  unfold node._become_follower. apply wp_modify, wp_get. simpl. rewrite E1, (proj2 (Z.ltb_lt _ _)) by done.
  apply wp_modify, wp_modify. match goal with |- RaftRefine.wp _ _ _ ?x _ _ => set (n1 := x) end.
  destruct (st_step ids i Hi g c n (termed c t) g n1) as (_ & Hst1 & _); try done; [by apply as_term|].
  apply wp_reset. intros n2 Hs2 _. pose proof (st_same _ _ _ _ Hs2 Hst1) as Hst2.
  destruct (persist_st g (termed c t) n2 Hst2) as (n3 & E & Hs3 & Hp).
  exists g, (termed c t), n3, tt. split_and!; [done|apply g_by_refl|by eapply st_same|done].
Qed.

(** The common guard: a newer term makes the node a follower first. *)
Lemma wp_update_term {A} g c n t (k : unit -> stx raft_exn (RaftNode V SM) A) (Q : post A) :
  st g c n -> persisted c (log n) -> (c_commit c <= c_applied c)%nat -> c_term c <= t ->
  (forall c1 n1, st g c1 n1 -> persisted c1 (log n1) -> (c_commit c1 <= c_applied c1)%nat -> c_term c1 = t -> later c c1 -> wp g n1 (k tt) Q) ->
  wp g n ((if current_term n <? t then node._become_follower t else mret tt) ≫= k) Q.
Proof.
  intros Hst Hp Hca Ht Hk. pose proof (vw_term _ _ (st_view _ _ _ _ _ Hst)) as Et.
  destruct (Z.ltb_spec (current_term n) t) as [Hlt|Hge].
  - eapply wp_bind; [apply wp_become_follower; [done|lia]|]. intros [] g' c' n' _ Hst' (-> & -> & Hp').
    eapply Hk; [exact Hst'|done|done|done|]. split_and!; simpl; done.
  - eapply (wp_run _ _ n tt); [done|]. apply (Hk c); try done. lia.
Qed.

(** * Votes *)

Definition candidate c : core V :=
  mkCore (c_term c + 1) (Some i) CANDIDATE (c_log c) {[ i ]} (c_match c) (c_commit c) (c_applied c).

Lemma wp_become_candidate g c n :
  st g c n -> (c_commit c <= c_applied c)%nat -> wp g n node._become_candidate (finished c).
Proof.
  intros Hst Hca. pose proof Hst as [_ _ [E1 E2 E3 E4 E5 E6 E7 E8] Eid _ _ _ _ _ _].
  unfold node._become_candidate. apply wp_modify. match goal with |- RaftRefine.wp _ _ _ ?x _ _ => set (n1 := x) end.
  destruct (st_step ids i Hi g c n (candidate c) _ n1 Hst (as_timeout ids i c g)) as (Hby & Hst1 & _); try done.
  { split; simpl; try done; congruence. }
  eapply wp_after; [exact Hby|]. set (g1 := add_vote _ _) in *. apply wp_reset. intros n2 Hs2 _.
  eapply wp_persist; [by eapply st_same|]. intros n3 Hs3 Hst3 Hp3. apply wp_get.
  destruct (node._has_majority n3 _) eqn:Em.
  - eapply wp_mono; [eapply wp_become_leader; [exact Hst3| |by eapply majority_votes|done]|].
    + by rewrite (vw_role _ _ (st_view _ _ _ _ _ Hst3)).
    + intros [] g' c' n' _ (? & ? & Hlat). split_and!; [done..|]. eapply later_trans; [|exact Hlat]. split_and!; simpl; [lia|done..].
  - eapply wp_mono; [apply wp_for_peers; [exact Hst3|]|].
    + intros n4 p Hst4 Hpp. apply wp_get. apply wp_send; [done|]. apply (st_peers _ _ _ _ _ Hst3) in Hpp as [Hpi Hne].
      eapply to_peer; [exact Hst4|done..|]. pose proof Hst4 as [_ Hn4 [F1 F2 F3 F4 F5 F6 F7 F8] Fid _ _ _ _ _ _].
      destruct (no_candidate _ _ _ _ Hn4 eq_refl) as (Hd & _). unfold says. simpl. split; [done|].
      exists (mkCandidacy (c_term c + 1) i (c_log c)). rewrite last_term_log, F4. unfold raftlog.last_index. rewrite F4. by split_and!.
    + intros [] g' c' n4 _ (-> & -> & El). split_and!; [by rewrite El|done|split_and!; simpl; [lia|done..]].
Qed.

Lemma reply_ok g c n from b : st g c n -> from ∈ ids -> from <> i -> says ids g (mkEnvelope i from b) -> msg_ok ids g (mkEnvelope i from b).
Proof. intros. by eapply to_peer. Qed.

Lemma wp_reply g c0 c n from b :
  st g c n -> from ∈ ids -> from <> i -> says ids g (mkEnvelope i from b) ->
  persisted c (log n) -> (c_commit c <= c_applied c)%nat -> later c0 c -> wp g n (node._send from b) (finished c0).
Proof.
  intros Hst Hf Hne Hs Hp Hca Hlat. eapply wp_mono; [eapply wp_send; [exact Hst|by eapply reply_ok]|].
  intros [] g' c' n' _ (-> & -> & E). split_and!; [by rewrite E|done|done].
Qed.

Lemma wp_request_vote g c n from t cand li lt :
  st g c n -> persisted c (log n) -> (c_commit c <= c_applied c)%nat -> from ∈ ids -> from <> i ->
  says ids g (mkEnvelope from i (RequestVote t cand li lt)) ->
  wp g n (node._handle_request_vote from t cand li lt) (finished c).
Proof.
  intros Hst Hp Hca Hf Hne (-> & d & Hd & Hdt & Hdi & -> & ->). simpl in Hdi.
  unfold node._handle_request_vote. apply wp_get. pose proof (vw_term _ _ (st_view _ _ _ _ _ Hst)) as Et.
  destruct (Z.ltb_spec t (current_term n)) as [Hlt|Hge]; [by eapply wp_reply|].
  eapply wp_update_term; [done..|lia|]. intros c1 n1 Hst1 Hp1 Hca1 Ht1 Hlat1. apply wp_get.
  pose proof Hst1 as [_ _ [F1 F2 F3 F4 F5 F6 F7 F8] _ _ _ _ _ _ _].
  match goal with |- RaftRefine.wp _ _ _ _ (if ?b then _ else _) _ => destruct b eqn:Eb end; [|by eapply wp_reply].
  apply andb_true_iff in Eb as [Hv Hlog]. apply bool_decide_eq_true in Hv. rewrite F2 in Hv.
  assert (up_to_date (cd_log d) (c_log c1)) as Hutd.
  { unfold up_to_date. rewrite last_term_log, F4 in Hlog. unfold raftlog.last_index in Hlog. rewrite F4 in Hlog.
    apply orb_true_iff in Hlog as [Hlog|Hlog]; [left; by apply Z.ltb_lt in Hlog|right].
    apply andb_true_iff in Hlog as [Ha Hb]. apply Z.eqb_eq in Ha. apply Z.leb_le in Hb. split; [done|lia]. }
  apply wp_modify. match goal with |- RaftRefine.wp _ _ _ ?x _ _ => set (n2 := x) end.
  destruct (st_step ids i Hi g c1 n1 (mkCore (c_term c1) (Some (cd_id d)) (c_role c1) (c_log c1) (c_votes c1) (c_match c1) (c_commit c1) (c_applied c1)) _ n2 Hst1
    (as_grant ids i c1 g d Hd ltac:(congruence) ltac:(by rewrite Hdi) Hutd)) as (Hby & Hst2 & _); try done.
  { split; simpl; try done. by rewrite Hdi. }
  { simpl. intros Hr p Hpp. by apply (st_next _ _ _ _ _ Hst1). }
  eapply wp_after; [exact Hby|]. apply wp_reset. intros n3 Hs3 _.
  eapply wp_persist; [by eapply st_same|]. intros n4 Hs4 Hst4 Hp4. apply wp_get.
  eapply wp_reply; [exact Hst4|done|done| |done|done|].
  - eexists. split; [by apply list_elem_of_here|]. simpl.
    split_and!; [|done..]. rewrite (vw_term _ _ (st_view _ _ _ _ _ Hst4)). done.
  - eapply later_trans; [exact Hlat1|]. by split_and!.
Qed.

Lemma wp_vote_reply g c n from t (granted : bool) :
  st g c n -> persisted c (log n) -> (c_commit c <= c_applied c)%nat ->
  says ids g (mkEnvelope from i (RequestVoteReply t granted)) ->
  wp g n (node._handle_request_vote_reply from t granted) (finished c).
Proof.
  intros Hst Hp Hca Hs. unfold node._handle_request_vote_reply. apply wp_get.
  pose proof Hst as [Hg _ [E1 E2 E3 E4 E5 E6 E7 E8] _ _ _ _ _ _ _].
  destruct (Z.ltb_spec (current_term n) t) as [Hlt|Hge].
  { eapply wp_mono; [apply wp_become_follower; [exact Hst|lia]|]. intros [] g' c' n' _ (-> & -> & Hp').
    split_and!; [done..|]. split_and!; simpl; [lia|done..]. }
  destruct (bool_decide (role n <> CANDIDATE) || (t <? current_term n)) eqn:Eb.
  { eapply wp_ret; [exact Hst|]. split_and!; [done..|apply later_refl]. }
  apply orb_false_iff in Eb as [Hr Htt]. apply bool_decide_eq_false in Hr. apply dec_stable in Hr. apply Z.ltb_ge in Htt.
  destruct granted; [|eapply wp_ret; [exact Hst|]; split_and!; [done..|apply later_refl]].
  destruct Hs as (x & Hx & Hxt & Hxv & Hxc). simpl in Hxv, Hxc.
  apply wp_modify, wp_get. match goal with |- RaftRefine.wp _ _ _ ?x _ _ => set (n1 := x) end.
  destruct (st_step ids i Hi g c n (mkCore (c_term c) (c_vote c) (c_role c) (c_log c) ({[ v_voter x ]} ∪ c_votes c) (c_match c) (c_commit c) (c_applied c)) _ n1 Hst
    (as_vote ids i c g x ltac:(congruence) Hx ltac:(lia) Hxc)) as (Hby & Hst1 & _); try done.
  { split; simpl; try done. by rewrite Hxv, E5. }
  { simpl. congruence. }
  destruct (node._has_majority n1 _) eqn:Em.
  - eapply wp_mono; [eapply wp_become_leader; [exact Hst1|done|by eapply majority_votes|done]|].
    intros [] g' c' n' _ (? & ? & Hlat). done.
  - eapply wp_ret; [exact Hst1|]. by split_and!.
Qed.

(** * Log replication *)

Definition following c : core V :=
  mkCore (c_term c) (c_vote c) FOLLOWER (c_log c) (c_votes c) (c_match c) (c_commit c) (c_applied c).

Definition accepted c (e : election V) (p m : nat) : core V :=
  mkCore (c_term c) (c_vote c) FOLLOWER (accept_log (c_log c) (e_tlog e) p m) (c_votes c) (c_match c) (c_commit c) (c_applied c).

(** The consistency check holds: the follower splices the entries in. *)
Lemma wp_accept {A} g c n (e : election V) (p : nat) (es : list (LogEntry V)) (k : unit -> stx raft_exn (RaftNode V SM) A) (Q : post A) :
  let m := (p + length es)%nat in
  st g c n -> g_elect g !! c_term c = Some e -> (m <= length (e_tlog e))%nat ->
  es = take (length es) (drop p (e_tlog e)) -> (p <= length (c_log c))%nat -> pos_term (c_log c) p = pos_term (e_tlog e) p ->
  role n = FOLLOWER ->
  (forall g' n', g_le g g' -> st g' (accepted c e p m) n' -> later c (accepted c e p m) ->
     mkAck (c_term c) i m ∈ g_acks g' -> wp g' n' (k tt) Q) ->
  wp g n (node.on_log (raftlog.append_from (Z.of_nat p) es) ≫= k) Q.
Proof.
  intros m Hst He Hlen Hes Hp Hpos Hr Hk. pose proof Hst as [_ _ [E1 E2 E3 E4 E5 E6 E7 E8] _ _ _ _ _ _ _].
  eapply wp_run.
  { unfold node.on_log. rewrite append_from_spec by (by rewrite E4). reflexivity. }
  match goal with |- RaftRefine.wp _ _ _ ?x _ _ => set (n1 := x) end.
  destruct (st_step ids i Hi g c n (accepted c e p m) _ n1 Hst (as_accept ids i c g e p m He ltac:(lia) Hp Hpos)) as (Hby & Hst1 & Hap); try done.
  - split; simpl; try done. rewrite E4. unfold accept_log. replace (m - p)%nat with (length es) by lia. by rewrite <- Hes.
  - simpl. congruence.
  - eapply wp_after; [exact Hby|]. apply Hk; [apply Hby|done|by split_and!|by apply list_elem_of_here].
Qed.

(** The follower adopts the leader's commit index and applies up to it. *)
Lemma wp_adopt {A} g c n (ln m : nat) (k : unit -> stx raft_exn (RaftNode V SM) A) (Q : post A) :
  st g c n -> (c_commit c <= c_applied c)%nat -> (ln <= m)%nat -> covered ids g (c_term c) (c_log c) ln ->
  (forall k' a n', let c' := with_commit c k' a in st g c' n' -> (k' <= a)%nat -> (c_applied c <= a)%nat -> wp g n' (k tt) Q) ->
  wp g n ((if commit_index n <? Z.of_nat ln
           then modify (node.set_commit_index (Z.min (Z.of_nat ln) (Z.of_nat m))) ;; node._apply else mret tt) ≫= k) Q.
Proof.
  intros Hst Hca Hm Hcov Hk. destruct (Z.ltb_spec (commit_index n) (Z.of_nat ln)) as [Hlt|Hge].
  - eapply wp_bind with (Q := fun _ g' c' n' => g' = g /\ exists k a, c' = with_commit c k a /\ (k <= a)%nat /\ (c_applied c <= a)%nat).
    + apply wp_modify. replace (Z.min (Z.of_nat ln) (Z.of_nat m)) with (Z.of_nat ln) by lia.
      pose proof (st_commit g c n _ _ Hst Hcov eq_refl) as Hst'. eapply wp_mono; [by apply wp_apply|].
      intros [] g' c' n' _ (-> & -> & _). split; [done|]. eexists _, _. split_and!; [done|simpl; lia..].
    + intros [] g' c' n' _ Hst' (-> & k' & a & -> & ? & ?). by apply (Hk k' a).
  - eapply wp_run; [reflexivity|]. apply (Hk (c_commit c) (c_applied c)); [by rewrite core_eta|done|done].
Qed.

Lemma wp_append_entries g c n from t l p pt (es : list (LogEntry V)) lc :
  st g c n -> persisted c (log n) -> (c_commit c <= c_applied c)%nat -> from ∈ ids -> from <> i ->
  says ids g (mkEnvelope from i (AppendEntries t l p pt es lc)) ->
  wp g n (node._handle_append_entries from t l p pt es lc) (finished c).
Proof.
  intros Hst Hp Hca Hf Hne (e & pn & ln & He & -> & -> & Hlen & Hes & -> & Hln & Hcov).
  unfold node._handle_append_entries. apply wp_get. pose proof (vw_term _ _ (st_view _ _ _ _ _ Hst)) as Et.
  destruct (Z.ltb_spec t (current_term n)) as [Hlt|Hge].
  { eapply wp_reply; try done. unfold says. simpl. unfold raftlog.last_index. lia. }
  eapply wp_update_term; [done..|lia|]. intros c1 n1 Hst1 Hp1 Hca1 Ht1 Hlat1. apply wp_modify.
  match goal with |- RaftRefine.wp _ _ _ ?x _ _ => set (n2 := x) end.
  pose proof Hst1 as [Hg _ [E1 E2 E3 E4 E5 E6 E7 E8] _ _ _ _ _ _ _].
  destruct (st_step ids i Hi g c1 n1 (following c1) g n2 Hst1 (as_follow ids i c1 g)) as (_ & Hst2 & _); try done.
  apply wp_reset. intros n3 Hs3 El3. pose proof (st_same _ _ _ _ Hs3 Hst2) as Hst3. apply wp_get.
  pose proof (vw_log _ _ (st_view _ _ _ _ _ Hst3)) as F4. simpl in F4.
  assert (persisted (following c1) (log n3)) as Hp3 by (rewrite El3; exact Hp1).
  assert (later c (following c1)) as Hlat2 by (eapply later_trans; [exact Hlat1|by split_and!]).
  destruct ((raftlog.last_index (log n3) <? Z.of_nat pn) || _) eqn:Ec.
  { eapply wp_reply; try done. unfold says. simpl. unfold raftlog.last_index. lia. }
  apply orb_false_iff in Ec as [Hle Hpt]. apply Z.ltb_ge in Hle. unfold raftlog.last_index in Hle.
  apply negb_false_iff, Z.eqb_eq in Hpt. rewrite term_at_pos in Hpt. rewrite F4 in Hle, Hpt.
  apply (wp_accept g (following c1) n3 e pn es); simpl; try done; [by rewrite Ht1|lia|by rewrite (sm_role _ _ Hs3)|].
  intros g4 n4 Hle4 Hst4 Hlat4 Hack. cbv zeta. apply wp_get.
  rewrite <- Nat2Z.inj_add. eapply wp_adopt; [exact Hst4|done|exact Hln|..].
  { simpl. rewrite Ht1. eapply covered_log; [|eapply covered_le; [exact Hg|done|exact Hcov]].
    apply (take_le_eq _ _ ln (pn + length es)); [done|]. pose proof Hst3 as [_ Hn3 _ _ _ _ _ _ _ _].
    destruct (go_elect _ _ Hg t e He) as (_ & _ & _ & _ & _ & HT).
    apply accept_take; [by eapply entries_match; [done|apply Hn3|]|lia|lia|].
    eapply pos_match; [exact (no_log _ _ _ _ Hn3)|exact HT|simpl; lia|lia|done]. }
  intros k a n5 c5 Hst5 Hka Ha. eapply wp_persist; [exact Hst5|]. intros n6 Hs6 Hst6 Hp6. apply wp_get.
  eapply wp_reply; [exact Hst6|done|done| |done|done|].
  - unfold says. simpl. eexists. split; [done|]. by rewrite (vw_term _ _ (st_view _ _ _ _ _ Hst6)).
  - eapply later_trans; [exact Hlat2|]. eapply later_trans; [exact Hlat4|]. by split_and!.
Qed.

Lemma wp_append_reply g c n from t (success : bool) m :
  st g c n -> persisted c (log n) -> (c_commit c <= c_applied c)%nat -> from ∈ ids -> from <> i ->
  says ids g (mkEnvelope from i (AppendEntriesReply t success m)) ->
  wp g n (node._handle_append_entries_reply from t success m) (finished c).
Proof.
  intros Hst Hp Hca Hf Hne Hs. unfold node._handle_append_entries_reply. apply wp_get.
  pose proof Hst as [Hg Hn [E1 E2 E3 E4 E5 E6 E7 E8] _ _ _ _ Hnx _ _].
  destruct (Z.ltb_spec (current_term n) t) as [Hlt|Hge].
  { eapply wp_mono; [apply wp_become_follower; [exact Hst|lia]|]. intros [] g' c' n' _ (-> & -> & Hp').
    split_and!; [done..|]. split_and!; simpl; [lia|done..]. }
  destruct (bool_decide (role n <> LEADER) || (t <? current_term n)) eqn:Eb.
  { eapply wp_ret; [exact Hst|]. split_and!; [done..|apply later_refl]. }
  apply orb_false_iff in Eb as [Hr Htt]. apply bool_decide_eq_false in Hr. apply dec_stable in Hr. apply Z.ltb_ge in Htt.
  assert (from ∈ peers n) as Hpf by (by apply (st_peers _ _ _ _ _ Hst)).
  destruct (no_leader _ _ _ _ Hn) as (e & He & _ & Etl & _ & _); [congruence|]. destruct success.
  - destruct Hs as (mn & -> & Ha). simpl in Ha. replace t with (c_term c) in Ha by lia.
    destruct (go_ack _ _ Hg _ Ha) as (_ & e' & He' & Hmn). simpl in He', Hmn. rewrite He in He'. injection He' as <-. rewrite Etl in Hmn.
    apply wp_modify. match goal with |- RaftRefine.wp _ _ _ ?x _ _ => set (n1 := x) end.
    destruct (st_step ids i Hi g c n (mkCore (c_term c) (c_vote c) (c_role c) (c_log c) (c_votes c) (<[from := mn]> (c_match c)) (c_commit c) (c_applied c)) _ n1 Hst
      (as_match ids i c g from mn ltac:(congruence) (or_intror Ha))) as (_ & Hst1 & _); try done.
    + split; simpl; try done. intros q. destruct (decide (from = q)) as [->|Hq].
      * by rewrite lookup_insert_eq, fn_lookup_insert.
      * rewrite lookup_insert_ne, fn_lookup_insert_ne by done. apply E6.
    + simpl. intros _ q Hq. destruct (decide (from = q)) as [->|Hqn].
      * rewrite lookup_insert_eq. eexists. split; [done|lia].
      * rewrite lookup_insert_ne by done. by apply Hnx.
    + eapply wp_mono; [by apply wp_advance|]. intros [] g' c' n' _ (k & a & -> & -> & El & Ha' & Hka).
      split_and!; [by rewrite El|simpl; auto|]. by split_and!.
  - unfold says in Hs. simpl in Hs. destruct (Hnx Hr from Hpf) as (k & Hk & Hkb).
    apply wp_run with (n' := n) (a := k). { unfold node.get_next_index. run. by rewrite Hk. }
    apply wp_modify. match goal with |- RaftRefine.wp _ _ _ ?x _ _ => set (n1 := x) end.
    assert (st g c n1) as Hst1.
    { pose proof Hst as [? ? ? ? ? ? ? _ ? ?]. split; try done. simpl. intros _ q Hq.
      destruct (decide (from = q)) as [->|Hqn]; [rewrite lookup_insert_eq|rewrite lookup_insert_ne by done; by apply Hnx].
      eexists. split; [done|lia]. }
    eapply wp_mono; [by apply wp_send_append|]. intros [] g' c' n' _ (-> & -> & El).
    split_and!; [by rewrite El|done|apply later_refl].
Qed.

(** * The driving interface *)

(** A call returns messages that state facts. *)
Definition returns {A} c (out : A -> list (Envelope V)) : post A := fun a g' c' n' =>
  Forall (msg_ok ids g') (out a) /\ finished c a g' c' n'.

Lemma st_clear g c n : st g c n -> st g c (node.set_outbox [] n).
Proof. intros [? ? [] ? ? ? ? ? ? ?]. by split. Qed.

Lemma wp_drain {A} g c n (m : stx raft_exn (RaftNode V SM) A) :
  wp g n m (finished c) -> wp g n (m ;; node._drain) (returns c id).
Proof.
  intros Hm. eapply wp_bind; [exact Hm|]. intros _ g' c' n' _ Hst (? & ? & ?).
  eexists g', c', _, _. split; [reflexivity|]. split_and!; [apply g_by_refl|by apply st_clear|].
  split; [apply Hst|by split_and!].
Qed.

Lemma wp_tick g c n : st g c n -> persisted c (log n) -> (c_commit c <= c_applied c)%nat -> wp g n node.tick (returns c id).
Proof.
  intros Hst Hp Hca. apply st_clear in Hst. unfold node.tick. apply wp_modify, wp_get. apply wp_drain.
  set (n1 := node.set_outbox [] n) in *. change (log n) with (log n1) in Hp. clearbody n1. clear n. rename n1 into n.
  destruct (bool_decide_reflect (role n = LEADER)) as [Hr|Hr].
  - destruct (heartbeat_interval (config n) <=? heartbeat_elapsed n + 1).
    + apply wp_modify. eapply wp_mono.
      * apply wp_broadcast; [|done]. eapply st_same; [|exact Hst]. by split.
      * intros [] g' c' n' _ (-> & -> & El). split_and!; [by rewrite El|done|apply later_refl].
    + eexists g, c, _, tt. split; [reflexivity|]. split; [apply g_by_refl|]. split; [eapply st_same; [|exact Hst]; by split|]. split_and!; [done|done|apply later_refl].
  - apply wp_modify. assert (st g c (node.set_election_elapsed (election_elapsed n + 1) n)) as Hst1
      by (eapply st_same; [|exact Hst]; by split).
    destruct (election_timeout n <=? election_elapsed n + 1); [by apply wp_become_candidate|].
    eapply wp_ret; [exact Hst1|]. split_and!; [done|done|apply later_refl].
Qed.

Lemma wp_step g c n env :
  st g c n -> persisted c (log n) -> (c_commit c <= c_applied c)%nat -> msg_ok ids g env -> dst env = i ->
  wp g n (node.step env) (returns c id).
Proof.
  intros Hst Hp Hca (Hsrc & _ & Hne & Hs) Hd. apply st_clear in Hst. unfold node.step. apply wp_modify. apply wp_drain.
  set (n1 := node.set_outbox [] n) in *. change (log n) with (log n1) in Hp. clearbody n1.
  destruct env as [from to b]. simpl in *. subst to. destruct b.
  - by apply wp_request_vote.
  - by apply wp_vote_reply.
  - by apply wp_append_entries.
  - by apply wp_append_reply.
Qed.

Lemma wp_propose g c n (x : command V) :
  st g c n -> (c_commit c <= c_applied c)%nat -> role n = LEADER ->
  wp g n (node.propose x) (fun a g' c' n' => a.1 = Z.of_nat (S (length (c_log c))) /\
    (exists L, c_log c' = c_log c ++ mkEntry (c_term c) x :: L) /\ returns c snd a g' c' n').
Proof.
  intros Hst Hca Hr. unfold node.propose. apply wp_get. rewrite bool_decide_false by (intros E; done).
  apply st_clear in Hst. apply wp_modify. set (n1 := node.set_outbox [] n) in *.
  change (role n) with (role n1) in Hr.
  pose proof Hst as [Hg Hn [E1 E2 E3 E4 E5 E6 E7 E8] _ _ _ _ Hnx _ _].
  destruct (no_leader _ _ _ _ Hn) as (e & He & _); [congruence|].
  eapply wp_run; [reflexivity|]. match goal with |- RaftRefine.wp _ _ _ ?y _ _ => set (n2 := y) end.
  set (c2 := mkCore (c_term c) (c_vote c) LEADER (c_log c ++ [mkEntry (c_term c) x]) (c_votes c) (c_match c) (c_commit c) (c_applied c)).
  destruct (st_step ids i Hi g c n1 c2 _ n2 Hst (as_append ids i c g e x ltac:(congruence) He)) as (Hby & Hst2 & Hap); try done.
  { split; simpl; try done. by rewrite <- E1, <- E4. }
  { simpl. intros _ q Hq. destruct (Hnx Hr q Hq) as (k & Hk & Hkb). exists k. split; [done|]. rewrite length_app. simpl. lia. }
  eapply wp_after; [exact Hby|].
  assert (role n2 = LEADER) as Hr2 by done.
  eapply wp_persist; [exact Hst2|]. intros n3 Hs3 Hst3 Hp3. assert (role n3 = LEADER) as Hr3 by (by rewrite (sm_role _ _ Hs3)).
  eapply wp_bind; [by apply wp_broadcast|]. intros [] g' c' n4 _ Hst4 (-> & -> & El4).
  eapply wp_bind; [apply wp_advance; [exact Hst4|]|].
  { rewrite (vw_role _ _ (st_view _ _ _ _ _ Hst4)), <- (vw_role _ _ (st_view _ _ _ _ _ Hst3)). done. }
  intros [] g' c' n5 _ Hst5 (k & a & -> & -> & El5 & Ha & Hka).
  eapply wp_run; [reflexivity|]. eapply wp_ret; [by apply st_clear|]. simpl. split_and!.
  - unfold raftlog.last_index. simpl. change (log n) with (log n1). rewrite E4, length_app. simpl. lia.
  - exists []. done.
  - split; [apply Hst5|]. split_and!; [simpl; by rewrite El5, El4|simpl; auto|]. by split_and!.
Qed.

End handlers.
