(* ===== verification/RaftCluster.v ===== *)
(** A cluster of Raft nodes on an unreliable network.

    Any message that was ever sent may be delivered at any time, any number of
    times or never, and nodes tick, take commands and restart whenever they
    like: a lost, delayed, duplicated or reordered message, a partition and a
    crash are all runs of this system.  A restarted node keeps its log (the
    object, as in the simulator, or what its file holds) and its state machine,
    and loses everything else; it may get other timeouts and list its peers in
    another order. *)

From S2P Require Import Prelude PyBase RaftLog RaftNode RaftAbstract RaftHistory RaftSteps RaftInvariant RaftRefine RaftHandlers.

Record world (V SM : Type) `{Rng} : Type := mkWorld {
  nodes : gmap Z (RaftNode V SM);
  sent : list (Envelope V)
}.
Arguments mkWorld {V SM H} nodes sent.
Arguments nodes {V SM H} w.
Arguments sent {V SM H} w.

Section cluster.
Context `{Rng} {V SM : Type} `{StateMachine V SM}.
Implicit Types (w : world V SM) (n : RaftNode V SM).

(** What a call sends: nothing if it raises. *)
Definition posted {A} (out : A -> list (Envelope V)) (r : result raft_exn A) : list (Envelope V) :=
  match r with Ok a => out a | Raise _ => [] end.

(** Node [i] becomes [n], having sent [es]. *)
Definition moved w (i : Z) n (es : list (Envelope V)) : world V SM := mkWorld (<[i := n]> (nodes w)) (sent w ++ es).

Inductive wstep w : world V SM -> Prop :=
| W_tick i n n' r : nodes w !! i = Some n -> node.tick n = (n', r) -> wstep w (moved w i n' (posted id r))
| W_deliver env n n' r : env ∈ sent w -> nodes w !! dst env = Some n -> node.step env n = (n', r) ->
    wstep w (moved w (dst env) n' (posted id r))
| W_propose i n x n' r : nodes w !! i = Some n -> node.propose x n = (n', r) -> wstep w (moved w i n' (posted snd r))
| W_restart i n ps m l seed conf a : nodes w !! i = Some n -> ps ≡ₚ peers n ->
    l = log n \/ l = reload (log n) -> sm_applied_index (machine n) = (m, Ok a) ->
    wstep w (moved w i (node.init i ps m l seed conf a) []).

(** A log that was never saved. *)
Definition blank (file : option (option (raft_document V))) : Prop := file = None \/ file = Some None.

Definition peers_of (ids : list Z) (i : Z) : list Z := base.filter (fun j => j <> i) ids.

End cluster.

Section invariant.
Context `{Rng} {V SM : Type} `{MachineSpec V SM}.
Implicit Types (w : world V SM) (n : RaftNode V SM) (g : ghost V) (c : core V).

(** A cluster that was just started. *)
Definition initial (ids : list Z) w : Prop :=
  NoDup ids /\ sent w = [] /\ dom (nodes w) = list_to_set ids /\
  forall i n, nodes w !! i = Some n -> exists m file seed conf, blank file /\ consumed [] m /\
    n = node.init i (peers_of ids i) m (raftlog.init file) seed conf 0.

(** A node between two calls. *)
Definition settled ids g i n c : Prop :=
  st ids i g c n /\ persisted c (log n) /\ (c_commit c <= c_applied c)%nat.

Record winv (ids : gset Z) w g : Prop := {
  wi_ghost : ghost_ok ids g;
  wi_dom : dom (nodes w) = ids;
  wi_nodes i n : nodes w !! i = Some n -> exists c, settled ids g i n c;
  wi_sent : Forall (msg_ok ids g) (sent w)
}.

Definition ghost0 : ghost V := mkGhost [] [] [] ∅.

Lemma ghost0_ok ids : ghost_ok ids ghost0.
Proof. split; intros *; simpl; try (intros []%elem_of_nil). done. Qed.

Lemma init_settled (ids : list Z) i m file seed conf :
  NoDup ids -> i ∈ ids -> blank file -> consumed [] m ->
  exists c, settled (list_to_set ids) ghost0 i (node.init i (peers_of ids i) m (raftlog.init file) seed conf 0) c.
Proof.
  intros Hnd Hi Hf Hm. unfold node.init. destruct (randint _ _ _) as [t gen].
  assert (raftlog.init file = mkLog [] 0 None file) as -> by (by destruct Hf as [->| ->]).
  exists (mkCore 0 None FOLLOWER [] ∅ no_match 0 0). split; [|split; [|done]].
  - split; simpl; try done.
    + apply ghost0_ok.
    + split; simpl; try done; try (intros * []%elem_of_nil). by left.
    + by apply NoDup_filter.
    + intros p. unfold peers_of. rewrite list_elem_of_filter, elem_of_list_to_set. tauto.
    + rewrite size_list_to_set by done. unfold peers_of.
      assert (ids ≡ₚ i :: base.filter (fun j => j <> i) ids) as Hperm.
      { apply NoDup_Permutation; [done|apply NoDup_cons; split; [|by apply NoDup_filter]|].
        - rewrite list_elem_of_filter. tauto.
        - intros x. rewrite elem_of_cons, list_elem_of_filter. destruct (decide (x = i)); naive_solver. }
      apply Permutation_length in Hperm. simpl in Hperm. lia.
  - destruct Hf as [->| ->]; by split_and!.
Qed.

Lemma initial_inv (ids : list Z) w : initial ids w -> winv (list_to_set ids) w ghost0.
Proof.
  intros (Hnd & Hs & Hd & Hn). split; [apply ghost0_ok|done| |by rewrite Hs].
  intros i n Hin. destruct (Hn i n Hin) as (m & file & seed & conf & Hf & Hm & ->).
  apply init_settled; try done. apply elem_of_dom_2 in Hin. rewrite Hd in Hin. by apply elem_of_list_to_set in Hin.
Qed.

(** * Preservation *)

Lemma settled_others ids i j g g' n c :
  g_by i g g' -> ghost_ok ids g -> ghost_ok ids g' -> j <> i -> settled ids g j n c -> settled ids g' j n c.
Proof.
  intros Hby Hg Hg' Hne ([_ Hn Hv Hid Hnd Hp Hsz Hnx Hout Hm] & Hps & Hca). split; [|done]. split; try done.
  - by apply (node_ok_others ids i j g g').
  - eapply Forall_impl; [exact Hout|]. intros e He. apply (msg_ok_le ids g g'); [done|apply Hby|done].
Qed.

Lemma moved_inv ids w g i n n' c' g' es :
  winv ids w g -> nodes w !! i = Some n -> g_by i g g' -> settled ids g' i n' c' -> Forall (msg_ok ids g') es ->
  winv ids (moved w i n' es) g'.
Proof.
  intros [Hg Hd Hn Hs] Hi Hby Hset Hes. pose proof Hset as ([Hg' _ _ _ _ _ _ _ _ _] & _). split; simpl.
  - done.
  - rewrite dom_insert_L, Hd. apply elem_of_dom_2 in Hi. set_solver.
  - intros j nj Hj. destruct (decide (i = j)) as [->|Hne].
    + rewrite lookup_insert_eq in Hj. injection Hj as <-. by exists c'.
    + rewrite lookup_insert_ne in Hj by done. destruct (Hn j nj Hj) as [cj Hcj]. exists cj. by eapply settled_others.
  - apply Forall_app. split; [|done]. eapply Forall_impl; [exact Hs|].
    intros e He. apply (msg_ok_le ids g g'); [done|apply Hby|done].
Qed.

(** A restarted node takes up the term, vote and log it saved and the place its
    machine reached. *)
Lemma reload_idem (l : RaftLog V) : reload (reload l) = reload l.
Proof. unfold reload. destruct l as [es t v [[f|]|]]; done. Qed.

Lemma restart_settled ids g i n c ps m l seed conf a :
  i ∈ ids -> settled ids g i n c -> ps ≡ₚ peers n -> l = log n \/ l = reload (log n) -> sm_applied_index (machine n) = (m, Ok a) ->
  exists c', settled ids g i (node.init i ps m l seed conf a) c' /\ later c c'.
Proof.
  intros Hi (Hst & Hpers & Hca) Hps Hlog Hm. pose proof Hst as [Hg Hn [E1 E2 E3 E4 E5 E6 E7 E8] Hid Hnd Hp Hsz _ _ Hmc].
  rewrite (applied_index_consumed _ _ Hmc) in Hm. injection Hm as <- <-.
  pose proof (covered_in ids g Hg _ _ _ (no_commit _ _ _ _ Hn)) as Hin. rewrite length_take_le by lia.
  set (c' := mkCore (c_term c) (c_vote c) FOLLOWER (c_log c) ∅ no_match 0 (c_applied c)).
  assert (entries l = c_log c /\ saved_term l = c_term c /\ saved_vote l = c_vote c /\ persisted c' l) as (L1 & L2 & L3 & L4).
  { destruct Hpers as (P1 & P2 & P3 & P4 & P5). unfold persisted. destruct Hlog as [->| ->]; rewrite ?reload_idem; by split_and!. }
  unfold node.init. destruct (randint _ _ _) as [t gen]. exists c'.
  destruct (astep_ok ids i c g c' g Hi Hg Hn) as (_ & _ & Hn'); [apply as_restart|].
  split; [|by split_and!]. split; [|split; [done|simpl; lia]]. split; simpl; try done.
  - by rewrite Hps.
  - intros p. rewrite Hps. apply Hp.
  - assert (size ids = S (length ps)) as ->; [|lia].
    assert (ids = list_to_set (i :: ps)) as ->.
    { apply set_eq. intros x. rewrite elem_of_list_to_set, elem_of_cons, Hps, Hp. destruct (decide (x = i)); naive_solver. }
    rewrite size_list_to_set; [done|]. apply NoDup_cons. rewrite Hps, Hp. split; [tauto|done].
Qed.

(** Nothing a node has applied is ever lost. *)
Definition grows w w' : Prop := forall i n, nodes w !! i = Some n ->
  exists n', nodes w' !! i = Some n' /\ current_term n <= current_term n' /\ last_applied n <= last_applied n' /\
    take (Z.to_nat (last_applied n)) (entries (log n')) = take (Z.to_nat (last_applied n)) (entries (log n)).

Lemma grows_refl w : grows w w.
Proof. intros i n Hn. exists n. done. Qed.

Lemma grows_trans w1 w2 w3 : grows w1 w2 -> grows w2 w3 -> grows w1 w3.
Proof.
  intros H12 H23 i n Hn. destruct (H12 i n Hn) as (n2 & Hn2 & T2 & A2 & E2), (H23 i n2 Hn2) as (n3 & Hn3 & T3 & A3 & E3).
  exists n3. split_and!; [done|lia|lia|]. rewrite <- E2. apply (take_le_eq _ _ _ (Z.to_nat (last_applied n2))); [lia|done].
Qed.

Lemma moved_grows ids g g' w i n n' c c' es :
  nodes w !! i = Some n -> settled ids g i n c -> settled ids g' i n' c' -> later c c' -> grows w (moved w i n' es).
Proof.
  intros Hi ([_ _ [T1 _ _ L1 _ _ _ A1] _ _ _ _ _ _ _] & _) ([_ _ [T2 _ _ L2 _ _ _ A2] _ _ _ _ _ _ _] & _) (Ht & Ha & E) j nj Hj. simpl.
  destruct (decide (i = j)) as [->|Hne].
  - rewrite Hi in Hj. injection Hj as <-. exists n'. rewrite lookup_insert_eq. split_and!; [done|lia|lia|].
    rewrite L1, L2, A1. by rewrite Nat2Z.id.
  - exists nj. by rewrite lookup_insert_ne.
Qed.

Lemma wstep_inv ids w w' g : winv ids w g -> wstep w w' -> exists g', winv ids w' g' /\ g_le g g' /\ grows w w'.
Proof.
  intros Hw Hs. pose proof Hw as [Hg Hd Hn Hsent].
  assert (forall i n, nodes w !! i = Some n -> i ∈ ids) as Hids by (intros i n Hi; rewrite <- Hd; by apply elem_of_dom_2 in Hi).
  assert (forall A i n (m : stx raft_exn (RaftNode V SM) A) n' r c (out : A -> list (Envelope V)),
    nodes w !! i = Some n -> settled ids g i n c -> m n = (n', r) -> wp ids i g n m (returns ids c out) ->
    exists g', winv ids (moved w i n' (posted out r)) g' /\ g_le g g' /\ grows w (moved w i n' (posted out r))) as Hcall.
  { intros A i n m n' r c out Hi Hset Em (g' & c' & n2 & a & E & Hby & Hst & Hout & Hp & Hca & Hlat).
    rewrite Em in E. injection E as -> ->. exists g'. assert (settled ids g' i n2 c') as Hset' by done.
    split_and!; [by eapply moved_inv|apply Hby|by eapply moved_grows]. }
  destruct Hs as [i n n' r Hi E|env n n' r Henv Hi E|i n x n' r Hi E|i n ps m l seed conf a Hi Hps Hl E].
  - destruct (Hn i n Hi) as [c Hc]. eapply Hcall; [done|exact Hc|done|]. destruct Hc as (? & ? & ?). apply wp_tick; try done. by eapply Hids.
  - destruct (Hn _ n Hi) as [c Hc]. eapply Hcall; [done|exact Hc|done|]. destruct Hc as (? & ? & ?). apply wp_step; try done; [by eapply Hids|].
    rewrite Forall_forall in Hsent. by apply Hsent.
  - destruct (Hn i n Hi) as [c Hc]. destruct (decide (role n = LEADER)) as [Hr|Hr].
    + eapply Hcall; [done|exact Hc|done|]. destruct Hc as (? & ? & ?). eapply wp_mono; [apply wp_propose; try done; by eapply Hids|].
      intros a g' c' n2 _ (_ & _ & HR). exact HR.
    + unfold node.propose in E. run in E. rewrite bool_decide_true in E by done. injection E as <- <-. exists g. split_and!.
      * eapply moved_inv; [done|done|apply g_by_refl|exact Hc|done].
      * apply g_le_refl.
      * eapply moved_grows; [done|exact Hc|exact Hc|apply later_refl].
  - destruct (Hn i n Hi) as [c Hc]. destruct (restart_settled ids g i n c ps m l seed conf a) as (c' & Hc' & Hlat); [by eapply Hids|done..|].
    exists g. split_and!; [eapply moved_inv; [done|done|apply g_by_refl|exact Hc'|done]|apply g_le_refl|by eapply moved_grows].
Qed.

End invariant.
