(* ===== verification/RaftMachines.v ===== *)
(** The replicated state machines: [src/imustore/raft/statemachine.py].

    [Recorder] keeps the list of applied commands; [KVStateMachine] applies them
    to a database and records the applied index in the same commit. *)

From S2P Require Import Prelude PyBase Struct SimDisk Locking Physical PhysicalFacts Recovery KeyList Logical Pickle Index Engine Database.
From S2P Require Import RaftLog RaftNode RaftRefine.

(** * [Recorder] *)

Record Recorder (V : Type) : Type := mkRecorder {
  applied : list (Z * command V);
  applied_index : Z
}.
Arguments mkRecorder {V} applied applied_index.
Arguments applied {V} r.
Arguments applied_index {V} r.

Module recorder.
Section recorder.
Context {V : Type}.

Definition init : Recorder V := mkRecorder [] 0.

Definition apply (index : Z) (c : command V) : St (Recorder V) unit :=
  modify (fun r => mkRecorder (applied r ++ [(index, c)]) index).

(** One turn of the loop of [kv]; a command without its fields has no
    [command["value"]] (which Python evaluates first) or [command["key"]]. *)
Definition kv_step (state : gmap pystr V) (ic : Z * command V) : res (gmap pystr V) :=
  match ic.2 with
  | CmdSet key value => Ok (<[key := value]> state)
  | CmdDel key => Ok (delete key state)
  | CmdNoop => Ok state
  | CmdOther op =>
      if bool_decide (op = str "set") then Raise (KeyError (str "value"))
      else if bool_decide (op = str "del") then Raise (KeyError (str "key"))
      else Ok state
  end.

Definition kv (r : Recorder V) : res (gmap pystr V) := foldl (fun state ic => state ← state; kv_step state ic) (Ok ∅) (applied r).

End recorder.
End recorder.

#[global] Instance recorder_machine V : StateMachine V (Recorder V) := {|
  sm_apply := recorder.apply;
  sm_applied_index := gets applied_index
|}.

(** The log entries with their indexes, counted from [k]. *)
Fixpoint indexed {V} (k : Z) (l : list (LogEntry V)) : list (Z * command V) :=
  match l with [] => [] | x :: l => (k, cmd x) :: indexed (k + 1) l end.

Lemma indexed_snoc {V} k (l : list (LogEntry V)) x :
  indexed k (l ++ [x]) = indexed k l ++ [(k + Z.of_nat (length l), cmd x)].
Proof.
  revert k. induction l as [|y l IH]; intros k; simpl; [by rewrite Z.add_0_r|].
  rewrite IH. do 4 f_equal. lia.
Qed.

Lemma indexed_prefix {V} k (l l' : list (LogEntry V)) : l `prefix_of` l' -> indexed k l `prefix_of` indexed k l'.
Proof.
  intros [r ->]. revert k. induction l as [|y l IH]; intros k; simpl; [apply prefix_nil|]. by apply prefix_cons.
Qed.

(** A recorder was fed exactly the entries it lists. *)
#[global] Instance recorder_spec V : MachineSpec V (Recorder V).
Proof.
  refine {| consumed l r := applied r = indexed 1 l /\ applied_index r = Z.of_nat (length l) |}.
  - intros l r x [Ha Hi]. eexists. split; [reflexivity|]. cbn [applied applied_index]. rewrite Ha, indexed_snoc, length_app. simpl length.
    split; [do 3 f_equal; lia|lia].
  - intros l r [_ Hi]. unfold sm_applied_index. simpl. unfold gets. by rewrite Hi.
Defined.

(** * [KVStateMachine] *)

(** The values hold integers: what [int()] reads back. *)
Class IntValue (V : Type) := {
  of_int : Z -> V;
  to_int : V -> res Z
}.

Definition RAFT_APPLIED_KEY : pystr := str "__raft_applied_index__".

Module kvmachine.
Section kvmachine.
Context `{Pickle} {N : Type} `{Index N} {V : Type} `{Codec V} `{IntValue V}.

Definition get_applied_index : St (DBDB N) Z :=
  try_with (v ← dbdb.getitem RAFT_APPLIED_KEY; lift_res (to_int v))
           (fun e => match e with KeyError _ => mret 0 | e => raise e end).

Definition apply_command (c : command V) : St (DBDB N) unit :=
  match c with
  | CmdSet key value => dbdb.setitem key value
  | CmdDel key => try_with (dbdb.delitem key) (fun e => match e with KeyError _ => mret tt | e => raise e end)
  | CmdNoop => mret tt
  | CmdOther op =>
      if bool_decide (op = str "set") then raise (KeyError (str "value"))
      else if bool_decide (op = str "del") then try_with (raise (KeyError (str "key"))) (fun e => match e with KeyError _ => mret tt | e => raise e end)
      else mret tt
  end.

Definition apply (index : Z) (c : command V) : St (DBDB N) unit :=
  apply_command c ;;
  dbdb.setitem RAFT_APPLIED_KEY (of_int index) ;;
  dbdb.commit.

End kvmachine.
End kvmachine.

#[global] Instance kv_machine `{Pickle} {N V} `{Index N} `{Codec V} `{IntValue V} : StateMachine V (DBDB N) := {|
  sm_apply := kvmachine.apply;
  sm_applied_index := kvmachine.get_applied_index
|}.
