(* ===== verification/RaftProps.v ===== *)
(** The safety properties of a Raft cluster, whatever the network does, and what
    they mean for the replicated state machines. *)

From S2P Require Import Prelude PyBase RaftLog RaftNode RaftAbstract RaftHistory RaftSteps RaftInvariant RaftRefine RaftHandlers RaftCluster.
From S2P Require Import RaftMachines.

(** * Runs *)

Section runs.
Context `{Rng} {V SM : Type} `{MachineSpec V SM}.
Implicit Types (w : world V SM) (n : RaftNode V SM) (g : ghost V) (c : core V).

Lemma run_inv ids w w' g :
  winv ids w g -> rtc wstep w w' -> exists g', winv ids w' g' /\ g_le g g' /\ grows w w'.
Proof.
  intros Hw Hr. revert g Hw. induction Hr as [w|w w1 w' Hs _ IH]; intros g Hw.
  { exists g. split_and!; [done|apply g_le_refl|apply grows_refl]. }
  destruct (wstep_inv ids w w1 g Hw Hs) as (g1 & Hw1 & Hle1 & Hg1). destruct (IH g1 Hw1) as (g' & Hw' & Hle' & Hg').
  exists g'. split_and!; [done|by eapply g_le_trans|by eapply grows_trans].
Qed.

Lemma reachable_inv ids w0 w : initial ids w0 -> rtc wstep w0 w -> exists g, winv (list_to_set ids) w g.
Proof. intros Hi Hr. destruct (run_inv _ _ _ _ (initial_inv _ _ Hi) Hr) as (g & ? & _). by exists g. Qed.

Lemma one_leader ids w g i j n n' :
  winv ids w g -> nodes w !! i = Some n -> nodes w !! j = Some n' ->
  role n = LEADER -> role n' = LEADER -> current_term n = current_term n' -> i = j.
Proof.
  intros [_ _ Hw _] Hn Hn' Hl Hl' Ht.
  destruct (Hw i n Hn) as [c ([_ Hc [T _ R _ _ _ _ _] _ _ _ _ _ _ _] & _)].
  destruct (Hw j n' Hn') as [c' ([_ Hc' [T' _ R' _ _ _ _ _] _ _ _ _ _ _ _] & _)].
  destruct (no_leader _ _ _ _ Hc) as (e & He & <- & _); [congruence|].
  destruct (no_leader _ _ _ _ Hc') as (e' & He' & <- & _); [congruence|].
  assert (c_term c = c_term c') as E by congruence. rewrite E, He' in He. by injection He as ->.
Qed.

(** The committed part of a node's log. *)
Definition commit_point n : nat := Z.to_nat (Z.max (commit_index n) (last_applied n)).

Lemma settled_covered ids g i n c :
  settled ids g i n c -> covered ids g (c_term c) (entries (log n)) (commit_point n) /\
    (commit_point n <= length (entries (log n)))%nat /\ commit_point n = c_applied c.
Proof.
  intros ([Hg Hn [_ _ _ El _ _ Ec Ea] _ _ _ _ _ _ _] & _ & Hca). unfold commit_point. rewrite El.
  pose proof (no_commit _ _ _ _ Hn) as Hcov. pose proof (covered_in ids g Hg _ _ _ Hcov).
  replace (Z.to_nat (Z.max (commit_index n) (last_applied n))) with (Nat.max (c_commit c) (c_applied c)) by lia.
  split_and!; [done|lia|lia].
Qed.

Lemma covered_later ids w w' g g' i n c :
  winv ids w g -> winv ids w' g' -> g_le g g' -> settled ids g i n c -> covered ids g' (c_term c) (entries (log n)) (commit_point n).
Proof. intros Hw Hw' Hle Hs. eapply covered_le; [apply Hw|done|]. by eapply settled_covered. Qed.

End runs.

(** * Safety *)

Section safety.
Context `{Rng} {V SM : Type} `{MachineSpec V SM} (ids : list Z).
Implicit Types (w : world V SM) (n : RaftNode V SM).

(** C10: election safety.  In no run do two nodes lead the same term. *)
Theorem raft_election_safety w0 w i j n n' :
  initial ids w0 -> rtc wstep w0 w -> nodes w !! i = Some n -> nodes w !! j = Some n' ->
  role n = LEADER -> role n' = LEADER -> current_term n = current_term n' -> i = j.
Proof.
  intros Hi Hr Hn Hn' Hl Hl' Ht. destruct (reachable_inv ids w0 w Hi Hr) as [g Hw]. by eapply one_leader.
Qed.

(** C32: log matching.  If the entries of two logs at an index have the same term,
    the logs agree on every entry up to that index. *)
Theorem raft_log_matching w0 w i j n n' (k : nat) x x' :
  initial ids w0 -> rtc wstep w0 w -> nodes w !! i = Some n -> nodes w !! j = Some n' ->
  entries (log n) !! k = Some x -> entries (log n') !! k = Some x' -> term x = term x' ->
  take (S k) (entries (log n)) = take (S k) (entries (log n')).
Proof.
  intros Hi Hr Hn Hn' Hx Hx' Ht. destruct (reachable_inv ids w0 w Hi Hr) as [g [Hg _ Hw _]].
  destruct (Hw i n Hn) as [c ([_ Hc [_ _ _ L _ _ _ _] _ _ _ _ _ _ _] & _)].
  destruct (Hw j n' Hn') as [c' ([_ Hc' [_ _ _ L' _ _ _ _] _ _ _ _ _ _ _] & _)].
  rewrite L in Hx |- *. rewrite L' in Hx' |- *.
  by eapply logged_match; [exact (no_log _ _ _ _ Hc)|exact (no_log _ _ _ _ Hc')|..].
Qed.

(** C21: leader completeness.  What some node has committed, every leader of the
    same or a later term has in its log, at that moment and ever after. *)
Theorem raft_leader_completeness w0 w w' i j n n' :
  initial ids w0 -> rtc wstep w0 w -> rtc wstep w w' -> nodes w !! i = Some n -> nodes w' !! j = Some n' ->
  role n' = LEADER -> current_term n <= current_term n' ->
  take (Z.to_nat (commit_index n)) (entries (log n)) `prefix_of` entries (log n').
Proof.
  intros Hi Hr Hr' Hn Hn' Hl Ht. destruct (reachable_inv ids w0 w Hi Hr) as [g Hw].
  destruct (run_inv _ _ _ _ Hw Hr') as (g' & Hw' & Hle & _).
  destruct (wi_nodes _ _ _ Hw i n Hn) as [c Hs]. destruct (wi_nodes _ _ _ Hw' j n' Hn') as [c' ([_ Hc' [T' _ R' L' _ _ _ _] _ _ _ _ _ _ _] & _)].
  pose proof (covered_later _ w w' _ _ _ _ _ Hw Hw' Hle Hs) as Hcov.
  destruct (no_leader _ _ _ _ Hc') as (e & He & _ & Et & _); [congruence|].
  pose proof Hs as ([_ _ [T _ _ _ _ _ _ _] _ _ _ _ _ _ _] & _).
  destruct (covered_leader _ g' (wi_ghost _ _ _ Hw') _ _ _ (c_term c') e Hcov ltac:(lia) He) as [E _].
  rewrite (take_le_eq _ _ (Z.to_nat (commit_index n)) (commit_point n) ltac:(unfold commit_point; lia) E), Et, <- L'. apply prefix_take.
Qed.

(** Below the commit points of two nodes the logs agree. *)
Lemma commits_agree w0 w w' i j n n' (k : nat) :
  initial ids w0 -> rtc wstep w0 w -> rtc wstep w w' -> nodes w !! i = Some n -> nodes w' !! j = Some n' ->
  Z.of_nat k < Z.max (commit_index n) (last_applied n) -> Z.of_nat k < Z.max (commit_index n') (last_applied n') ->
  exists x, entries (log n) !! k = Some x /\ entries (log n') !! k = Some x.
Proof.
  intros Hi Hr Hr' Hn Hn' Hk Hk'. destruct (reachable_inv ids w0 w Hi Hr) as [g Hw].
  destruct (run_inv _ _ _ _ Hw Hr') as (g' & Hw' & Hle & _).
  destruct (wi_nodes _ _ _ Hw i n Hn) as [c Hs]. destruct (wi_nodes _ _ _ Hw' j n' Hn') as [c' Hs'].
  pose proof (covered_later _ w w' _ _ _ _ _ Hw Hw' Hle Hs) as Hcov.
  destruct (settled_covered _ _ _ _ _ Hs') as (Hcov' & _ & _). destruct (settled_covered _ _ _ _ _ Hs) as (_ & Hlen & _).
  pose proof (covered_agree _ g' (wi_ghost _ _ _ Hw') _ _ _ _ _ _ Hcov Hcov') as E. unfold commit_point in *.
  destruct (lookup_lt_is_Some_2 (entries (log n)) k) as [x Hx]; [lia|]. exists x. split; [done|].
  rewrite <- (take_lookup_eq _ _ _ k E); [done|lia].
Qed.

(** C2: state machine safety.  Two nodes never commit different entries at the
    same index, not even at different times of a run: below the commit points of
    both, the logs agree. *)
Theorem raft_state_machine_safety w0 w w' i j n n' (k : nat) :
  initial ids w0 -> rtc wstep w0 w -> rtc wstep w w' -> nodes w !! i = Some n -> nodes w' !! j = Some n' ->
  Z.of_nat k < Z.max (commit_index n) (last_applied n) -> Z.of_nat k < Z.max (commit_index n') (last_applied n') ->
  exists x, entries (log n) !! k = Some x /\ entries (log n') !! k = Some x.
Proof. apply commits_agree. Qed.

(** Committed entries are durable.  Through any further run, restarts
    included, a node keeps the entries it committed, its term never decreases,
    and what it committed has been applied. *)
Theorem raft_committed_durable w0 w w' i n :
  initial ids w0 -> rtc wstep w0 w -> rtc wstep w w' -> nodes w !! i = Some n ->
  exists n', nodes w' !! i = Some n' /\ current_term n <= current_term n' /\
    take (Z.to_nat (commit_index n)) (entries (log n)) `prefix_of` entries (log n') /\
    commit_index n <= last_applied n <= last_applied n'.
Proof.
  intros Hi Hr Hr' Hn. destruct (reachable_inv ids w0 w Hi Hr) as [g Hw].
  destruct (run_inv _ _ _ _ Hw Hr') as (g' & Hw' & _ & Hgr). destruct (Hgr i n Hn) as (n' & Hn' & Ht & Ha & E).
  destruct (wi_nodes _ _ _ Hw i n Hn) as [c ([_ _ [_ _ _ _ _ _ C A] _ _ _ _ _ _ _] & _ & Hca)].
  exists n'. split_and!; [done|done| |lia|done].
  rewrite <- (take_le_eq _ _ (Z.to_nat (commit_index n)) (Z.to_nat (last_applied n)) ltac:(lia) E). apply prefix_take.
Qed.

(** With a machine that takes every command the node's methods do not fail.  In any
    run, ticking a node and handling any message that was ever sent return
    normally; a proposal returns the index after the last one and appends the
    command at a leader, and raises [NotLeaderError] without effect elsewhere. *)
Lemma calls_succeed w0 w i n :
  initial ids w0 -> rtc wstep w0 w -> nodes w !! i = Some n ->
  (exists n' out, node.tick n = (n', Ok out)) /\
  (forall env, env ∈ sent w -> dst env = i -> exists n' out, node.step env n = (n', Ok out)) /\
  (forall x, if decide (role n = LEADER)
     then exists n' out, node.propose x n = (n', Ok (raftlog.last_index (log n) + 1, out)) /\
       entries (log n) ++ [mkEntry (current_term n) x] `prefix_of` entries (log n')
     else node.propose x n = (n, Raise (NotLeaderError (leader_id n)))).
Proof.
  intros Hi Hr Hn. destruct (reachable_inv ids w0 w Hi Hr) as [g [Hg Hd Hw Hs]].
  assert (i ∈ (list_to_set ids : gset Z)) as Hii by (rewrite <- Hd; by apply elem_of_dom_2 in Hn).
  destruct (Hw i n Hn) as [c (Hst & Hp & Hca)]. split_and!.
  - destruct (wp_tick _ i Hii g c n Hst Hp Hca) as (g' & c' & n' & out & E & _). eauto.
  - intros env He Hdst. rewrite Forall_forall in Hs.
    destruct (wp_step _ i Hii g c n env Hst Hp Hca (Hs env He) Hdst) as (g' & c' & n' & out & E & _). eauto.
  - intros x. destruct (decide (role n = LEADER)) as [Hl|Hl].
    + destruct (wp_propose _ i Hii g c n x Hst Hca Hl) as (g' & c' & n' & [k out] & E & _ & Hst' & Hk & (L & HL) & _).
      pose proof (st_view _ _ _ _ _ Hst) as [T _ _ El _ _ _ _]. pose proof (vw_log _ _ (st_view _ _ _ _ _ Hst')) as El'.
      exists n', out. rewrite E. simpl in Hk. split.
      * do 3 f_equal. unfold raftlog.last_index. rewrite El. lia.
      * rewrite El', HL, El, T. exists L. by rewrite <- app_assoc.
    + unfold node.propose. run. by rewrite bool_decide_true.
Qed.

End safety.

(** * Replicated state machines *)

Section recorders.
Context `{Rng} {V : Type} (ids : list Z).
Implicit Types (w : world V (Recorder V)) (n : RaftNode V (Recorder V)).

Lemma recorder_applied g i n c :
  settled (list_to_set ids) g i n c -> applied (machine n) = indexed 1 (take (commit_point n) (entries (log n))).
Proof.
  intros Hs. destruct (settled_covered _ _ _ _ _ Hs) as (_ & _ & ->).
  destruct Hs as ([_ _ [_ _ _ L _ _ _ _] _ _ _ _ _ _ [Ha _]] & _). by rewrite L.
Qed.

(** C30: exactly-once application in log order.  In any run each node's machine has
    been fed the entries 1, 2, ..., [last_applied] of its log, each once and in
    order, restarts included; the sequences fed to two machines at any two times
    of the run are prefixes of one another; machines that applied equally many
    entries hold the same key-value state. *)
Theorem raft_applies_once w0 w w' i j n n' :
  initial ids w0 -> rtc wstep w0 w -> rtc wstep w w' -> nodes w !! i = Some n -> nodes w' !! j = Some n' ->
  applied (machine n) = indexed 1 (take (Z.to_nat (last_applied n)) (entries (log n))) /\
  (applied (machine n) `prefix_of` applied (machine n') \/ applied (machine n') `prefix_of` applied (machine n)) /\
  (last_applied n = last_applied n' -> recorder.kv (machine n) = recorder.kv (machine n')).
Proof.
  intros Hi Hr Hr' Hn Hn'. destruct (reachable_inv ids w0 w Hi Hr) as [g Hw].
  destruct (run_inv _ _ _ _ Hw Hr') as (g' & Hw' & Hle & _).
  destruct (wi_nodes _ _ _ Hw i n Hn) as [c Hs]. destruct (wi_nodes _ _ _ Hw' j n' Hn') as [c' Hs'].
  pose proof (covered_later _ w w' _ _ _ _ _ Hw Hw' Hle Hs) as Hcov.
  destruct (settled_covered _ _ _ _ _ Hs') as (Hcov' & Hl' & Hp'). destruct (settled_covered _ _ _ _ _ Hs) as (_ & Hl & Hp).
  pose proof (covered_agree _ g' (wi_ghost _ _ _ Hw') _ _ _ _ _ _ Hcov Hcov') as E.
  pose proof (recorder_applied _ _ _ _ Hs) as Ha. pose proof (recorder_applied _ _ _ _ Hs') as Ha'.
  pose proof Hs as ([_ _ [_ _ _ _ _ _ _ A] _ _ _ _ _ _ _] & _). pose proof Hs' as ([_ _ [_ _ _ _ _ _ _ A'] _ _ _ _ _ _ _] & _).
  split_and!.
  - rewrite Ha. do 2 f_equal. lia.
  - rewrite Ha, Ha'. destruct (Nat.le_ge_cases (commit_point n) (commit_point n')); [left|right]; apply indexed_prefix.
    + rewrite Nat.min_l in E by lia. rewrite E. by apply take_prefix_le.
    + rewrite Nat.min_r in E by lia. rewrite <- E. by apply take_prefix_le.
  - intros Eq. unfold recorder.kv. rewrite Ha, Ha'. replace (commit_point n') with (commit_point n) in * by lia.
    rewrite Nat.min_id in E. by rewrite E.
Qed.

End recorders.

(** * The log *)

Section logs.
Context {V : Type}.
Implicit Types (l : RaftLog V) (es : list (LogEntry V)).

Lemma splice_idem (log es : list (LogEntry V)) : splice (splice log es) es = splice log es.
Proof.
  revert log. induction es as [|e es IH]; intros [|x log]; simpl; try done.
  - rewrite Z.eqb_refl. f_equal. clear IH. induction es as [|y es IH]; [done|]. simpl. rewrite Z.eqb_refl. by f_equal.
  - destruct (term x =? term e) eqn:E; simpl.
    + rewrite E. by rewrite IH.
    + rewrite Z.eqb_refl. f_equal. clear IH. induction es as [|y es IH]; [done|]. simpl. rewrite Z.eqb_refl. by f_equal.
Qed.

Lemma splice_terms (log es : list (LogEntry V)) : term <$> take (length es) (splice log es) = term <$> es.
Proof.
  revert log. induction es as [|e es IH]; intros [|x log]; simpl; try done.
  - by rewrite firstn_all.
  - destruct (Z.eqb_spec (term x) (term e)) as [E|]; simpl; [|by rewrite firstn_all]. f_equal; [done|apply IH].
Qed.

(** [append_from] is idempotent and converges.  Splicing in entries after an
    index the log has keeps everything up to that index, gives the following
    entries the leader's terms, and a repeated delivery changes nothing. *)
Theorem append_from_idempotent l (prev : Z) es :
  0 <= prev <= raftlog.last_index l ->
  exists l', raftlog.append_from prev es l = (l', Ok tt) /\
    take (Z.to_nat prev) (entries l') = take (Z.to_nat prev) (entries l) /\
    term <$> take (length es) (drop (Z.to_nat prev) (entries l')) = term <$> es /\
    raftlog.append_from prev es l' = (l', Ok tt).
Proof.
  intros Hp. unfold raftlog.last_index in Hp. set (p := Z.to_nat prev). replace prev with (Z.of_nat p) by lia.
  eexists. split; [apply append_from_spec; lia|]. simpl.
  set (pre := take p (entries l)). assert (length pre = p) as Hpre by (unfold pre; rewrite length_take_le; lia).
  split_and!.
  - by rewrite take_app_exact.
  - rewrite drop_app_exact by done. apply splice_terms.
  - rewrite append_from_spec by (simpl; rewrite length_app; lia). simpl.
    rewrite take_app_exact, drop_app_exact, splice_idem by done. done.
Qed.

(** The file gives back what [save] wrote: a restarted node finds the term and
    vote of the last save and the entries of that moment. *)
Lemma raftlog_save_load l (p : option (raft_document V)) (t : Z) (vote : option Z) :
  _file l = Some p ->
  raftlog.init (_file (raftlog.save t vote l)) = raftlog.save t vote l /\
  saved_term (raftlog.save t vote l) = t /\ saved_vote (raftlog.save t vote l) = vote /\ entries (raftlog.save t vote l) = entries l.
Proof. intros E. unfold raftlog.save. rewrite E. done. Qed.

End logs.

(** * Elections start *)

Section timers.
Context `{Rng} {V SM : Type} `{StateMachine V SM}.
Implicit Types (n : RaftNode V SM).

(** [k] ticks without a message in between. *)
Fixpoint ticks (k : nat) n : RaftNode V SM :=
  match k with O => n | S k => ticks k (node.tick n).1 end.

Lemma idle_tick n : role n <> LEADER -> election_elapsed n + 1 < election_timeout n ->
  node.tick n = (node.set_election_elapsed (election_elapsed n + 1) (node.set_outbox [] n), Ok []).
Proof.
  intros Hr Ht. unfold node.tick, node._drain. run. simpl. rewrite bool_decide_false by done.
  rewrite (proj2 (Z.leb_gt _ _)) by lia. done.
Qed.

(** The node after [k] idle ticks. *)
Definition idled (k : nat) n : RaftNode V SM := node.set_election_elapsed (election_elapsed n + Z.of_nat k) (node.set_outbox [] n).

Lemma idle_ticks k n : role n <> LEADER -> election_elapsed n + Z.of_nat (S k) < election_timeout n -> ticks (S k) n = idled (S k) n.
Proof.
  revert n. induction k as [|k IH]; intros n Hr Ht.
  - simpl. rewrite idle_tick by (done || lia). done.
  - change (ticks (S (S k)) n) with (ticks (S k) (node.tick n).1). rewrite idle_tick by (done || lia).
    rewrite IH by (simpl; done || lia). unfold idled.
    replace (election_elapsed n + Z.of_nat (S (S k))) with (election_elapsed n + 1 + Z.of_nat (S k)) by lia. done.
Qed.

(** The requests of a candidate, one per peer. *)
Definition requests n : list (Envelope V) :=
  (fun p => mkEnvelope (node_id n) p
     (RequestVote (current_term n) (node_id n) (raftlog.last_index (log n)) (raftlog.last_term (log n)))) <$> peers n.

Lemma requests_sent n :
  node.for_peers (fun p => m ← get_st; node._send p (RequestVote (current_term m) (node_id m) (raftlog.last_index (log m)) (raftlog.last_term (log m)))) (peers n) n
    = (node.set_outbox (_outbox n ++ requests n) n, Ok tt).
Proof.
  unfold requests. generalize (peers n). intros ps.
  assert (forall es, node.for_peers (fun p => m ← get_st; node._send p (RequestVote (current_term m) (node_id m) (raftlog.last_index (log m)) (raftlog.last_term (log m)))) ps
    (node.set_outbox es n) = (node.set_outbox (es ++ ((fun p => mkEnvelope (node_id n) p (RequestVote (current_term n) (node_id n) (raftlog.last_index (log n)) (raftlog.last_term (log n)))) <$> ps)) n, Ok tt)) as Hps.
  { induction ps as [|p ps IH]; intros es; simpl; [by rewrite app_nil_r|].
    erewrite stx_bind_ok by reflexivity.
    etransitivity; [exact (IH (es ++ [mkEnvelope (node_id n) p (RequestVote (current_term n) (node_id n) (raftlog.last_index (log n)) (raftlog.last_term (log n)))]))|].
    by rewrite <- app_assoc. }
  rewrite <- Hps. by destruct n.
Qed.

Lemma timeout_tick n :
  role n <> LEADER -> election_timeout n <= election_elapsed n + 1 -> 2 <= cluster_size n ->
  exists n', node.tick n = (n', Ok (requests n')) /\ current_term n' = current_term n + 1 /\ role n' = CANDIDATE /\
    voted_for n' = Some (node_id n) /\ node_id n' = node_id n /\ peers n' = peers n /\ entries (log n') = entries (log n).
Proof.
  intros Hr Ht Hs. unfold node.tick. erewrite stx_bind_ok by reflexivity. erewrite stx_bind_ok by reflexivity. simpl.
  rewrite bool_decide_false by done. unfold node._become_candidate.
  destruct (reset_same (node.set_votes {[ node_id n ]} (node.set_leader_id None (node.set_voted_for (Some (node_id n))
    (node.set_current_term (current_term n + 1) (node.set_role CANDIDATE (node.set_election_elapsed (election_elapsed n + 1) (node.set_outbox [] n)))))))) as (n1 & E1 & Hsm & Hl).
  set (n2 := node.set_log (raftlog.save (current_term n1) (voted_for n1) (log n1)) n1).
  destruct Hsm as [I1 I2 I3 I4 I5 I6 I7 I8 I9 I10 I11 I12 I13 I14]. simpl in *.
  exists (node.set_outbox [] n2). split_and!; [|simpl; congruence..].
  erewrite stx_bind_ok.
  2:{ erewrite stx_bind_ok by reflexivity. simpl. rewrite (proj2 (Z.leb_le _ _)) by lia.
      erewrite stx_bind_ok by reflexivity. erewrite stx_bind_ok by exact E1. erewrite stx_bind_ok by reflexivity.
      fold n2. erewrite stx_bind_ok by reflexivity. unfold node._has_majority. simpl. rewrite I3, I8, size_singleton.
      rewrite (proj2 (Z.leb_gt _ _)); [exact (requests_sent n2)|]. pose proof (Z.div_le_mono 2 (cluster_size n) 2 ltac:(lia) Hs) as Hd. change (2 / 2) with 1 in Hd. lia. }
  unfold node._drain. run. simpl. rewrite I13. done.
Qed.

(** C35: elections start in time.  A node that is not the leader and hears nothing
    after its timer was set stays in its term for at least
    [election_timeout_min] - 1 ticks, and within [election_timeout_max] ticks it
    becomes a candidate in the next term, votes for itself and asks every peer
    for its vote. *)
Theorem election_starts `{!RngLaws} n n' :
  1 <= election_timeout_min (config n) <= election_timeout_max (config n) -> 2 <= cluster_size n -> role n <> LEADER ->
  node._reset_election_timer n = (n', Ok tt) ->
  exists k, election_timeout_min (config n) <= Z.of_nat (S k) <= election_timeout_max (config n) /\
    (forall j, (j <= k)%nat -> current_term (ticks j n') = current_term n) /\
    exists n2, node.tick (ticks k n') = (n2, Ok (requests n2)) /\ current_term n2 = current_term n + 1 /\
      role n2 = CANDIDATE /\ voted_for n2 = Some (node_id n) /\ peers n2 = peers n.
Proof.
  intros Hc Hs Hr E.
  assert (election_elapsed n' = 0 /\ election_timeout_min (config n) <= election_timeout n' <= election_timeout_max (config n)) as [He Ht].
  { unfold node._reset_election_timer, modify in E. simpl in E.
    pose proof (randint_range (election_timeout_min (config n)) (election_timeout_max (config n)) (_rng n) ltac:(lia)) as Hb.
    destruct (randint _ _ _) as [t r]. injection E as <-. done. }
  destruct (reset_same n) as (n1 & E1 & [I1 I2 I3 I4 I5 I6 I7 I8 I9 I10 I11 I12 I13 I14] & _). rewrite E1 in E. injection E as ->.
  set (k := Z.to_nat (election_timeout n' - 1)).
  assert (forall j, (j <= k)%nat -> ticks j n' = n' \/ ticks j n' = idled j n') as Hj.
  { intros [|j] Hjk; [by left|right]. apply idle_ticks; [congruence|lia]. }
  exists k. split; [lia|]. split; [intros j Hjk; destruct (Hj j Hjk) as [->| ->]; simpl; congruence|].
  assert (role (ticks k n') <> LEADER /\ election_timeout (ticks k n') <= election_elapsed (ticks k n') + 1 /\ 2 <= cluster_size (ticks k n') /\
    current_term (ticks k n') = current_term n /\ node_id (ticks k n') = node_id n /\ peers (ticks k n') = peers n) as (Hr' & Ht' & Hs' & T & I & P).
  { destruct (decide (k = 0%nat)) as [E0|E0].
    - rewrite E0. simpl. split_and!; try congruence; lia.
    - destruct k as [|k'] eqn:Ek; [done|]. rewrite idle_ticks by (congruence || lia). simpl. split_and!; try congruence; lia. }
  destruct (timeout_tick (ticks k n') Hr' Ht' Hs') as (n2 & E2 & T2 & R2 & V2 & _ & P2 & _).
  exists n2. split_and!; [done|congruence..].
Qed.

End timers.
