(* ===== verification/RaftSim.v ===== *)
(** The deterministic cluster simulator: [src/imustore/raft/simulation.py].

    A node's log object and state machine, which the simulator keeps beside the
    node so that they survive a restart, are fields of the node here.  Every run
    of the simulator is a run of the unreliable network of [RaftCluster]. *)

From S2P Require Import Prelude PyBase RaftLog RaftNode RaftAbstract RaftHistory RaftSteps RaftInvariant RaftRefine RaftHandlers RaftCluster.
From S2P Require Import RaftMachines.

Record SimCluster (V : Type) `{Rng} : Type := mkCluster {
  cl_ids : list Z;
  cl_config : RaftConfig;
  _seed : Z;
  _latency : Z;
  cl_nodes : gmap Z (RaftNode V (Recorder V));
  down : gset Z;
  _partition : option (list (gset Z));
  inflight : list (Z * Envelope V);
  tick_no : Z
}.
Arguments mkCluster {V H} cl_ids cl_config _seed _latency cl_nodes down _partition inflight tick_no.
Arguments cl_ids {V H} s.
Arguments cl_config {V H} s.
Arguments _seed {V H} s.
Arguments _latency {V H} s.
Arguments cl_nodes {V H} s.
Arguments down {V H} s.
Arguments _partition {V H} s.
Arguments inflight {V H} s.
Arguments tick_no {V H} s.

(** [random.Random(seed)] *)
Class RngSeed `{Rng} := random_Random : Z -> rng.

Module simcluster.
Section simcluster.
Context `{RngSeed} {V : Type}.
Implicit Types (s : SimCluster V).

Abbreviation SimM A := (stx raft_exn (SimCluster V) A).

Definition set_nodes x s : SimCluster V :=
  mkCluster (cl_ids s) (cl_config s) (_seed s) (_latency s) x (down s) (_partition s) (inflight s) (tick_no s).
Definition set_down x s : SimCluster V :=
  mkCluster (cl_ids s) (cl_config s) (_seed s) (_latency s) (cl_nodes s) x (_partition s) (inflight s) (tick_no s).
Definition set_partition x s : SimCluster V :=
  mkCluster (cl_ids s) (cl_config s) (_seed s) (_latency s) (cl_nodes s) (down s) x (inflight s) (tick_no s).
Definition set_inflight x s : SimCluster V :=
  mkCluster (cl_ids s) (cl_config s) (_seed s) (_latency s) (cl_nodes s) (down s) (_partition s) x (tick_no s).
Definition set_tick_no x s : SimCluster V :=
  mkCluster (cl_ids s) (cl_config s) (_seed s) (_latency s) (cl_nodes s) (down s) (_partition s) (inflight s) x.

(** The node [_create_node] builds. *)
Definition create_node (ids : list Z) (conf : RaftConfig) (seed i : Z) (m : Recorder V) (l : RaftLog V) (last_applied : Z) :
    RaftNode V (Recorder V) :=
  node.init i (peers_of ids i) m l (random_Random (1000 + i + 7 * seed)) conf last_applied.

(** [SimCluster(size, seed=seed, config=config, message_latency=latency)] *)
Definition init (size : nat) (seed : Z) (conf : RaftConfig) (latency : Z) : SimCluster V :=
  let ids := Z.of_nat <$> seq 0 size in
  mkCluster ids conf seed latency
    (list_to_map ((fun i => (i, create_node ids conf seed i recorder.init (raftlog.init None) 0)) <$> ids))
    ∅ None [] 0.

(** A method of [self.nodes[i]]. *)
Definition on_node {A} (i : Z) (m : stx raft_exn (RaftNode V (Recorder V)) A) : SimM A :=
  s ← get_st;
  match cl_nodes s !! i with
  | Some n => let '(n', r) := m n in put_st (set_nodes (<[i := n']> (cl_nodes s)) s) ;; lift_res r
  | None => raise (PeerKeyError i)
  end.

Definition _enqueue (envelopes : list (Envelope V)) : SimM unit :=
  modify (fun s => set_inflight (inflight s ++ ((fun e => (tick_no s + _latency s, e)) <$> envelopes)) s).

Definition _deliverable s (env : Envelope V) : bool :=
  if bool_decide (src env ∈ down s) || bool_decide (dst env ∈ down s) then false
  else match _partition s with
       | None => true
       | Some groups =>
           let group := default ∅ (head (base.filter (fun grp : gset Z => src env ∈ grp) groups)) in
           bool_decide (dst env ∈ group)
       end.

(** [for env in ready: ...] *)
Fixpoint deliver_all (ready : list (Envelope V)) : SimM (list (Envelope V)) :=
  match ready with
  | [] => mret []
  | env :: rest =>
      s ← get_st;
      out ← (if _deliverable s env then on_node (dst env) (node.step env) else mret []);
      more ← deliver_all rest;
      mret (out ++ more)
  end.

(** [for node_id in self.ids: ...] *)
Fixpoint tick_all (is_ : list Z) : SimM (list (Envelope V)) :=
  match is_ with
  | [] => mret []
  | i :: rest =>
      s ← get_st;
      out ← (if bool_decide (i ∈ down s) then mret [] else on_node i node.tick);
      more ← tick_all rest;
      mret (out ++ more)
  end.

Definition step1 : SimM unit :=
  modify (fun s => set_tick_no (tick_no s + 1) s) ;;
  s ← get_st;
  let ready := (base.filter (fun x => x.1 <= tick_no s) (inflight s)).*2 in
  put_st (set_inflight (base.filter (fun x => tick_no s < x.1) (inflight s)) s) ;;
  produced ← deliver_all ready;
  ticked ← tick_all (cl_ids s);
  _enqueue (produced ++ ticked).

(** [step(times)] *)
Fixpoint step (times : nat) : SimM unit :=
  match times with O => mret tt | S times => step1 ;; step times end.

Definition crash (i : Z) : SimM unit := modify (fun s => set_down ({[ i ]} ∪ down s) s).

(** [restart(node_id)]: a new node over the log object and the state machine. *)
Definition restart (i : Z) : SimM unit :=
  modify (fun s => set_down (down s ∖ {[ i ]}) s) ;;
  s ← get_st;
  match cl_nodes s !! i with
  | Some n =>
      put_st (set_nodes (<[i := create_node (cl_ids s) (cl_config s) (_seed s) i (machine n) (log n) (applied_index (machine n))]>
                           (cl_nodes s)) s)
  | None => raise (PeerKeyError i)
  end.

Definition partition (groups : list (gset Z)) : SimM unit := modify (set_partition (Some groups)).
Definition heal : SimM unit := modify (set_partition None).

Definition leaders s : list (RaftNode V (Recorder V)) :=
  base.filter (fun n => node.is_leader n = true /\ node_id n ∉ down s) (omap (fun i => cl_nodes s !! i) (cl_ids s)).

(** The first leader of the highest term. *)
Definition leader s : option (RaftNode V (Recorder V)) :=
  foldl (fun best n => match best with
         | Some b => if current_term b <? current_term n then Some n else best
         | None => Some n
         end) None (leaders s).

Definition client_write (c : command V) : SimM Z :=
  s ← get_st;
  match leader s with
  | None => raise NoLeaderError
  | Some n =>
      r ← on_node (node_id n) (node.propose c);
      _enqueue r.2 ;;
      mret r.1
  end.

(** [run_until(predicate, max_steps)] *)
Fixpoint run_until (predicate : SimCluster V -> bool) (max_steps : nat) : SimM bool :=
  match max_steps with
  | O => s ← get_st; mret (predicate s)
  | S k => s ← get_st; if predicate s then mret true else step1 ;; run_until predicate k
  end.

Definition committed_commands s (i : Z) : result raft_exn (list (command V)) :=
  match cl_nodes s !! i with
  | None => Raise (PeerKeyError i)
  | Some n =>
      mapM (fun k => x ← node.py_res (raftlog.get (log n) k); Ok (cmd x))
        ((fun k => Z.of_nat (S k)) <$> seq 0 (Z.to_nat (commit_index n)))
  end.

(** What a test does with a cluster. *)
Inductive action : Type :=
| Step (times : nat)
| Crash (i : Z)
| Restart (i : Z)
| Partition (groups : list (gset Z))
| Heal
| ClientWrite (c : command V).

(** Exceptions of a call are caught by the test. *)
Definition act (a : action) s : SimCluster V :=
  match a with
  | Step k => (step k s).1
  | Crash i => (crash i s).1
  | Restart i => (restart i s).1
  | Partition gs => (partition gs s).1
  | Heal => (heal s).1
  | ClientWrite c => (client_write c s).1
  end.

Definition run (l : list action) s : SimCluster V := foldl (fun s a => act a s) s l.

End simcluster.
End simcluster.

(** * The simulator refines the network *)

Section refines.
Context `{RngSeed} {V : Type}.
Implicit Types (s : SimCluster V) (w : world V (Recorder V)) (es : list (Envelope V)).

(** A state of the network that explains one of the simulator. *)
Record explains w s : Prop := {
  ex_nodes : nodes w = cl_nodes s;
  ex_inflight x : x ∈ inflight s -> x.2 ∈ sent w;
  ex_nodup : NoDup (cl_ids s);
  ex_inv : exists g, winv (list_to_set (cl_ids s)) w g
}.

(** The simulator goes from [s] to [s'], in which the messages [es] have been
    sent. *)
Definition reaches w s' (ids : list Z) es : Prop :=
  exists w', rtc wstep w w' /\ explains w' s' /\ cl_ids s' = ids /\ forall e, e ∈ sent w \/ e ∈ es -> e ∈ sent w'.

Lemma reaches_refl w s : explains w s -> reaches w s (cl_ids s) [].
Proof. intros He. exists w. split_and!; [done..|]. by intros e [?|?%elem_of_nil]. Qed.

(** One step of the network that replaces a node of the simulator. *)
Lemma reaches_step w s i n' es es' :
  explains w s -> wstep w (moved w i n' es) -> (forall e, e ∈ es' -> e ∈ es) ->
  reaches w (simcluster.set_nodes (<[i := n']> (cl_nodes s)) s) (cl_ids s) es'.
Proof.
  intros [En Ei Ed [g Hg]] Hs Hes. exists (moved w i n' es). split_and!; [by apply rtc_once| |done|].
  - split; simpl; [by rewrite En| |done|].
    + intros x Hx. apply elem_of_app. left. by apply Ei.
    + destruct (wstep_inv _ _ _ _ Hg Hs) as (g' & ? & _). by exists g'.
  - intros e [He|He]; simpl; apply elem_of_app; [by left|right; auto].
Qed.

(** A call on a node is a step of the network. *)
Lemma on_node_reaches {A} w s i (m : stx raft_exn (RaftNode V (Recorder V)) A) (out : A -> list (Envelope V)) s' r :
  explains w s -> simcluster.on_node i m s = (s', r) ->
  (forall n n' r, nodes w !! i = Some n -> m n = (n', r) -> wstep w (moved w i n' (posted out r))) ->
  reaches w s' (cl_ids s) (posted out r).
Proof.
  intros Hex E Hm. unfold simcluster.on_node in E. run in E.
  destruct (cl_nodes s !! i) as [n|] eqn:Hn; [|injection E as <- <-; by apply reaches_refl].
  destruct (m n) as [n' r'] eqn:Em. injection E as <- <-.
  eapply reaches_step; [done|apply (Hm n n' r'); [by rewrite (ex_nodes _ _ Hex)|done]|done].
Qed.

(** Two calls in a row, their messages collected. *)
Lemma both_reach (m k : stx raft_exn (SimCluster V) (list (Envelope V))) w s s' r :
  (forall s1 r1, m s = (s1, r1) -> reaches w s1 (cl_ids s) (posted id r1)) ->
  (forall w1 s1 s2 r2, explains w1 s1 -> (forall e, e ∈ sent w -> e ∈ sent w1) -> k s1 = (s2, r2) ->
     reaches w1 s2 (cl_ids s1) (posted id r2)) ->
  (out ← m; more ← k; mret (out ++ more)) s = (s', r) -> reaches w s' (cl_ids s) (posted id r).
Proof.
  intros Hm Hk E. destruct (m s) as [s1 r1] eqn:E1. destruct (Hm s1 r1 eq_refl) as (w1 & Hr1 & Hex1 & Hi1 & Hs1).
  destruct r1 as [out|ex]; [|erewrite stx_bind_raise in E by exact E1; injection E as <- <-; by exists w1].
  erewrite stx_bind_ok in E by exact E1. destruct (k s1) as [s2 r2] eqn:E2.
  destruct (Hk w1 s1 s2 r2) as (w2 & Hr2 & Hex2 & Hi2 & Hs2); [done|auto|done|].
  assert (s' = s2 /\ forall e, e ∈ posted id r -> e ∈ out \/ e ∈ posted id r2) as [-> Hout].
  { destruct r2 as [more|ex]; [erewrite stx_bind_ok in E by exact E2|erewrite stx_bind_raise in E by exact E2];
      injection E as <- <-; split; try done; [by intros e He%elem_of_app|by intros e He%elem_of_nil]. }
  exists w2. split_and!; [by etrans|done|congruence|].
  intros e [He|He]; apply Hs2; [left; apply Hs1; by left|]. destruct (Hout e He); [left; apply Hs1; by right|by right].
Qed.

Lemma deliver_reaches ready w s s' r :
  explains w s -> (forall e, e ∈ ready -> e ∈ sent w) -> simcluster.deliver_all ready s = (s', r) ->
  reaches w s' (cl_ids s) (posted id r).
Proof.
  revert w s s' r. induction ready as [|env rest IH]; intros w s s' r Hex Hr E; simpl in E.
  { injection E as <- <-. by apply reaches_refl. }
  erewrite stx_bind_ok in E by reflexivity. eapply both_reach; [..|exact E].
  - intros s1 r1 E1. destruct (simcluster._deliverable s env); [|injection E1 as <- <-; by apply reaches_refl].
    eapply on_node_reaches; [done|done|]. intros n n' r' Hn Em. eapply W_deliver; [apply Hr, list_elem_of_here|done|done].
  - intros w1 s1 s2 r2 Hex1 Hs1 E2. eapply IH; [done| |done]. intros e He. by apply Hs1, Hr, list_elem_of_further.
Qed.

Lemma tick_reaches is_ w s s' r :
  explains w s -> simcluster.tick_all is_ s = (s', r) -> reaches w s' (cl_ids s) (posted id r).
Proof.
  revert w s s' r. induction is_ as [|i rest IH]; intros w s s' r Hex E; simpl in E.
  { injection E as <- <-. by apply reaches_refl. }
  erewrite stx_bind_ok in E by reflexivity. eapply both_reach; [..|exact E].
  - intros s1 r1 E1. case_bool_decide; [injection E1 as <- <-; by apply reaches_refl|].
    eapply on_node_reaches; [done|done|]. intros n n' r' Hn Em. by eapply W_tick.
  - intros w1 s1 s2 r2 Hex1 Hs1 E2. by eapply IH.
Qed.

(** Assignments the network does not see. *)
Lemma explains_same w s s' :
  explains w s -> cl_nodes s' = cl_nodes s -> cl_ids s' = cl_ids s -> (forall x, x ∈ inflight s' -> x.2 ∈ sent w) -> explains w s'.
Proof. intros [En _ Ed Eg] E1 E2 Hin. split; [congruence|done|congruence|by rewrite E2]. Qed.

Lemma enqueue_explains w s es : explains w s -> (forall e, e ∈ es -> e ∈ sent w) -> explains w (simcluster._enqueue es s).1.
Proof.
  intros Hex Hes. eapply explains_same; [exact Hex|done|done|]. simpl. intros x [Hx|Hx]%elem_of_app.
  - by apply (ex_inflight _ _ Hex).
  - apply list_elem_of_fmap in Hx as (e & -> & He). by apply Hes.
Qed.

Lemma step1_reaches w s : explains w s -> exists w', rtc wstep w w' /\ explains w' (simcluster.step1 s).1 /\ cl_ids (simcluster.step1 s).1 = cl_ids s.
Proof.
  intros Hex. unfold simcluster.step1. erewrite stx_bind_ok by reflexivity. erewrite stx_bind_ok by reflexivity. cbv zeta.
  erewrite stx_bind_ok by reflexivity. set (s0 := simcluster.set_tick_no _ s). set (s1 := simcluster.set_inflight _ s0).
  set (ready := (base.filter _ (inflight s0)).*2).
  assert (explains w s1) as Hex1.
  { eapply explains_same; [exact Hex|done|done|]. intros x [_ Hx]%list_elem_of_filter. by apply (ex_inflight _ _ Hex). }
  assert (forall e, e ∈ ready -> e ∈ sent w) as Hready.
  { intros e He. apply list_elem_of_fmap in He as (x & -> & [_ Hx]%list_elem_of_filter). by apply (ex_inflight _ _ Hex). }
  destruct (simcluster.deliver_all ready s1) as [s2 r2] eqn:E2.
  destruct (deliver_reaches _ _ _ _ _ Hex1 Hready E2) as (w2 & Hr2 & Hex2 & Hi2 & Hs2).
  destruct r2 as [produced|ex]; [|erewrite stx_bind_raise by exact E2; by exists w2]. erewrite stx_bind_ok by exact E2.
  change (cl_ids s0) with (cl_ids s).
  destruct (simcluster.tick_all (cl_ids s) s2) as [s3 r3] eqn:E3.
  destruct (tick_reaches _ _ _ _ _ Hex2 E3) as (w3 & Hr3 & Hex3 & Hi3 & Hs3).
  assert (rtc wstep w w3) as Hr by (by etrans).
  destruct r3 as [ticked|ex]; [|erewrite stx_bind_raise by exact E3; exists w3; split_and!; [done..|simpl; by rewrite Hi3]].
  erewrite stx_bind_ok by exact E3. exists w3. split_and!; [done| |simpl; by rewrite Hi3].
  apply enqueue_explains; [done|]. intros e [He|He]%elem_of_app; apply Hs3; [left; apply Hs2; by right|by right].
Qed.

Lemma step_reaches k w s : explains w s -> exists w', rtc wstep w w' /\ explains w' (simcluster.step k s).1 /\ cl_ids (simcluster.step k s).1 = cl_ids s.
Proof.
  revert w s. induction k as [|k IH]; intros w s Hex; simpl; [by exists w|].
  destruct (step1_reaches w s Hex) as (w1 & Hr1 & Hex1 & Hi1). destruct (simcluster.step1 s) as [s1 [[]|ex]] eqn:E1.
  - erewrite stx_bind_ok by exact E1. destruct (IH w1 s1 Hex1) as (w2 & Hr2 & Hex2 & Hi2). exists w2. split_and!; [by etrans|done|simpl in Hi1; congruence].
  - erewrite stx_bind_raise by exact E1. by exists w1.
Qed.

Lemma restart_reaches w s i : explains w s -> exists w', rtc wstep w w' /\ explains w' (simcluster.restart i s).1 /\ cl_ids (simcluster.restart i s).1 = cl_ids s.
Proof.
  intros Hex. unfold simcluster.restart. erewrite stx_bind_ok by reflexivity. erewrite stx_bind_ok by reflexivity.
  set (s0 := simcluster.set_down _ s). assert (explains w s0) as Hex0 by (eapply explains_same; [exact Hex|done|done|apply Hex]).
  change (cl_nodes s0) with (cl_nodes s). destruct (cl_nodes s !! i) as [n|] eqn:Hn; [|by exists w].
  destruct (ex_inv _ _ Hex) as [g Hg]. rewrite <- (ex_nodes _ _ Hex) in Hn.
  destruct (wi_nodes _ _ _ Hg i n Hn) as [c (Hst & _ & _)].
  destruct (reaches_step w s0 i (simcluster.create_node (cl_ids s0) (cl_config s0) (_seed s0) i (machine n) (log n) (applied_index (machine n))) [] [] Hex0)
    as (w' & Hr & Hex' & Hi & _); [|done|].
  - apply W_restart with (n := n); [done| |by left|done].
    apply NoDup_Permutation; [apply NoDup_filter, Hex|apply Hst|]. intros p. unfold peers_of.
    rewrite list_elem_of_filter, (st_peers _ _ _ _ _ Hst), elem_of_list_to_set. tauto.
  - exists w'. split_and!; done.
Qed.

Lemma write_reaches w s c : explains w s -> exists w', rtc wstep w w' /\ explains w' (simcluster.client_write c s).1 /\ cl_ids (simcluster.client_write c s).1 = cl_ids s.
Proof.
  intros Hex. unfold simcluster.client_write. erewrite stx_bind_ok by reflexivity.
  destruct (simcluster.leader s) as [n|]; [|by exists w].
  destruct (simcluster.on_node (node_id n) (node.propose c) s) as [s1 r1] eqn:E1.
  destruct (on_node_reaches w s _ _ snd _ _ Hex E1) as (w1 & Hr1 & Hex1 & Hi1 & Hs1).
  { intros n0 n' r' Hn Em. by eapply W_propose. }
  destruct r1 as [[k out]|ex]; [|erewrite stx_bind_raise by exact E1; by exists w1].
  erewrite stx_bind_ok by exact E1. exists w1. split_and!; [done|apply enqueue_explains; [done|]|done].
  intros e He. apply Hs1. by right.
Qed.

Lemma act_reaches a w s : explains w s -> exists w', rtc wstep w w' /\ explains w' (simcluster.act a s) /\ cl_ids (simcluster.act a s) = cl_ids s.
Proof.
  intros Hex. destruct a as [k|i|i|gs| |c]; simpl.
  - by apply step_reaches.
  - exists w. split_and!; [done| |done]. eapply explains_same; [exact Hex|done|done|apply Hex].
  - by apply restart_reaches.
  - exists w. split_and!; [done| |done]. eapply explains_same; [exact Hex|done|done|apply Hex].
  - exists w. split_and!; [done| |done]. eapply explains_same; [exact Hex|done|done|apply Hex].
  - by apply write_reaches.
Qed.

Lemma run_reaches l w s : explains w s -> exists w', rtc wstep w w' /\ explains w' (simcluster.run l s) /\ cl_ids (simcluster.run l s) = cl_ids s.
Proof.
  revert w s. induction l as [|a l IH]; intros w s Hex; simpl; [by exists w|].
  destruct (act_reaches a w s Hex) as (w1 & Hr1 & Hex1 & Hi1), (IH w1 _ Hex1) as (w2 & Hr2 & Hex2 & Hi2).
  exists w2. split_and!; [by etrans|done|congruence].
Qed.

(** The network a new simulator stands for. *)
Definition world_of s : world V (Recorder V) := mkWorld (cl_nodes s) [].

Lemma init_initial size seed conf latency :
  initial (Z.of_nat <$> seq 0 size) (world_of (simcluster.init (V := V) size seed conf latency)).
Proof.
  set (ids := Z.of_nat <$> seq 0 size).
  assert (NoDup ids) as Hnd by (apply NoDup_fmap_2; [apply _|apply NoDup_seq]).
  split_and!; [done|done|..]; simpl.
  - rewrite dom_list_to_map_L. f_equal. rewrite <- list_fmap_compose. apply list_fmap_id.
  - intros i n Hn. apply elem_of_list_to_map_2, list_elem_of_fmap in Hn as (j & [= -> ->] & _).
    eexists _, _, _, _. split; [by left|]. split; [|reflexivity]. done.
Qed.

Lemma init_explains size seed conf latency :
  explains (world_of (simcluster.init (V := V) size seed conf latency)) (simcluster.init size seed conf latency).
Proof.
  pose proof (init_initial size seed conf latency) as Hi. split; [done|by intros x Hx%elem_of_nil|apply Hi|].
  exists ghost0. by apply initial_inv.
Qed.

End refines.
