(* ===== verification/RaftKV.v ===== *)
(** State machines that may refuse a command, above all the database
    ([src/imustore/raft/statemachine.py]).

    A node calls its machine while it handles a message, a tick or a proposal, and
    lets its exceptions pass.  Up to the first such exception a cluster behaves
    like one whose nodes feed a [Recorder] ([cstep_mirrored]), so what [RaftProps]
    proves of that cluster holds; and a call of a node only ever raises what its
    machine raised on a committed entry ([raft_calls_return]).  The database is
    such a machine ([kv_rel]): applying a command is atomic together with the
    record of how far the log was applied. *)

From S2P Require Import Prelude PyBase Struct SimDisk Locking Physical PhysicalFacts Recovery StorageProps KeyList Logical Pickle Index.
From S2P Require Import BPlusTree BPlusRep BPlusIndex Engine Session Database Transactions RaftLog RaftNode RaftAbstract RaftRefine RaftCluster RaftMachines RaftProps.

(** * Machines *)

(** A machine that was [fed] the commands of a list, with their indexes, takes the
    next one or raises; and it knows how far it got (as long as it has taken
    fewer than [capacity] commands, where it counts in a fixed width). *)
Class MachineRel (V SM : Type) `{StateMachine V SM} := {
  capacity : Z;
  fed : list (Z * command V) -> SM -> Prop;
  fed_apply l m c m' : fed l m -> sm_apply (Z.of_nat (S (length l))) c m = (m', Ok tt) -> fed (l ++ [(Z.of_nat (S (length l)), c)]) m';
  fed_index l m m' a : fed l m -> Z.of_nat (length l) < capacity -> sm_applied_index m = (m', Ok a) -> a = Z.of_nat (length l) /\ fed l m'
}.

Section mirror.
Context `{Rng} {V SM : Type} `{MachineRel V SM}.
Implicit Types (n : RaftNode V SM) (r : Recorder V) (w : world V SM) (v : world V (Recorder V)).

(** The node with a recorder in place of its machine. *)
Definition shadow r n : RaftNode V (Recorder V) :=
  mkNode (node_id n) (peers n) (cluster_size n) (config n) (log n) r (_rng n) (current_term n) (voted_for n) (role n) (leader_id n) (commit_index n) (last_applied n) (votes n) (next_index n) (match_index n) (election_elapsed n) (heartbeat_elapsed n) (election_timeout n) (_outbox n).

(** The recorder has what the machine was fed. *)
Record tracks r n : Prop := {
  tr_fed : fed (applied r) (machine n);
  tr_index : applied_index r = Z.of_nat (length (applied r));
  tr_last : last_applied n = Z.of_nat (length (applied r))
}.

(** The machine raised [e] when the node, in the end at [n], fed it the entry at
    [last_applied] of its log, a committed one, after all those before it. *)
Definition refused n (e : exn) : Prop :=
  exists l m x, fed l m /\ last_applied n = Z.of_nat (S (length l)) /\ last_applied n <= commit_index n /\
    raftlog.get (log n) (last_applied n) = Ok x /\ sm_apply (last_applied n) (cmd x) m = (machine n, Raise e).

(** No exception of another component. *)
Definition smooth {A} (x : result raft_exn A) : Prop := match x with Raise (PyError _) => False | _ => True end.

(** The same method on both nodes does the same, unless the machine refuses. *)
Definition mirrors {A} (m1 : stx raft_exn (RaftNode V SM) A) (m2 : stx raft_exn (RaftNode V (Recorder V)) A) : Prop :=
  forall n r, tracks r n ->
    (exists r', m2 (shadow r n) = (shadow r' (m1 n).1, (m1 n).2) /\ (smooth (m1 n).2 -> tracks r' (m1 n).1)) \/
    (exists e, (m1 n).2 = Raise (PyError e) /\ refused (m1 n).1 e).

Lemma mirrors_same {A} (m1 : stx raft_exn (RaftNode V SM) A) (m2 : stx raft_exn (RaftNode V (Recorder V)) A) :
  (forall n r, m2 (shadow r n) = (shadow r (m1 n).1, (m1 n).2) /\ machine (m1 n).1 = machine n /\ last_applied (m1 n).1 = last_applied n) -> mirrors m1 m2.
Proof. intros Hm n r [T1 T2 T3]. destruct (Hm n r) as (E & E1 & E2). left. exists r. split; [done|]. intros _. split; congruence. Qed.

Lemma mirrors_ret {A} (a : A) : mirrors (mret a) (mret a).
Proof. by apply mirrors_same. Qed.

Lemma mirrors_raise {A} (e : raft_exn) : mirrors (A := A) (raise e) (raise e).
Proof. by apply mirrors_same. Qed.

Lemma mirrors_bind {A B} (m1 : stx raft_exn (RaftNode V SM) A) m2 (f1 : A -> stx raft_exn (RaftNode V SM) B) f2 :
  mirrors m1 m2 -> (forall a, mirrors (f1 a) (f2 a)) -> mirrors (m1 ≫= f1) (m2 ≫= f2).
Proof.
  intros Hm Hf n r Ht. unfold mbind, stx_bind. destruct (Hm n r Ht) as [(r' & E & Ht')|(e & E & Hr)].
  - rewrite E. destruct (m1 n) as [n' [a|e]]; simpl in *; [by apply Hf, Ht'|]. left. by exists r'.
  - right. destruct (m1 n) as [n' x]. simpl in E, Hr. subst x. by exists e.
Qed.

Lemma mirrors_get {B} (f1 : RaftNode V SM -> stx raft_exn (RaftNode V SM) B) f2 :
  (forall n r, mirrors (f1 n) (f2 (shadow r n))) -> mirrors (get_st ≫= f1) (get_st ≫= f2).
Proof. intros Hf n r Ht. exact (Hf n r n r Ht). Qed.

Lemma mirrors_modify (f1 : RaftNode V SM -> RaftNode V SM) f2 :
  (forall n r, f2 (shadow r n) = shadow r (f1 n) /\ machine (f1 n) = machine n /\ last_applied (f1 n) = last_applied n) ->
  mirrors (modify f1) (modify f2).
Proof. intros Hf. apply mirrors_same. intros n r. destruct (Hf n r) as (E & ? & ?). unfold modify. simpl. by rewrite E. Qed.

Lemma mirrors_lift {A} (x : result raft_exn A) : mirrors (lift_res x) (lift_res x).
Proof. by apply mirrors_same. Qed.

Lemma mirrors_log {A} (m : St (RaftLog V) A) : mirrors (node.on_log m) (node.on_log m).
Proof. apply mirrors_same. intros n r. unfold node.on_log. simpl. by destruct (m (log n)). Qed.

Lemma mirrors_persist : mirrors node._persist node._persist.
Proof. by apply mirrors_modify. Qed.

Lemma mirrors_reset : mirrors node._reset_election_timer node._reset_election_timer.
Proof. apply mirrors_modify. intros n r. simpl. by destruct (randint _ _ _). Qed.

Lemma mirrors_send to b : mirrors (node._send to b) (node._send to b).
Proof. by apply mirrors_modify. Qed.

Lemma mirrors_drain : mirrors node._drain node._drain.
Proof. by apply mirrors_same. Qed.

Lemma mirrors_append c : mirrors (node.append_entry c) (node.append_entry c).
Proof. by apply mirrors_same. Qed.

Lemma mirrors_next_index p : mirrors (node.get_next_index p) (node.get_next_index p).
Proof. apply mirrors_get. intros n r. simpl. destruct (next_index n !! p); [apply mirrors_ret|apply mirrors_raise]. Qed.

Lemma mirrors_for_peers f1 f2 (ps : list Z) : (forall p, mirrors (f1 p) (f2 p)) -> mirrors (node.for_peers f1 ps) (node.for_peers f2 ps).
Proof. intros Hf. induction ps as [|p ps IH]; simpl; [apply mirrors_ret|]. by apply mirrors_bind. Qed.

(** The machine is given the next entry. *)
Lemma mirrors_apply_loop fuel : mirrors (node.apply_loop fuel) (node.apply_loop fuel).
Proof.
  induction fuel as [|fuel IH]; simpl; [apply mirrors_ret|]. intros n r Ht. pose proof Ht as [T1 T2 T3].
  unfold mbind, stx_bind, get_st, modify, lift_res. cbn [shadow last_applied commit_index log].
  destruct (Z.ltb_spec (last_applied n) (commit_index n)) as [Hlt|_]; [|left; by exists r].
  destruct (raftlog.get (log n) (last_applied n + 1)) as [x|e] eqn:Eg; cbn [node.py_res]; [|left; by exists r].
  unfold node.on_machine. cbn [node.set_last_applied machine shadow].
  replace (last_applied n + 1) with (Z.of_nat (S (length (applied r)))) in * by lia.
  destruct (sm_apply _ (cmd x) (machine n)) as [m' [[]|e]] eqn:Ea; cbn [node.py_res].
  - apply (IH (node.set_machine m' (node.set_last_applied (Z.of_nat (S (length (applied r)))) n))). split; simpl; rewrite ?length_app; simpl; [|lia..].
    by apply fed_apply in Ea.
  - right. exists e. split; [done|]. exists (applied r), (machine n), x. simpl. split_and!; [done|done|lia|done|done].
Qed.

(** Runs through the two copies of a method. *)
Ltac mirror :=
  repeat first
    [ simple apply mirrors_raise | simple apply mirrors_ret | simple apply mirrors_persist | simple apply mirrors_reset | simple apply mirrors_send | simple apply mirrors_drain
    | simple apply mirrors_append | simple apply mirrors_next_index | simple apply mirrors_log | simple apply mirrors_apply_loop | assumption
    | match goal with Hm : forall _, mirrors _ _ |- _ => simple apply Hm end
    | simple apply mirrors_get; intros ? ?; cbn [shadow node_id peers cluster_size config log current_term voted_for role leader_id commit_index last_applied votes next_index match_index election_elapsed heartbeat_elapsed election_timeout _outbox]
    | simple apply mirrors_modify; intros ? ?; split_and!; reflexivity
    | simple apply mirrors_bind; [|intros ?]
    | simple apply mirrors_for_peers; intros ?
    | match goal with |- mirrors (if ?b then _ else _) (if ?b then _ else _) => destruct b end ].

Lemma mirrors_apply : mirrors node._apply node._apply.
Proof. unfold node._apply. mirror. Qed.

Lemma mirrors_send_append p : mirrors (node._send_append_to p) (node._send_append_to p).
Proof. unfold node._send_append_to. mirror. Qed.

Lemma mirrors_broadcast : mirrors node._broadcast_append node._broadcast_append.
Proof. pose proof mirrors_send_append. unfold node._broadcast_append. mirror. Qed.

Lemma mirrors_advance : mirrors node._maybe_advance_commit node._maybe_advance_commit.
Proof.
  unfold node._maybe_advance_commit. apply mirrors_get. intros n r. cbn [shadow log commit_index].
  generalize (node.range_down (raftlog.last_index (log n)) (commit_index n)). intros l. induction l as [|k l IH]; simpl; [apply mirrors_ret|].
  apply mirrors_get. intros n' r'. change (node._has_majority (shadow r' n') (node.replicas (shadow r' n') k)) with (node._has_majority n' (node.replicas n' k)).
  cbn [shadow log current_term]. mirror. apply mirrors_apply.
Qed.

Lemma mirrors_become_leader : mirrors node._become_leader node._become_leader.
Proof. pose proof mirrors_broadcast. pose proof mirrors_advance. unfold node._become_leader. mirror. Qed.

Lemma mirrors_become_follower t : mirrors (node._become_follower t) (node._become_follower t).
Proof. unfold node._become_follower. mirror. Qed.

Lemma mirrors_become_candidate : mirrors node._become_candidate node._become_candidate.
Proof.
  pose proof mirrors_become_leader. unfold node._become_candidate. mirror.
  change (node._has_majority (shadow ?r ?n)) with (node._has_majority n). mirror.
Qed.

Lemma mirrors_request_vote from t c li lt : mirrors (node._handle_request_vote from t c li lt) (node._handle_request_vote from t c li lt).
Proof. pose proof mirrors_become_follower. unfold node._handle_request_vote. mirror; auto. Qed.

Lemma mirrors_vote_reply from t g : mirrors (node._handle_request_vote_reply from t g) (node._handle_request_vote_reply from t g).
Proof.
  pose proof (mirrors_become_follower t). pose proof mirrors_become_leader. unfold node._handle_request_vote_reply. mirror.
  change (node._has_majority (shadow ?r ?n)) with (node._has_majority n). mirror.
Qed.

Lemma mirrors_append_entries from t l p pt es lc :
  mirrors (node._handle_append_entries from t l p pt es lc) (node._handle_append_entries from t l p pt es lc).
Proof. pose proof (mirrors_become_follower t). pose proof mirrors_apply. unfold node._handle_append_entries. mirror. Qed.

Lemma mirrors_append_reply from t s m : mirrors (node._handle_append_entries_reply from t s m) (node._handle_append_entries_reply from t s m).
Proof.
  pose proof (mirrors_become_follower t). pose proof mirrors_advance. pose proof (mirrors_send_append from).
  unfold node._handle_append_entries_reply. mirror.
Qed.

Lemma mirrors_tick : mirrors node.tick node.tick.
Proof. pose proof mirrors_broadcast. pose proof mirrors_become_candidate. unfold node.tick. mirror. Qed.

Lemma mirrors_step env : mirrors (node.step env) (node.step env).
Proof.
  unfold node.step. apply mirrors_bind; [mirror|intros _]. apply mirrors_bind; [|intros _; apply mirrors_drain].
  destruct (body env); [apply mirrors_request_vote|apply mirrors_vote_reply|apply mirrors_append_entries|apply mirrors_append_reply].
Qed.

Lemma mirrors_propose c : mirrors (node.propose c) (node.propose c).
Proof. pose proof mirrors_broadcast. pose proof mirrors_advance. unfold node.propose. mirror. Qed.

(** * Clusters *)

(** A step in which no state machine raises. *)
Inductive cstep w : world V SM -> Prop :=
| C_tick i n n' x : nodes w !! i = Some n -> node.tick n = (n', x) -> smooth x -> cstep w (moved w i n' (posted id x))
| C_deliver env n n' x : env ∈ sent w -> nodes w !! dst env = Some n -> node.step env n = (n', x) -> smooth x ->
    cstep w (moved w (dst env) n' (posted id x))
| C_propose i n c n' x : nodes w !! i = Some n -> node.propose c n = (n', x) -> smooth x -> cstep w (moved w i n' (posted snd x))
| C_restart i n ps m l seed conf a : nodes w !! i = Some n -> ps ≡ₚ peers n -> l = log n \/ l = reload (log n) ->
    last_applied n < capacity -> sm_applied_index (machine n) = (m, Ok a) -> cstep w (moved w i (node.init i ps m l seed conf a) []).

(** A cluster that was just started, with machines that were fed nothing. *)
Definition started (ids : list Z) w : Prop :=
  NoDup ids /\ sent w = [] /\ dom (nodes w) = list_to_set ids /\
  forall i n, nodes w !! i = Some n -> exists m file seed conf, blank file /\ fed [] m /\
    n = node.init i (peers_of ids i) m (raftlog.init file) seed conf 0.

(** The nodes of [v] are those of [w] with recorders in place of the machines. *)
Definition mirrored w v : Prop :=
  sent v = sent w /\ dom (nodes v) = dom (nodes w) /\
  forall i n, nodes w !! i = Some n -> exists r, tracks r n /\ nodes v !! i = Some (shadow r n).

Lemma mirrored_moved w v i n n' r' es : mirrored w v -> nodes w !! i = Some n -> tracks r' n' ->
  mirrored (moved w i n' es) (moved v i (shadow r' n') es).
Proof.
  intros (Es & Ed & Hn) Hi Ht. unfold moved. split_and!; cbn [nodes sent]; [by rewrite Es|by rewrite !dom_insert_L, Ed|]. intros j nj Hj.
  destruct (decide (i = j)) as [->|Hne]; [rewrite lookup_insert_eq in Hj; injection Hj as <-; exists r'; by rewrite lookup_insert_eq|].
  rewrite lookup_insert_ne in Hj by done. rewrite lookup_insert_ne by done. by apply Hn.
Qed.

Lemma shadow_init i ps m r l seed conf a : shadow r (node.init i ps m l seed conf a) = node.init i ps r l seed conf a.
Proof. unfold node.init. by destruct (randint _ _ seed). Qed.

(** A call that goes through on [w] goes through on [v] in the same way. *)
Lemma mirrors_call {A} (m1 : stx raft_exn (RaftNode V SM) A) m2 n n' r x :
  mirrors m1 m2 -> tracks r n -> m1 n = (n', x) -> smooth x -> exists r', m2 (shadow r n) = (shadow r' n', x) /\ tracks r' n'.
Proof.
  intros Hm Ht E Hs. destruct (Hm n r Ht) as [(r' & E' & Ht')|(e & E' & _)]; rewrite E in E'; simpl in *; [|by subst x].
  rewrite E in Ht'. exists r'. auto.
Qed.

Lemma cstep_mirrored w v w' : mirrored w v -> cstep w w' -> exists v', wstep v v' /\ mirrored w' v'.
Proof.
  intros Hw Hs. pose proof Hw as (Es & _ & Hn).
  destruct Hs as [i n n' x Hi E Hx|env n n' x Henv Hi E Hx|i n c n' x Hi E Hx|i n ps m l seed conf a Hi Hps Hl Hc E]; destruct (Hn _ _ Hi) as (r & Ht & Hr).
  - destruct (mirrors_call _ _ _ _ _ _ mirrors_tick Ht E Hx) as (r' & E' & Ht'). eexists. split; [by eapply W_tick|by eapply mirrored_moved].
  - destruct (mirrors_call _ _ _ _ _ _ (mirrors_step env) Ht E Hx) as (r' & E' & Ht').
    eexists. split; [by eapply W_deliver; [rewrite Es|..]|by eapply mirrored_moved].
  - destruct (mirrors_call _ _ _ _ _ _ (mirrors_propose c) Ht E Hx) as (r' & E' & Ht'). eexists. split; [by eapply W_propose|by eapply mirrored_moved].
  - destruct Ht as [T1 T2 T3]. destruct (fed_index _ _ _ _ T1 ltac:(lia) E) as [-> Hf].
    exists (moved v i (shadow r (node.init i ps m l seed conf (Z.of_nat (length (applied r))))) []). split.
    + rewrite shadow_init, <- T2. by eapply (W_restart v i (shadow r n) ps r).
    + eapply mirrored_moved; [done..|]. unfold node.init. destruct (randint _ _ seed). by split.
Qed.

Lemma cstep_run_mirrored w v w' : mirrored w v -> rtc cstep w w' -> exists v', rtc wstep v v' /\ mirrored w' v'.
Proof.
  intros Hw Hr. revert v Hw. induction Hr as [w|w w1 w' Hs _ IH]; intros v Hw; [by exists v|].
  destruct (cstep_mirrored w v w1 Hw Hs) as (v1 & Hv1 & Hw1). destruct (IH v1 Hw1) as (v' & Hv' & Hw'). exists v'. split; [by eapply rtc_l|done].
Qed.

Lemma started_mirrored ids w : started ids w -> exists v, initial ids v /\ mirrored w v.
Proof.
  intros (Hnd & Hs & Hd & Hn). exists (mkWorld (shadow recorder.init <$> nodes w) []). split.
  - split_and!; [done|done|simpl; by rewrite dom_fmap_L|]. intros i n Hi. simpl in Hi. rewrite lookup_fmap in Hi.
    destruct (nodes w !! i) as [n0|] eqn:Hi0; [|done]. injection Hi as <-. destruct (Hn i n0 Hi0) as (m & file & seed & conf & Hf & _ & ->).
    exists recorder.init, file, seed, conf. split_and!; [done|done|apply shadow_init].
  - split_and!; [done|simpl; by rewrite dom_fmap_L|]. intros i n Hi. exists recorder.init. simpl. rewrite lookup_fmap, Hi. split; [|done].
    destruct (Hn i n Hi) as (m & file & seed & conf & _ & Hm & ->). unfold node.init. by destruct (randint _ _ seed).
Qed.

(** A call returns, or raises what the machine raised on a committed entry. *)
Definition returns_or_refused {A} (nx : RaftNode V SM * result raft_exn A) : Prop :=
  match nx with (_, Ok _) => True | (n', Raise x) => exists e, x = PyError e /\ refused n' e end.

Lemma mirrors_returns {A} (m1 : stx raft_exn (RaftNode V SM) A) m2 n r (n2 : RaftNode V (Recorder V)) a :
  mirrors m1 m2 -> tracks r n -> m2 (shadow r n) = (n2, Ok a) ->
  (exists n' r', m1 n = (n', Ok a) /\ n2 = shadow r' n') \/ (exists n' e, m1 n = (n', Raise (PyError e)) /\ refused n' e).
Proof.
  intros Hm Ht E. destruct (Hm n r Ht) as [(r' & E' & _)|(e & E' & Hr)]; destruct (m1 n) as [n' x]; simpl in *.
  - left. exists n', r'. rewrite E in E'. by injection E' as -> <-.
  - right. exists n', e. by subst x.
Qed.

(** C33: the node's methods fail only when the state machine does.  In any run in
    which no state machine has raised yet (messages lost, duplicated, reordered,
    nodes restarted), ticking a node and handling any message that was ever sent
    return normally, or raise exactly what the state machine raised when it was
    given the committed entry at the node's new [last_applied], having taken all
    entries before it.  A proposal at a leader appends the command to its log and
    returns its index, or raises in the same way; at another node it raises
    [NotLeaderError] without effect. *)
Theorem raft_calls_return (ids : list Z) w0 w i n :
  started ids w0 -> rtc cstep w0 w -> nodes w !! i = Some n ->
  returns_or_refused (node.tick n) /\
  (forall env, env ∈ sent w -> dst env = i -> returns_or_refused (node.step env n)) /\
  (forall c, if decide (role n = LEADER)
     then (exists n' out, node.propose c n = (n', Ok (raftlog.last_index (log n) + 1, out)) /\
             entries (log n) ++ [mkEntry (current_term n) c] `prefix_of` entries (log n')) \/
          (exists n' e, node.propose c n = (n', Raise (PyError e)) /\ refused n' e)
     else node.propose c n = (n, Raise (NotLeaderError (leader_id n)))).
Proof.
  intros Hst Hr Hn. destruct (started_mirrored ids w0 Hst) as (v0 & Hv0 & Hm0). destruct (cstep_run_mirrored w0 v0 w Hm0 Hr) as (v & Hv & (Es & _ & Hm)).
  destruct (Hm i n Hn) as (r & Ht & Hr2). destruct (calls_succeed ids v0 v i _ Hv0 Hv Hr2) as ((n1 & out1 & E1) & Hstep & Hprop). split_and!.
  - unfold returns_or_refused. destruct (mirrors_returns _ _ n r n1 out1 mirrors_tick Ht E1) as [(n' & r' & -> & _)|(n' & e & -> & He)]; [done|by exists e].
  - intros env Henv Hd. rewrite <- Es in Henv. destruct (Hstep env Henv Hd) as (n2 & out2 & E2). unfold returns_or_refused.
    destruct (mirrors_returns _ _ n r n2 out2 (mirrors_step env) Ht E2) as [(n' & r' & -> & _)|(n' & e & -> & He)]; [done|by exists e].
  - intros c. specialize (Hprop c). change (role (shadow r n)) with (role n) in Hprop. destruct (decide (role n = LEADER)) as [Hl|Hl].
    + destruct Hprop as (n3 & out3 & E3 & Hp). destruct (mirrors_returns _ _ n r n3 _ (mirrors_propose c) Ht E3) as [(n' & r' & E & ->)|Hraise]; [left|by right].
      by exists n', out3.
    + unfold node.propose. run. by rewrite bool_decide_true.
Qed.

End mirror.

(** * The database *)

(** [int(v)] reads back the integers that were stored, and the codec keeps them. *)
Class IntLaws (V : Type) `{Codec V} `{IntValue V} := {
  to_of_int z : to_int (of_int z) = Ok z;
  int_stored z : exists p, encode (of_int z) = Ok p /\ decode p = Ok (of_int z)
}.

Section kv.
Context `{Pickle} (order : nat) (Horder : (3 <= order)%nat) {V : Type} `{IntLaws V}.
#[local] Hint Extern 0 (Index bnode) => exact (bplus_index order) : typeclass_instances.
#[local] Hint Extern 0 (IndexSpec bnode) => exact (bplus_spec order Horder) : typeclass_instances.
Implicit Types (d : DBDB bnode) (m : _Meta) (base kvs : kvlist) (v : V).

Definition is_open d : Prop := storage.closed (dbdb.the_storage d) = false.

(** The bindings after a command; one that cannot be encoded has no effect. *)
Definition effect (c : command V) kvs : kvlist :=
  match c with
  | CmdSet k v => match k, encode v with _ :: _, Ok p => kv_set k p kvs | _, _ => kvs end
  | CmdDel k => kv_del k kvs
  | _ => kvs
  end.

Lemma is_open_run d : is_open d -> dbdb._assert_open d = (d, Ok tt).
Proof. intros Hc. unfold dbdb._assert_open. run. by rewrite Hc. Qed.

Lemma setitem_run d m base kvs (k : pystr) v :
  handle (db_tree d) m base kvs -> is_open d -> Z.of_nat (length kvs + 1) < 2 ^ 64 ->
  match k, encode v with
  | _ :: _, Ok p => exists d', dbdb.setitem k v d = (d', Ok tt) /\ handle (db_tree d') m base (kv_set k p kvs) /\ is_open d' /\
      _crash_at_flush (_f (dbdb.the_storage d')) = _crash_at_flush (_f (dbdb.the_storage d))
  | _, _ => exists e, dbdb.setitem k v d = (d, Raise e)
  end.
Proof.
  intros Hh Ho Hf. unfold dbdb.setitem. erewrite stx_bind_ok by (by apply is_open_run).
  destruct k as [|ch k]; [by eexists|]. erewrite stx_bind_ok by reflexivity.
  destruct (encode v) as [p|e] eqn:Ee; [|exists e; by erewrite stx_bind_raise by reflexivity].
  erewrite stx_bind_ok by reflexivity.
  destruct (set_spec _ _ _ _ (ch :: k) p Hh) as (t' & E & Hh' & _ & Hsf).
  { change (Z.of_nat (length (kv_set (ch :: k) p kvs)) < 2 ^ 64). rewrite kv_set_length.
    - destruct (kv_get (ch :: k) kvs); lia.
    - destruct Hh as [_ _ [Ht _] _ _]. by eapply ix_tree_sorted. }
  pose proof (same_file_fields _ _ Hsf) as (_ & _ & Hcr & Hcl).
  exists (dbdb.set_tree t' d). split_and!; [by apply zoom_eq|done|by etransitivity|done].
Qed.

(** The command itself: its effect is staged, or nothing changes. *)
Lemma command_run d m base (c : command V) :
  handle (db_tree d) m base base -> is_open d -> Z.of_nat (length base + 1) < 2 ^ 64 ->
  (exists d', kvmachine.apply_command c d = (d', Ok tt) /\ handle (db_tree d') m base (effect c base) /\ is_open d' /\
     _crash_at_flush (_f (dbdb.the_storage d')) = _crash_at_flush (_f (dbdb.the_storage d))) \/
  (exists e, kvmachine.apply_command c d = (d, Raise e)).
Proof.
  intros Hh Ho Hf. destruct c as [k v|k| |op]; simpl.
  - pose proof (setitem_run d m base base k v Hh Ho Hf) as Hr. destruct k as [|ch k]; [by right|]. destruct (encode v); [by left|by right].
  - unfold dbdb.delitem. destruct k as [|ch k].
    { right. eexists. unfold try_with. erewrite stx_bind_ok by (by apply is_open_run). by erewrite stx_bind_raise by reflexivity. }
    left. destruct (delete_spec _ _ _ _ (ch :: k) Hh) as (t' & Hh' & _ & Hsf & E).
    pose proof (same_file_fields _ _ Hsf) as (_ & _ & Hcr & Hcl). exists (dbdb.set_tree t' d).
    split; [|split_and!; [done|by etransitivity|done]].
    unfold try_with. erewrite stx_bind_ok by (by apply is_open_run). erewrite stx_bind_ok by reflexivity.
    unfold dbdb.on_tree. rewrite (zoom_eq _ _ _ _ _ _ E). by destruct (kv_get (ch :: k) base).
  - left. by exists d.
  - destruct (bool_decide (op = _)); [right; by eexists|left; exists d]. by destruct (bool_decide (op = _)).
Qed.

Lemma effect_length (c : command V) base : kv_sorted base -> (length (effect c base) <= length base + 1)%nat.
Proof.
  intros Hs. destruct c as [k v|k| |op]; simpl; try lia.
  - destruct k as [|ch k], (encode v); try lia. rewrite kv_set_length by done. destruct (kv_get (ch :: k) base); lia.
  - pose proof (kv_del_length k base). destruct (kv_get k base); lia.
Qed.

Lemma effect_sorted (c : command V) base : kv_sorted base -> kv_sorted (effect c base).
Proof.
  intros Hs. destruct c as [k v|k| |op]; simpl; try done; [|by apply kv_del_sorted].
  destruct k as [|ch k], (encode v); try done. by apply kv_set_sorted.
Qed.

Lemma applied_index_run d m base kvs index p :
  handle (db_tree d) m base kvs -> is_open d -> encode (of_int index) = Ok p -> kv_get RAFT_APPLIED_KEY kvs = Some p ->
  exists d', kvmachine.get_applied_index d = (d', Ok index) /\ handle (db_tree d') m base kvs /\ is_open d'.
Proof.
  intros Hh Ho He Hk. destruct (get_spec _ _ _ _ RAFT_APPLIED_KEY Hh) as (t' & E & Hh' & Hsf). rewrite Hk in E.
  pose proof (same_file_fields _ _ Hsf) as (_ & _ & _ & Hcl). exists (dbdb.set_tree t' d). split; [|split; [done|by etransitivity]].
  destruct (int_stored index) as (q & Eq & Hq). rewrite He in Eq. injection Eq as <-.
  unfold kvmachine.get_applied_index, try_with.
  assert (dbdb.getitem RAFT_APPLIED_KEY d = (dbdb.set_tree t' d, Ok (of_int index))) as Eg.
  { unfold dbdb.getitem. erewrite stx_bind_ok by (by apply is_open_run). erewrite stx_bind_ok by reflexivity.
    erewrite stx_bind_ok by (apply zoom_eq; exact E). unfold lift_res. simpl. by rewrite Hq. }
  erewrite stx_bind_ok by exact Eg. unfold lift_res. by rewrite to_of_int.
Qed.

(** Before anything was applied. *)
Lemma no_index_run d m base kvs :
  handle (db_tree d) m base kvs -> is_open d -> kv_get RAFT_APPLIED_KEY kvs = None ->
  exists d', kvmachine.get_applied_index d = (d', Ok 0) /\ handle (db_tree d') m base kvs /\ is_open d'.
Proof.
  intros Hh Ho Hk. destruct (get_spec _ _ _ _ RAFT_APPLIED_KEY Hh) as (t' & E & Hh' & Hsf). rewrite Hk in E.
  pose proof (same_file_fields _ _ Hsf) as (_ & _ & _ & Hcl). exists (dbdb.set_tree t' d). split; [|split; [done|by etransitivity]].
  assert (dbdb.getitem RAFT_APPLIED_KEY d = (dbdb.set_tree t' d, Raise (KeyError RAFT_APPLIED_KEY))) as Eg.
  { unfold dbdb.getitem. erewrite stx_bind_ok by (by apply is_open_run). erewrite stx_bind_ok by reflexivity.
    by erewrite stx_bind_raise by (apply zoom_eq; exact E). }
  unfold kvmachine.get_applied_index, try_with. by erewrite stx_bind_raise by exact Eg.
Qed.

(** One application, on every branch: the command and the index are committed, or
    nothing is. *)
Lemma apply_run d m base (index : Z) (c : command V) (p : bytes) d' (r : res unit) :
  handle (db_tree d) m base base -> is_open d -> Z.of_nat (length base + 2) < 2 ^ 64 ->
  encode (of_int index) = Ok p -> kvmachine.apply index c d = (d', r) ->
  let new := kv_set RAFT_APPLIED_KEY p (effect c base) in
  match r with
  | Ok _ => exists m', handle (db_tree d') m' new new /\ is_open d'
  | Raise _ => opens (N := bnode) (disk.durable_bytes (_f (dbdb.the_storage d'))) m base
  end.
Proof.
  intros Hh Ho Hf He E new.
  assert (kv_sorted base) as Hs by (destruct Hh as [_ [Ht _] _ _ _]; by eapply ix_tree_sorted).
  unfold kvmachine.apply in E.
  destruct (command_run d m base c Hh Ho ltac:(lia)) as [(d1 & E1 & Hh1 & Ho1 & Hcr1)|(e & E1)].
  2:{ erewrite stx_bind_raise in E by exact E1. injection E as <- <-. by eapply handle_durable. }
  erewrite stx_bind_ok in E by exact E1. pose proof (effect_length c base Hs) as Hlen.
  pose proof (setitem_run d1 m base _ RAFT_APPLIED_KEY (of_int index) Hh1 Ho1 ltac:(lia)) as Hset. rewrite He in Hset.
  destruct Hset as (d2 & E2 & Hh2 & Ho2 & Hcr2). erewrite stx_bind_ok in E by exact E2.
  unfold dbdb.commit in E. erewrite stx_bind_ok in E by (by apply is_open_run). unfold dbdb.on_tree in E. fold new in Hh2.
  pose proof (fun t' r Ec => commit_open (db_tree d2) m base new t' r Hh2 Ec Ho2) as Hopen.
  destruct (commit_spec _ _ _ _ Hh2) as [(t3 & m' & E3 & Hh3 & _)|[(t3 & E3 & Hj & Hb)|(t3 & E3 & _ & Hop)]];
    rewrite (zoom_eq _ _ _ _ _ _ E3) in E; injection E as <- <-.
  - exists m'. split; [done|by apply Hopen in E3].
  - apply open_spec; [apply Hj|exact Hb|apply Hh2].
  - done.
Qed.

(** C31: applying a committed command is crash-safe and exactly-once.  If
    [KVStateMachine.apply] returns, the command's effect and the applied index
    are on disk together and the index reads back; if it raises at any point
    (a key or value the database refuses, a failing disk), the disk still holds
    the data and the index of the previous entry.  The two never disagree. *)
Theorem kv_apply_crash_safe d m base (index : Z) (c : command V) (p : bytes) d' (r : res unit) :
  handle (db_tree d) m base base -> is_open d -> Z.of_nat (length base + 2) < 2 ^ 64 ->
  encode (of_int index) = Ok p -> kvmachine.apply index c d = (d', r) ->
  let new := kv_set RAFT_APPLIED_KEY p (effect c base) in
  exists m', opens (N := bnode) (disk.durable_bytes (_f (dbdb.the_storage d'))) m' (match r with Ok _ => new | Raise _ => base end) /\
    (r = Ok tt -> handle (db_tree d') m' new new /\ (is_open d' -> (kvmachine.get_applied_index d').2 = Ok index)) /\
    kv_get RAFT_APPLIED_KEY new = Some p.
Proof.
  intros Hh Ho Hf He E new.
  assert (kv_sorted base) as Hs by (destruct Hh as [_ [Ht _] _ _ _]; by eapply ix_tree_sorted).
  assert (kv_get RAFT_APPLIED_KEY new = Some p) as Hget by (unfold new; rewrite kv_get_set by (by apply effect_sorted); by rewrite decide_True).
  pose proof (apply_run d m base index c p d' r Hh Ho Hf He E) as Hr. cbv zeta in Hr. fold new in Hr. destruct r as [[]|e].
  - destruct Hr as (m' & Hh' & Ho'). exists m'. split_and!; [by eapply handle_durable| |done]. intros _. split; [done|]. intros _.
    destruct (applied_index_run d' m' new new index p Hh' Ho' He Hget) as (d2 & -> & _). done.
  - exists m. split_and!; done.
Qed.

(** ** As a machine *)

Definition int_payload (z : Z) : bytes := match encode (of_int z : V) with Ok p => p | Raise _ => [] end.

Lemma int_payload_ok z : encode (of_int z) = Ok (int_payload z).
Proof. unfold int_payload. destruct (int_stored z) as (p & E & _). by rewrite E. Qed.

(** The bindings of a database that was fed [l]. *)
Definition kv_of (l : list (Z * command V)) : kvlist :=
  foldl (fun kvs ic => kv_set RAFT_APPLIED_KEY (int_payload ic.1) (effect ic.2 kvs)) [] l.

Lemma kv_of_snoc l ic : kv_of (l ++ [ic]) = kv_set RAFT_APPLIED_KEY (int_payload ic.1) (effect ic.2 (kv_of l)).
Proof. unfold kv_of. by rewrite foldl_app. Qed.

Lemma kv_of_sorted l : kv_sorted (kv_of l).
Proof. induction l as [|ic l IH] using rev_ind; [constructor|]. rewrite kv_of_snoc. by apply kv_set_sorted, effect_sorted. Qed.

Lemma kv_of_length l : (length (kv_of l) <= length l + length l)%nat.
Proof.
  induction l as [|ic l IH] using rev_ind; [done|]. rewrite kv_of_snoc, length_app. pose proof (kv_of_sorted l) as Hs.
  pose proof (effect_length ic.2 _ Hs). rewrite kv_set_length by (by apply effect_sorted). destruct (kv_get _ _); simpl; lia.
Qed.

(** An open handle on a database that was fed [l], in this order from index 1 on. *)
Definition kv_fed (l : list (Z * command V)) d : Prop :=
  (forall l' ic, l = l' ++ [ic] -> ic.1 = Z.of_nat (length l)) /\
  (Z.of_nat (length l) < 2 ^ 62 -> exists m, handle (db_tree d) m (kv_of l) (kv_of l) /\ is_open d).

#[export] Instance kv_rel : MachineRel V (DBDB bnode).
Proof.
  refine {| capacity := 2 ^ 62; fed := kv_fed |}.
  - intros l d c d' [_ Hd] E. split; [intros l' ic [-> [= <-]]%app_inj_tail; rewrite length_app; simpl; lia|].
    rewrite length_app. simpl. intros Hl. destruct Hd as (m & Hh & Ho); [lia|]. pose proof (kv_of_length l).
    rewrite kv_of_snoc. exact (apply_run d m (kv_of l) _ c _ d' _ Hh Ho ltac:(lia) (int_payload_ok _) E).
  - intros l d d' a [Hi Hd] Hl E. destruct (Hd Hl) as (m & Hh & Ho).
    assert (exists d2, kvmachine.get_applied_index d = (d2, Ok (Z.of_nat (length l))) /\ handle (db_tree d2) m (kv_of l) (kv_of l) /\ is_open d2) as (d2 & E2 & Hh2 & Ho2).
    { destruct l as [|ic l _] using rev_ind; [by apply (no_index_run d m)|]. specialize (Hi l ic eq_refl).
      eapply applied_index_run; [done|done|apply int_payload_ok|]. rewrite kv_of_snoc, kv_get_set by (apply effect_sorted, kv_of_sorted).
      by rewrite decide_True, Hi. }
    simpl in E. rewrite E2 in E. injection E as <- <-. split; [done|]. split; [done|]. intros _. by exists m.
Defined.

End kv.
