(* ===== verification/RaftSimProps.v ===== *)
(** What the simulated cluster shows its tests, for every sequence of steps,
    crashes, restarts, partitions and writes; and concrete runs of it. *)

From S2P Require Import Prelude PyBase Struct SimDisk Locking Physical PhysicalFacts Recovery StorageProps KeyList Logical Pickle Index.
From S2P Require Import BPlusTree BPlusIndex Engine Database RaftLog RaftNode RaftAbstract RaftHistory RaftSteps RaftInvariant RaftRefine.
From S2P Require Import RaftHandlers RaftCluster RaftMachines RaftProps RaftSim RaftKV.

(** * Committed commands *)

Section sim.
Context `{RngSeed} {V : Type}.
Implicit Types (s : SimCluster V) (n : RaftNode V (Recorder V)).

Lemma cmds_prefix (l l' : list (LogEntry V)) : l `prefix_of` l' -> cmd <$> l `prefix_of` cmd <$> l'.
Proof. intros [r ->]. rewrite fmap_app. by exists (cmd <$> r). Qed.

Lemma committed_commands_spec s (i : Z) n :
  cl_nodes s !! i = Some n -> 0 <= commit_index n <= raftlog.last_index (log n) ->
  simcluster.committed_commands s i = Ok (cmd <$> take (Z.to_nat (commit_index n)) (entries (log n))).
Proof.
  intros Hn Hc. unfold simcluster.committed_commands. rewrite Hn. unfold raftlog.last_index in Hc.
  set (k := Z.to_nat (commit_index n)). assert (k <= length (entries (log n)))%nat as Hk by lia. clearbody k. clear Hc.
  assert (forall j l, (j + length l <= length (entries (log n)))%nat -> l = seq j (length l) ->
    mapM (fun k => x ← node.py_res (raftlog.get (log n) k); Ok (cmd x)) ((fun k => Z.of_nat (S k)) <$> l)
      = Ok (cmd <$> take (length l) (drop j (entries (log n)))) :> result raft_exn _) as Hl.
  { intros j l. revert j. induction l as [|a l IH]; intros j Hj El; [done|]. simpl in El. injection El as -> El. simpl in Hj.
    destruct (lookup_lt_is_Some_2 (entries (log n)) j) as [x Hx]; [lia|].
    assert (raftlog.get (log n) (Z.of_nat (S j)) = Ok x) as Eg.
    { apply py_index_in; [lia|]. by replace (Z.to_nat (Z.of_nat (S j) - 1)) with j by lia. }
    rewrite fmap_cons. simpl mapM. rewrite Eg. specialize (IH (S j) ltac:(lia) El). simpl in IH |- *. rewrite IH.
    by rewrite (drop_S _ _ _ Hx). }
  rewrite (Hl 0%nat); rewrite length_seq; [by rewrite drop_0|lia|done].
Qed.

(** C24: every run of the simulator is a run of the unreliable network.  Whatever
    sequence of steps, crashes, restarts, partitions and client writes a test
    performs, the nodes are those of a reachable state of the network in which
    every message in flight has been sent; so everything proved of the network
    holds of the simulator. *)
Theorem sim_refines_network (l : list simcluster.action) (size : nat) (seed : Z) (conf : RaftConfig) (latency : Z) :
  let s0 := simcluster.init (V := V) size seed conf latency in
  initial (cl_ids s0) (world_of s0) /\
  exists w, rtc wstep (world_of s0) w /\ nodes w = cl_nodes (simcluster.run l s0) /\
    forall x, x ∈ inflight (simcluster.run l s0) -> x.2 ∈ sent w.
Proof.
  intros s0. split; [apply init_initial|].
  destruct (run_reaches l _ _ (init_explains size seed conf latency)) as (w & Hr & [En Ei _ _] & _). by exists w.
Qed.

(** The committed histories the tests compare never diverge.  At any point of
    any simulated run, [committed_commands] of two nodes returns and one list is
    a prefix of the other, and no two nodes lead the same term. *)
Theorem sim_committed_agree (l : list simcluster.action) (size : nat) (seed : Z) (conf : RaftConfig) (latency : Z) (i j : nat) :
  (i < size)%nat -> (j < size)%nat ->
  let s := simcluster.run l (simcluster.init (V := V) size seed conf latency) in
  exists a b, simcluster.committed_commands s (Z.of_nat i) = Ok a /\ simcluster.committed_commands s (Z.of_nat j) = Ok b /\
    (a `prefix_of` b \/ b `prefix_of` a) /\
    forall n n', n ∈ simcluster.leaders s -> n' ∈ simcluster.leaders s -> current_term n = current_term n' -> node_id n = node_id n'.
Proof.
  intros Hi Hj s. set (s0 := simcluster.init (V := V) size seed conf latency).
  destruct (run_reaches l _ _ (init_explains size seed conf latency)) as (w & Hr & [En _ _ [g Hg]] & Ec). fold s0 in Hr, En, Hg, Ec.
  change (simcluster.run l s0) with s in En, Hg, Ec. clearbody s.
  assert (forall k, (k < size)%nat -> exists n c, nodes w !! Z.of_nat k = Some n /\ settled (list_to_set (cl_ids s)) g (Z.of_nat k) n c) as Hnode.
  { intros k Hk. assert (Z.of_nat k ∈ dom (nodes w)) as [n Hn]%elem_of_dom.
    { rewrite (wi_dom _ _ _ Hg), Ec. apply elem_of_list_to_set, list_elem_of_fmap. exists k. split; [done|]. apply elem_of_seq. lia. }
    destruct (wi_nodes _ _ _ Hg _ _ Hn) as [c Hc]. eauto. }
  assert (forall k n c, settled (list_to_set (cl_ids s)) g k n c -> 0 <= commit_index n <= raftlog.last_index (log n)) as Hcom.
  { intros k n c Hc. destruct (settled_covered _ _ _ _ _ Hc) as (_ & Hl & _).
    destruct Hc as ([_ _ [_ _ _ _ _ _ C A] _ _ _ _ _ _ _] & _). unfold raftlog.last_index, commit_point in *. lia. }
  destruct (Hnode i Hi) as (n & c & Hn & Hc), (Hnode j Hj) as (n' & c' & Hn' & Hc').
  pose proof (Hcom _ _ _ Hc) as Hb. pose proof (Hcom _ _ _ Hc') as Hb'.
  rewrite En in Hn, Hn'. eexists _, _. split_and!; [by apply committed_commands_spec|by apply committed_commands_spec|..].
  - destruct (settled_covered _ _ _ _ _ Hc) as (Cv & _ & _), (settled_covered _ _ _ _ _ Hc') as (Cv' & _ & _).
    pose proof (covered_agree _ g (wi_ghost _ _ _ Hg) _ _ _ _ _ _ Cv Cv') as E.
    destruct (Z.le_ge_cases (commit_index n) (commit_index n')); [left|right]; apply cmds_prefix.
    + rewrite (take_le_eq _ _ (Z.to_nat (commit_index n)) (Nat.min (commit_point n) (commit_point n')) ltac:(unfold commit_point; lia) E). apply take_prefix_le. lia.
    + rewrite <- (take_le_eq _ _ (Z.to_nat (commit_index n')) (Nat.min (commit_point n) (commit_point n')) ltac:(unfold commit_point; lia) E). apply take_prefix_le. lia.
  - assert (forall m, m ∈ simcluster.leaders s -> nodes w !! node_id m = Some m /\ role m = LEADER) as Hlead.
    { intros m [[Hl _] Hm]%list_elem_of_filter. apply list_elem_of_omap in Hm as (k & _ & Hm). rewrite <- En in Hm.
      destruct (wi_nodes _ _ _ Hg _ _ Hm) as [cm ([_ _ _ Hid _ _ _ _ _ _] & _)]. rewrite Hid. split; [done|].
      unfold node.is_leader in Hl. by apply bool_decide_eq_true in Hl. }
    intros m m' Hm Hm' Ht. apply Hlead in Hm as [Hm Hl], Hm' as [Hm' Hl'].
    by apply (one_leader (list_to_set (cl_ids s)) w g _ _ m m').
Qed.

End sim.

(** * Concrete runs *)

Section witnesses.

(** A generator whose draws depend on the seed only. *)
#[local] Instance steady_rng : Rng := {| rng := Z; randint lo hi gen := (lo + gen mod (hi - lo + 1), gen) |}.
#[local] Instance steady_seed : RngSeed := fun seed => seed.

#[local] Instance steady_laws : RngLaws.
Proof.
  constructor. intros lo hi gen Hle. simpl. pose proof (Z.mod_pos_bound gen (hi - lo + 1)). lia.
Qed.

Definition cluster0 : SimCluster Z := simcluster.init 3 1 default_config 1.
Definition net0 : world Z (Recorder Z) := world_of cluster0.

(** Three nodes elect a leader and replicate a write. *)
Definition script1 : list (simcluster.action (V := Z)) :=
  [simcluster.Step 20; simcluster.ClientWrite (CmdSet (str "k") 7); simcluster.Step 8].

(** Then the leader crashes, another one is elected and takes a write, and the
    old one comes back. *)
Definition script2 : list (simcluster.action (V := Z)) :=
  [simcluster.Crash 0; simcluster.Step 30; simcluster.ClientWrite (CmdDel (str "k")); simcluster.Step 8;
   simcluster.Restart 0; simcluster.Step 20].

Definition cluster1 : SimCluster Z := simcluster.run script1 cluster0.
Definition cluster2 : SimCluster Z := simcluster.run script2 cluster1.
Definition node_of (s : SimCluster Z) (i : Z) : RaftNode Z (Recorder Z) :=
  default (simcluster.create_node [] default_config 0 0 recorder.init (raftlog.init None) 0) (cl_nodes s !! i).

Lemma net0_initial : initial [0; 1; 2] net0.
Proof. exact (init_initial 3 1 default_config 1). Qed.

(** The states of the network the two scripts reach. *)
Lemma nets : exists w1 w2, rtc wstep net0 w1 /\ rtc wstep w1 w2 /\ nodes w1 = cl_nodes cluster1 /\ nodes w2 = cl_nodes cluster2.
Proof.
  destruct (run_reaches script1 net0 cluster0 (init_explains 3 1 default_config 1)) as (w1 & H1 & Hex1 & _).
  destruct (run_reaches script2 w1 cluster1 Hex1) as (w2 & H2 & Hex2 & _).
  exists w1, w2. split_and!; [done|done|apply Hex1|apply Hex2].
Qed.

Lemma node1_0 : cl_nodes cluster1 !! 0 = Some (node_of cluster1 0).
Proof. vm_compute. reflexivity. Qed.
Lemma node1_1 : cl_nodes cluster1 !! 1 = Some (node_of cluster1 1).
Proof. vm_compute. reflexivity. Qed.
Lemma node2_0 : cl_nodes cluster2 !! 0 = Some (node_of cluster2 0).
Proof. vm_compute. reflexivity. Qed.
Lemma node2_1 : cl_nodes cluster2 !! 1 = Some (node_of cluster2 1).
Proof. vm_compute. reflexivity. Qed.

(** Node 0 leads term 1; no other node of that state does. *)
Lemma election_safety_witness : exists w, nodes w = cl_nodes cluster1 /\ role (node_of cluster1 0) = LEADER /\
  forall j n, nodes w !! j = Some n -> role n = LEADER -> current_term n = 1 -> 0 = j.
Proof.
  destruct nets as (w1 & _ & H1 & _ & E1 & _). exists w1. split; [exact E1|]. split; [vm_compute; reflexivity|].
  intros j n Hn Hl Ht.
  apply (raft_election_safety [0; 1; 2] net0 w1 0 j (node_of cluster1 0) n net0_initial H1); try assumption.
  - rewrite E1. exact node1_0.
  - vm_compute. reflexivity.
  - rewrite Ht. vm_compute. reflexivity.
Defined.

Lemma log_matching_witness : take 2 (entries (log (node_of cluster1 0))) = take 2 (entries (log (node_of cluster1 1))).
Proof.
  destruct nets as (w1 & _ & H1 & _ & E1 & _).
  apply (raft_log_matching [0; 1; 2] net0 w1 0 1 (node_of cluster1 0) (node_of cluster1 1) 1
    (mkEntry 1 (CmdSet (str "k") 7)) (mkEntry 1 (CmdSet (str "k") 7)) net0_initial H1).
  - rewrite E1. exact node1_0.
  - rewrite E1. exact node1_1.
  - vm_compute. reflexivity.
  - vm_compute. reflexivity.
  - reflexivity.
Defined.

(** The leader of term 2 has what was committed in term 1. *)
Lemma leader_completeness_witness :
  take (Z.to_nat (commit_index (node_of cluster1 0))) (entries (log (node_of cluster1 0))) `prefix_of` entries (log (node_of cluster2 1)) /\
  commit_index (node_of cluster1 0) = 2.
Proof.
  destruct nets as (w1 & w2 & H1 & H2 & E1 & E2). split; [|vm_compute; reflexivity].
  apply (raft_leader_completeness [0; 1; 2] net0 w1 w2 0 1 (node_of cluster1 0) (node_of cluster2 1) net0_initial H1 H2).
  - rewrite E1. exact node1_0.
  - rewrite E2. exact node2_1.
  - vm_compute. reflexivity.
  - vm_compute. congruence.
Defined.

Lemma state_machine_safety_witness : exists x,
  entries (log (node_of cluster1 0)) !! 1%nat = Some x /\ entries (log (node_of cluster2 1)) !! 1%nat = Some x.
Proof.
  destruct nets as (w1 & w2 & H1 & H2 & E1 & E2).
  apply (raft_state_machine_safety [0; 1; 2] net0 w1 w2 0 1 (node_of cluster1 0) (node_of cluster2 1) 1 net0_initial H1 H2).
  - rewrite E1. exact node1_0.
  - rewrite E2. exact node2_1.
  - vm_compute. reflexivity.
  - vm_compute. reflexivity.
Defined.

(** Node 0 was restarted in between. *)
Lemma committed_durable_witness : exists (w : world Z (Recorder Z)) n',
  nodes w !! 0 = Some n' /\
  take (Z.to_nat (commit_index (node_of cluster1 0))) (entries (log (node_of cluster1 0))) `prefix_of` entries (log n').
Proof.
  destruct nets as (w1 & w2 & H1 & H2 & E1 & E2).
  destruct (raft_committed_durable [0; 1; 2] net0 w1 w2 0 (node_of cluster1 0) net0_initial H1 H2) as (n' & Hn' & _ & Hp & _).
  - rewrite E1. exact node1_0.
  - exists w2, n'. split; assumption.
Defined.

Lemma applies_once_witness :
  (applied (machine (node_of cluster1 0)) `prefix_of` applied (machine (node_of cluster2 0)) \/
   applied (machine (node_of cluster2 0)) `prefix_of` applied (machine (node_of cluster1 0))) /\
  applied (machine (node_of cluster2 0)) = [(1, CmdNoop); (2, CmdSet (str "k") 7); (3, CmdNoop); (4, CmdDel (str "k"))].
Proof.
  destruct nets as (w1 & w2 & H1 & H2 & E1 & E2). split; [|vm_compute; reflexivity].
  destruct (raft_applies_once [0; 1; 2] net0 w1 w2 0 0 (node_of cluster1 0) (node_of cluster2 0) net0_initial H1 H2) as (_ & Hp & _).
  - rewrite E1. exact node1_0.
  - rewrite E2. exact node2_0.
  - exact Hp.
Defined.

Lemma committed_agree_witness : exists a b,
  simcluster.committed_commands cluster1 0 = Ok a /\ simcluster.committed_commands cluster1 2 = Ok b /\ (a `prefix_of` b \/ b `prefix_of` a).
Proof.
  destruct (sim_committed_agree (V := Z) script1 3 1 default_config 1 0 2) as (a & b & Ha & Hb & Hp & _); [lia|lia|].
  exists a, b. split; [exact Ha|]. split; [exact Hb|exact Hp].
Defined.

Lemma append_from_witness : exists l', raftlog.append_from 1 [mkEntry 2 CmdNoop] (mkLog [mkEntry 1 CmdNoop; mkEntry 1 (CmdSet (str "k") 7)] 1 None None) = (l', Ok tt) /\
  raftlog.append_from 1 [mkEntry 2 CmdNoop] l' = (l', Ok tt).
Proof.
  destruct (append_from_idempotent (mkLog [mkEntry 1 CmdNoop; mkEntry 1 (CmdSet (str "k") 7)] 1 None None) 1 [mkEntry 2 CmdNoop])
    as (l' & E & _ & _ & E').
  - vm_compute. split; congruence.
  - exists l'. split; assumption.
Defined.

Lemma save_load_witness :
  raftlog.init (_file (raftlog.save 3 (Some 1) (mkLog [mkEntry 1 (CmdSet (str "k") 7)] 1 None (Some None)))) =
  raftlog.save 3 (Some 1) (mkLog [mkEntry 1 (CmdSet (str "k") 7)] 1 None (Some None)).
Proof. apply (raftlog_save_load _ None 3 (Some 1)). reflexivity. Defined.

(** A follower whose timer was just set. *)
Definition waiting : RaftNode Z (Recorder Z) := (node._reset_election_timer (node_of cluster1 1)).1.

Lemma election_starts_witness : exists k n2, 10 <= Z.of_nat (S k) <= 20 /\
  node.tick (ticks k waiting) = (n2, Ok (requests n2)) /\ current_term n2 = 2.
Proof.
  destruct (election_starts (node_of cluster1 1) waiting) as (k & Hk & _ & n2 & E & T & _).
  - vm_compute. split; congruence.
  - vm_compute. congruence.
  - vm_compute. congruence.
  - reflexivity.
  - exists k, n2. split; [exact Hk|]. split; [exact E|]. rewrite T. vm_compute. reflexivity.
Defined.

End witnesses.

(** * A database as state machine *)

Section kv_witness.
#[local] Instance kv_pickle : Pickle := bit_pickle.
#[local] Hint Extern 0 (Index bnode) => exact (bplus_index 3) : typeclass_instances.

(** Integers as values, one byte per bit. *)
Definition int_bytes (z : Z) : bytes := bits_of (countable.encode z).
Definition bytes_int (b : bytes) : res Z :=
  match countable.decode (of_bits b) with Some z => Ok z | None => Raise ValueError end.
Lemma bytes_int_bytes z : bytes_int (int_bytes z) = Ok z.
Proof. unfold bytes_int, int_bytes. by rewrite of_bits_of, countable.decode_encode. Qed.

#[local] Instance int_codec : Codec Z := {| encode z := Ok (int_bytes z); decode := bytes_int |}.
#[local] Instance int_value : IntValue Z := {| of_int z := z; to_int z := Ok z |}.
#[local] Instance int_laws : IntLaws Z.
Proof. constructor; [done|]. intros z. exists (int_bytes z). split; [done|apply bytes_int_bytes]. Qed.

Lemma order3 : (3 <= 3)%nat.
Proof. lia. Qed.
#[local] Hint Extern 0 (IndexSpec bnode) => exact (bplus_spec 3 order3) : typeclass_instances.

Definition kv_tree : Tree bnode := mkTree fresh (Ref None 0) 0.
Definition kv_db : DBDB bnode := mkDBDB (Some (str "db")) kv_tree 0.

Lemma kv_handle : handle kv_tree meta0 [] [].
Proof.
  split; try done.
  - exact fresh_journaled.
  - split; [exact (ix_tree_null (N := bnode) _)|done].
  - split; [exact (ix_tree_null (N := bnode) _)|done].
Qed.

Lemma kv_apply_witness : exists m' kvs,
  opens (N := bnode) (disk.durable_bytes (_f (dbdb.the_storage (kvmachine.apply 5 (CmdSet (str "k") 7) kv_db).1))) m' kvs.
Proof.
  destruct (kvmachine.apply 5 (CmdSet (str "k") 7) kv_db) as [d' r] eqn:E. cbn [fst].
  destruct (kv_apply_crash_safe 3 order3 kv_db meta0 [] 5 (CmdSet (str "k") 7) (int_bytes 5) d' r) as (m' & Ho & _).
  - exact kv_handle.
  - reflexivity.
  - reflexivity.
  - reflexivity.
  - exact E.
  - eexists m', _. exact Ho.
Defined.

End kv_witness.
