(* ===== verification/Resp.v ===== *)
(** The RESP protocol: [src/imustore/resp.py].

    A connection's input is the sequence of bytes the peer sends before it closes;
    it is the state of the readers, which consume it from the front.
    [asyncio.StreamReader] refuses a line longer than its limit of 64 KiB. *)

From Stdlib Require Import Strings.Byte Strings.String.
From S2P Require Import Prelude PyBase Struct SimDisk Text.

Definition CRLF : bytes := [x0d; x0a].

(** * [asyncio.StreamReader] *)

Definition LIMIT : Z := 65536.

(** The text before the first CRLF, and what follows it. *)
Fixpoint split_crlf (b : bytes) : option (bytes * bytes) :=
  match b with
  | [] => None
  | x :: rest =>
      if bool_decide (x = x0d /\ head rest = Some x0a) then Some ([], drop 1 rest)
      else '(line, tail) ← split_crlf rest; Some (x :: line, tail)
  end.

(** [await reader.readuntil(CRLF)] *)
Definition readuntil : St bytes bytes :=
  s ← get_st;
  match split_crlf s with
  | Some (line, rest) =>
      if LIMIT <? zlen line then raise LimitOverrunError
      else put_st rest ;; mret (line ++ CRLF)
  | None =>
      if LIMIT <? zlen s - 1 then raise LimitOverrunError
      else put_st [] ;; raise IncompleteReadError
  end.

(** [await reader.readexactly(n)] *)
Definition readexactly (n : Z) : St bytes bytes :=
  if n <? 0 then raise ValueError
  else
    s ← get_st;
    if zlen s <? n then put_st [] ;; raise IncompleteReadError
    else put_st (drop (Z.to_nat n) s) ;; mret (take (Z.to_nat n) s).

(** * Values *)

(** The Python values [encode] distinguishes; [ROther] is one of any other type. *)
Inductive resp_value : Type :=
| RNone
| RSimpleString (s : pystr)
| RError (s : pystr)
| RBool (b : bool)
| RInt (n : Z)
| RBytes (b : bytes)
| RStr (s : pystr)
| RList (l : list resp_value)
| ROther.

Definition bulk (raw : bytes) : bytes := lit "$" ++ dec (zlen raw) ++ CRLF ++ raw ++ CRLF.
#[global] Arguments bulk raw : simpl never.

Module resp.

Fixpoint encode (v : resp_value) : res bytes :=
  match v with
  | RNone => Ok (lit "$-1" ++ CRLF)
  | RSimpleString s => raw ← utf8_encode s; Ok (lit "+" ++ raw ++ CRLF)
  | RError s => raw ← utf8_encode s; Ok (lit "-" ++ raw ++ CRLF)
  | RBool b => Ok (lit ":" ++ (if b then lit "1" else lit "0") ++ CRLF)
  | RInt n => Ok (lit ":" ++ dec n ++ CRLF)
  | RBytes raw => Ok (bulk raw)
  | RStr s => raw ← utf8_encode s; Ok (bulk raw)
  | RList l =>
      items ← (fix encode_all (l : list resp_value) : res bytes :=
                 match l with
                 | [] => Ok []
                 | v :: l => b ← encode v; bs ← encode_all l; Ok (b ++ bs)
                 end) l;
      Ok (lit "*" ++ dec (Z.of_nat (length l)) ++ CRLF ++ items)
  | ROther => Raise TypeError
  end.

(** [b"".join(encode(item) for item in value)] *)
Fixpoint encode_all (l : list resp_value) : res bytes :=
  match l with
  | [] => Ok []
  | v :: l => b ← encode v; bs ← encode_all l; Ok (b ++ bs)
  end.

(** An argument of a command: [str] or [bytes]. *)
Definition arg_bytes (arg : pystr + bytes) : res bytes :=
  match arg with inl s => utf8_encode s | inr b => Ok b end.

Fixpoint encode_args (args : list (pystr + bytes)) : res bytes :=
  match args with
  | [] => Ok []
  | a :: args => raw ← arg_bytes a; rest ← encode_args args; Ok (bulk raw ++ rest)
  end.

Definition encode_command (args : list (pystr + bytes)) : res bytes :=
  rest ← encode_args args;
  Ok (lit "*" ++ dec (Z.of_nat (length args)) ++ CRLF ++ rest).

(** ** Requests *)

(** [line[:-2]] *)
Definition chop (line : bytes) : bytes := py_upto line (-2).

(** [b.split()] *)
Fixpoint split_words (word : bytes) (b : bytes) : list bytes :=
  match b with
  | [] => match word with [] => [] | _ => [word] end
  | x :: b =>
      if is_space x then match word with [] => split_words [] b | _ => word :: split_words [] b end
      else split_words (word ++ [x]) b
  end.

(** The [while True] loop: the first line that is not blank, [None] at the end.
    Every round reads at least two bytes. *)
Fixpoint first_line (fuel : nat) : St bytes (option bytes) :=
  match fuel with
  | O => raise RecursionError
  | S fuel =>
      line ← try_with (line ← readuntil; mret (Some line))
               (fun e => match e with IncompleteReadError => mret None | e => raise e end);
      match line with
      | None => mret None
      | Some line => match chop line with [] => first_line fuel | line => mret (Some line) end
      end
  end.

(** One round of the argument loop. *)
Definition read_arg : St bytes bytes :=
  header ← readuntil;
  let header := chop header in
  if bool_decide (take 1 header = lit "$") then
    length ← lift_res (py_int (drop 1 header));
    data ← readexactly length;
    readexactly (zlen CRLF) ;;
    mret data
  else raise (ProtocolError (str "expected bulk string, got " ++ repr_bytes header)).

Fixpoint read_args (count : nat) : St bytes (list bytes) :=
  match count with
  | O => mret []
  | S count => data ← read_arg; args ← read_args count; mret (data :: args)
  end.

Definition read_command : St bytes (option (list bytes)) :=
  s ← get_st;
  line ← first_line (S (length s));
  match line with
  | None => mret None
  | Some line =>
      if bool_decide (take 1 line = lit "*") then
        count ← (match py_int (drop 1 line) with
                 | Raise ValueError => raise (ProtocolError (str "bad multibulk count: " ++ repr_bytes line))
                 | r => lift_res r
                 end);
        if count <=? 0 then mret (Some [])
        else
          try_with (args ← read_args (Z.to_nat count); mret (Some args))
            (fun e => match e with IncompleteReadError => mret None | e => raise e end)
      else mret (Some (split_words [] line))
  end.

(** ** Replies *)

(** [line[1:-2]] *)
Definition reply_rest (line : bytes) : bytes := py_slice line 1 (-2).

Fixpoint read_reply (fuel : nat) : St bytes resp_value :=
  match fuel with
  | O => raise RecursionError
  | S fuel =>
      line ← readuntil;
      let kind := take 1 line in
      let rest := reply_rest line in
      if bool_decide (kind = lit "+") then s ← lift_res (utf8_decode rest); mret (RSimpleString s)
      else if bool_decide (kind = lit "-") then s ← lift_res (utf8_decode rest); mret (RError s)
      else if bool_decide (kind = lit ":") then n ← lift_res (py_int rest); mret (RInt n)
      else if bool_decide (kind = lit "$") then
        length ← lift_res (py_int rest);
        if length =? -1 then mret RNone
        else
          data ← readexactly length;
          readexactly (zlen CRLF) ;;
          s ← lift_res (utf8_decode data);
          mret (RStr s)
      else if bool_decide (kind = lit "*") then
        count ← lift_res (py_int rest);
        if count =? -1 then mret RNone
        else
          l ← (fix read_replies (n : nat) : St bytes (list resp_value) :=
                 match n with
                 | O => mret []
                 | S n => v ← read_reply fuel; l ← read_replies n; mret (v :: l)
                 end) (Z.to_nat count);
          mret (RList l)
      else raise (ProtocolError (str "unknown reply type: " ++ repr_bytes line))
  end.

(** [[await read_reply(reader) for _ in range(n)]] *)
Definition read_replies (fuel : nat) : nat -> St bytes (list resp_value) :=
  fix read_replies (n : nat) : St bytes (list resp_value) :=
    match n with
    | O => mret []
    | S n => v ← read_reply fuel; l ← read_replies n; mret (v :: l)
    end.

End resp.
