(* ===== verification/RespProps.v ===== *)
(** Round trips of the RESP codec. *)

From Stdlib Require Import Strings.Byte Strings.String.
From S2P Require Import Prelude PyBase Struct SimDisk Text Resp.

(** Lengths Python can represent ([sys.maxsize]). *)
Definition MAXSIZE : Z := 2 ^ 63 - 1.

Lemma Ok_inj {A} (a b : A) : Ok a = Ok b :> res A -> a = b.
Proof. congruence. Qed.

(** * Lines *)

(** A text that contains no CRLF. *)
Abbreviation one_line b := (split_crlf b = None).

Lemma split_crlf_line line rest : one_line line -> split_crlf (line ++ CRLF ++ rest) = Some (line, rest).
Proof.
  induction line as [|x line IH]; intros Hn; [done|]. simpl in Hn |- *. case_bool_decide as Hx; [done|].
  destruct (split_crlf line) as [[? ?]|] eqn:E; [done|]. rewrite (IH eq_refl : split_crlf (line ++ x0d :: x0a :: rest) = _).
  rewrite bool_decide_false; [done|]. intros [-> Hh]. destruct line as [|y line]; [done|]. by apply Hx.
Qed.

Lemma one_line_no_cr b : x0d ∉ b -> one_line b.
Proof.
  induction b as [|x b IH]; [done|]. intros Hn. apply not_elem_of_cons in Hn as [Hx Hn]. simpl.
  rewrite bool_decide_false by naive_solver. by rewrite IH.
Qed.

Lemma dec_no_cr z : x0d ∉ dec z.
Proof. intros Hx. pose proof (proj1 (Forall_forall _ _) (dec_not_space z) _ Hx). done. Qed.

Lemma readuntil_line line rest :
  one_line line -> zlen line <= LIMIT -> readuntil (line ++ CRLF ++ rest) = (rest, Ok (line ++ CRLF)).
Proof.
  intros Hl Hz. unfold readuntil. erewrite stx_bind_ok by reflexivity. rewrite split_crlf_line by done.
  by rewrite (proj2 (Z.ltb_ge _ _)) by lia.
Qed.

(** A line that is a marker followed by a number. *)
Lemma readuntil_number (mark : byte) z rest :
  mark <> x0d -> Z.abs z < 2 ^ 63 ->
  readuntil ((mark :: dec z) ++ CRLF ++ rest) = (rest, Ok ((mark :: dec z) ++ CRLF)).
Proof.
  intros Hm Hz. apply readuntil_line.
  - apply one_line_no_cr. apply not_elem_of_cons. split; [done|apply dec_no_cr].
  - pose proof (dec_length 63 z Hz). unfold zlen, LIMIT. simpl. lia.
Qed.

Lemma readexactly_app a rest : readexactly (zlen a) (a ++ rest) = (rest, Ok a).
Proof.
  unfold readexactly, zlen. rewrite (proj2 (Z.ltb_ge _ _)) by lia. erewrite stx_bind_ok by reflexivity.
  rewrite (proj2 (Z.ltb_ge _ _)) by (rewrite length_app; lia). run.
  by rewrite Nat2Z.id, drop_app_length, take_app_length.
Qed.

Lemma readexactly_crlf rest : readexactly (zlen CRLF) (CRLF ++ rest) = (rest, Ok CRLF).
Proof. apply readexactly_app. Qed.

Lemma chop_line line : resp.chop (line ++ CRLF) = line.
Proof.
  unfold resp.chop, py_upto, py_bound. rewrite length_app. simpl.
  replace (Z.to_nat (Z.max 0 (-2 + Z.of_nat (length line + 2)))) with (length line) by lia. apply take_app_length.
Qed.

Lemma reply_rest_line mark line : resp.reply_rest ((mark :: line) ++ CRLF) = line.
Proof.
  unfold resp.reply_rest, py_slice, py_bound. rewrite length_app. simpl.
  replace (Z.to_nat (1 `min` Z.of_nat (S (length line + 2)))) with 1%nat by lia. cbn [drop].
  replace (_ - _)%nat with (length line) by lia. apply take_app_length.
Qed.

(** * Requests *)

Lemma bulk_split raw rest : bulk raw ++ rest = (x24 :: dec (zlen raw)) ++ CRLF ++ raw ++ CRLF ++ rest.
Proof. unfold bulk. change (lit "$") with [x24]. rewrite <- !app_assoc. done. Qed.

Lemma zlen_small {A} (l : list A) : zlen l <= MAXSIZE -> Z.abs (zlen l) < 2 ^ 63.
Proof. unfold MAXSIZE, zlen. lia. Qed.

Lemma read_arg_bulk raw rest : zlen raw <= MAXSIZE -> resp.read_arg (bulk raw ++ rest) = (rest, Ok raw).
Proof.
  intros Hz. rewrite bulk_split. unfold resp.read_arg.
  erewrite stx_bind_ok by (apply readuntil_number; [done|by apply zlen_small]). cbv zeta. rewrite chop_line.
  change (take 1 (x24 :: dec (zlen raw))) with (lit "$"). rewrite bool_decide_true by done.
  change (drop 1 (x24 :: dec (zlen raw))) with (dec (zlen raw)). rewrite py_int_dec.
  erewrite stx_bind_ok by reflexivity. erewrite stx_bind_ok by apply readexactly_app.
  by erewrite stx_bind_ok by apply readexactly_crlf.
Qed.

Lemma read_args_encode args b raws rest :
  resp.encode_args args = Ok b -> mapM resp.arg_bytes args = Ok raws -> Forall (fun r => zlen r <= MAXSIZE) raws ->
  resp.read_args (length args) (b ++ rest) = (rest, Ok raws).
Proof.
  revert b raws. induction args as [|a args IH]; intros b raws Hb Hr Hz.
  { simpl in *. injection Hb as <-. by injection Hr as <-. }
  cbn [resp.encode_args mapM resp.read_args length] in *.
  destruct (resp.arg_bytes a) as [raw|] eqn:Ea; [|done]. cbn [mbind result_bind] in Hb, Hr.
  destruct (resp.encode_args args) as [bs|] eqn:Eb; [|done]. destruct (mapM resp.arg_bytes args) as [rs|] eqn:Er; [|done].
  cbn [mbind result_bind] in Hb, Hr. apply Ok_inj in Hb as <-. injection Hr as <-. apply Forall_cons in Hz as [Hz Hzs].
  rewrite <- app_assoc. erewrite stx_bind_ok by (by apply read_arg_bulk). by erewrite stx_bind_ok by (by apply IH).
Qed.

Lemma first_line_number mark z rest fuel :
  mark <> x0d -> Z.abs z < 2 ^ 63 ->
  resp.first_line (S fuel) ((mark :: dec z) ++ CRLF ++ rest) = (rest, Ok (Some (mark :: dec z))).
Proof.
  intros Hm Hz. cbn [resp.first_line]. unfold try_with. erewrite stx_bind_ok.
  2:{ cbv beta. unfold mbind at 1, stx_bind at 1. rewrite readuntil_number by done. reflexivity. }
  cbv beta iota. by rewrite chop_line.
Qed.

Lemma read_command_encode (args : list (pystr + bytes)) (b : bytes) (raws : list bytes) (rest : bytes) :
  resp.encode_command args = Ok b -> mapM resp.arg_bytes args = Ok raws ->
  zlen raws <= MAXSIZE -> Forall (fun r => zlen r <= MAXSIZE) raws ->
  resp.read_command (b ++ rest) = (rest, Ok (Some raws)).
Proof.
  unfold resp.encode_command. intros (bs & Eb & <-%Ok_inj)%result_bind_inv Hr Hn Hz.
  assert (length raws = length args) as Hlen.
  { clear -Hr. revert raws Hr. induction args as [|a args IH]; intros raws; simpl; [by intros [= <-]|].
    intros (r & _ & (rs & Ers & [= <-])%result_bind_inv)%result_bind_inv. simpl. f_equal. by apply IH. }
  unfold zlen in Hn. rewrite Hlen in Hn.
  change (lit "*") with [x2a]. rewrite <- !app_assoc.
  change ([x2a] ++ dec (Z.of_nat (length args)) ++ CRLF ++ bs ++ rest) with ((x2a :: dec (Z.of_nat (length args))) ++ CRLF ++ bs ++ rest).
  unfold resp.read_command. erewrite stx_bind_ok by reflexivity.
  erewrite stx_bind_ok by (apply first_line_number; [done|unfold MAXSIZE in *; lia]). cbv beta iota.
  change (take 1 (x2a :: dec (Z.of_nat (length args)))) with (lit "*"). rewrite bool_decide_true by done.
  change (drop 1 (x2a :: dec (Z.of_nat (length args)))) with (dec (Z.of_nat (length args))). rewrite py_int_dec.
  erewrite stx_bind_ok by reflexivity. destruct (Z.leb_spec (Z.of_nat (length args)) 0) as [Hl|Hl].
  - destruct args; [|simpl in Hl; lia]. injection Eb as <-. by injection Hr as <-.
  - rewrite Nat2Z.id. unfold try_with. by erewrite stx_bind_ok by (by apply read_args_encode).
Qed.

(** The arguments are part of the encoding. *)
Lemma encode_args_size args b :
  resp.encode_args args = Ok b -> exists raws, mapM resp.arg_bytes args = Ok raws /\ zlen raws <= zlen b /\ Forall (fun r => zlen r <= zlen b) raws.
Proof.
  revert b. induction args as [|a args IH]; intros b; cbn [resp.encode_args mapM].
  { intros <-%Ok_inj. exists []. repeat constructor. done. }
  intros (raw & -> & (bs & Eb & <-%Ok_inj)%result_bind_inv)%result_bind_inv. destruct (IH bs Eb) as (raws & -> & Hn & Hz).
  exists (raw :: raws). assert (zlen raw + 1 + zlen bs <= zlen (bulk raw ++ bs)) as Hl.
  { unfold bulk, zlen. rewrite !length_app. change (length (lit "$")) with 1%nat. change (length CRLF) with 2%nat. lia. }
  pose proof (zlen_nonneg raw) as Hr. assert (zlen (raw :: raws) = zlen raws + 1) as Hc by (unfold zlen; rewrite length_cons; lia).
  split_and!; [done|lia|]. constructor; [unfold zlen in *; lia|]. eapply Forall_impl; [exact Hz|]. cbv beta. intros; lia.
Qed.

Lemma encode_command_size args b :
  resp.encode_command args = Ok b -> exists raws, mapM resp.arg_bytes args = Ok raws /\ zlen raws <= zlen b /\ Forall (fun r => zlen r <= zlen b) raws.
Proof.
  unfold resp.encode_command. intros (bs & Eb & <-%Ok_inj)%result_bind_inv. destruct (encode_args_size args bs Eb) as (raws & E & Hn & Hz).
  assert (zlen bs <= zlen (lit "*" ++ dec (Z.of_nat (length args)) ++ CRLF ++ bs)) as Hl by (unfold zlen; rewrite !length_app; lia).
  exists raws. split_and!; [done|lia|]. eapply Forall_impl; [exact Hz|]. cbv beta. intros; lia.
Qed.

(** C25: a request survives the wire.  Reading from a stream that starts with an
    encoded command returns exactly its arguments as bytes, whatever they
    contain, and consumes exactly the command, so pipelined requests stay
    separate. *)
Theorem command_roundtrip (args : list (pystr + bytes)) (b : bytes) (raws : list bytes) (rest : bytes) :
  resp.encode_command args = Ok b -> mapM resp.arg_bytes args = Ok raws ->
  zlen raws <= MAXSIZE -> Forall (fun r => zlen r <= MAXSIZE) raws ->
  resp.read_command (b ++ rest) = (rest, Ok (Some raws)).
Proof. apply read_command_encode. Qed.

(** * Replies *)

(** [sees v w]: a client that is sent [v] reads [w].  A client cannot tell [bytes]
    from [str] or [True] from [1]; simple strings and errors must fit one line. *)
Inductive sees : resp_value -> resp_value -> Prop :=
| sees_none : sees RNone RNone
| sees_simple s raw : utf8_encode s = Ok raw -> one_line raw -> zlen raw < LIMIT -> sees (RSimpleString s) (RSimpleString s)
| sees_error s raw : utf8_encode s = Ok raw -> one_line raw -> zlen raw < LIMIT -> sees (RError s) (RError s)
| sees_bool b : sees (RBool b) (RInt (if b then 1 else 0))
| sees_int n : Z.abs n < 2 ^ 63 -> sees (RInt n) (RInt n)
| sees_bytes raw s : utf8_encode s = Ok raw -> zlen raw <= MAXSIZE -> sees (RBytes raw) (RStr s)
| sees_str s raw : utf8_encode s = Ok raw -> zlen raw <= MAXSIZE -> sees (RStr s) (RStr s)
| sees_list l l' : zlen l <= MAXSIZE -> Forall2 sees l l' -> sees (RList l) (RList l').

(** How deep lists are nested. *)
Fixpoint nesting (v : resp_value) : nat :=
  match v with RList l => S (foldr (fun v n => Nat.max (nesting v) n) 0%nat l) | _ => 1%nat end.

Lemma read_reply_line fuel mark line rest :
  one_line (mark :: line) -> zlen line < LIMIT ->
  resp.read_reply (S fuel) ((mark :: line) ++ CRLF ++ rest) =
    (let kind := [mark] in
      if bool_decide (kind = lit "+") then s ← lift_res (utf8_decode line); mret (RSimpleString s)
      else if bool_decide (kind = lit "-") then s ← lift_res (utf8_decode line); mret (RError s)
      else if bool_decide (kind = lit ":") then n ← lift_res (py_int line); mret (RInt n)
      else if bool_decide (kind = lit "$") then
        length ← lift_res (py_int line);
        if length =? -1 then mret RNone
        else
          data ← readexactly length;
          readexactly (zlen CRLF) ;;
          s ← lift_res (utf8_decode data);
          mret (RStr s)
      else if bool_decide (kind = lit "*") then
        count ← lift_res (py_int line);
        if count =? -1 then mret RNone
        else l ← resp.read_replies fuel (Z.to_nat count); mret (RList l)
      else raise (ProtocolError (str "unknown reply type: " ++ repr_bytes ((mark :: line) ++ CRLF)))) rest.
Proof.
  intros Hl Hz. cbn [resp.read_reply]. erewrite stx_bind_ok.
  2:{ apply readuntil_line; [done|]. unfold zlen, LIMIT in *. simpl. lia. }
  cbv zeta. rewrite reply_rest_line. change (take 1 ((mark :: line) ++ CRLF)) with [mark].
  reflexivity.
Qed.

Lemma one_line_mark mark line : mark <> x0d -> one_line line -> one_line (mark :: line).
Proof. intros Hm Hl. simpl. rewrite bool_decide_false by naive_solver. by rewrite Hl. Qed.

Lemma one_line_dec z : one_line (dec z).
Proof. apply one_line_no_cr, dec_no_cr. Qed.

Lemma dec_short z : Z.abs z < 2 ^ 63 -> zlen (dec z) < LIMIT.
Proof. intros Hz. pose proof (dec_length 63 z Hz). unfold zlen, LIMIT. lia. Qed.

Lemma read_reply_bulk fuel s raw rest :
  utf8_encode s = Ok raw -> zlen raw <= MAXSIZE -> resp.read_reply (S fuel) (bulk raw ++ rest) = (rest, Ok (RStr s)).
Proof.
  intros Es Hz. rewrite bulk_split, read_reply_line.
  2:{ apply one_line_mark; [done|apply one_line_dec]. } 2:{ apply dec_short. by apply zlen_small. }
  cbv zeta. rewrite !bool_decide_false, bool_decide_true by done. rewrite py_int_dec. erewrite stx_bind_ok by reflexivity.
  rewrite (proj2 (Z.eqb_neq _ _)) by (unfold zlen; lia). erewrite stx_bind_ok by apply readexactly_app.
  erewrite stx_bind_ok by apply readexactly_crlf. rewrite (proj1 (utf8_roundtrip s raw) Es). done.
Qed.

(** A reply survives the wire.  Whatever a client [sees] in a value, reading a
    stream that starts with the encoded value returns exactly that, nested lists
    included, and consumes exactly the reply. *)
Theorem reply_roundtrip (v w : resp_value) (fuel : nat) :
  sees v w -> (nesting v <= fuel)%nat ->
  exists b, resp.encode v = Ok b /\ forall rest, resp.read_reply fuel (b ++ rest) = (rest, Ok w).
Proof.
  revert v w. induction fuel as [|fuel IH]; intros v w Hs Hf; [destruct v; simpl in Hf; lia|].
  assert (Hline : forall mark line b, b = (mark :: line) ++ CRLF -> forall rest, b ++ rest = (mark :: line) ++ CRLF ++ rest)
    by (intros mark line b -> rest; by rewrite <- app_assoc).
  assert (Hnum : forall mark z, mark <> x0d -> Z.abs z < 2 ^ 63 -> one_line (mark :: dec z) /\ zlen (dec z) < LIMIT)
    by (intros mark z Hm Hz; split; [apply one_line_mark; [done|apply one_line_dec]|by apply dec_short]).
  destruct Hs as [|s raw Es Hl Hz|s raw Es Hl Hz|b|n Hn|raw s Es Hz|s raw Es Hz|l l' Hz Hall].
  - eexists. split; [reflexivity|]. intros rest. rewrite (Hline x24 (lit "-1")) by done. by rewrite read_reply_line by done.
  - eexists. split; [simpl; by rewrite Es|]. intros rest. rewrite (Hline x2b raw) by done.
    rewrite read_reply_line by (try done; by apply one_line_mark). simpl. by rewrite (proj1 (utf8_roundtrip s raw) Es).
  - eexists. split; [simpl; by rewrite Es|]. intros rest. rewrite (Hline x2d raw) by done.
    rewrite read_reply_line by (try done; by apply one_line_mark). simpl. by rewrite (proj1 (utf8_roundtrip s raw) Es).
  - eexists. split; [reflexivity|]. intros rest. rewrite (Hline x3a (if b then lit "1" else lit "0")) by (by destruct b).
    by destruct b; rewrite read_reply_line by done.
  - eexists. split; [reflexivity|]. intros rest. rewrite (Hline x3a (dec n)) by done.
    destruct (Hnum x3a n ltac:(done) Hn) as [H1 H2]. rewrite read_reply_line by done. cbv zeta. rewrite !bool_decide_false, bool_decide_true by done. by rewrite py_int_dec.
  - eexists. split; [reflexivity|]. intros rest. by apply read_reply_bulk.
  - exists (bulk raw). split; [cbn [resp.encode]; by rewrite Es|]. intros rest. by apply read_reply_bulk.
  - assert (exists bs, resp.encode_all l = Ok bs /\ forall rest, resp.read_replies fuel (length l) (bs ++ rest) = (rest, Ok l')) as (bs & Eb & Hr).
    { simpl in Hf. clear Hz. induction Hall as [|v w l l' Hv _ IHl]; [by exists []|]. simpl in Hf.
      destruct (IH v w Hv ltac:(lia)) as (b & Ev & Hb). destruct (IHl ltac:(lia)) as (bs & El & Hbs).
      exists (b ++ bs). split; [simpl; by rewrite Ev, El|]. intros rest. rewrite <- app_assoc. cbn [resp.read_replies length].
      erewrite stx_bind_ok by apply Hb. by erewrite stx_bind_ok by apply Hbs. }
    exists (lit "*" ++ dec (Z.of_nat (length l)) ++ CRLF ++ bs).
    split; [cbn [resp.encode]; fold resp.encode_all; by rewrite Eb|]. intros rest.
    change (lit "*") with [x2a]. rewrite <- !app_assoc.
    change ([x2a] ++ dec (Z.of_nat (length l)) ++ CRLF ++ bs ++ rest) with ((x2a :: dec (zlen l)) ++ CRLF ++ bs ++ rest).
    destruct (Hnum x2a (zlen l) ltac:(done) (zlen_small l Hz)) as [H1 H2]. rewrite read_reply_line by done. cbv zeta. rewrite !bool_decide_false, bool_decide_true by done.
    rewrite py_int_dec. erewrite stx_bind_ok by reflexivity. unfold zlen. rewrite (proj2 (Z.eqb_neq _ _)) by lia. rewrite Nat2Z.id.
    by erewrite stx_bind_ok by apply Hr.
Qed.

(** * Witnesses *)

(** [SET k "a\r\nb"], the value given as bytes that contain a line break. *)
Definition set_command : list (pystr + bytes) := [inl (str "SET"); inl (str "k"); inr [x61; x0d; x0a; x62]].

Lemma command_roundtrip_witness : exists b, resp.encode_command set_command = Ok b /\
  resp.read_command (b ++ lit "PING") = (lit "PING", Ok (Some [lit "SET"; lit "k"; [x61; x0d; x0a; x62]])).
Proof.
  eexists. split; [vm_compute; reflexivity|].
  apply (command_roundtrip set_command); [vm_compute; reflexivity|reflexivity|vm_compute; discriminate|].
  repeat constructor; vm_compute; discriminate.
Defined.

Definition sample_reply : resp_value := RList [RStr (str "x"); RInt 3; RBool true; RNone; RList [RSimpleString (str "OK")]].

Lemma reply_roundtrip_witness : exists b, resp.encode sample_reply = Ok b /\ forall rest,
  resp.read_reply 3 (b ++ rest) = (rest, Ok (RList [RStr (str "x"); RInt 3; RInt 1; RNone; RList [RSimpleString (str "OK")]])).
Proof.
  apply (reply_roundtrip sample_reply); [|vm_compute; lia].
  apply sees_list; [vm_compute; discriminate|]. repeat (apply Forall2_cons; split); try apply Forall2_nil_2.
  - eapply sees_str; [vm_compute; reflexivity|vm_compute; discriminate].
  - apply sees_int. vm_compute. reflexivity.
  - exact (sees_bool true).
  - apply sees_none.
  - apply sees_list; [vm_compute; discriminate|]. apply Forall2_cons. split; [|apply Forall2_nil_2].
    eapply sees_simple; vm_compute; reflexivity.
Defined.
