(* ===== verification/Pubsub.v ===== *)
(** The change broker: [src/imustore/pubsub.py].

    Queues are shared objects: the broker and the connections hold references to
    them, so the queues live in a store of their own, by identity. *)

From S2P Require Import Prelude PyBase.

(** [json.dumps] of a change event. *)
Class ChangeJson := change_json : pystr -> pystr -> option pystr -> pystr.

(** [["message", prefix, payload]] *)
Record message : Type := mkMessage { msg_prefix : pystr; msg_payload : pystr }.

#[global] Instance message_eq_dec : EqDecision message.
Proof. solve_decision. Defined.

Definition DEFAULT_QUEUE_MAXSIZE : Z := 1024.

Record ChangeBroker : Type := mkBroker {
  _subscribers : list (pystr * gset Z);
  _queue_maxsize : Z;
  dropped : Z;
  (** the queues created so far, by identity *)
  queues : gmap Z (list message)
}.

Module broker.
Section broker.
Context `{ChangeJson}.
Implicit Types (b : ChangeBroker) (prefix key : pystr) (queue : Z).

Definition set_subscribers (s : list (pystr * gset Z)) b : ChangeBroker :=
  mkBroker s (_queue_maxsize b) (dropped b) (queues b).
Definition set_queues (qs : gmap Z (list message)) b : ChangeBroker :=
  mkBroker (_subscribers b) (_queue_maxsize b) (dropped b) qs.
Definition add_dropped b : ChangeBroker :=
  mkBroker (_subscribers b) (_queue_maxsize b) (dropped b + 1) (queues b).

Definition init (queue_maxsize : Z) : ChangeBroker := mkBroker [] queue_maxsize 0 ∅.

(** ** [asyncio.Queue] *)

(** A new object, different from all others. *)
Definition new_queue : St ChangeBroker Z :=
  b ← get_st;
  let queue := fresh (dom (queues b)) in
  put_st (set_queues (<[queue := []]> (queues b)) b) ;;
  mret queue.

Definition full b queue : bool :=
  (0 <? _queue_maxsize b) && (_queue_maxsize b <=? Z.of_nat (length (default [] (queues b !! queue)))).

Definition put_nowait queue (m : message) : St ChangeBroker unit :=
  b ← get_st;
  if full b queue then raise QueueFull
  else put_st (set_queues (<[queue := default [] (queues b !! queue) ++ [m]]> (queues b)) b).

(** The next message, when there is one; [get] waits otherwise. *)
Definition get_message queue : St ChangeBroker (option message) :=
  b ← get_st;
  match queues b !! queue with
  | Some (m :: rest) => put_st (set_queues (<[queue := rest]> (queues b)) b) ;; mret (Some m)
  | _ => mret None
  end.

(** ** Subscriptions: an insertion-ordered [dict] of sets *)

Fixpoint dict_get prefix (d : list (pystr * gset Z)) : option (gset Z) :=
  match d with
  | [] => None
  | (p, qs) :: d => if bool_decide (p = prefix) then Some qs else dict_get prefix d
  end.

Fixpoint dict_set prefix (qs : gset Z) (d : list (pystr * gset Z)) : list (pystr * gset Z) :=
  match d with
  | [] => [(prefix, qs)]
  | (p, qs') :: d => if bool_decide (p = prefix) then (p, qs) :: d else (p, qs') :: dict_set prefix qs d
  end.

Fixpoint dict_del prefix (d : list (pystr * gset Z)) : list (pystr * gset Z) :=
  match d with
  | [] => []
  | (p, qs) :: d => if bool_decide (p = prefix) then d else (p, qs) :: dict_del prefix d
  end.

Definition subscribe prefix queue : St ChangeBroker unit :=
  modify (fun b =>
    let subscribers := default ∅ (dict_get prefix (_subscribers b)) in
    set_subscribers (dict_set prefix ({[ queue ]} ∪ subscribers) (_subscribers b)) b).

Definition unsubscribe prefix queue : St ChangeBroker unit :=
  modify (fun b =>
    match dict_get prefix (_subscribers b) with
    | None => b
    | Some subscribers =>
        if bool_decide (subscribers = ∅) then b
        else
          let subscribers := subscribers ∖ {[ queue ]} in
          if bool_decide (subscribers = ∅) then set_subscribers (dict_del prefix (_subscribers b)) b
          else set_subscribers (dict_set prefix subscribers (_subscribers b)) b
    end).

Fixpoint unsubscribe_each (prefixes : list pystr) queue : St ChangeBroker unit :=
  match prefixes with
  | [] => mret tt
  | p :: prefixes => unsubscribe p queue ;; unsubscribe_each prefixes queue
  end.

Definition unsubscribe_all queue : St ChangeBroker unit :=
  b ← get_st; unsubscribe_each (_subscribers b).*1 queue.

Definition prefixes b : gset pystr := list_to_set (_subscribers b).*1.

(** ** Publishing *)

(** [for queue in queues: try: queue.put_nowait(message) except QueueFull: ...] *)
Fixpoint offer_each (qs : list Z) (m : message) : St ChangeBroker unit :=
  match qs with
  | [] => mret tt
  | queue :: qs =>
      try_with (put_nowait queue m)
        (fun e => match e with QueueFull => modify add_dropped | e => raise e end) ;;
      offer_each qs m
  end.

Fixpoint publish_loop (d : list (pystr * gset Z)) key (op : pystr) (value : option pystr) : St ChangeBroker unit :=
  match d with
  | [] => mret tt
  | (prefix, qs) :: d =>
      (if startswith key prefix
       then offer_each (elements qs) (mkMessage prefix (change_json key op value))
       else mret tt) ;;
      publish_loop d key op value
  end.

Definition publish key (op : pystr) (value : option pystr) : St ChangeBroker unit :=
  b ← get_st;
  match _subscribers b with
  | [] => mret tt
  | d => publish_loop d key op value
  end.

End broker.
End broker.

(** * Facts *)

Section facts.
Context `{ChangeJson}.
Implicit Types (b : ChangeBroker) (prefix key : pystr) (queue : Z) (d : list (pystr * gset Z)).

(** One message offered to one queue: accepted while there is room, shed and
    counted otherwise. *)
Definition offer (qm : Z * message) b : ChangeBroker :=
  if broker.full b qm.1 then broker.add_dropped b
  else broker.set_queues (<[qm.1 := default [] (queues b !! qm.1) ++ [qm.2]]> (queues b)) b.

(** What a change is offered to whom, in order. *)
Fixpoint offers d key (op : pystr) (value : option pystr) : list (Z * message) :=
  match d with
  | [] => []
  | (prefix, qs) :: d =>
      (if startswith key prefix then (fun q => (q, mkMessage prefix (change_json key op value))) <$> elements qs else []) ++
      offers d key op value
  end.

Definition offer_all (l : list (Z * message)) b : ChangeBroker := fold_left (fun b qm => offer qm b) l b.

Lemma offer_each_run qs m b :
  broker.offer_each qs m b = (offer_all ((fun q => (q, m)) <$> qs) b, Ok tt).
Proof.
  revert b. induction qs as [|q qs IH]; intros b; [done|]. cbn [broker.offer_each].
  rewrite (stx_bind_ok _ _ b (offer (q, m) b) tt); [apply IH|]. unfold try_with, broker.put_nowait, offer. run. simpl. by destruct (broker.full b q).
Qed.

Lemma offer_all_app l1 l2 b : offer_all (l1 ++ l2) b = offer_all l2 (offer_all l1 b).
Proof. apply fold_left_app. Qed.

(** [publish] never fails and offers the change to every matching subscriber. *)
Lemma publish_run key op value b :
  broker.publish key op value b = (offer_all (offers (_subscribers b) key op value) b, Ok tt).
Proof.
  assert (Hl : forall d b, broker.publish_loop d key op value b = (offer_all (offers d key op value) b, Ok tt)).
  { induction d as [|[p qs] d IH]; intros b'; [done|]. cbn [broker.publish_loop offers]. rewrite offer_all_app.
    destruct (startswith key p); [erewrite stx_bind_ok by apply offer_each_run|erewrite stx_bind_ok by reflexivity]; apply IH. }
  unfold broker.publish. erewrite stx_bind_ok by reflexivity. destruct (_subscribers b) as [|x d]; [done|]. apply Hl.
Qed.

Lemma offer_fields qm b :
  _subscribers (offer qm b) = _subscribers b /\ _queue_maxsize (offer qm b) = _queue_maxsize b.
Proof. unfold offer. by destruct (broker.full b qm.1). Qed.

Lemma offer_all_fields l b :
  _subscribers (offer_all l b) = _subscribers b /\ _queue_maxsize (offer_all l b) = _queue_maxsize b.
Proof.
  revert b. induction l as [|qm l IH]; intros b; [done|]. simpl. destruct (offer_fields qm b) as [<- <-]. apply IH.
Qed.

(** Messages waiting in a queue, and in all queues. *)
Definition waiting b queue : list message := default [] (queues b !! queue).
Definition total (m : gmap Z (list message)) : Z := map_fold (fun _ l n => Z.of_nat (length l) + n) 0 m.
Definition backlog b : Z := total (queues b).

(** The room left in a queue; a size of zero or less means no bound. *)
Definition room b queue (n : nat) : nat :=
  if 0 <? _queue_maxsize b then Nat.min n (Z.to_nat (_queue_maxsize b) - length (waiting b queue)) else n.

Lemma offer_waiting qm b queue :
  waiting (offer qm b) queue =
    if decide (qm.1 = queue) then (if broker.full b queue then waiting b queue else waiting b queue ++ [qm.2]) else waiting b queue.
Proof.
  unfold offer, waiting. destruct (decide (qm.1 = queue)) as [<-|Hne]; destruct (broker.full b qm.1); simpl; try done.
  - by rewrite lookup_insert_eq.
  - by rewrite lookup_insert_ne.
Qed.

(** Each queue receives the messages meant for it, in order, up to its room. *)
Lemma offer_all_waiting l b queue :
  let mine := (base.filter (fun qm => qm.1 = queue) l).*2 in
  waiting (offer_all l b) queue = waiting b queue ++ take (room b queue (length mine)) mine.
Proof.
  revert b. induction l as [|qm l IH]; intros b; simpl.
  { rewrite take_nil. by rewrite app_nil_r. }
  rewrite IH, offer_waiting, filter_cons. destruct (offer_fields qm b) as [_ Em].
  destruct (decide (qm.1 = queue)) as [E|Hne].
  - simpl. unfold room. rewrite Em, offer_waiting, decide_True by done. unfold broker.full.
    fold (waiting b queue). destruct (Z.ltb_spec 0 (_queue_maxsize b)) as [Hm|Hm]; simpl.
    + destruct (Z.leb_spec (_queue_maxsize b) (Z.of_nat (length (waiting b queue)))).
      * replace (Z.to_nat (_queue_maxsize b) - length (waiting b queue))%nat with 0%nat by lia. by rewrite !Nat.min_0_r.
      * rewrite length_app. simpl. destruct (Z.to_nat (_queue_maxsize b) - length (waiting b queue))%nat as [|m'] eqn:Er; [lia|].
        replace (Z.to_nat (_queue_maxsize b) - (length (waiting b queue) + 1))%nat with m' by lia. by rewrite <- app_assoc.
    + by rewrite <- app_assoc.
  - unfold room. by rewrite Em, offer_waiting, decide_False by done.
Qed.

Lemma total_insert (m : gmap Z (list message)) q l :
  total (<[q := l]> m) = total m + Z.of_nat (length l) - Z.of_nat (length (default [] (m !! q))).
Proof.
  assert (Hins : forall m' l', m' !! q = None -> total (<[q := l']> m') = Z.of_nat (length l') + total m').
  { intros m' l' Hm'. unfold total. rewrite map_fold_insert_L; [done| |done]. intros. lia. }
  destruct (m !! q) as [l0|] eqn:E; simpl.
  - rewrite <- (insert_delete_id m q l0 E) at 2. rewrite <- insert_delete_eq.
    rewrite !Hins by apply lookup_delete_eq. lia.
  - rewrite Hins by done. lia.
Qed.

(** Nothing is lost without being counted. *)
Lemma offer_all_conserves l b :
  dropped (offer_all l b) + backlog (offer_all l b) = dropped b + backlog b + Z.of_nat (length l).
Proof.
  revert b. induction l as [|qm l IH]; intros b; [simpl; lia|]. cbn [offer_all fold_left length]. fold (offer_all l (offer qm b)). rewrite IH.
  assert (dropped (offer qm b) + backlog (offer qm b) = dropped b + backlog b + 1); [|lia].
  unfold offer, backlog. destruct (broker.full b qm.1); simpl; [lia|]. rewrite total_insert, length_app. simpl. lia.
Qed.

End facts.
