(* ===== verification/PubsubProps.v ===== *)
(** The change broker keeps its queues bounded and delivers every matching
    change exactly once per subscription, or counts it as dropped. *)

From Stdlib Require Import Strings.String.
From S2P Require Import Prelude PyBase Text Pubsub.

Section props.
Context `{ChangeJson}.
Implicit Types (b : ChangeBroker) (prefix key : pystr) (queue : Z) (d : list (pystr * gset Z)).

(** * The invariant *)

Record broker_ok b : Prop := {
  bo_prefixes : NoDup (_subscribers b).*1;
  bo_nonempty : Forall (fun pq => pq.2 <> ∅) (_subscribers b);
  bo_known : Forall (fun pq => pq.2 ⊆ dom (queues b)) (_subscribers b);
  bo_bounded : forall q, 0 < _queue_maxsize b -> Z.of_nat (length (waiting b q)) <= _queue_maxsize b;
  bo_dropped : 0 <= dropped b
}.

(** The calls the server makes; it subscribes queues it got from [new_queue]. *)
Inductive bstep : ChangeBroker -> ChangeBroker -> Prop :=
| bs_new b b' q : broker.new_queue b = (b', Ok q) -> bstep b b'
| bs_subscribe b b' p q : q ∈ dom (queues b) -> broker.subscribe p q b = (b', Ok tt) -> bstep b b'
| bs_unsubscribe b b' p q : broker.unsubscribe p q b = (b', Ok tt) -> bstep b b'
| bs_unsubscribe_all b b' q : broker.unsubscribe_all q b = (b', Ok tt) -> bstep b b'
| bs_publish b b' key op value : broker.publish key op value b = (b', Ok tt) -> bstep b b'
| bs_get b b' q m : broker.get_message q b = (b', Ok m) -> bstep b b'.

(** ** The dictionary of subscribers *)

Lemma dict_set_keys p qs d : (broker.dict_set p qs d).*1 = if decide (p ∈ d.*1) then d.*1 else d.*1 ++ [p].
Proof.
  induction d as [|[p' qs'] d IH]; [done|]. csimpl. case_bool_decide as E; csimpl.
  - subst. by rewrite decide_True by (by left).
  - rewrite IH. destruct (decide (p ∈ d.*1)); [rewrite decide_True by (by right)|rewrite decide_False by (intros [?|?]%elem_of_cons; by subst)]; done.
Qed.

Lemma dict_set_Forall (P : pystr * gset Z -> Prop) p qs d :
  P (p, qs) -> Forall P d -> Forall P (broker.dict_set p qs d).
Proof.
  intros Hp. induction 1 as [|[p' qs'] d Hx Hd IH]; simpl; [by repeat constructor|]. case_bool_decide; subst; by constructor.
Qed.

Lemma dict_del_sublist p d : sublist (broker.dict_del p d) d.
Proof. induction d as [|[p' qs'] d IH]; simpl; [done|]. case_bool_decide; by constructor. Qed.

Lemma dict_get_elem p qs d : broker.dict_get p d = Some qs -> (p, qs) ∈ d.
Proof.
  induction d as [|[p' qs'] d IH]; simpl; [done|]. case_bool_decide as E; [intros [= ->]; subst; by left|]. intros ?. right. auto.
Qed.

Lemma sublist_fmap_fst d d' : sublist d d' -> sublist d.*1 d'.*1.
Proof. induction 1; simpl; by constructor. Qed.

(** Replacing the dictionary keeps the rest. *)
Lemma ok_subscribers b d :
  broker_ok b -> NoDup d.*1 -> Forall (fun pq => pq.2 <> ∅ /\ pq.2 ⊆ dom (queues b)) d -> broker_ok (broker.set_subscribers d b).
Proof. intros [? ? ? ? ?] Hn [? ?]%Forall_and. by split. Qed.

Lemma ok_entries b : broker_ok b -> Forall (fun pq => pq.2 <> ∅ /\ pq.2 ⊆ dom (queues b)) (_subscribers b).
Proof. intros [? ? ? ? ?]. by apply Forall_and. Qed.

Lemma ok_set b p qs :
  broker_ok b -> qs <> ∅ -> qs ⊆ dom (queues b) -> broker_ok (broker.set_subscribers (broker.dict_set p qs (_subscribers b)) b).
Proof.
  intros Hb Hne Hk. apply ok_subscribers; [done| |apply dict_set_Forall; [done|by apply ok_entries]].
  rewrite dict_set_keys. pose proof (bo_prefixes b Hb). destruct (decide _); [done|].
  apply NoDup_app. split_and!; [done| |apply NoDup_singleton]. intros x Hx ->%list_elem_of_singleton. done.
Qed.

Lemma ok_del b p : broker_ok b -> broker_ok (broker.set_subscribers (broker.dict_del p (_subscribers b)) b).
Proof.
  intros Hb. pose proof (dict_del_sublist p (_subscribers b)) as Hs. apply ok_subscribers; [done|..].
  - eapply sublist_NoDup; [apply Hb|by apply sublist_fmap_fst].
  - apply Forall_forall. intros x Hx. apply (proj1 (Forall_forall _ _) (ok_entries b Hb)). by eapply elem_of_sublist.
Qed.

(** Unsubscribing touches the dictionary only. *)
Lemma unsubscribe_run b p q :
  exists b', broker.unsubscribe p q b = (b', Ok tt) /\ _queue_maxsize b' = _queue_maxsize b /\ queues b' = queues b /\ dropped b' = dropped b.
Proof.
  unfold broker.unsubscribe, modify. eexists. split; [reflexivity|].
  destruct (broker.dict_get p (_subscribers b)) as [qs|]; [|done]. repeat case_bool_decide; done.
Qed.

Lemma unsubscribe_each_run b ps q :
  exists b', broker.unsubscribe_each ps q b = (b', Ok tt) /\ _queue_maxsize b' = _queue_maxsize b /\ queues b' = queues b /\ dropped b' = dropped b.
Proof.
  revert b. induction ps as [|p ps IH]; intros b; [by exists b|]. cbn [broker.unsubscribe_each].
  destruct (unsubscribe_run b p q) as (b1 & E1 & M1 & Q1 & D1). erewrite stx_bind_ok by exact E1.
  destruct (IH b1) as (b2 & E2 & M2 & Q2 & D2). exists b2. split_and!; [done|congruence..].
Qed.

Lemma ok_unsubscribe b p q : broker_ok b -> broker_ok (broker.unsubscribe p q b).1.
Proof.
  intros Hb. unfold broker.unsubscribe, modify. simpl. destruct (broker.dict_get p (_subscribers b)) as [qs|] eqn:E; [|done].
  case_bool_decide; [done|]. case_bool_decide; [by apply ok_del|]. apply ok_set; [done..|].
  apply dict_get_elem in E. pose proof (proj1 (Forall_forall _ _) (bo_known b Hb) _ E) as Hk. simpl in Hk. set_solver.
Qed.

Lemma ok_unsubscribe_each b ps q : broker_ok b -> broker_ok (broker.unsubscribe_each ps q b).1.
Proof.
  revert b. induction ps as [|p ps IH]; intros b Hb; [done|]. cbn [broker.unsubscribe_each].
  erewrite stx_bind_ok by reflexivity. apply IH. by apply ok_unsubscribe.
Qed.

Lemma ok_queues b q (l : list message) :
  broker_ok b -> (0 < _queue_maxsize b -> Z.of_nat (length l) <= _queue_maxsize b) -> broker_ok (broker.set_queues (<[q := l]> (queues b)) b).
Proof.
  intros [? ? Hk Hbd ?] Hl. split; try done.
  - eapply Forall_impl; [exact Hk|]. simpl. intros [p qs] Hqs. simpl in *. rewrite dom_insert_L. set_solver.
  - intros q' Hm. unfold waiting. simpl in *. destruct (decide (q = q')) as [<-|Hne].
    + rewrite lookup_insert_eq. by apply Hl.
    + rewrite lookup_insert_ne by done. by apply Hbd.
Qed.

Lemma ok_offer_all l b : broker_ok b -> broker_ok (offer_all l b).
Proof.
  revert b. induction l as [|qm l IH]; intros b Hb; [done|]. apply IH. unfold offer. destruct (broker.full b qm.1) eqn:Ef.
  - destruct Hb. split; try done. simpl. lia.
  - apply ok_queues; [done|]. intros Hm. unfold broker.full in Ef. rewrite (proj2 (Z.ltb_lt _ _) Hm) in Ef. simpl in Ef.
    apply Z.leb_gt in Ef. rewrite length_app. simpl. lia.
Qed.

Lemma bstep_ok b b' : broker_ok b -> bstep b b' -> broker_ok b'.
Proof.
  intros Hb Hs. destruct Hs as [b b' q E|b b' p q Hq E|b b' p q E|b b' q E|b b' key op value E|b b' q m E].
  - injection E as <- _. apply ok_queues; [done|]. simpl. lia.
  - injection E as <-. apply ok_set; [done|set_solver|]. destruct (broker.dict_get p (_subscribers b)) as [qs|] eqn:Ed; simpl; [|set_solver].
    apply dict_get_elem in Ed. pose proof (proj1 (Forall_forall _ _) (bo_known b Hb) _ Ed) as Hk. simpl in Hk. set_solver.
  - pose proof (ok_unsubscribe b p q Hb) as Ho. by rewrite E in Ho.
  - pose proof (ok_unsubscribe_each b (_subscribers b).*1 q Hb) as Ho. unfold broker.unsubscribe_all in E.
    erewrite stx_bind_ok in E by reflexivity. by rewrite E in Ho.
  - rewrite publish_run in E. injection E as <-. by apply ok_offer_all.
  - unfold broker.get_message in E. erewrite stx_bind_ok in E by reflexivity.
    destruct (queues b !! q) as [[|x rest]|] eqn:Eq; [by injection E as <- _| |by injection E as <- _].
    erewrite stx_bind_ok in E by reflexivity. injection E as <- _. apply ok_queues; [done|]. intros Hm.
    pose proof (bo_bounded b Hb q Hm) as Hbd. unfold waiting in Hbd. rewrite Eq in Hbd. simpl in Hbd. lia.
Qed.

Lemma ok_init maxsize : broker_ok (broker.init maxsize).
Proof. split; simpl; try done; try constructor. intros q. unfold waiting. simpl. rewrite lookup_empty. simpl. lia. Qed.

(** C29: the broker's invariant.  In every state the server can bring it to, the
    prefixes are distinct, no prefix is kept without a subscriber, every
    subscribed queue exists, the drop counter is not negative, and no queue holds
    more messages than its bound: a slow subscriber cannot grow memory. *)
Theorem broker_invariant (maxsize : Z) b : rtc bstep (broker.init maxsize) b -> broker_ok b /\ _queue_maxsize b = maxsize.
Proof.
  intros Hr. remember (broker.init maxsize) as b0 eqn:E0.
  assert (broker_ok b0 /\ _queue_maxsize b0 = maxsize) as [Hb Hm].
  { subst. split; [apply ok_init|done]. }
  clear E0. induction Hr as [b|b b1 b2 Hs _ IH]; [done|]. apply IH; [by eapply bstep_ok|]. rewrite <- Hm. clear -Hs.
  destruct Hs as [b b' q E|b b' p q Hq E|b b' p q E|b b' q E|b b' key op value E|b b' q m E].
  - by injection E as <- _.
  - by injection E as <-.
  - destruct (unsubscribe_run b p q) as (b1 & E1 & M1 & _). rewrite E1 in E. by injection E as <-.
  - destruct (unsubscribe_each_run b (_subscribers b).*1 q) as (b1 & E1 & M1 & _). unfold broker.unsubscribe_all in E.
    erewrite stx_bind_ok in E by reflexivity. rewrite E1 in E. by injection E as <-.
  - rewrite publish_run in E. injection E as <-. apply offer_all_fields.
  - unfold broker.get_message in E. erewrite stx_bind_ok in E by reflexivity.
    destruct (queues b !! q) as [[|x rest]|]; [by injection E as <- _| |by injection E as <- _].
    erewrite stx_bind_ok in E by reflexivity. by injection E as <- _.
Qed.

(** * Delivery *)

(** The messages a change means for a queue: one per matching prefix it is
    subscribed to. *)
Fixpoint meant d queue key (op : pystr) (value : option pystr) : list message :=
  match d with
  | [] => []
  | (prefix, qs) :: d =>
      (if startswith key prefix && bool_decide (queue ∈ qs) then [mkMessage prefix (change_json key op value)] else []) ++
      meant d queue key op value
  end.

(** The number of subscriptions a key matches. *)
Fixpoint matches d key : Z :=
  match d with
  | [] => 0
  | (prefix, qs) :: d => (if startswith key prefix then Z.of_nat (size qs) else 0) + matches d key
  end.

Lemma filter_one (l : list Z) q : NoDup l -> base.filter (fun x => x = q) l = if decide (q ∈ l) then [q] else [].
Proof.
  induction 1 as [|x l Hx Hl IH]; [done|]. rewrite filter_cons, IH. destruct (decide (x = q)) as [->|Hne].
  - rewrite (decide_False (P := q ∈ l)), decide_True by (done || by left). done.
  - destruct (decide (q ∈ l)); [rewrite decide_True by (by right)|rewrite decide_False by (intros [?|?]%elem_of_cons; congruence)]; done.
Qed.

Lemma filter_offers d queue key op value :
  (base.filter (fun qm => qm.1 = queue) (offers d key op value)).*2 = meant d queue key op value.
Proof.
  induction d as [|[p qs] d IH]; [done|]. cbn [offers meant]. rewrite filter_app, fmap_app, IH. f_equal.
  destruct (startswith key p); [|done]. cbn [andb].
  assert (Hf : forall l, (base.filter (fun qm => qm.1 = queue) ((fun q => (q, mkMessage p (change_json key op value))) <$> l)).*2 =
    (fun _ => mkMessage p (change_json key op value)) <$> base.filter (fun x => x = queue) l).
  { induction l as [|x l IHl]; [done|]. rewrite fmap_cons, !filter_cons. simpl. destruct (decide (x = queue)); csimpl; by rewrite IHl. }
  rewrite Hf, filter_one by apply NoDup_elements.
  destruct (decide (queue ∈ elements qs)) as [Hin|Hin]; rewrite elem_of_elements in Hin.
  - by rewrite bool_decide_true.
  - by rewrite bool_decide_false.
Qed.

Lemma offers_length d key op value : Z.of_nat (length (offers d key op value)) = matches d key.
Proof.
  induction d as [|[p qs] d IH]; [done|]. cbn [offers matches]. rewrite length_app, Nat2Z.inj_add, IH. f_equal.
  destruct (startswith key p); [|done]. by rewrite length_fmap.
Qed.

(** Publishing delivers exactly.  [publish] returns; each queue gains, in the
    order of the subscriptions, one message per matching prefix it subscribed to,
    as far as its room goes; and every message that found no room is counted in
    [dropped]: messages waiting and messages dropped together grow by the number
    of matching subscriptions. *)
Theorem publish_exact b key (op : pystr) (value : option pystr) :
  exists b', broker.publish key op value b = (b', Ok tt) /\ _subscribers b' = _subscribers b /\
    (forall q, let ms := meant (_subscribers b) q key op value in
       waiting b' q = waiting b q ++ take (room b q (length ms)) ms) /\
    dropped b' + backlog b' = dropped b + backlog b + matches (_subscribers b) key.
Proof.
  eexists. split; [apply publish_run|]. split_and!.
  - apply offer_all_fields.
  - intros q. cbv zeta. rewrite <- filter_offers. apply offer_all_waiting.
  - by rewrite offer_all_conserves, offers_length.
Qed.

(** ** Unsubscribing *)

Definition subscribers_of b prefix : gset Z := default ∅ (broker.dict_get prefix (_subscribers b)).

Lemma dict_get_set p qs p' d :
  broker.dict_get p' (broker.dict_set p qs d) = if decide (p' = p) then Some qs else broker.dict_get p' d.
Proof.
  induction d as [|[x y] d IH]; simpl.
  - case_bool_decide; destruct (decide (p' = p)); subst; done.
  - case_bool_decide as E1; simpl; case_bool_decide as E2; rewrite ?IH; destruct (decide (p' = p)); subst; done.
Qed.

Lemma dict_get_none p d : p ∉ d.*1 -> broker.dict_get p d = None.
Proof.
  induction d as [|[x y] d IH]; [done|]. csimpl. intros [Hx Hd]%not_elem_of_cons. rewrite bool_decide_false by done. auto.
Qed.

Lemma dict_get_del p p' d :
  NoDup d.*1 -> broker.dict_get p' (broker.dict_del p d) = if decide (p' = p) then None else broker.dict_get p' d.
Proof.
  induction d as [|[x y] d IH]; csimpl; [by destruct (decide _)|]. intros [Hx Hd]%NoDup_cons.
  case_bool_decide as E1; [subst x|].
  - destruct (decide (p' = p)) as [->|]; [by apply dict_get_none|]. by rewrite bool_decide_false by done.
  - simpl. case_bool_decide as E2; rewrite ?IH by done; destruct (decide (p' = p)); subst; done.
Qed.

Lemma unsubscribe_spec b p q :
  broker_ok b -> exists b', broker.unsubscribe p q b = (b', Ok tt) /\ broker_ok b' /\
    forall p', subscribers_of b' p' = if decide (p' = p) then subscribers_of b p ∖ {[ q ]} else subscribers_of b p'.
Proof.
  intros Hb. destruct (unsubscribe_run b p q) as (b' & E & _). exists b'. split; [done|].
  pose proof (ok_unsubscribe b p q Hb) as Hok. rewrite E in Hok. split; [done|]. intros p'.
  unfold broker.unsubscribe, modify in E. injection E as <-. unfold subscribers_of.
  destruct (broker.dict_get p (_subscribers b)) as [qs|] eqn:Eg; simpl.
  2:{ destruct (decide (p' = p)) as [->|]; [|done]. rewrite Eg. simpl. set_solver. }
  case_bool_decide as E0; [subst; destruct (decide (p' = p)) as [->|]; [rewrite Eg; simpl; set_solver|done]|].
  case_bool_decide as E1; simpl.
  - rewrite dict_get_del by apply Hb. destruct (decide (p' = p)); [by rewrite E1|done].
  - rewrite dict_get_set. by destruct (decide (p' = p)).
Qed.

Lemma unsubscribe_each_spec b ps q :
  broker_ok b -> exists b', broker.unsubscribe_each ps q b = (b', Ok tt) /\ broker_ok b' /\
    forall p', subscribers_of b' p' = if decide (p' ∈ ps) then subscribers_of b p' ∖ {[ q ]} else subscribers_of b p'.
Proof.
  revert b. induction ps as [|p ps IH]; intros b Hb.
  { exists b. split_and!; [done..|]. intros p'. by rewrite decide_False by (by intros ?%elem_of_nil). }
  cbn [broker.unsubscribe_each]. destruct (unsubscribe_spec b p q Hb) as (b1 & E1 & Hb1 & H1). erewrite stx_bind_ok by exact E1.
  destruct (IH b1 Hb1) as (b2 & E2 & Hb2 & H2). exists b2. split_and!; [done..|]. intros p'. rewrite H2, H1.
  destruct (decide (p' ∈ ps)), (decide (p' = p)) as [->|Hne].
  - rewrite decide_True by (by left). set_solver.
  - by rewrite decide_True by (by right).
  - by rewrite decide_True by (by left).
  - by rewrite decide_False by (intros [?|?]%elem_of_cons; done).
Qed.

Lemma meant_none d q key op value : Forall (fun pq => q ∉ pq.2) d -> meant d q key op value = [].
Proof.
  induction 1 as [|[p qs] d Hq _ IH]; [done|]. simpl in *. rewrite IH, bool_decide_false by done. by rewrite andb_false_r.
Qed.

Lemma dict_get_in p qs d : NoDup d.*1 -> (p, qs) ∈ d -> broker.dict_get p d = Some qs.
Proof.
  induction d as [|[x y] d IH]; csimpl; [by intros _ ?%elem_of_nil|]. intros [Hx Hd]%NoDup_cons [[= -> ->]|Hin]%elem_of_cons.
  - by rewrite bool_decide_true.
  - rewrite bool_decide_false; [auto|]. intros ->. apply Hx, list_elem_of_fmap. by exists (p, qs).
Qed.

(** A closed connection hears nothing more.  [unsubscribe_all] removes the
    queue from every prefix and leaves the other subscriptions as they were, so
    that whatever is published afterwards leaves the queue unchanged. *)
Theorem unsubscribe_all_silences b queue :
  broker_ok b ->
  exists b', broker.unsubscribe_all queue b = (b', Ok tt) /\
    (forall prefix q, q ∈ subscribers_of b' prefix <-> q <> queue /\ q ∈ subscribers_of b prefix) /\
    forall key (op : pystr) (value : option pystr), waiting (broker.publish key op value b').1 queue = waiting b queue.
Proof.
  intros Hb. unfold broker.unsubscribe_all. erewrite stx_bind_ok by reflexivity.
  destruct (unsubscribe_each_spec b (_subscribers b).*1 queue Hb) as (b' & E & Hb' & Hs).
  destruct (unsubscribe_each_run b (_subscribers b).*1 queue) as (b1 & E1 & _ & Q1 & _). rewrite E in E1. injection E1 as <-.
  assert (Hsub : forall prefix q, q ∈ subscribers_of b' prefix <-> q <> queue /\ q ∈ subscribers_of b prefix).
  { intros prefix q. rewrite Hs. destruct (decide (prefix ∈ (_subscribers b).*1)) as [Hin|Hin]; [set_solver|].
    unfold subscribers_of. rewrite dict_get_none by done. simpl. set_solver. }
  exists b'. split_and!; [done|done|]. intros key op value. rewrite publish_run. cbn [fst].
  rewrite offer_all_waiting, filter_offers, meant_none.
  - rewrite take_nil, app_nil_r. unfold waiting. by rewrite Q1.
  - apply Forall_forall. intros [p qs] Hin. simpl. intros Hq. pose proof (Hsub p queue) as [Hp _].
    unfold subscribers_of at 1 in Hp. rewrite (dict_get_in p qs) in Hp by (done || apply Hb'). simpl in Hp. destruct (Hp Hq) as [? _]. done.
Qed.

End props.

(** * Witnesses *)

Section witnesses.
#[local] Instance plain_json : ChangeJson := fun key op value => key ++ op.

(** A queue subscribed to [u], and a published change of [ux]. *)
Definition broker1 : ChangeBroker := (broker.new_queue (broker.init 1)).1.
Definition queue1 : Z := stdpp.base.fresh (dom (queues (broker.init 1))).
Definition broker2 : ChangeBroker := (broker.subscribe (str "u") queue1 broker1).1.
Definition broker3 : ChangeBroker := (broker.publish (str "ux") (str "set") None broker2).1.

Lemma broker2_reached : rtc bstep (broker.init 1) broker2.
Proof.
  eapply rtc_l; [apply (bs_new _ broker1 queue1); reflexivity|].
  eapply rtc_l; [apply (bs_subscribe _ broker2 (str "u") queue1); [|reflexivity]|apply rtc_refl].
  change (queues broker1) with (<[queue1 := []]> (queues (broker.init 1))). rewrite dom_insert_L. set_solver.
Qed.

Lemma broker3_reached : rtc bstep (broker.init 1) broker3.
Proof.
  eapply rtc_r; [apply broker2_reached|]. apply (bs_publish _ _ (str "ux") (str "set") None). rewrite publish_run. unfold broker3. by rewrite publish_run.
Qed.

Lemma broker_invariant_witness : broker_ok broker3 /\ length (waiting broker3 queue1) = 1%nat.
Proof. split; [exact (proj1 (broker_invariant 1 broker3 broker3_reached))|vm_compute; reflexivity]. Defined.

Lemma broker2_ok : broker_ok broker2.
Proof.
  pose proof (ok_init 1) as H0. revert H0. induction broker2_reached as [|? ? ? Hs _ IH]; [done|]. intros Hb. apply IH. by eapply bstep_ok.
Qed.

Lemma silences_witness : exists b', broker.unsubscribe_all queue1 broker2 = (b', Ok tt) /\
  forall key (op : pystr) (value : option pystr), waiting (broker.publish key op value b').1 queue1 = [].
Proof.
  destruct (unsubscribe_all_silences broker2 queue1 broker2_ok) as (b' & E & _ & Hw). exists b'. split; [exact E|].
  intros key op value. rewrite Hw. vm_compute. reflexivity.
Defined.

End witnesses.
