(* ===== verification/Metrics.v ===== *)
(** The metrics registry: [src/imustore/metrics.py].

    Counters and gauges are incremented by integers; a histogram observes
    floating-point numbers, of which the code only uses comparison, addition and
    the printed form.  The registry-wide lock makes each method one step. *)

From Stdlib Require Import Strings.String.
From S2P Require Import Prelude PyBase KeyList Text.

(** The floating-point numbers, as far as [metrics.py] uses them. *)
Class Float := {
  float : Type;
  fzero : float;
  fadd : float -> float -> float;
  fle : float -> float -> bool;
  show_float : float -> pystr
}.

(** Comparison is transitive (also with NaN, which compares false). *)
Class FloatLaws `{Float} := {
  fle_trans x y z : fle x y = true -> fle y z = true -> fle x z = true
}.

(** The text of a byte string of ASCII characters. *)
Definition ascii_text (b : Struct.bytes) : pystr := (fun x => Byte.to_N x) <$> b.
(** [str(z)] *)
Definition show_int (z : Z) : pystr := ascii_text (dec z).

(** * Labels *)

(** The items of a [dict] of keyword arguments; names are distinct. *)
Abbreviation labels := (list (pystr * pystr)).

(** [tuple(sorted(labels.items()))]: with distinct names, sorted by name. *)
Definition _label_key (l : labels) : labels := foldr (fun kv acc => kv_set kv.1 kv.2 acc) [] l.

Fixpoint join (sep : pystr) (l : list pystr) : pystr :=
  match l with
  | [] => []
  | [x] => x
  | x :: l => x ++ sep ++ join sep l
  end.

Definition _format_labels (key extra : labels) : pystr :=
  match key ++ extra with
  | [] => []
  | pairs => str "{" ++ join (str ",") ((fun kv => kv.1 ++ str "=" ++ [34%N] ++ kv.2 ++ [34%N]) <$> pairs) ++ str "}"
  end.

(** * Series by label set: a [dict] from sorted label tuples *)

Section series.
Context {A : Type}.

Fixpoint series_get (key : labels) (s : list (labels * A)) : option A :=
  match s with
  | [] => None
  | (k, x) :: s => if bool_decide (k = key) then Some x else series_get key s
  end.

Fixpoint series_set (key : labels) (x : A) (s : list (labels * A)) : list (labels * A) :=
  match s with
  | [] => [(key, x)]
  | (k, y) :: s => if bool_decide (k = key) then (k, x) :: s else (k, y) :: series_set key x s
  end.

Lemma series_get_set key key' x s :
  series_get key' (series_set key x s) = if decide (key' = key) then Some x else series_get key' s.
Proof.
  induction s as [|[k y] s IH]; simpl.
  - case_bool_decide; destruct (decide (key' = key)); subst; done.
  - case_bool_decide as E1; simpl; case_bool_decide as E2; rewrite ?IH; destruct (decide (key' = key)); subst; done.
Qed.

End series.

(** The order of label tuples: lexicographic on the pairs. *)
Fixpoint labels_leb (a b : labels) : bool :=
  match a, b with
  | [], _ => true
  | _ :: _, [] => false
  | (k, v) :: a, (k', v') :: b =>
      str_ltb k k' || (str_eqb k k' && (str_ltb v v' || (str_eqb v v' && labels_leb a b)))
  end.

(** [sorted(d)], as the pairs in key order *)
Fixpoint insert_by {A} (key : labels) (x : A) (l : list (labels * A)) : list (labels * A) :=
  match l with
  | [] => [(key, x)]
  | (k, y) :: rest => if labels_leb key k then (key, x) :: l else (k, y) :: insert_by key x rest
  end.
Definition sorted_series {A} (s : list (labels * A)) : list (labels * A) :=
  foldr (fun kx acc => insert_by kx.1 kx.2 acc) [] s.

(** * Metrics *)

Module metrics.
Section metrics.
Context `{Float}.

(** [Counter] and [Gauge]: a number per label set. *)
Abbreviation numbers := (list (labels * Z)).
(** [Histogram]: the bucket counts, the sum and the count of the observations. *)
Record hist_state : Type := mkHist { bucket_counts : list Z; total : float; count : Z }.

Inductive metric : Type :=
| Counter (help : pystr) (_values : numbers)
| Gauge (help : pystr) (_values : numbers)
| Histogram (help : pystr) (_buckets : list float) (_state : list (labels * hist_state)).

Inductive metric_class : Type := CounterClass | GaugeClass | HistogramClass.
#[global] Instance metric_class_eq_dec : EqDecision metric_class.
Proof. solve_decision. Defined.

Definition class_of (m : metric) : metric_class :=
  match m with Counter _ _ => CounterClass | Gauge _ _ => GaugeClass | Histogram _ _ _ => HistogramClass end.
Definition kind (c : metric_class) : pystr :=
  match c with CounterClass => str "counter" | GaugeClass => str "gauge" | HistogramClass => str "histogram" end.
Definition metric_help (m : metric) : pystr :=
  match m with Counter h _ | Gauge h _ | Histogram h _ _ => h end.

(** [Counter.inc] and [Gauge.inc] on the values *)
Definition numbers_inc (amount : Z) (l : labels) (s : numbers) : numbers :=
  let key := _label_key l in series_set key (default 0 (series_get key s) + amount) s.
Definition numbers_value (l : labels) (s : numbers) : Z := default 0 (series_get (_label_key l) s).

(** [for i, edge in enumerate(self._buckets): if value <= edge: state[0][i] += 1] *)
Fixpoint bump (value : float) (edges : list float) (counts : list Z) : list Z :=
  match edges, counts with
  | edge :: edges, c :: counts => (if fle value edge then c + 1 else c) :: bump value edges counts
  | _, counts => counts
  end.

Definition new_state (edges : list float) : hist_state := mkHist (replicate (length edges) 0) fzero 0.

Definition hist_observe (edges : list float) (value : float) (l : labels) (s : list (labels * hist_state)) :
    list (labels * hist_state) :=
  let key := _label_key l in
  let state := default (new_state edges) (series_get key s) in
  series_set key (mkHist (bump value edges (bucket_counts state)) (fadd (total state) value) (count state + 1)) s.

(** ** The calls on a metric object; a method the class lacks is an
    [AttributeError] *)

Definition inc (amount : Z) (l : labels) (m : metric) : res metric :=
  match m with
  | Counter h s => Ok (Counter h (numbers_inc amount l s))
  | Gauge h s => Ok (Gauge h (numbers_inc amount l s))
  | Histogram _ _ _ => Raise AttributeError
  end.
Definition dec (amount : Z) (l : labels) (m : metric) : res metric :=
  match m with
  | Gauge h s => Ok (Gauge h (numbers_inc (- amount) l s))
  | _ => Raise AttributeError
  end.
Definition set (amount : Z) (l : labels) (m : metric) : res metric :=
  match m with
  | Gauge h s => Ok (Gauge h (series_set (_label_key l) amount s))
  | _ => Raise AttributeError
  end.
Definition value (l : labels) (m : metric) : res Z :=
  match m with
  | Counter _ s | Gauge _ s => Ok (numbers_value l s)
  | Histogram _ _ _ => Raise AttributeError
  end.
Definition observe (x : float) (l : labels) (m : metric) : res metric :=
  match m with
  | Histogram h edges s => Ok (Histogram h edges (hist_observe edges x l s))
  | _ => Raise AttributeError
  end.

(** ** [_lines] *)

Definition number_lines (name : pystr) (s : numbers) : list pystr :=
  (fun kx => name ++ _format_labels kx.1 [] ++ str " " ++ show_int kx.2) <$> sorted_series s.

Definition hist_lines (name : pystr) (edges : list float) (s : list (labels * hist_state)) : list pystr :=
  sorted_series s ≫= fun '(key, st) =>
    zip_with (fun edge c => name ++ str "_bucket" ++ _format_labels key [(str "le", show_float edge)] ++ str " " ++ show_int c)
      edges (bucket_counts st) ++
    [name ++ str "_bucket" ++ _format_labels key [(str "le", str "+Inf")] ++ str " " ++ show_int (count st);
     name ++ str "_sum" ++ _format_labels key [] ++ str " " ++ show_float (total st);
     name ++ str "_count" ++ _format_labels key [] ++ str " " ++ show_int (count st)].

Definition _lines (name : pystr) (m : metric) : list pystr :=
  match m with
  | Counter _ s | Gauge _ s => number_lines name s
  | Histogram _ edges s => hist_lines name edges s
  end.

(** * [Registry] *)

(** Metric objects are shared by name: whoever registers a name again gets the
    same object. *)
Definition Registry : Type := gmap pystr metric.

Definition new_metric (c : metric_class) (help : pystr) (buckets : list float) : metric :=
  match c with
  | CounterClass => Counter help []
  | GaugeClass => Gauge help []
  | HistogramClass => Histogram help buckets []
  end.

(** [Registry._get]; the object returned is the one kept under [name]. *)
Definition _get (c : metric_class) (name help : pystr) (buckets : list float) : St Registry metric :=
  r ← get_st;
  match r !! name with
  | None => let m := new_metric c help buckets in put_st (<[name := m]> r) ;; mret m
  | Some m => if bool_decide (class_of m = c) then mret m else raise TypeError
  end.

Definition counter (name help : pystr) : St Registry metric := _get CounterClass name help [].
Definition gauge (name help : pystr) : St Registry metric := _get GaugeClass name help [].
Definition histogram (name help : pystr) (buckets : list float) : St Registry metric := _get HistogramClass name help buckets.

(** A method call on the metric registered under [name]. *)
Definition on_metric (name : pystr) (f : metric -> res metric) : St Registry unit :=
  r ← get_st;
  match r !! name with
  | None => raise AttributeError
  | Some m => m' ← lift_res (f m); put_st (<[name := m']> r)
  end.

(** [render]: the metrics in the order of their names. *)
Definition render_metric (name : pystr) (m : metric) : list pystr :=
  (match metric_help m with [] => [] | h => [str "# HELP " ++ name ++ str " " ++ h] end) ++
  [str "# TYPE " ++ name ++ str " " ++ kind (class_of m)] ++ _lines name m.

Definition sorted_names (r : Registry) : list (pystr * metric) := foldr (fun kv acc => kv_set kv.1 kv.2 acc) [] (map_to_list r).

Definition render (r : Registry) : pystr :=
  join [10%N] (sorted_names r ≫= fun '(name, m) => render_metric name m) ++ [10%N].

End metrics.
End metrics.

(** * Properties *)

(** The order in which keyword arguments are given does not matter. *)
Lemma label_key_spec (l : labels) : NoDup l.*1 -> kv_sorted (_label_key l) /\ kv_map (_label_key l) = list_to_map l.
Proof.
  induction l as [|[k v] l IH]; csimpl; [intros _; split; [constructor|done]|]. intros [Hk Hl]%NoDup_cons.
  destruct (IH Hl) as [Hs Hm]. split; [by apply kv_set_sorted|]. rewrite kv_map_set by done. by rewrite Hm.
Qed.

Lemma label_key_perm (l l' : labels) : NoDup l.*1 -> l ≡ₚ l' -> _label_key l = _label_key l'.
Proof.
  intros Hn Hp. destruct (label_key_spec l Hn) as [Hs Hm]. assert (NoDup l'.*1) as Hn' by (by rewrite <- Hp).
  destruct (label_key_spec l' Hn') as [Hs' Hm']. apply kv_sorted_unique; [done..|]. rewrite Hm, Hm'. by apply list_to_map_proper.
Qed.

Section props.
Context `{FloatLaws}.
Implicit Types (edges : list float) (obs : list (labels * float)) (key : labels) (xs : list float).

(** A sequence of observations. *)
Definition observed edges obs : list (labels * metrics.hist_state) :=
  fold_left (fun s o => metrics.hist_observe edges o.2 o.1 s) obs [].

(** The values observed for a label set. *)
Definition values_of key obs : list float := (base.filter (fun o => _label_key o.1 = key) obs).*2.

Definition at_most (edge : float) xs : Z := Z.of_nat (length (base.filter (fun x => fle x edge = true) xs)).

(** What the histogram of a list of values is. *)
Definition histogram_of edges xs : metrics.hist_state :=
  metrics.mkHist ((fun edge => at_most edge xs) <$> edges) (fold_left fadd xs fzero) (Z.of_nat (length xs)).

Lemma at_most_snoc edge xs x : at_most edge (xs ++ [x]) = if fle x edge then at_most edge xs + 1 else at_most edge xs.
Proof.
  unfold at_most. rewrite filter_app, length_app. unfold base.filter at 2. simpl. destruct (fle x edge) eqn:E.
  - rewrite decide_True by done. simpl. lia.
  - rewrite decide_False by done. simpl. lia.
Qed.

Lemma bump_spec edges xs x :
  metrics.bump x edges ((fun edge => at_most edge xs) <$> edges) = (fun edge => at_most edge (xs ++ [x])) <$> edges.
Proof. induction edges as [|e edges IH]; [done|]. csimpl. by rewrite IH, at_most_snoc. Qed.

Lemma observed_spec edges obs key :
  series_get key (observed edges obs) =
    match values_of key obs with [] => None | xs => Some (histogram_of edges xs) end.
Proof.
  induction obs as [|[l x] obs IH] using rev_ind; [done|].
  unfold observed. rewrite fold_left_app. simpl. fold (observed edges obs). unfold metrics.hist_observe. rewrite series_get_set.
  unfold values_of in *. rewrite filter_app, fmap_app, filter_cons, filter_nil. simpl. destruct (decide (key = _label_key l)) as [->|Hne].
  - rewrite decide_True by done. csimpl. rewrite IH. set (xs := (base.filter _ obs).*2).
    assert (Hst : default (metrics.new_state edges) (match xs with [] => None | _ => Some (histogram_of edges xs) end) = histogram_of edges xs).
    { destruct xs as [|y ys]; [|done]. simpl. unfold metrics.new_state, histogram_of, at_most. simpl. f_equal.
      clear. induction edges as [|e edges IHe]; [done|]. csimpl. by rewrite IHe. }
    destruct xs as [|y ys] eqn:Ex; rewrite <- Ex in *; clearbody xs; rewrite Hst; cbn [metrics.bucket_counts metrics.total metrics.count histogram_of]; rewrite bump_spec.
    + subst. done.
    + destruct (xs ++ [x]) as [|z zs] eqn:Ez; [by destruct xs|]. rewrite <- Ez. f_equal. unfold histogram_of.
      rewrite fold_left_app, length_app. simpl. f_equal. lia.
  - rewrite decide_False by done. by rewrite app_nil_r.
Qed.

Lemma at_most_mono xs e e' : fle e e' = true -> at_most e xs <= at_most e' xs.
Proof.
  intros He. unfold at_most. induction xs as [|x xs IH]; [done|]. rewrite !filter_cons.
  destruct (decide (fle x e = true)) as [Hx|Hx].
  - rewrite decide_True by (by eapply fle_trans). simpl. lia.
  - destruct (decide (fle x e' = true)); simpl; lia.
Qed.

(** Histograms are exact and cumulative.  After any sequence of observations
    under any label sets, the state kept for a label set counts, for each bucket
    edge, exactly the observations that do not exceed it, and their number and
    running sum; with ascending edges the bucket counts ascend and none exceeds
    the count, as the exposition format demands. *)
Theorem histogram_exact edges obs key :
  StronglySorted (fun e e' => fle e e' = true) edges ->
  series_get key (observed edges obs) = match values_of key obs with [] => None | xs => Some (histogram_of edges xs) end /\
  forall xs, StronglySorted Z.le (metrics.bucket_counts (histogram_of edges xs)) /\
    Forall (fun c => c <= metrics.count (histogram_of edges xs)) (metrics.bucket_counts (histogram_of edges xs)).
Proof.
  intros Hs. split; [apply observed_spec|]. intros xs. cbn [metrics.bucket_counts metrics.count histogram_of]. split.
  - induction Hs as [|e edges Hs IH Hall]; csimpl; constructor; [done|]. apply Forall_fmap. eapply Forall_impl; [exact Hall|].
    intros e' He. by apply at_most_mono.
  - apply Forall_fmap, Forall_forall. intros e _. unfold at_most. simpl. pose proof (length_filter (fun x => fle x e = true) xs). lia.
Qed.

End props.

Section witnesses.

(** Whole numbers as measurements. *)
#[local] Instance int_float : Float := {| float := Z; fzero := 0; fadd := Z.add; fle := Z.leb; show_float := show_int |}.
#[local] Instance int_float_laws : FloatLaws.
Proof. constructor. intros x y z. simpl. lia. Qed.

Definition get_label : labels := [(str "command", str "get")].
Definition edges3 : list (@float int_float) := [1; 5; 10].
Definition obs4 : list (labels * @float int_float) := [(get_label, 3); ([], 1); (get_label, 7); (get_label, 20)].

Lemma histogram_exact_witness : series_get get_label (observed edges3 obs4) = Some (metrics.mkHist [0; 1; 2] 30 3).
Proof.
  destruct (histogram_exact edges3 obs4 get_label) as [E _].
  - repeat constructor.
  - rewrite E. vm_compute. reflexivity.
Defined.

End witnesses.
