(* ===== verification/TableDb.v ===== *)
(** Databases and transactions as tables of values, for any lawful codec, and
    [TextCodec] ([src/imustore/interface.py], [codec.py]). *)

From S2P Require Import Prelude PyBase Struct Text SimDisk Locking Physical PhysicalFacts Recovery KeyList Logical Pickle BPlusTree Index BPlusIndex.
From S2P Require Import Engine Session Database Transactions.

(** A database of values: what [DBDB] with a lawful codec does, in terms of the
    table of values it holds. *)

(** Which keys a database of such values holds. *)
Class KeyOk (V : Type) := key_ok : pystr -> Prop.

(** The bindings [kvs] are the encodings of the table [T]. *)
Definition stored {V : Type} `{Codec V} `{KeyOk V} (T : list (pystr * V)) (kvs : kvlist) : Prop :=
  Forall2 (fun a b => a.1 = b.1 /\ encode a.2 = Ok b.2 /\ key_ok a.1) T kvs.

Section stored.
Context {V : Type} `{CodecLaws V} `{KeyOk V}.
Implicit Types (T : list (pystr * V)) (kvs : kvlist) (k : pystr) (v : V) (p : bytes).

Lemma stored_length T kvs : stored T kvs -> length T = length kvs.
Proof. apply Forall2_length. Qed.

Lemma stored_keys T kvs : stored T kvs -> T.*1 = kvs.*1.
Proof. induction 1 as [|[a b] [c d] T kvs (Ha & _) _ IH]; [done|]. csimpl in *. by rewrite Ha, IH. Qed.

(** A table and its encoding determine each other. *)
Lemma stored_fun T kvs kvs' : stored T kvs -> stored T kvs' -> kvs = kvs'.
Proof.
  intros Hs. revert kvs'. induction Hs as [|[a b] [c d] T kvs (Ha & Hb & _) _ IH]; intros kvs' H'; inversion H' as [|? [c' d'] ? ? (Ha' & Hb' & _) Hr]; [done|].
  simpl in *. f_equal; [congruence|auto].
Qed.

Lemma stored_inj T T' kvs : stored T kvs -> stored T' kvs -> T = T'.
Proof.
  intros Hs. revert T'. induction Hs as [|[a b] [c d] T kvs (Ha & Hb & _) _ IH]; intros T' H'; inversion H' as [|[a' b'] ? ? ? (Ha' & Hb' & _) Hr]; [done|].
  simpl in *. apply decode_encode in Hb, Hb'. f_equal; [congruence|auto].
Qed.

Lemma stored_sorted T kvs : stored T kvs -> kv_sorted kvs -> kv_sorted T.
Proof. intros Hs. unfold kv_sorted. by rewrite (stored_keys _ _ Hs). Qed.

Lemma stored_get T kvs k :
  stored T kvs ->
  match kv_get k T with
  | Some v => exists p, kv_get k kvs = Some p /\ encode v = Ok p
  | None => kv_get k kvs = None
  end.
Proof.
  induction 1 as [|[a b] [c d] T kvs (Ha & Hb & _) _ IH]; [done|]. simpl in *. subst c. destruct (decide (k = a)); eauto.
Qed.

Lemma stored_set T kvs k v p :
  key_ok k -> encode v = Ok p -> stored T kvs -> stored (kv_set k v T) (kv_set k p kvs).
Proof.
  intros Hk Hv. induction 1 as [|[a b] [c d] T kvs (Ha & Hb & Hc) HT IH]; simpl in *; [by repeat constructor|]. subst c.
  destruct (decide (str_lt k a)); [by repeat constructor|]. destruct (decide (k = a)); by repeat constructor.
Qed.

Lemma stored_del T kvs k : stored T kvs -> stored (kv_del k T) (kv_del k kvs).
Proof.
  induction 1 as [|[a b] [c d] T kvs (Ha & Hb & Hc) HT IH]; simpl in *; [constructor|]. subst c.
  destruct (decide (k = a)); [done|]. by constructor.
Qed.

Lemma stored_filter (P : pystr -> bool) T kvs :
  stored T kvs -> stored (base.filter (fun a => P a.1 = true) T) (base.filter (fun b => P b.1 = true) kvs).
Proof.
  induction 1 as [|[a b] [c d] T kvs (Ha & Hb & Hc) HT IH]; [constructor|]. simpl in *. subst c. rewrite !filter_cons. simpl.
  destruct (decide (P a = true)); [by constructor|done].
Qed.

Lemma stored_decode T kvs : stored T kvs -> snapshot.decode_all (V := V) (yields kvs) = Ok T.
Proof.
  induction 1 as [|[a b] [c d] T kvs (Ha & Hb & _) _ IH]; [done|]. simpl in *. subst c.
  rewrite (decode_encode b d Hb). simpl. by rewrite IH.
Qed.

Lemma with_prefix_yields prefix kvs :
  snapshot.with_prefix prefix (yields kvs) =
    yields (base.filter (fun kv => match prefix with None => true | Some p => startswith kv.1 p end = true) kvs).
Proof.
  unfold snapshot.with_prefix, yields. induction kvs as [|[k v] kvs IH]; [done|]. csimpl. rewrite !filter_cons. simpl.
  destruct (decide _); csimpl; by rewrite IH.
Qed.

End stored.

Section db.
Context `{Pickle} {N : Type} `{IndexSpec N} {V : Type} `{CodecLaws V} `{KeyOk V}.
Implicit Types (d : DBDB N) (m : _Meta) (B T : list (pystr * V)) (k : pystr) (v : V).

(** Any [n] bindings are within the index's limits. *)
Definition fits_n (n : nat) : Prop := forall kvs : kvlist, (length kvs <= n)%nat -> ix_fits kvs.

(** An open database with [B] committed and [T] current. *)
Definition db_holds d m B T : Prop :=
  exists base kvs, handle (db_tree d) m base kvs /\ stored B base /\ stored T kvs /\ file_open (dbdb.the_storage d).

Lemma db_open d m B T : db_holds d m B T -> dbdb._assert_open d = (d, Ok tt).
Proof. intros (base & kvs & _ & _ & _ & Ho). unfold dbdb._assert_open. run. unfold storage.closed. by rewrite Ho. Qed.

Lemma db_sorted d m B T : db_holds d m B T -> kv_sorted T.
Proof.
  intros (base & kvs & [_ _ [Ht _] _ _] & _ & HT & _). eapply stored_sorted; [exact HT|]. by eapply ix_tree_sorted.
Qed.

Lemma open_same d (t : Tree N) : same_file (dbdb.the_storage d) (_storage t) -> file_open (dbdb.the_storage d) -> file_open (_storage t).
Proof. apply same_file_open. Qed.

Lemma db_getitem d m B T k :
  db_holds d m B T -> k <> [] ->
  exists d', dbdb.getitem (V := V) k d = (d', match kv_get k T with Some v => Ok v | None => Raise (KeyError k) end) /\
    db_holds d' m B T.
Proof.
  intros Hd Hk. pose proof Hd as (base & kvs & Hh & HB & HT & Ho). destruct (get_spec _ _ _ _ k Hh) as (t' & E & Hh' & Hsf).
  exists (dbdb.set_tree t' d). split.
  - unfold dbdb.getitem. erewrite stx_bind_ok by (by eapply db_open). destruct k as [|c k]; [done|]. erewrite stx_bind_ok by reflexivity.
    pose proof (stored_get T kvs (c :: k) HT) as Hg. destruct (kv_get (c :: k) T) as [v|].
    + destruct Hg as (p & Hp & Hv). rewrite Hp in E. erewrite stx_bind_ok by (apply zoom_eq; exact E). unfold lift_res. simpl.
      by rewrite (decode_encode v p Hv).
    + rewrite Hg in E. by erewrite stx_bind_raise by (apply zoom_eq; exact E).
  - exists base, kvs. split_and!; try done. by eapply open_same.
Qed.

Lemma db_setitem_file d m B T k v :
  db_holds d m B T -> k <> [] -> key_ok k -> (exists p, encode v = Ok p) -> fits_n (S (length T)) ->
  exists d', dbdb.setitem k v d = (d', Ok tt) /\ db_holds d' m B (kv_set k v T) /\ same_file (dbdb.the_storage d) (dbdb.the_storage d').
Proof.
  intros Hd Hk Hek [p Hv] Hf. pose proof Hd as (base & kvs & Hh & HB & HT & Ho).
  destruct (set_spec _ _ _ _ k p Hh) as (t' & E & Hh' & _ & Hsf).
  { apply Hf. rewrite (stored_length _ _ HT), kv_set_length; [destruct (kv_get k kvs); lia|]. destruct Hh as [_ _ [Ht _] _ _]. by eapply ix_tree_sorted. }
  exists (dbdb.set_tree t' d). split; [|split; [|done]].
  - unfold dbdb.setitem. erewrite stx_bind_ok by (by eapply db_open). destruct k as [|c k]; [done|]. erewrite stx_bind_ok by reflexivity.
    erewrite stx_bind_ok by (unfold lift_res; simpl; rewrite Hv; reflexivity). by apply zoom_eq.
  - exists base, (kv_set k p kvs). split_and!; try done; [by apply stored_set|by eapply open_same].
Qed.

Lemma db_setitem d m B T k v :
  db_holds d m B T -> k <> [] -> key_ok k -> (exists p, encode v = Ok p) -> fits_n (S (length T)) ->
  exists d', dbdb.setitem k v d = (d', Ok tt) /\ db_holds d' m B (kv_set k v T).
Proof. intros Hd Hk Hek Hv Hf. destruct (db_setitem_file d m B T k v Hd Hk Hek Hv Hf) as (d' & E & Hd' & _). by exists d'. Qed.

Lemma db_delitem_file d m B T k :
  db_holds d m B T -> k <> [] ->
  exists d', dbdb.delitem k d = (d', match kv_get k T with Some _ => Ok tt | None => Raise (KeyError k) end) /\
    db_holds d' m B (kv_del k T) /\ storage.is_locked (dbdb.the_storage d') = true /\ same_file (dbdb.the_storage d) (dbdb.the_storage d').
Proof.
  intros Hd Hk. pose proof Hd as (base & kvs & Hh & HB & HT & Ho).
  destruct (delete_spec _ _ _ _ k Hh) as (t' & Hh' & Hl & Hsf & E). exists (dbdb.set_tree t' d). split_and!.
  - unfold dbdb.delitem. erewrite stx_bind_ok by (by eapply db_open). destruct k as [|c k]; [done|]. erewrite stx_bind_ok by reflexivity.
    unfold dbdb.on_tree. rewrite (zoom_eq _ _ _ _ _ _ E). pose proof (stored_get T kvs (c :: k) HT) as Hg.
    destruct (kv_get (c :: k) T) as [v|]; [destruct Hg as (p & -> & _)|rewrite Hg]; done.
  - exists base, (kv_del k kvs). split_and!; try done; [by apply stored_del|by eapply open_same].
  - done.
  - done.
Qed.

Lemma db_delitem d m B T k :
  db_holds d m B T -> k <> [] ->
  exists d', dbdb.delitem k d = (d', match kv_get k T with Some _ => Ok tt | None => Raise (KeyError k) end) /\
    db_holds d' m B (kv_del k T) /\ storage.is_locked (dbdb.the_storage d') = true.
Proof. intros Hd Hk. destruct (db_delitem_file d m B T k Hd Hk) as (d' & E & Hd' & Hl & _). by exists d'. Qed.

(** A commit publishes the current texts, or fails on the disk and leaves the
    previous commit there. *)
Lemma db_commit d m B T d' (r : res unit) :
  db_holds d m B T -> dbdb.commit d = (d', r) ->
  (r = Ok tt /\ exists m', db_holds d' m' T T /\ storage.is_locked (dbdb.the_storage d') = false) \/
  ((r = Raise SimCrash \/ r = Raise StructError) /\
   exists m' base, stored B base /\ opens (N := N) (disk.durable_bytes (_f (dbdb.the_storage d'))) m' base).
Proof.
  intros Hd E. pose proof Hd as (base & kvs & Hh & HB & HT & Ho). unfold dbdb.commit in E.
  erewrite stx_bind_ok in E by (by eapply db_open). unfold dbdb.on_tree in E.
  destruct (logical.commit (db_tree d)) as [t' r'] eqn:Ec. rewrite (zoom_eq _ _ _ _ _ _ Ec) in E. injection E as <- <-.
  pose proof (commit_open _ _ _ _ _ _ Hh Ec Ho) as Ho'.
  destruct (commit_spec _ _ _ _ Hh) as [(t1 & m' & E1 & Hh' & Hl & _)|[(t1 & E1 & Hj & Hb)|(t1 & E1 & _ & Hop)]];
    rewrite E1 in Ec; injection Ec as <- <-.
  - left. split; [done|]. exists m'. split; [|done]. by exists kvs, kvs.
  - right. split; [by right|]. exists m, base. split; [done|]. apply open_spec; [apply Hj|exact Hb|apply Hh].
  - right. split; [by left|]. by exists m, base.
Qed.

(** Only a disk that was set to fail does. *)
Lemma db_commit_armed d m B T d' : db_holds d m B T -> dbdb.commit d = (d', Raise SimCrash) -> _crash_at_flush (_f (dbdb.the_storage d)) <> None.
Proof.
  intros Hd E. pose proof Hd as (base & kvs & Hh & _). unfold dbdb.commit in E.
  erewrite stx_bind_ok in E by (by eapply db_open). unfold dbdb.on_tree in E.
  destruct (commit_spec _ _ _ _ Hh) as [(t1 & m' & E1 & _)|[(t1 & E1 & _)|(t1 & E1 & Hc & _)]]; rewrite (zoom_eq _ _ _ _ _ _ E1) in E; [discriminate..|exact Hc].
Qed.

Lemma db_len d m B T : db_holds d m B T -> exists d', dbdb.len d = (d', Ok (Z.of_nat (length T))) /\ db_holds d' m B T.
Proof.
  intros Hd. pose proof Hd as (base & kvs & Hh & HB & HT & Ho). destruct (length_spec _ _ _ _ Hh) as (t' & E & Hh' & Hsf).
  exists (dbdb.set_tree t' d). split.
  - unfold dbdb.len. erewrite stx_bind_ok by (by eapply db_open). unfold dbdb.on_tree. rewrite (zoom_eq _ _ _ _ _ _ E).
    by rewrite (stored_length _ _ HT).
  - exists base, kvs. split_and!; try done. by eapply open_same.
Qed.

(** The entries a prefix selects. *)
Definition with_key_prefix (prefix : option pystr) (T : list (pystr * V)) : list (pystr * V) :=
  base.filter (fun a => match prefix with None => true | Some p => startswith a.1 p end = true) T.

Lemma db_scan d m B T (prefix : option pystr) :
  db_holds d m B T -> prefix <> Some [] ->
  exists d', dbdb.scan (V := V) prefix None None d = (d', Ok (with_key_prefix prefix T)) /\ db_holds d' m B T.
Proof.
  intros Hd Hp. pose proof Hd as (base & kvs & Hh & HB & HT & Ho). destruct (range_items_spec _ _ _ _ None None Hh) as (t' & E & Hh' & Hsf).
  exists (dbdb.set_tree t' d). split.
  - unfold dbdb.scan.
    assert (kv_range None None kvs = kvs) as Er.
    { clear. induction kvs as [|[k v] kvs IH]; [done|]. rewrite kv_range_cons, IH. done. }
    rewrite Er in E. erewrite stx_bind_ok by (by eapply db_open).
    assert (forall q : DBDB N, dbdb.validate_opt prefix q = (q, Ok tt)) as Hv by (intros q; destruct prefix as [[|c p]|]; [exfalso; by apply Hp|done..]).
    erewrite stx_bind_ok by apply Hv. do 2 (erewrite stx_bind_ok by reflexivity). erewrite stx_bind_ok by (apply zoom_eq; exact E).
    unfold lift_res. rewrite with_prefix_yields. rewrite (stored_decode (with_key_prefix prefix T)); [done|].
    apply (stored_filter (fun k => match prefix with None => true | Some p => startswith k p end)). done.
  - exists base, kvs. split_and!; try done. by eapply open_same.
Qed.

Lemma db_keys d m B T (prefix : option pystr) :
  db_holds d m B T -> prefix <> Some [] ->
  exists d', dbdb.keys (V := V) prefix None None d =
      (d', Ok (base.filter (fun a => match prefix with None => true | Some p => startswith a.1 p end = true) T).*1) /\ db_holds d' m B T.
Proof.
  intros Hd Hp. destruct (db_scan d m B T prefix Hd Hp) as (d' & E & Hd'). exists d'. split; [|done].
  unfold dbdb.keys. by erewrite stx_bind_ok by exact E.
Qed.

End db.

(** Transactions over a table of values: while a transaction is open it shows the
    committed table with its own writes on top, and committing makes that table
    the committed one. *)

(** ** Overlays *)

Lemma kv_sorted_ext {A} (l r : list (pystr * A)) : kv_sorted l -> kv_sorted r -> (forall x, kv_get x l = kv_get x r) -> l = r.
Proof. intros Hl Hr Hx. apply kv_sorted_unique; [done..|]. apply map_eq. intros x. by rewrite !kv_map_lookup. Qed.

Lemma ov_apply_set o k p kvs :
  NoDup o.*1 -> kv_sorted kvs -> ov_apply (ov_set o k (Some p)) kvs = kv_set k p (ov_apply o kvs).
Proof.
  intros Hn Hs. pose proof (ov_apply_sorted o kvs Hs) as Ha.
  apply kv_sorted_ext; [by apply ov_apply_sorted|by apply kv_set_sorted|]. intros x.
  rewrite ov_apply_get by (done || by apply ov_set_nodup). rewrite kv_get_set by done. rewrite ov_get_set, ov_apply_get by done. by destruct (decide (x = k)).
Qed.

Lemma ov_apply_del o k kvs :
  NoDup o.*1 -> kv_sorted kvs -> ov_apply (ov_set o k None) kvs = kv_del k (ov_apply o kvs).
Proof.
  intros Hn Hs. pose proof (ov_apply_sorted o kvs Hs) as Ha.
  apply kv_sorted_ext; [by apply ov_apply_sorted|by apply kv_del_sorted|]. intros x.
  rewrite ov_apply_get by (done || by apply ov_set_nodup). rewrite kv_get_del by done. rewrite ov_get_set, ov_apply_get by done. by destruct (decide (x = k)).
Qed.

Lemma ov_set_length o k p : (length (ov_set o k p) <= S (length o))%nat.
Proof. induction o as [|[x q] o IH]; simpl; [lia|]. case_bool_decide; simpl; lia. Qed.

Section tx.
Context `{Pickle} (order : nat) (Horder : (3 <= order)%nat) {V : Type} `{CodecLaws V} `{KeyOk V}.
#[local] Hint Extern 0 (Index bnode) => exact (bplus_index order) : typeclass_instances.
#[local] Hint Extern 0 (IndexSpec bnode) => exact (bplus_spec order Horder) : typeclass_instances.
Implicit Types (d : DBDB bnode) (tx : Transaction) (m : _Meta) (B T : list (pystr * V)) (k : pystr) (v : V) (n : nat).

(** A transaction of at most [n] writes that began at [B] and now shows [T]. *)
Definition in_tx (s : DBDB bnode * Transaction) m B T n : Prop :=
  exists base sn, handle (db_tree s.1) m base base /\ stored B base /\ file_open (dbdb.the_storage s.1) /\ db_path s.1 <> None /\
    _base s.2 = Some sn /\ sn_closed sn = false /\ sn_root_ref sn = Ref None (root_address m) /\
    NoDup (_overlay s.2).*1 /\ stored T (ov_apply (_overlay s.2) base) /\ (length (_overlay s.2) <= n)%nat.

Lemma in_tx_sorted s m B T n : in_tx s m B T n -> kv_sorted T.
Proof.
  intros (base & sn & [_ [Hb _] _ _ _] & _ & _ & _ & _ & _ & _ & _ & HT & _). eapply stored_sorted; [exact HT|].
  apply ov_apply_sorted. by eapply ix_tree_sorted.
Qed.

Lemma base_sorted d m base kvs : handle (db_tree d) m base kvs -> kv_sorted base.
Proof. intros [_ [Hb _] _ _ _]. by eapply ix_tree_sorted. Qed.

Lemma in_tx_weaken s m B T n n' : (n <= n')%nat -> in_tx s m B T n -> in_tx s m B T n'.
Proof. intros Hn (base & sn & ? & ? & ? & ? & ? & ? & ? & ? & ? & Hl). exists base, sn. split_and!; try done. lia. Qed.

Lemma tx_enter d m B :
  db_holds d m B B -> db_path d <> None ->
  exists s, transaction.__enter__ (d, mkTransaction None []) = (s, Ok tt) /\ in_tx s m B B 0.
Proof.
  intros Hd Hp. pose proof Hd as (base & kvs & Hh & HB & HT & Ho). assert (kvs = base) as -> by (by eapply stored_fun).
  destruct (db_path d) as [path|] eqn:Ep; [|done].
  destruct (take_snapshot_run d m base base path Hh Ep Ho) as (t' & sn & E & Hh' & Hsf & Hr & Hc & Hcl & _).
  exists (mkDBDB (db_path d) t' (_open_snapshots d + 1), mkTransaction (Some sn) []). split.
  - unfold transaction.__enter__, transaction._begin. erewrite stx_bind_ok by reflexivity. cbn [snd _base].
    erewrite stx_bind_ok.
    2:{ unfold transaction.on_db. apply zoom_eq. by eapply db_open. }
    erewrite stx_bind_ok by (unfold transaction.on_db; apply zoom_eq; exact E). done.
  - exists base, sn. split_and!; try done; [by eapply same_file_open|by rewrite Ep|constructor].
Qed.

Lemma tx_contains s m B T n k : in_tx s m B T n -> transaction.contains k s = (s, Ok (if kv_get k T then true else false)).
Proof.
  destruct s as [d tx]. intros (base & sn & Hh & HB & Ho & Hp & Hb & Hc & Hpin & Hn & HT & Hlen). simpl in *.
  pose proof (stored_get T _ k HT) as Hg. rewrite ov_apply_get in Hg by (done || by eapply base_sorted).
  unfold transaction.contains. erewrite stx_bind_ok by reflexivity. cbn [snd]. rewrite Hb. unfold lift_res, transaction.file, snapshot.contains. cbn [fst].
  erewrite raw_spec by (eapply handle_pins; [exact Hh|exact Hpin]). destruct (ov_get (_overlay tx) k) as [[p|]|].
  - by destruct (kv_get k T).
  - destruct (kv_get k T); [by destruct Hg as (p & ? & _)|done].
  - cbn [mbind result_bind]. destruct (kv_get k T); [by destruct Hg as (p & -> & _)|by rewrite Hg].
Qed.

Lemma tx_get_or_none s m B T n k v0 :
  in_tx s m B T n -> k <> [] -> transaction.get_or_none k v0 s = (s, Ok (default v0 (kv_get k T))).
Proof.
  destruct s as [d tx]. intros (base & sn & Hh & HB & Ho & Hp & Hb & Hc & Hpin & Hn & HT & Hlen) Hk. simpl in *.
  pose proof (stored_get T _ k HT) as Hg. rewrite ov_apply_get in Hg by (done || by eapply base_sorted).
  unfold transaction.get_or_none, try_with, transaction.get. destruct k as [|ch k]; [done|].
  erewrite stx_bind_ok by reflexivity. erewrite stx_bind_ok by reflexivity. cbn [snd fst]. rewrite Hb. unfold snapshot.getitem, transaction.file. cbn [fst].
  erewrite raw_spec by (eapply handle_pins; [exact Hh|exact Hpin]). destruct (ov_get (_overlay tx) (ch :: k)) as [[p|]|].
  - destruct (kv_get (ch :: k) T); [destruct Hg as (p' & [= ->] & Hv)|done]. unfold lift_res. by rewrite (decode_encode _ _ Hv).
  - destruct (kv_get (ch :: k) T); [by destruct Hg as (p & ? & _)|done].
  - unfold lift_res. cbn [mbind result_bind]. destruct (kv_get (ch :: k) T); [destruct Hg as (p & -> & Hv); by rewrite (decode_encode _ _ Hv)|by rewrite Hg].
Qed.

Lemma tx_set s m B T n k v p :
  in_tx s m B T n -> k <> [] -> key_ok k -> encode v = Ok p ->
  exists s', transaction.set k v s = (s', Ok tt) /\ in_tx s' m B (kv_set k v T) (S n).
Proof.
  destruct s as [d tx]. intros (base & sn & Hh & HB & Ho & Hp & Hb & Hc & Hpin & Hn & HT & Hlen) Hk Hok Hv. simpl in *.
  eexists. split.
  - unfold transaction.set. destruct k as [|ch k]; [done|]. erewrite stx_bind_ok by reflexivity.
    erewrite stx_bind_ok by (unfold lift_res; rewrite Hv; reflexivity). erewrite stx_bind_ok by reflexivity. reflexivity.
  - exists base, sn. simpl. split_and!; try done; [by apply ov_set_nodup| |pose proof (ov_set_length (_overlay tx) k (Some p)); lia].
    rewrite ov_apply_set by (done || by eapply base_sorted). by apply stored_set.
Qed.

Lemma tx_delete s m B T n k :
  in_tx s m B T n -> k <> [] -> is_Some (kv_get k T) ->
  exists s', transaction.delete k s = (s', Ok tt) /\ in_tx s' m B (kv_del k T) (S n).
Proof.
  intros Hin Hk [v Hv]. pose proof (tx_contains _ _ _ _ _ k Hin) as Ec. rewrite Hv in Ec. destruct s as [d tx].
  destruct Hin as (base & sn & Hh & HB & Ho & Hp & Hb & Hc & Hpin & Hn & HT & Hlen). simpl in *.
  eexists. split.
  - unfold transaction.delete. destruct k as [|ch k]; [done|]. erewrite stx_bind_ok by reflexivity.
    erewrite stx_bind_ok by exact Ec. cbv iota. erewrite stx_bind_ok by reflexivity. reflexivity.
  - exists base, sn. simpl. split_and!; try done; [by apply ov_set_nodup| |pose proof (ov_set_length (_overlay tx) k None); lia].
    rewrite ov_apply_del by (done || by eapply base_sorted). by apply stored_del.
Qed.

(** The state after a transaction: the table [T] is committed, or the disk failed
    and still holds [B]. *)
Definition tx_outcome m B T (d' : DBDB bnode) (r : res unit) : Prop :=
  (r = Ok tt /\ exists m', db_holds d' m' T T /\ db_path d' <> None) \/
  ((r = Raise SimCrash \/ r = Raise StructError) /\
   exists m' base, stored B base /\ opens (N := bnode) (disk.durable_bytes (_f (dbdb.the_storage d'))) m' base).

Lemma tx_commit s m B T n :
  in_tx s m B T n -> Z.of_nat (length B + n) < 2 ^ 64 ->
  exists d' tx' r, transaction.__exit__ false s = ((d', tx'), r) /\ tx_outcome m B T d' r.
Proof.
  destruct s as [d tx]. intros (base & sn & Hh & HB & Ho & Hp & Hb & Hc & Hpin & Hn & HT & Hlen) Hf. cbn [fst snd] in *.
  unfold transaction.__exit__. pose proof (stored_length _ _ HB) as Hl.
  destruct (_overlay tx) as [|e o] eqn:Eo.
  - simpl in HT. assert (T = B) as -> by (by eapply stored_inj). unfold transaction.commit, try_finally.
    erewrite stx_bind_ok by reflexivity. cbn [snd]. rewrite Eo. unfold mret at 1, stx_ret at 1.
    rewrite (close_base_spec d tx sn Hb Hc). do 3 eexists. split; [reflexivity|]. left. split; [done|]. exists m. split; [|done].
    exists base, base. by split_and!.
  - pose proof (tx_commit_spec order Horder d tx m base base sn base Hh Hb Hc (handle_pins order Horder _ _ _ _ sn Hh Hpin)) as Hs. rewrite Eo in Hs.
    specialize (Hs ltac:(done)). rewrite (proj2 (first_conflict_none base base _)) in Hs by done.
    destruct Hs as [(d' & m' & -> & Hh' & _ & Hp' & Hop & _)|[(d' & -> & Hj & Hb' & _)|(d' & -> & _ & Hop)]]; [simpl in *; lia|..];
      do 3 eexists; (split; [reflexivity|]).
    + left. split; [done|]. exists m'. split; [|by rewrite Hp']. exists (ov_apply (e :: o) base), (ov_apply (e :: o) base). split_and!; try done. by apply Hop.
    + right. split; [by right|]. exists m, base. split; [done|]. apply open_spec; [apply Hj|exact Hb'|apply Hh].
    + right. split; [by left|]. by exists m, base.
Qed.

Lemma tx_abort s m B T n :
  in_tx s m B T n -> exists d' tx', transaction.__exit__ true s = ((d', tx'), Ok tt) /\ db_holds d' m B B /\ db_path d' <> None.
Proof.
  destruct s as [d tx]. intros (base & sn & Hh & HB & Ho & Hp & Hb & Hc & Hpin & Hn & HT & Hlen). cbn [fst snd] in *.
  unfold transaction.__exit__, transaction.abort. erewrite stx_bind_ok by reflexivity. cbn [fst snd].
  rewrite (close_base_spec d (mkTransaction (_base tx) []) sn Hb Hc). do 2 eexists. split; [reflexivity|]. split; [|done]. exists base, base. by split_and!.
Qed.

End tx.

(** [TextCodec] of [src/imustore/codec.py], on [str] values. *)

#[global] Instance TextCodec : Codec pystr := {|
  encode := utf8_encode;
  decode := utf8_decode
|}.

#[global] Instance TextCodec_laws : CodecLaws pystr.
Proof. constructor. intros s b. apply utf8_roundtrip. Qed.

(** A server's table of texts: keys and values came from UTF-8. *)
Abbreviation texts := (list (pystr * pystr)).

Definition encodable (s : pystr) : Prop := exists b, utf8_encode s = Ok b.

#[global] Instance text_keys : KeyOk pystr := encodable.
