(* ===== verification/Json.v ===== *)
(** JSON values, as far as [src/imustore/collection.py] looks at them.

    A [dict] is listed with its keys in order: nothing here depends on the order,
    and [json.dumps] is called with [sort_keys].  [float] and the text that
    [json.dumps] produces are the interface [JsonLib]. *)

From S2P Require Import Prelude PyBase Struct Database.

Inductive json_of (F : Type) : Type :=
| JNull
| JBool (b : bool)
| JInt (z : Z)
| JFloat (x : F)
| JStr (s : pystr)
| JList (l : list (json_of F))
| JDict (d : list (pystr * json_of F)).
Arguments JNull {F}.
Arguments JBool {F} b.
Arguments JInt {F} z.
Arguments JFloat {F} x.
Arguments JStr {F} s.
Arguments JList {F} l.
Arguments JDict {F} d.

(** Python's [float], and [json.dumps(value, sort_keys=True)]. *)
Class JsonLib := {
  jfloat : Type;
  (** [int(x)] when [x.is_integer()] *)
  as_integer : jfloat -> option Z;
  (** [a + b] and [a >= b] on numbers *)
  num_add : Z + jfloat -> Z + jfloat -> res (Z + jfloat);
  num_ge : Z + jfloat -> Z + jfloat -> bool;
  json_dumps : json_of jfloat -> pystr
}.

Abbreviation json := (json_of jfloat).
Abbreviation number := (Z + jfloat)%type.

(** Comparing numbers is transitive, and the text of a value has no control
    character: [json.dumps] escapes them. *)
Class JsonLibLaws `{JsonLib} := {
  num_ge_trans a b c : num_ge a b = true -> num_ge b c = true -> num_ge a c = true;
  json_no_nul v : 0%N ∉ json_dumps v
}.

Section json.
Context `{JsonLib}.

Definition of_number (n : number) : json := match n with inl z => JInt z | inr x => JFloat x end.

(** A value used as a number; [bool] is a kind of [int]. *)
Definition to_number (v : json) : res number :=
  match v with
  | JInt z => Ok (inl z)
  | JFloat x => Ok (inr x)
  | JBool b => Ok (inl (if b then 1 else 0))
  | _ => Raise TypeError
  end.

Fixpoint dict_lookup (d : list (pystr * json)) (field : pystr) : option json :=
  match d with
  | [] => None
  | (k, v) :: d => if bool_decide (k = field) then Some v else dict_lookup d field
  end.

End json.

(** [JsonCodec] can write strings and numbers. *)
Class JsonCodecLaws `{JsonLib} `{!Codec json} := {
  encode_str s : exists b, encode (JStr s : json) = Ok b;
  encode_number e : exists b, encode (of_number e) = Ok b
}.
