(* ===== verification/Collection.v ===== *)
(** Document collections with secondary indexes, queries and time to live:
    [src/imustore/collection.py].

    Each method is one step on the collection and its database; generators are
    run to the end where they are made, which is how the methods use them, since
    nothing is written while one is consumed.  The injected clock is the sequence
    of values its calls return. *)

From Stdlib Require Import Strings.String.
From S2P Require Import Prelude PyBase Struct SimDisk Locking Physical Recovery KeyList Logical Pickle Index.
From S2P Require Import Text Database Json.

(** * Keys *)

Definition NUL : N := 0.
Definition _RESERVED : pystr := [NUL].
Definition _INDEX_PREFIX : pystr := NUL :: str "idx" ++ [NUL].
Definition _EXPIRY_PREFIX : pystr := NUL :: str "exp" ++ [NUL].

Section keys.
Context `{JsonLib}.

Definition _value_token (value : json) : pystr :=
  json_dumps match value with
             | JFloat x => match as_integer x with Some z => JInt z | None => value end
             | _ => value
             end.

Definition _index_scan_prefix (field : pystr) (value : json) : pystr :=
  _INDEX_PREFIX ++ field ++ [NUL] ++ _value_token value ++ [NUL].

Definition _index_key (field : pystr) (value : json) (primary_key : pystr) : pystr :=
  _INDEX_PREFIX ++ field ++ [NUL] ++ _value_token value ++ [NUL] ++ primary_key.

Definition _expiry_key (primary_key : pystr) : pystr := _EXPIRY_PREFIX ++ primary_key.

Definition _check_key (key : pystr) : res unit :=
  match key with
  | [] => Raise ValueError
  | _ => if startswith key _RESERVED then Raise ValueError else Ok tt
  end.

End keys.

(** * Collections *)

Record Collection (N : Type) `{JsonLib} : Type := mkCollection {
  c_db : DBDB N;
  _indexes : gset pystr;
  _clock : nat -> number;
  (** how often the clock was read *)
  c_reads : nat
}.
Arguments mkCollection {N H} c_db _indexes _clock c_reads.
Arguments c_db {N H} c.
Arguments _indexes {N H} c.
Arguments _clock {N H} c.
Arguments c_reads {N H} c.

Record Query `{JsonLib} : Type := mkQuery {
  _equals : list (pystr * json);
  _predicates : list (json -> res bool)
}.

Arguments mkQuery {H} _equals _predicates.
Arguments _equals {H} q.
Arguments _predicates {H} q.

Record explanation : Type := mkExplanation {
  plan : pystr;
  indexed_fields : list pystr;
  equals : list pystr;
  predicates : Z
}.

Module collection.
Section collection.
Context `{Pickle} {N : Type} `{Index N} `{JsonLib} `{Codec json}.
Implicit Types (c : Collection N) (key field : pystr) (doc : json).

Definition set_db (d : DBDB N) c : Collection N := mkCollection d (_indexes c) (_clock c) (c_reads c).
Definition set_indexes (ix : gset pystr) c : Collection N := mkCollection (c_db c) ix (_clock c) (c_reads c).

Definition init (d : DBDB N) (indexes : gset pystr) (clock : nat -> number) : Collection N := mkCollection d indexes clock 0.

Definition indexes c : gset pystr := _indexes c.

Abbreviation M A := (St (Collection N) A).

Definition on_db {A} (m : St (DBDB N) A) : M A := zoom c_db set_db m.

(** [self._clock()] *)
Definition now : M number :=
  c ← get_st;
  put_st (mkCollection (c_db c) (_indexes c) (_clock c) (S (c_reads c))) ;;
  mret (_clock c (c_reads c)).

(** [self._db.get(key)]; a stored [null] and a missing key are both [None]. *)
Definition db_get key : M json := v ← on_db (dbdb.get key); mret (default JNull v).

(** ** Reads *)

Definition _is_expired key : M bool :=
  expiry ← db_get (_expiry_key key);
  match expiry with
  | JNull => mret false
  | expiry => n ← now; e ← lift_res (to_number expiry); mret (num_ge n e)
  end.

Definition get key : M json :=
  lift_res (_check_key key) ;;
  doc ← db_get key;
  match doc with
  | JNull => mret JNull
  | doc => expired ← _is_expired key; mret (if (expired : bool) then JNull else doc)
  end.

Definition contains key : M bool := doc ← get key; mret match doc with JNull => false | _ => true end.

(** The keys of a list that are documents and alive. *)
Fixpoint visible (ks : list pystr) : M (list pystr) :=
  match ks with
  | [] => mret []
  | key :: ks =>
      if startswith key _RESERVED then visible ks
      else
        expired ← _is_expired key;
        rest ← visible ks;
        mret (if (expired : bool) then rest else key :: rest)
  end.

Definition keys : M (list pystr) := ks ← on_db (dbdb.keys (V := json) None None None); visible ks.

Definition documents : M (list (pystr * json)) :=
  ks ← keys; mapM_st (fun key => doc ← on_db (dbdb.getitem key); mret (key, doc)) ks.

Definition count : M Z := ks ← keys; mret (Z.of_nat (length ks)).

(** ** Writes *)

(** A [with self._db.transaction() as tx] block: its state is the collection and
    the transaction. *)
Abbreviation T A := (St (Collection N * Transaction) A).

Definition on_tx {A} (m : St (DBDB N * Transaction) A) : T A :=
  zoom (fun s => (c_db s.1, s.2)) (fun x s => (set_db x.1 s.1, x.2)) m.
Definition on_self {A} (m : M A) : T A := zoom fst (fun c s => (c, s.2)) m.

Definition block {A} (body : T A) : T A := fun s =>
  match body s with
  | (s, Ok a) => (on_tx (transaction.__exit__ false) ;; mret a) s
  | (s, Raise e) => (on_tx (transaction.__exit__ true) ;; raise e) s
  end.

Definition with_transaction {A} (body : T A) : M A := fun c =>
  let '(s, r) := (on_tx transaction.__enter__ ;; block body) (c, mkTransaction None []) in (s.1, r).

(** [field in document], [document[field]] *)
Definition field_of doc field : option json := match doc with JDict d => dict_lookup d field | _ => None end.

Fixpoint unindex_loop (fields : list pystr) key doc : T unit :=
  match fields with
  | [] => mret tt
  | field :: fields =>
      match field_of doc field with
      | None => mret tt
      | Some value =>
          let index_key := _index_key field value key in
          there ← on_tx (transaction.contains index_key);
          if (there : bool) then on_tx (transaction.delete index_key) else mret tt
      end ;;
      unindex_loop fields key doc
  end.

Definition _unindex key doc : T unit :=
  match doc with
  | JDict _ => s ← get_st; unindex_loop (elements (_indexes s.1)) key doc
  | _ => mret tt
  end.

Fixpoint index_loop (fields : list pystr) key doc : T unit :=
  match fields with
  | [] => mret tt
  | field :: fields =>
      match field_of doc field with
      | None => mret tt
      | Some value => on_tx (transaction.set (_index_key field value key) (JStr key))
      end ;;
      index_loop fields key doc
  end.

(** [if expiry_key in tx: tx.delete(expiry_key)] *)
Definition clear_expiry key : T unit :=
  there ← on_tx (transaction.contains (_expiry_key key));
  if (there : bool) then on_tx (transaction.delete (_expiry_key key)) else mret tt.

(** The body of [set]'s transaction. *)
Definition set_block key doc (ttl : option number) : T unit :=
  old ← on_tx (transaction.get_or_none key JNull);
  _unindex key old ;;
  on_tx (transaction.set key doc) ;;
  s ← get_st;
  index_loop (elements (_indexes s.1)) key doc ;;
  match ttl with
  | Some ttl => n ← on_self now; e ← lift_res (num_add n ttl); on_tx (transaction.set (_expiry_key key) (of_number e))
  | None => clear_expiry key
  end.

Definition set key doc (ttl : option number) : M unit :=
  lift_res (_check_key key) ;;
  match doc with
  | JDict _ => with_transaction (set_block key doc ttl)
  | _ => raise TypeError
  end.

(** The body of [delete]'s transaction. *)
Definition delete_block key doc : T unit :=
  _unindex key doc ;;
  on_tx (transaction.delete key) ;;
  clear_expiry key.

Definition delete key : M unit :=
  lift_res (_check_key key) ;;
  doc ← db_get key;
  match doc with
  | JNull => raise (KeyError key)
  | doc => with_transaction (delete_block key doc)
  end.

Fixpoint backfill (ks : list pystr) field : T unit :=
  match ks with
  | [] => mret tt
  | key :: ks =>
      doc ← on_self (on_db (dbdb.getitem key));
      match field_of doc field with
      | None => mret tt
      | Some value => on_tx (transaction.set (_index_key field value key) (JStr key))
      end ;;
      backfill ks field
  end.

Definition create_index field : M unit :=
  with_transaction (ks ← on_self keys; backfill ks field) ;;
  modify (fun c => set_indexes ({[ field ]} ∪ _indexes c) c).

(** The keys whose expiry time has come. *)
Fixpoint expired_keys (n : number) (l : list (pystr * json)) : res (list pystr) :=
  match l with
  | [] => Ok []
  | (expiry_key, expiry) :: l =>
      e ← to_number expiry;
      rest ← expired_keys n l;
      Ok (if num_ge n e then drop (length _EXPIRY_PREFIX) expiry_key :: rest else rest)
  end.

Fixpoint delete_each (ks : list pystr) : M unit :=
  match ks with
  | [] => mret tt
  | key :: ks => try_with (delete key) (fun e => match e with KeyError _ => mret tt | e => raise e end) ;; delete_each ks
  end.

Definition sweep : M Z :=
  n ← now;
  l ← on_db (dbdb.scan (Some _EXPIRY_PREFIX) None None);
  expired ← lift_res (expired_keys n l);
  delete_each expired ;;
  mret (Z.of_nat (length expired)).

(** * Queries *)

Definition query : Query := mkQuery [] [].
Definition where_ field (value : json) (q : Query) : Query := mkQuery (_equals q ++ [(field, value)]) (_predicates q).
Definition filter (predicate : json -> res bool) (q : Query) : Query := mkQuery (_equals q) (_predicates q ++ [predicate]).

Definition indexed (ix : gset pystr) (q : Query) : list (pystr * json) := base.filter (fun fv => fv.1 ∈ ix) (_equals q).

Definition explain (q : Query) c : explanation :=
  mkExplanation (match indexed (_indexes c) q with [] => str "full_scan" | _ => str "index" end)
    (indexed (_indexes c) q).*1 (_equals q).*1 (Z.of_nat (length (_predicates q))).

(** A primary key, as an index entry holds it. *)
Definition as_key (v : json) : res pystr := match v with JStr s => Ok s | _ => Raise TypeError end.

(** The set of keys an index lists for a value. *)
Definition key_set (fv : pystr * json) : M (gset pystr) :=
  l ← on_db (dbdb.scan (Some (_index_scan_prefix fv.1 fv.2)) None None);
  ks ← lift_res (mapM (fun kv => as_key kv.2) l);
  mret (list_to_set ks).

Definition _candidate_keys (q : Query) : M (option (gset pystr)) :=
  c ← get_st;
  match indexed (_indexes c) q with
  | [] => mret None
  | fv :: fvs =>
      first ← key_set fv;
      others ← mapM_st key_set fvs;
      mret (Some (foldl (∩) first others))
  end.

(** [document.get(field)] *)
Definition doc_get doc field : res json :=
  match doc with JDict d => Ok (default JNull (dict_lookup d field)) | _ => Raise AttributeError end.

Fixpoint equals_match (l : list (pystr * json)) doc : res bool :=
  match l with
  | [] => Ok true
  | (field, value) :: l =>
      v ← doc_get doc field;
      if bool_decide (_value_token v = _value_token value) then equals_match l doc else Ok false
  end.

Fixpoint all_predicates (ps : list (json -> res bool)) doc : res bool :=
  match ps with
  | [] => Ok true
  | p :: ps => b ← p doc; if (b : bool) then all_predicates ps doc else Ok false
  end.

Definition _matches (q : Query) doc : res bool :=
  b ← equals_match (_equals q) doc;
  if (b : bool) then all_predicates (_predicates q) doc else Ok false.

(** The loop of [all]; [fetch] reads the document of a key, or skips the key. *)
Fixpoint all_loop (q : Query) (fetch : pystr -> M (option json)) (ks : list pystr) : M (list (pystr * json)) :=
  match ks with
  | [] => mret []
  | key :: ks =>
      item ← fetch key;
      hit ← match item with
            | None | Some JNull => mret None
            | Some doc =>
                expired ← _is_expired key;
                if (expired : bool) then mret None
                else hit ← lift_res (_matches q doc); mret (if (hit : bool) then Some doc else None)
            end;
      rest ← all_loop q fetch ks;
      mret match hit with Some doc => (key, doc) :: rest | None => rest end
  end.

(** An item of the full scan: [collection.keys()] skips what is not a document or
    has expired. *)
Definition scanned key : M (option json) :=
  if startswith key _RESERVED then mret None
  else
    expired ← _is_expired key;
    if (expired : bool) then mret None else doc ← on_db (dbdb.getitem key); mret (Some doc).

(** [sorted(candidates)] *)
Definition sorted_set (s : gset pystr) : list pystr := (foldr (fun k acc => kv_set k tt acc) [] (elements s)).*1.

Definition all (q : Query) : M (list (pystr * json)) :=
  candidates ← _candidate_keys q;
  match candidates with
  | None => ks ← on_db (dbdb.keys (V := json) None None None); all_loop q scanned ks
  | Some candidates => all_loop q (fun key => doc ← db_get key; mret (Some doc)) (sorted_set candidates)
  end.

End collection.
End collection.
