(* ===== verification/CollectionSpec.v ===== *)
(** What a collection promises, on the table its database holds: how its writes
    change the table, and that they keep documents and indexes consistent. *)

From Stdlib Require Import Strings.String.
From S2P Require Import Prelude PyBase Struct KeyList Text Database Json Collection.

(** * Keys *)

Definition valid_key (k : pystr) : Prop := k <> [] /\ startswith k _RESERVED = false.

Lemma check_key_ok k : _check_key k = Ok tt <-> valid_key k.
Proof. unfold _check_key, valid_key. destruct k as [|c k]; [naive_solver|]. destruct (startswith _ _); naive_solver. Qed.

Lemma split_nul (a a' r r' : pystr) : NUL ∉ a -> NUL ∉ a' -> a ++ [NUL] ++ r = a' ++ [NUL] ++ r' -> a = a' /\ r = r'.
Proof.
  revert a'. induction a as [|x a IH]; intros [|y a'] Ha Ha' E; simpl in *.
  - by injection E as ->.
  - injection E as <- _. destruct Ha'. by left.
  - injection E as -> _. destruct Ha. by left.
  - injection E as -> E. apply not_elem_of_cons in Ha as [_ Ha], Ha' as [_ Ha']. destruct (IH a' Ha Ha' E) as [-> ->]. done.
Qed.

Section spec.
Context `{JsonLibLaws}.
Implicit Types (T : list (pystr * json)) (k f x : pystr) (doc v : json) (fs : list pystr) (ix : gset pystr) (n : number).

Lemma token_no_nul v : NUL ∉ _value_token v.
Proof. apply json_no_nul. Qed.

Lemma index_key_split f v k : _index_key f v k = _INDEX_PREFIX ++ f ++ [NUL] ++ _value_token v ++ [NUL] ++ k.
Proof. done. Qed.

(** Index keys are read back uniquely, as long as field names have no NUL. *)
Lemma index_key_inj f f' v v' k k' :
  NUL ∉ f -> NUL ∉ f' -> _index_key f v k = _index_key f' v' k' -> f = f' /\ _value_token v = _value_token v' /\ k = k'.
Proof.
  intros Hf Hf' E%(app_inv_head _INDEX_PREFIX). apply split_nul in E as [-> E]; [|done..].
  apply split_nul in E as [E1 E2]; [done|apply token_no_nul..].
Qed.

Lemma index_key_prefix f f' v k :
  NUL ∉ f -> NUL ∉ f' -> startswith (_index_key f v k) (_INDEX_PREFIX ++ f' ++ [NUL]) = true -> f = f'.
Proof.
  intros Hf Hf' [t E]%startswith_spec. rewrite <- app_assoc in E. apply (app_inv_head _INDEX_PREFIX) in E. rewrite <- app_assoc in E.
  by apply split_nul in E as [-> _].
Qed.

Lemma index_key_scan f v v' k : _value_token v = _value_token v' -> startswith (_index_key f v k) (_index_scan_prefix f v') = true.
Proof. intros E. apply startswith_spec. exists k. unfold _index_key, _index_scan_prefix. rewrite E, <- !app_assoc. done. Qed.

Lemma scan_prefix_field f v x : startswith x (_index_scan_prefix f v) = true -> startswith x (_INDEX_PREFIX ++ f ++ [NUL]) = true.
Proof.
  rewrite !startswith_spec. intros [t ->]. unfold _index_scan_prefix. exists (_value_token v ++ [NUL] ++ t). by rewrite <- !app_assoc.
Qed.

Lemma scan_prefix_token f v v' k : startswith (_index_key f v k) (_index_scan_prefix f v') = true -> _value_token v = _value_token v'.
Proof.
  intros [t E]%startswith_spec. unfold _index_key, _index_scan_prefix in E. rewrite <- !app_assoc in E. do 3 apply app_inv_head in E.
  apply split_nul in E as [E _]; [done|apply token_no_nul..].
Qed.

Lemma index_key_reserved f v k : startswith (_index_key f v k) _RESERVED = true.
Proof. done. Qed.

Lemma expiry_key_reserved k : startswith (_expiry_key k) _RESERVED = true.
Proof. done. Qed.

Lemma expiry_key_inj k k' : _expiry_key k = _expiry_key k' -> k = k'.
Proof. apply app_inv_head. Qed.

Lemma index_not_expiry f v k k' : _index_key f v k <> _expiry_key k'.
Proof. done. Qed.

Lemma index_not_key f v k k' : valid_key k' -> _index_key f v k <> k'.
Proof. intros [_ Hr] <-. by rewrite index_key_reserved in Hr. Qed.

Lemma expiry_not_key k k' : valid_key k' -> _expiry_key k <> k'.
Proof. intros [_ Hr] <-. by rewrite expiry_key_reserved in Hr. Qed.

(** * Writes on tables *)

Definition spec_unindex fs k doc T : list (pystr * json) :=
  foldl (fun T f => match collection.field_of doc f with Some v => kv_del (_index_key f v k) T | None => T end) T fs.

Definition spec_index fs k doc T : list (pystr * json) :=
  foldl (fun T f => match collection.field_of doc f with Some v => kv_set (_index_key f v k) (JStr k) T | None => T end) T fs.

(** [expiry] is the time the document lives until. *)
Definition spec_set ix k doc (expiry : option number) T : list (pystr * json) :=
  let T := spec_unindex (elements ix) k (default JNull (kv_get k T)) T in
  let T := spec_index (elements ix) k doc (kv_set k doc T) in
  match expiry with Some e => kv_set (_expiry_key k) (of_number e) T | None => kv_del (_expiry_key k) T end.

Definition spec_delete ix k T : list (pystr * json) :=
  kv_del (_expiry_key k) (kv_del k (spec_unindex (elements ix) k (default JNull (kv_get k T)) T)).

(** What is stored under a key, [None] when nothing is. *)
Definition old_doc k T : json := default JNull (kv_get k T).

(** [W] with the entries [create_index] adds for the documents [ks] of [T]. *)
Definition spec_backfill f (ks : list pystr) T W : list (pystr * json) := foldl (fun W k => spec_index [f] k (old_doc k T) W) W ks.

(** [x] is the index key of [doc], stored under [k], for one of the fields. *)
Definition names fs k doc x : Prop :=
  Exists (fun f => match collection.field_of doc f with Some v => x = _index_key f v k | None => False end) fs.

#[global] Instance names_dec fs k doc x : Decision (names fs k doc x).
Proof. apply Exists_dec. intros f. destruct (collection.field_of doc f); apply _. Defined.

Arguments names : simpl never.
Arguments names_dec : simpl never.

Lemma names_spec fs k doc x : names fs k doc x <-> exists f v, f ∈ fs /\ collection.field_of doc f = Some v /\ x = _index_key f v k.
Proof.
  unfold names. rewrite Exists_exists. split.
  - intros (f & Hf & E). destruct (collection.field_of doc f) as [v|] eqn:Ev; [|done]. by exists f, v.
  - intros (f & v & Hf & Ev & ->). exists f. by rewrite Ev.
Qed.

Lemma names_reserved fs k doc x : names fs k doc x -> startswith x _INDEX_PREFIX = true.
Proof. intros (f & v & _ & _ & ->)%names_spec. apply startswith_spec. by eexists. Qed.

Lemma unindex_sorted fs k doc T : kv_sorted T -> kv_sorted (spec_unindex fs k doc T).
Proof.
  revert T. induction fs as [|f fs IH]; intros T HT; [done|]. simpl. apply IH.
  destruct (collection.field_of doc f); [by apply kv_del_sorted|done].
Qed.

Lemma index_sorted fs k doc T : kv_sorted T -> kv_sorted (spec_index fs k doc T).
Proof.
  revert T. induction fs as [|f fs IH]; intros T HT; [done|]. simpl. apply IH.
  destruct (collection.field_of doc f); [by apply kv_set_sorted|done].
Qed.

Lemma get_unindex fs k doc T x :
  kv_sorted T -> kv_get x (spec_unindex fs k doc T) = if decide (names fs k doc x) then None else kv_get x T.
Proof.
  revert T. induction fs as [|f fs IH]; intros T HT; simpl.
  { done. }
  rewrite IH by (destruct (collection.field_of doc f); [by apply kv_del_sorted|done]).
  destruct (decide (names fs k doc x)) as [Hn|Hn].
  - rewrite decide_True; [done|]. by right.
  - destruct (collection.field_of doc f) as [v|] eqn:Ev.
    + rewrite kv_get_del by done. destruct (decide (x = _index_key f v k)) as [->|Hx].
      * rewrite decide_True; [done|]. left. by rewrite Ev.
      * rewrite decide_False; [done|]. unfold names. rewrite Exists_cons, Ev. tauto.
    + rewrite decide_False; [done|]. unfold names. rewrite Exists_cons, Ev. tauto.
Qed.

Lemma get_index fs k doc T x :
  kv_sorted T -> kv_get x (spec_index fs k doc T) = if decide (names fs k doc x) then Some (JStr k) else kv_get x T.
Proof.
  revert T. induction fs as [|f fs IH]; intros T HT; simpl.
  { done. }
  rewrite IH by (destruct (collection.field_of doc f); [by apply kv_set_sorted|done]).
  destruct (decide (names fs k doc x)) as [Hn|Hn].
  - rewrite decide_True; [done|]. by right.
  - destruct (collection.field_of doc f) as [v|] eqn:Ev.
    + rewrite kv_get_set by done. destruct (decide (x = _index_key f v k)) as [->|Hx].
      * rewrite decide_True; [done|]. left. by rewrite Ev.
      * rewrite decide_False; [done|]. unfold names. rewrite Exists_cons, Ev. tauto.
    + rewrite decide_False; [done|]. unfold names. rewrite Exists_cons, Ev. tauto.
Qed.

(** ** Looking up in the table after a write *)

Lemma spec_set_sorted ix k doc e T : kv_sorted T -> kv_sorted (spec_set ix k doc e T).
Proof.
  intros HT. unfold spec_set. cbv zeta. assert (Hs : kv_sorted (spec_index (elements ix) k doc (kv_set k doc (spec_unindex (elements ix) k (default JNull (kv_get k T)) T))))
    by (by apply index_sorted, kv_set_sorted, unindex_sorted).
  destruct e; [by apply kv_set_sorted|by apply kv_del_sorted].
Qed.

Lemma spec_delete_sorted ix k T : kv_sorted T -> kv_sorted (spec_delete ix k T).
Proof. intros HT. by apply kv_del_sorted, kv_del_sorted, unindex_sorted. Qed.

Lemma get_spec_set ix k doc e T x :
  kv_sorted T ->
  kv_get x (spec_set ix k doc e T) =
    if decide (x = _expiry_key k) then of_number <$> e
    else if decide (names (elements ix) k doc x) then Some (JStr k)
    else if decide (x = k) then Some doc
    else if decide (names (elements ix) k (old_doc k T) x) then None
    else kv_get x T.
Proof.
  intros HT. pose proof (unindex_sorted (elements ix) k (old_doc k T) T HT) as Hu. pose proof (kv_set_sorted k doc _ Hu) as Hs.
  pose proof (index_sorted (elements ix) k doc _ Hs) as Hi. unfold spec_set. cbv zeta. fold (old_doc k T).
  destruct e; [rewrite kv_get_set by done|rewrite kv_get_del by done]; (destruct (decide (x = _expiry_key k)); [done|]);
    rewrite get_index, kv_get_set, get_unindex by done; done.
Qed.

Lemma get_spec_delete ix k T x :
  kv_sorted T ->
  kv_get x (spec_delete ix k T) =
    if decide (x = _expiry_key k) then None else if decide (x = k) then None
    else if decide (names (elements ix) k (old_doc k T) x) then None else kv_get x T.
Proof.
  intros HT. pose proof (unindex_sorted (elements ix) k (old_doc k T) T HT) as Hu. pose proof (kv_del_sorted k _ Hu) as Hs.
  unfold spec_delete. fold (old_doc k T). by rewrite kv_get_del, kv_get_del, get_unindex by done.
Qed.

(** * Consistency *)

Definition expired_at n T k : bool :=
  match kv_get (_expiry_key k) T with
  | Some e => match to_number e with Ok e => num_ge n e | Raise _ => false end
  | None => false
  end.

(** Every entry of the index on [f] belongs to a document with that value. *)
Definition index_sound f T : Prop :=
  forall x v, kv_get x T = Some v -> startswith x (_INDEX_PREFIX ++ f ++ [NUL]) = true ->
    exists k doc w, x = _index_key f w k /\ v = JStr k /\ valid_key k /\ kv_get k T = Some doc /\ collection.field_of doc f = Some w.

(** Every document that is alive is listed in the index on [f]. *)
Definition index_complete n f T : Prop :=
  forall k doc v, kv_get k T = Some doc -> valid_key k -> expired_at n T k = false -> collection.field_of doc f = Some v ->
    kv_get (_index_key f v k) T = Some (JStr k).

Record consistent n ix T : Prop := {
  co_sorted : kv_sorted T;
  co_keys : forall k, k ∈ T.*1 -> k <> [];
  co_docs : forall k doc, kv_get k T = Some doc -> startswith k _RESERVED = false -> exists d, doc = JDict d;
  co_expiry : forall x v, kv_get x T = Some v -> startswith x _EXPIRY_PREFIX = true ->
    exists k e doc, x = _expiry_key k /\ v = of_number e /\ valid_key k /\ kv_get k T = Some doc;
  co_fields : forall f, f ∈ ix -> NUL ∉ f;
  co_sound : forall f, f ∈ ix -> index_sound f T;
  co_complete : forall f, f ∈ ix -> index_complete n f T
}.

(** No entry is left of an index the collection does not have: so it is for a new
    collection, and for one opened with the indexes it had before. *)
Definition no_strays ix T : Prop :=
  forall x v, kv_get x T = Some v -> startswith x _INDEX_PREFIX = true -> exists f, f ∈ ix /\ startswith x (_INDEX_PREFIX ++ f ++ [NUL]) = true.

(** The state a collection keeps its table in. *)
Definition tended n ix T : Prop := consistent n ix T /\ no_strays ix T.

End spec.
