(* ===== verification/CollectionInv.v ===== *)
(** Writing, deleting and indexing keep a collection's table consistent. *)

From S2P Require Import Prelude PyBase Struct KeyList Text Database Json Collection CollectionSpec.

Section inv.
Context `{JsonLibLaws}.
Implicit Types (T W : list (pystr * json)) (k f x : pystr) (doc v : json) (fs ks : list pystr) (ix : gset pystr) (n : number).

Lemma kv_get_in T k : is_Some (kv_get k T) <-> k ∈ T.*1.
Proof.
  induction T as [|[a b] T IH]; csimpl; [split; [by intros []|by intros ?%elem_of_nil]|].
  destruct (decide (k = a)) as [->|Hne]; rewrite elem_of_cons; [naive_solver|]. rewrite IH. naive_solver.
Qed.

Lemma index_expiry_apart x : startswith x _INDEX_PREFIX = true -> startswith x _EXPIRY_PREFIX = true -> False.
Proof. intros [t ->]%startswith_spec. done. Qed.

Lemma prefix_reserved x p : p <> [] -> head p = Some NUL -> startswith x p = true -> startswith x _RESERVED = true.
Proof. intros _ Hp [t ->]%startswith_spec. destruct p as [|c p]; [done|]. by injection Hp as ->. Qed.

Lemma index_reserved x : startswith x _INDEX_PREFIX = true -> startswith x _RESERVED = true.
Proof. by apply prefix_reserved. Qed.

Lemma expiry_reserved x : startswith x _EXPIRY_PREFIX = true -> startswith x _RESERVED = true.
Proof. by apply prefix_reserved. Qed.

Lemma field_prefix_index x f : startswith x (_INDEX_PREFIX ++ f ++ [NUL]) = true -> startswith x _INDEX_PREFIX = true.
Proof. rewrite !startswith_spec. intros [t ->]. exists ((f ++ [NUL]) ++ t). by rewrite <- app_assoc. Qed.

Lemma valid_apart k x : valid_key k -> startswith x _RESERVED = true -> x <> k.
Proof. intros [_ Hk] Hx ->. congruence. Qed.

Lemma no_names_null fs k x : ~ names fs k JNull x.
Proof. intros (f & v & _ & Hf & _)%names_spec. done. Qed.

(** Index keys of different documents differ. *)
Lemma names_other ix k k' doc f v :
  (forall f, f ∈ ix -> NUL ∉ f) -> f ∈ ix -> names (elements ix) k doc (_index_key f v k') -> k' = k.
Proof.
  intros Hix Hf (f' & w & Hf' & _ & E)%names_spec. apply elem_of_elements in Hf'. apply index_key_inj in E as (_ & _ & ->); auto.
Qed.

(** ** Replacing one document *)

(** [T'] is [T] with the document under [k] replaced by [new], alive until [e], and
    its index entries brought up to date. *)
Record replaces ix k (new : option json) (e : option number) T T' : Prop := {
  rp_sorted : kv_sorted T';
  rp_key : kv_get k T' = new;
  rp_expiry : kv_get (_expiry_key k) T' = of_number <$> e;
  rp_new x : names (elements ix) k (default JNull new) x -> kv_get x T' = Some (JStr k);
  rp_old x : names (elements ix) k (old_doc k T) x -> ~ names (elements ix) k (default JNull new) x -> kv_get x T' = None;
  rp_rest x : x <> k -> x <> _expiry_key k -> ~ names (elements ix) k (old_doc k T) x ->
    ~ names (elements ix) k (default JNull new) x -> kv_get x T' = kv_get x T
}.

Lemma set_replaces ix k doc e T : kv_sorted T -> valid_key k -> replaces ix k (Some doc) e T (spec_set ix k doc e T).
Proof.
  intros HT Hk. assert (Hnk : forall fs doc', ~ names fs k doc' k).
  { intros fs doc' Hn%names_reserved%index_reserved. destruct Hk as [_ Hk]. congruence. }
  assert (Hne : forall fs doc', ~ names fs k doc' (_expiry_key k)).
  { intros fs doc' Hn%names_reserved. by apply (index_expiry_apart (_expiry_key k)). }
  pose proof (expiry_not_key k k Hk) as Hek.
  split; simpl; [by apply spec_set_sorted|..]; intros; rewrite get_spec_set by done.
  - rewrite decide_False by done. rewrite decide_False by done. by rewrite decide_True.
  - by rewrite decide_True.
  - rewrite decide_False by (intros ->; by eapply Hne). by rewrite decide_True.
  - rewrite decide_False by (intros ->; by eapply Hne). rewrite decide_False by done. rewrite decide_False by (intros ->; by eapply Hnk). by rewrite decide_True.
  - by rewrite !decide_False by done.
Qed.

Lemma delete_replaces ix k T : kv_sorted T -> valid_key k -> replaces ix k None None T (spec_delete ix k T).
Proof.
  intros HT Hk. pose proof (expiry_not_key k k Hk) as Hek.
  split; simpl; [by apply spec_delete_sorted|..]; intros; try (by exfalso; eapply no_names_null); rewrite get_spec_delete by done.
  - rewrite decide_False by done. by rewrite decide_True.
  - by rewrite decide_True.
  - by repeat case_decide.
  - by rewrite !decide_False by done.
Qed.

Lemma replaces_other ix k new e T T' k' :
  replaces ix k new e T T' -> valid_key k -> valid_key k' -> k' <> k ->
  kv_get k' T' = kv_get k' T /\ kv_get (_expiry_key k') T' = kv_get (_expiry_key k') T.
Proof.
  intros Hr Hk Hk' Hne. split; apply (rp_rest _ _ _ _ _ _ Hr); try done.
  - intros ->. by apply (expiry_not_key k (_expiry_key k)).
  - intros Hn%names_reserved%index_reserved. by apply (valid_apart k' k').
  - intros Hn%names_reserved%index_reserved. by apply (valid_apart k' k').
  - by apply expiry_not_key.
  - by intros ?%expiry_key_inj.
  - intros Hn%names_reserved. by eapply index_expiry_apart.
  - intros Hn%names_reserved. by eapply index_expiry_apart.
Qed.

Lemma consistent_replaces n ix k new e T T' :
  consistent n ix T -> valid_key k -> (forall doc, new = Some doc -> exists d, doc = JDict d) -> (new = None -> e = None) ->
  replaces ix k new e T T' -> consistent n ix T'.
Proof.
  intros Hc Hk Hnew He Hr. pose proof (co_fields _ _ _ Hc) as Hix.
  assert (Hres : forall fs doc x, startswith x _INDEX_PREFIX = false -> ~ names fs k doc x).
  { intros fs doc x Hx Hn%names_reserved. congruence. }
  split; [apply Hr|..].
  - intros x Hx ->. apply kv_get_in in Hx as [v Hv]. rewrite (rp_rest _ _ _ _ _ _ Hr) in Hv; [|by destruct Hk|done|by apply Hres|by apply Hres].
    apply (co_keys _ _ _ Hc []); [|done]. apply kv_get_in. by exists v.
  - intros x doc Hx Hres'. destruct (decide (x = k)) as [->|Hne].
    { apply Hnew. by rewrite <- Hx, (rp_key _ _ _ _ _ _ Hr). }
    assert (startswith x _INDEX_PREFIX = false) as Hi.
    { destruct (startswith x _INDEX_PREFIX) eqn:E; [|done]. apply index_reserved in E. congruence. }
    rewrite (rp_rest _ _ _ _ _ _ Hr) in Hx; [by eapply (co_docs _ _ _ Hc)|done| |by apply Hres|by apply Hres].
    intros ->. by rewrite expiry_key_reserved in Hres'.
  - intros x v Hx Hp. destruct (decide (x = _expiry_key k)) as [->|Hne].
    { rewrite (rp_expiry _ _ _ _ _ _ Hr) in Hx. destruct e as [e|]; [|done]. injection Hx as <-.
      destruct new as [doc|]; [|by specialize (He eq_refl)]. exists k, e, doc. split_and!; try done. apply Hr. }
    assert (startswith x _INDEX_PREFIX = false) as Hi.
    { destruct (startswith x _INDEX_PREFIX) eqn:E; [|done]. exfalso. by eapply index_expiry_apart. }
    rewrite (rp_rest _ _ _ _ _ _ Hr) in Hx; [|by apply valid_apart, expiry_reserved|done|by apply Hres|by apply Hres].
    destruct (co_expiry _ _ _ Hc x v Hx Hp) as (k' & e' & doc & -> & -> & Hk' & Hd). exists k', e', doc. split_and!; try done.
    rewrite <- Hd. apply (replaces_other _ _ _ _ _ _ k' Hr); try done. by intros ->.
  - done.
  - intros f Hf x v Hx Hp. pose proof (field_prefix_index _ _ Hp) as Hi.
    assert (x <> k /\ x <> _expiry_key k) as [Hxk Hxe].
    { split; [by apply valid_apart, index_reserved|]. intros ->. by eapply index_expiry_apart. }
    destruct (decide (names (elements ix) k (default JNull new) x)) as [Hn|Hn].
    + rewrite (rp_new _ _ _ _ _ _ Hr) in Hx by done. injection Hx as <-. apply names_spec in Hn as (f' & w & Hf' & Hw & ->).
      apply elem_of_elements in Hf'. apply index_key_prefix in Hp as ->; [|auto..]. destruct new as [doc|]; [|done].
      exists k, doc, w. split_and!; try done. apply Hr.
    + destruct (decide (names (elements ix) k (old_doc k T) x)) as [Ho|Ho]; [by rewrite (rp_old _ _ _ _ _ _ Hr) in Hx|].
      rewrite (rp_rest _ _ _ _ _ _ Hr) in Hx by done. destruct (co_sound _ _ _ Hc f Hf x v Hx Hp) as (k' & doc & w & -> & -> & Hk' & Hd & Hw).
      assert (k' <> k) as Hne.
      { intros ->. destruct Ho. apply names_spec. exists f, w. unfold old_doc. rewrite Hd. split_and!; try done. by apply elem_of_elements. }
      exists k', doc, w. split_and!; try done. rewrite <- Hd. by apply (replaces_other _ _ _ _ _ _ k' Hr).
  - intros f Hf k' doc v Hd Hk' Hex Hv. destruct (decide (k' = k)) as [->|Hne].
    + apply (rp_new _ _ _ _ _ _ Hr). rewrite (rp_key _ _ _ _ _ _ Hr) in Hd. rewrite Hd. apply names_spec. exists f, v. split_and!; try done. by apply elem_of_elements.
    + destruct (replaces_other _ _ _ _ _ _ k' Hr Hk Hk' Hne) as [E1 E2]. rewrite E1 in Hd. unfold expired_at in Hex. rewrite E2 in Hex.
      rewrite (rp_rest _ _ _ _ _ _ Hr); [by eapply (co_complete _ _ _ Hc f Hf)|by apply valid_apart|done|..];
        intros Hn; by apply names_other in Hn; auto.
Qed.

Lemma consistent_set n ix k d e T : consistent n ix T -> valid_key k -> consistent n ix (spec_set ix k (JDict d) e T).
Proof.
  intros Hc Hk. apply (consistent_replaces n ix k (Some (JDict d)) e T); [done|done| |done|apply set_replaces; [apply Hc|done]]. intros doc [= <-]. by exists d.
Qed.

Lemma consistent_delete n ix k T : consistent n ix T -> valid_key k -> consistent n ix (spec_delete ix k T).
Proof. intros Hc Hk. by apply (consistent_replaces n ix k None None T); [done|done| | |apply delete_replaces; [apply Hc|done]]. Qed.

(** Time only makes more documents expire. *)
Lemma consistent_later n n' ix T : num_ge n' n = true -> consistent n ix T -> consistent n' ix T.
Proof.
  intros Hn [? ? ? ? ? ? Hc]. split; try done. intros f Hf k doc v Hd Hk Hex. eapply Hc; try done.
  unfold expired_at in *. destruct (kv_get (_expiry_key k) T) as [e|]; [|done]. destruct (to_number e) as [e'|]; [|done].
  destruct (num_ge n e') eqn:E; [|done]. by rewrite (num_ge_trans n' n e') in Hex.
Qed.

(** ** Adding an index *)

Lemma backfill_cons f k ks T W : spec_backfill f (k :: ks) T W = spec_backfill f ks T (spec_index [f] k (old_doc k T) W).
Proof. done. Qed.

Lemma backfill_sorted f ks T W : kv_sorted W -> kv_sorted (spec_backfill f ks T W).
Proof. revert W. induction ks as [|k ks IH]; intros W HW; [done|]. rewrite backfill_cons. apply IH. by apply (index_sorted [f]). Qed.

Lemma get_backfill_other f ks T W x :
  kv_sorted W -> (forall k, k ∈ ks -> ~ names [f] k (old_doc k T) x) -> kv_get x (spec_backfill f ks T W) = kv_get x W.
Proof.
  revert W. induction ks as [|k ks IH]; intros W HW Hn; [done|]. rewrite backfill_cons.
  rewrite IH; [|by apply (index_sorted [f])|intros k' Hk'; apply Hn; by right]. rewrite (get_index [f]) by done.
  rewrite decide_False; [done|]. apply Hn. by left.
Qed.

Lemma get_backfill_new f ks T W k v :
  NUL ∉ f -> kv_sorted W -> k ∈ ks -> collection.field_of (old_doc k T) f = Some v ->
  kv_get (_index_key f v k) (spec_backfill f ks T W) = Some (JStr k).
Proof.
  intros Hf. revert W. induction ks as [|k' ks IH]; intros W HW Hk Hv; [by apply elem_of_nil in Hk|]. rewrite backfill_cons.
  destruct (decide (k ∈ ks)) as [Hin|Hin]; [apply IH; [by apply (index_sorted [f])|done|done]|].
  apply elem_of_cons in Hk as [->|?]; [|done]. rewrite get_backfill_other.
  - rewrite (get_index [f]) by done. rewrite decide_True; [done|]. apply names_spec. exists f, v. split_and!; try done. by left.
  - by apply (index_sorted [f]).
  - intros k'' Hk'' (f'' & w & ->%list_elem_of_singleton & _ & E)%names_spec. apply index_key_inj in E as (_ & _ & ->); done.
Qed.

Lemma consistent_create n ix f ks T :
  consistent n ix T -> NUL ∉ f -> index_sound f T ->
  (forall k, k ∈ ks <-> k ∈ T.*1 /\ startswith k _RESERVED = false /\ expired_at n T k = false) ->
  consistent n ({[ f ]} ∪ ix) (spec_backfill f ks T T).
Proof.
  intros Hc Hf Hs Hks. pose proof (co_sorted _ _ _ Hc) as HT.
  assert (Hoth : forall x, (startswith x (_INDEX_PREFIX ++ f ++ [NUL]) = false) -> kv_get x (spec_backfill f ks T T) = kv_get x T).
  { intros x Hx. apply get_backfill_other; [done|]. intros k _ (f' & w & ->%list_elem_of_singleton & _ & ->)%names_spec.
    enough (startswith (_index_key f w k) (_INDEX_PREFIX ++ f ++ [NUL]) = true) by congruence.
    apply startswith_spec. eexists. unfold _index_key. by rewrite <- !app_assoc. }
  assert (Hval : forall k, valid_key k -> startswith k (_INDEX_PREFIX ++ f ++ [NUL]) = false).
  { intros k [_ Hk]. destruct (startswith k (_ ++ f ++ _)) eqn:E; [|done]. apply field_prefix_index, index_reserved in E. congruence. }
  assert (Hexp : forall x, startswith x _EXPIRY_PREFIX = true -> startswith x (_INDEX_PREFIX ++ f ++ [NUL]) = false).
  { intros x Hx. destruct (startswith x (_ ++ f ++ _)) eqn:E; [|done]. apply field_prefix_index in E. exfalso. by eapply index_expiry_apart. }
  assert (Hdoc : forall k doc, kv_get k (spec_backfill f ks T T) = Some doc -> valid_key k -> kv_get k T = Some doc) by (intros k doc Hd Hk; by rewrite Hoth in Hd by auto).
  split; [by apply backfill_sorted|..].
  - intros x Hx ->. apply kv_get_in in Hx as [v Hv]. rewrite Hoth in Hv by done. apply (co_keys _ _ _ Hc []); [|done]. apply kv_get_in. by exists v.
  - intros k doc Hd Hk. destruct (decide (k = [])) as [->|Hne]; [rewrite Hoth in Hd by done; by eapply (co_docs _ _ _ Hc)|].
    eapply (co_docs _ _ _ Hc); [|done]. by eapply Hdoc.
  - intros x v Hx Hp. rewrite Hoth in Hx by auto. destruct (co_expiry _ _ _ Hc x v Hx Hp) as (k & e & doc & -> & -> & Hk & Hd).
    exists k, e, doc. split_and!; try done. by rewrite Hoth by auto.
  - intros f' [->%elem_of_singleton|Hf']%elem_of_union; [done|by apply (co_fields _ _ _ Hc)].
  - intros f' Hf' x v Hx Hp.
    assert (forall k doc w, x = _index_key f' w k /\ v = JStr k /\ valid_key k /\ kv_get k T = Some doc /\ collection.field_of doc f' = Some w ->
      exists k doc w, x = _index_key f' w k /\ v = JStr k /\ valid_key k /\ kv_get k (spec_backfill f ks T T) = Some doc /\ collection.field_of doc f' = Some w) as Hlift.
    { intros k doc w (-> & -> & Hk & Hd & Hw). exists k, doc, w. split_and!; try done. by rewrite Hoth by auto. }
    destruct (decide (f' = f)) as [->|Hne].
    + destruct (decide (Exists (fun k => names [f] k (old_doc k T) x) ks)) as [He|He].
      * apply Exists_exists in He as (k & Hk & (f' & w & ->%list_elem_of_singleton & Hw & ->)%names_spec).
        rewrite get_backfill_new in Hx by done. injection Hx as <-. apply Hks in Hk as (Hk1 & Hk2 & _). apply (Hlift k (old_doc k T) w).
        pose proof Hk1 as [doc Hd]%kv_get_in. unfold old_doc in *. rewrite Hd in *. split_and!; try done. split; [by apply (co_keys _ _ _ Hc)|done].
      * rewrite get_backfill_other in Hx; [|done|]. 2:{ intros k Hk Hn. apply He, Exists_exists. by exists k. }
        destruct (Hs x v Hx Hp) as (k & doc & w & Hall). by eapply Hlift.
    + assert (f' ∈ ix) as Hin by (apply elem_of_union in Hf' as [?%elem_of_singleton|?]; done).
      rewrite get_backfill_other in Hx; [|done|].
      * destruct (co_sound _ _ _ Hc f' Hin x v Hx Hp) as (k & doc & w & Hall). by eapply Hlift.
      * intros k _ (f'' & w & ->%list_elem_of_singleton & _ & ->)%names_spec. apply Hne. symmetry. apply (index_key_prefix f f' w k); [done| |done]. by apply (co_fields _ _ _ Hc).
  - intros f' Hf' k doc v Hd Hk Hex Hv. pose proof (Hdoc k doc Hd Hk) as Hd'.
    assert (expired_at n T k = false) as Hex' by (unfold expired_at in *; by rewrite Hoth in Hex by auto).
    destruct (decide (f' = f)) as [->|Hne].
    + apply get_backfill_new; try done; [|unfold old_doc; by rewrite Hd']. apply Hks. split_and!; [apply kv_get_in; by exists doc|apply Hk|done].
    + assert (f' ∈ ix) as Hin by (apply elem_of_union in Hf' as [?%elem_of_singleton|?]; done).
      rewrite Hoth; [by eapply (co_complete _ _ _ Hc f' Hin)|]. destruct (startswith _ _) eqn:E; [|done].
      destruct Hne. eapply index_key_prefix; [|done|exact E]. by apply (co_fields _ _ _ Hc).
Qed.

(** ** Stray entries *)

Lemma index_key_field f v k : startswith (_index_key f v k) (_INDEX_PREFIX ++ f ++ [NUL]) = true.
Proof. apply startswith_spec. eexists. unfold _index_key. by rewrite <- !app_assoc. Qed.

Lemma strays_replaces ix k new e T T' : valid_key k -> no_strays ix T -> replaces ix k new e T T' -> no_strays ix T'.
Proof.
  intros Hk Hs Hr x v Hx Hp.
  assert (forall doc, names (elements ix) k doc x -> exists f, f ∈ ix /\ startswith x (_INDEX_PREFIX ++ f ++ [NUL]) = true) as Hn.
  { intros doc (f & w & Hf & _ & ->)%names_spec. exists f. split; [by apply elem_of_elements|apply index_key_field]. }
  destruct (decide (names (elements ix) k (default JNull new) x)) as [?|Hnew]; [by eapply Hn|].
  destruct (decide (names (elements ix) k (old_doc k T) x)) as [?|Hold]; [by eapply Hn|].
  rewrite (rp_rest _ _ _ _ _ _ Hr) in Hx; [by eapply Hs| |intros ->; by eapply index_expiry_apart|done|done].
  by apply valid_apart, index_reserved.
Qed.

Lemma strays_create ix f ks T : kv_sorted T -> no_strays ix T -> no_strays ({[ f ]} ∪ ix) (spec_backfill f ks T T).
Proof.
  intros HT Hs x v Hx Hp. destruct (decide (Exists (fun k => names [f] k (old_doc k T) x) ks)) as [He|He].
  - apply Exists_exists in He as (k & _ & (f' & w & ->%list_elem_of_singleton & _ & ->)%names_spec). exists f. split; [set_solver|apply index_key_field].
  - rewrite get_backfill_other in Hx; [|done|intros k Hk Hn; apply He, Exists_exists; by exists k].
    destruct (Hs x v Hx Hp) as (f' & Hf' & Hp'). exists f'. split; [set_solver|done].
Qed.

(** Without stray entries a new index starts empty. *)
Lemma strays_sound n ix f T : consistent n ix T -> no_strays ix T -> NUL ∉ f -> index_sound f T.
Proof.
  intros Hc Hs Hf. destruct (decide (f ∈ ix)) as [Hin|Hin]; [by apply (co_sound _ _ _ Hc)|].
  intros x v Hx Hp. destruct (Hs x v Hx (field_prefix_index _ _ Hp)) as (f' & Hf' & Hp'). destruct Hin.
  apply startswith_spec in Hp as [r Er]. apply startswith_spec in Hp' as [r' Er']. rewrite Er in Er'. rewrite <- !app_assoc in Er'.
  apply (app_inv_head _INDEX_PREFIX) in Er'. apply split_nul in Er' as [-> _]; [done|done|by apply (co_fields _ _ _ Hc)].
Qed.

End inv.
