(* ===== verification/CollectionRun.v ===== *)
(** The collection's methods, run on a database that holds a table: reads return
    what the table says, and the transaction blocks change it as specified. *)

From S2P Require Import Prelude PyBase Struct SimDisk Locking Physical PhysicalFacts Recovery KeyList Logical Pickle Index.
From S2P Require Import BPlusTree BPlusIndex Engine Session Text Database TableDb Json Collection CollectionSpec CollectionInv.

(** [f] started in [P] has the outcome [r] and ends in [Q]. *)
Definition runs {E S A} (P : S -> Prop) (f : stx E S A) (r : result E A) (Q : S -> Prop) : Prop :=
  forall s, P s -> exists s', f s = (s', r) /\ Q s'.

Section runs.
Context {E S : Type}.
Implicit Types (P Q R : S -> Prop).

Lemma runs_ret {A} P (a : A) : runs (E := E) P (mret a) (Ok a) P.
Proof. intros s Hs. by exists s. Qed.

Lemma runs_raise {A} P (e : E) : runs (A := A) P (raise e) (Raise e) P.
Proof. intros s Hs. by exists s. Qed.

Lemma runs_lift {A} P (r : result E A) : runs P (lift_res r) r P.
Proof. intros s Hs. by exists s. Qed.

Lemma runs_bind {A B} P Q R (f : stx E S A) (g : A -> stx E S B) a r :
  runs P f (Ok a) Q -> runs Q (g a) r R -> runs P (f ≫= g) r R.
Proof.
  intros Hf Hg s Hs. destruct (Hf s Hs) as (s1 & E1 & H1). destruct (Hg s1 H1) as (s2 & E2 & H2). exists s2. split; [|done].
  by erewrite stx_bind_ok by exact E1.
Qed.

Lemma runs_bind_raise {A B} P Q (f : stx E S A) (g : A -> stx E S B) e :
  runs P f (Raise e) Q -> runs P (f ≫= g) (Raise e) Q.
Proof. intros Hf s Hs. destruct (Hf s Hs) as (s1 & E1 & H1). exists s1. split; [|done]. by erewrite stx_bind_raise by exact E1. Qed.

Lemma runs_get {B} P Q (g : S -> stx E S B) r : (forall s, P s -> runs (fun s' => P s' /\ s' = s) (g s) r Q) -> runs P (get_st ≫= g) r Q.
Proof. intros Hg s Hs. destruct (Hg s Hs s (conj Hs eq_refl)) as (s' & E' & Hq). exists s'. split; [|done]. by erewrite stx_bind_ok by reflexivity. Qed.

Lemma runs_pre {A} P P' Q (f : stx E S A) r : (forall s, P' s -> P s) -> runs P f r Q -> runs P' f r Q.
Proof. intros HP Hf s Hs. apply Hf. auto. Qed.

Lemma runs_post {A} P Q Q' (f : stx E S A) r : (forall s, Q s -> Q' s) -> runs P f r Q -> runs P f r Q'.
Proof. intros HQ Hf s Hs. destruct (Hf s Hs) as (s' & E' & Hq). exists s'. auto. Qed.

End runs.

#[global] Instance json_keys `{JsonLib} : KeyOk json := fun _ => True.

(** A database's path never changes. *)
Section path.
Context `{Pickle} {N : Type} `{Index N} {V : Type} `{Codec V}.

Lemma on_tree_path {A} (f : St (Tree N) A) p : preserves (fun d => db_path d = p) (dbdb.on_tree f).
Proof. intros d d' r Hd. unfold dbdb.on_tree, zoom. destruct (f (db_tree d)). by intros [= <- _]. Qed.

Lemma getitem_path k p : preserves (fun d => db_path d = p) (dbdb.getitem (V := V) k).
Proof.
  unfold dbdb.getitem, dbdb._assert_open, dbdb._validate_key. pose proof @on_tree_path. preserve.
Qed.

Lemma scan_path a b c p : preserves (fun d => db_path d = p) (dbdb.scan (V := V) a b c).
Proof.
  unfold dbdb.scan, dbdb._assert_open, dbdb.validate_opt, dbdb._validate_key. pose proof @on_tree_path. preserve.
Qed.

End path.

Section run.
Context `{Pickle} (order : nat) (Horder : (3 <= order)%nat) `{JsonLibLaws} `{!Codec json, !CodecLaws json}.
#[local] Hint Extern 0 (Index bnode) => exact (bplus_index order) : typeclass_instances.
#[local] Hint Extern 0 (IndexSpec bnode) => exact (bplus_spec order Horder) : typeclass_instances.
Implicit Types (c : Collection bnode) (m : _Meta) (B T : list (pystr * json)) (k f x : pystr) (doc v : json) (ix : gset pystr) (n : number) (w : nat).

(** The collection's database holds the committed table [T], and its clock shows [n]. *)
Definition coll m ix n T c : Prop :=
  db_holds (c_db c) m T T /\ db_path (c_db c) <> None /\ _indexes c = ix /\ forall i, _clock c i = n.

Lemma on_db_runs {A} (g : St (DBDB bnode) A) r m ix n T :
  (forall d, db_holds d m T T -> exists d', g d = (d', r) /\ db_holds d' m T T) -> (forall p, preserves (fun d => db_path d = p) g) ->
  runs (coll m ix n T) (collection.on_db g) r (coll m ix n T).
Proof.
  intros Hg Hp c (Hd & Hpath & Hix & Hclk). destruct (Hg _ Hd) as (d' & E & Hd'). exists (collection.set_db d' c).
  split; [by apply zoom_eq|]. split_and!; try done. simpl. by rewrite (Hp _ _ _ _ eq_refl E).
Qed.

(** ** Reads *)

Lemma getitem_runs m ix n T k :
  k <> [] -> runs (coll m ix n T) (collection.on_db (dbdb.getitem k)) (match kv_get k T with Some v => Ok v | None => Raise (KeyError k) end) (coll m ix n T).
Proof. intros Hk. apply on_db_runs; [|intros; apply getitem_path]. intros d Hd. destruct (db_getitem d m T T k Hd Hk) as (d' & E & Hd'). by exists d'. Qed.

Lemma db_get_runs m ix n T k :
  k <> [] -> runs (coll m ix n T) (collection.db_get k) (Ok (old_doc k T)) (coll m ix n T).
Proof.
  intros Hk. unfold collection.db_get. apply (runs_bind _ (coll m ix n T) _ _ _ (kv_get k T)); [|apply runs_ret].
  apply on_db_runs.
  - intros d Hd. destruct (db_getitem d m T T k Hd Hk) as (d' & E & Hd'). exists d'. split; [|done].
    unfold dbdb.get, try_with, mbind, stx_bind. rewrite E. by destruct (kv_get k T).
  - intros p d d' r Hd. unfold dbdb.get, try_with.
    assert (preserves (fun d : DBDB bnode => db_path d = p) (v ← dbdb.getitem k; mret (Some v))) as Hpre
      by (apply preserves_bind; [apply getitem_path|intros a; apply preserves_ret]).
    destruct ((v ← dbdb.getitem k; mret (Some v)) d) as [d1 [a|e]] eqn:E; [intros [= <- _]; by eapply Hpre|].
    intros E2. assert (d1 = d') as <- by (destruct e; by injection E2). by eapply Hpre.
Qed.

Lemma now_runs m ix n T : runs (coll m ix n T) collection.now (Ok n) (coll m ix n T).
Proof.
  intros c (Hd & Hp & Hix & Hclk). exists (mkCollection (c_db c) (_indexes c) (_clock c) (S (c_reads c))). split; [|by split_and!].
  unfold collection.now. erewrite stx_bind_ok by reflexivity. erewrite stx_bind_ok by reflexivity. rewrite Hclk. reflexivity.
Qed.

Lemma of_to_number e : to_number (of_number e) = Ok e.
Proof. by destruct e. Qed.

Lemma is_expired_runs m ix ix' n T k :
  consistent n ix' T -> runs (coll m ix n T) (collection._is_expired k) (Ok (expired_at n T k)) (coll m ix n T).
Proof.
  intros Hc. unfold collection._is_expired. eapply runs_bind; [by apply db_get_runs|]. unfold expired_at, old_doc.
  destruct (kv_get (_expiry_key k) T) as [v|] eqn:Ev; [|apply runs_ret].
  destruct (co_expiry _ _ _ Hc _ _ Ev) as (k' & e & doc & _ & -> & _); [apply startswith_spec; by eexists|]. rewrite of_to_number. simpl.
  destruct e as [z|y]; simpl; (eapply runs_bind; [apply now_runs|]; apply runs_ret).
Qed.

(** The documents that are alive, among the given keys. *)
Definition alive n T (ks : list pystr) : list pystr := base.filter (fun k => startswith k _RESERVED || expired_at n T k = false) ks.

Lemma visible_runs m ix ix' n T ks :
  consistent n ix' T -> runs (coll m ix n T) (collection.visible ks) (Ok (alive n T ks)) (coll m ix n T).
Proof.
  intros Hc. induction ks as [|k ks IH]; [apply runs_ret|]. cbn [collection.visible]. unfold alive. rewrite filter_cons.
  destruct (startswith k _RESERVED) eqn:Er; simpl; [done|].
  eapply runs_bind; [by eapply is_expired_runs|]. eapply runs_bind; [apply IH|]. destruct (expired_at n T k); apply runs_ret.
Qed.

Lemma db_keys_runs m ix n T : runs (coll m ix n T) (collection.on_db (dbdb.keys (V := json) None None None)) (Ok T.*1) (coll m ix n T).
Proof.
  apply on_db_runs.
  - intros d Hd. destruct (db_keys d m T T None Hd) as (d' & E & Hd'); [done|]. exists d'. split; [|done]. rewrite E. do 3 f_equal. clear. by induction T as [|a T IH]; [|rewrite filter_cons_True, IH].
  - intros p. unfold dbdb.keys. apply preserves_bind; [apply scan_path|]. auto with preserve.
Qed.

Lemma keys_runs m ix ix' n T :
  consistent n ix' T -> runs (coll m ix n T) collection.keys (Ok (alive n T T.*1)) (coll m ix n T).
Proof. intros Hc. eapply runs_bind; [apply db_keys_runs|by eapply visible_runs]. Qed.

Lemma scan_runs m ix n T (p : pystr) :
  p <> [] ->
  runs (coll m ix n T) (collection.on_db (dbdb.scan (Some p) None None)) (Ok (base.filter (fun a => startswith a.1 p = true) T)) (coll m ix n T).
Proof.
  intros Hp. apply on_db_runs; [|intros; apply scan_path]. intros d Hd. by destruct (db_scan d m T T (Some p) Hd) as (d' & E & Hd'); [congruence|exists d'].
Qed.

(** ** Transaction blocks *)

(** In a block that began at [B] and shows [T] after at most [w] writes. *)
Definition in_block m ix n B T w (s : Collection bnode * Transaction) : Prop :=
  in_tx order Horder (c_db s.1, s.2) m B T w /\ _indexes s.1 = ix /\ forall i, _clock s.1 i = n.

Lemma on_tx_eq {A} (g : St (DBDB bnode * Transaction) A) c tx d' tx' r :
  g (c_db c, tx) = ((d', tx'), r) -> collection.on_tx g (c, tx) = ((collection.set_db d' c, tx'), r).
Proof. intros E. unfold collection.on_tx, zoom. cbn [fst snd]. by rewrite E. Qed.

Lemma on_self_eq {A} (g : St (Collection bnode) A) c tx c' r : g c = (c', r) -> collection.on_self g (c, tx) = ((c', tx), r).
Proof. intros E. unfold collection.on_self, zoom. cbn [fst snd]. by rewrite E. Qed.

Lemma on_tx_runs {A} (g : St (DBDB bnode * Transaction) A) r m ix n B T T' w w' :
  (forall s, in_tx order Horder s m B T w -> exists s', g s = (s', r) /\ in_tx order Horder s' m B T' w') ->
  runs (in_block m ix n B T w) (collection.on_tx g) r (in_block m ix n B T' w').
Proof.
  intros Hg [c tx] (Hin & Hix & Hclk). destruct (Hg _ Hin) as ([d' tx'] & E & Hin'). exists (collection.set_db d' c, tx').
  split; [by apply on_tx_eq|]. by split_and!.
Qed.

(** The block's body may also read the collection, which shows what is committed. *)
Lemma on_self_runs {A} (g : St (Collection bnode) A) r m ix n B T w :
  runs (coll m ix n B) g r (coll m ix n B) -> runs (in_block m ix n B T w) (collection.on_self g) r (in_block m ix n B T w).
Proof.
  intros Hg [c tx] ((base & sn & Hh & HB & Ho & Hp & Hb1 & Hb2 & Hb3 & Hb4 & Hb5 & Hb6) & Hix & Hclk). cbn [fst snd] in *.
  destruct (Hg c) as (c' & E & (base' & kvs' & Hh' & HB' & HT' & Ho') & Hp' & Hix' & Hclk').
  { split_and!; try done. exists base, base. by split_and!. }
  exists (c', tx). split; [by apply on_self_eq|]. split; [|done]. exists base, sn. cbn [fst snd].
  assert (base' = base) as -> by (by eapply stored_fun). assert (kvs' = base) as -> by (by eapply stored_fun). by split_and!.
Qed.

(** What a block leaves: the table it built is committed, or the disk failed. *)
Definition block_outcome m ix n B T (c : Collection bnode) (r : res unit) : Prop :=
  tx_outcome order Horder m B T (c_db c) r /\ _indexes c = ix /\ forall i, _clock c i = n.

Lemma with_transaction_runs (body : St (Collection bnode * Transaction) unit) m ix n B T w c :
  coll m ix n B c -> Z.of_nat (length B + w) < 2 ^ 64 ->
  runs (in_block m ix n B B 0) body (Ok tt) (in_block m ix n B T w) ->
  exists c' r, collection.with_transaction body c = (c', r) /\ block_outcome m ix n B T c' r.
Proof.
  intros (Hd & Hp & Hix & Hclk) Hlen Hb. destruct (tx_enter order Horder (c_db c) m B Hd Hp) as ([d1 tx1] & E1 & Hin1).
  unfold collection.with_transaction.
  assert (collection.on_tx transaction.__enter__ (c, mkTransaction None []) = ((collection.set_db d1 c, tx1), Ok tt)) as Ee
    by (by apply on_tx_eq).
  erewrite stx_bind_ok by exact Ee. unfold collection.block.
  destruct (Hb (collection.set_db d1 c, tx1)) as ([c2 tx2] & E2 & Hin2 & Hix2 & Hclk2); [by split_and!|]. rewrite E2.
  destruct (tx_commit order Horder (c_db c2, tx2) m B T w Hin2 Hlen) as (d3 & tx3 & r3 & E3 & Hout).
  assert (collection.on_tx (transaction.__exit__ false) (c2, tx2) = ((collection.set_db d3 c2, tx3), r3)) as Ex
    by (by apply on_tx_eq).
  exists (collection.set_db d3 c2), r3. split; [|done]. unfold mbind, stx_bind. rewrite Ex. by destruct r3 as [[]|].
Qed.

(** A block whose body raises changes nothing. *)
Lemma with_transaction_aborts (body : St (Collection bnode * Transaction) unit) m ix n B T w e c :
  coll m ix n B c -> runs (in_block m ix n B B 0) body (Raise e) (in_block m ix n B T w) ->
  exists c', collection.with_transaction body c = (c', Raise e) /\ coll m ix n B c'.
Proof.
  intros (Hd & Hp & Hix & Hclk) Hb. destruct (tx_enter order Horder (c_db c) m B Hd Hp) as ([d1 tx1] & E1 & Hin1).
  unfold collection.with_transaction.
  assert (collection.on_tx transaction.__enter__ (c, mkTransaction None []) = ((collection.set_db d1 c, tx1), Ok tt)) as Ee
    by (by apply on_tx_eq).
  erewrite stx_bind_ok by exact Ee. unfold collection.block.
  destruct (Hb (collection.set_db d1 c, tx1)) as ([c2 tx2] & E2 & Hin2 & Hix2 & Hclk2); [by split_and!|]. rewrite E2.
  destruct (tx_abort order Horder (c_db c2, tx2) m B T w Hin2) as (d3 & tx3 & E3 & Hd3 & Hp3).
  assert (collection.on_tx (transaction.__exit__ true) (c2, tx2) = ((collection.set_db d3 c2, tx3), Ok tt)) as Ex
    by (by apply on_tx_eq).
  exists (collection.set_db d3 c2). split; [|by split_and!]. unfold mbind, stx_bind. by rewrite Ex.
Qed.

End run.
