(* ===== verification/CollectionWrite.v ===== *)
(** Setting, deleting and indexing: each call changes the table exactly as
    specified, or raises and changes nothing, or the disk fails. *)

From S2P Require Import Prelude PyBase Struct SimDisk Locking Physical PhysicalFacts Recovery KeyList Logical Pickle Index.
From S2P Require Import BPlusTree BPlusIndex Engine Session Text Database TableDb Json Collection CollectionSpec CollectionInv CollectionRun.

(** * The abstract collection *)

(** The calls that write. *)
Inductive coll_op `{JsonLib} : Type :=
| CSet (key : pystr) (document : json) (ttl : option number)
| CDelete (key : pystr)
| CCreateIndex (field : pystr).

Definition coll_exec `{Pickle} {N} `{Index N} `{JsonLib} `{!Codec json} (o : coll_op) : St (Collection N) unit :=
  match o with
  | CSet key document ttl => collection.set key document ttl
  | CDelete key => collection.delete key
  | CCreateIndex field => collection.create_index field
  end.

(** What a call does at time [n] to the indexed fields and the table. *)
Definition spec_op `{JsonLib} `{!Codec json} (n : number) (o : coll_op) (ix : gset pystr) (T : list (pystr * json)) :
    res (gset pystr * list (pystr * json)) :=
  match o with
  | CSet key document ttl =>
      _check_key key ;;
      match document with
      | JDict _ =>
          encode document ;;
          expiry ← match ttl with None => Ok None | Some ttl => e ← num_add n ttl; Ok (Some e) end;
          Ok (ix, spec_set ix key document expiry T)
      | _ => Raise TypeError
      end
  | CDelete key =>
      _check_key key ;;
      match kv_get key T with None => Raise (KeyError key) | Some _ => Ok (ix, spec_delete ix key T) end
  | CCreateIndex field => Ok ({[ field ]} ∪ ix, spec_backfill field (alive n T T.*1) T T)
  end.

Section write.
Context `{Pickle} (order : nat) (Horder : (3 <= order)%nat) `{JsonLibLaws} `{!Codec json, !CodecLaws json, !JsonCodecLaws}.
#[local] Hint Extern 0 (Index bnode) => exact (bplus_index order) : typeclass_instances.
#[local] Hint Extern 0 (IndexSpec bnode) => exact (bplus_spec order Horder) : typeclass_instances.
Implicit Types (c : Collection bnode) (m : _Meta) (B T : list (pystr * json)) (k f x : pystr) (doc v : json) (fs ks : list pystr) (ix : gset pystr) (n : number) (w : nat).

Abbreviation in_block := (in_block order Horder).
Abbreviation coll := (coll order Horder).

(** ** Steps of a block *)

Lemma set_step m ix n B T w x v :
  x <> [] -> (exists b, encode v = Ok b) ->
  runs (in_block m ix n B T w) (collection.on_tx (transaction.set x v)) (Ok tt) (in_block m ix n B (kv_set x v T) (S w)).
Proof. intros Hx [b Hb]. apply on_tx_runs. intros s Hs. by eapply tx_set. Qed.

Lemma contains_step m ix n B T w x :
  runs (in_block m ix n B T w) (collection.on_tx (transaction.contains x)) (Ok (if kv_get x T then true else false)) (in_block m ix n B T w).
Proof. apply on_tx_runs. intros s Hs. exists s. split; [|done]. by eapply tx_contains. Qed.

(** [if x in tx: tx.delete(x)] *)
Lemma discard_step m ix n B T w x :
  x <> [] ->
  runs (in_block m ix n B T w)
    (there ← collection.on_tx (transaction.contains x); if (there : bool) then collection.on_tx (transaction.delete x) else mret tt)
    (Ok tt) (in_block m ix n B (kv_del x T) (S w)).
Proof.
  intros Hx. eapply runs_bind; [apply contains_step|]. destruct (kv_get x T) as [v|] eqn:Ev.
  - apply on_tx_runs. intros s Hs. eapply tx_delete; [done|done|by exists v].
  - rewrite kv_del_absent by done. eapply runs_post; [|apply runs_ret]. intros s (Hs & Hr). split; [|done]. eapply in_tx_weaken; [|exact Hs]. lia.
Qed.

Lemma skip_step m ix n B T w : runs (in_block m ix n B T w) (mret tt : St _ unit) (Ok tt) (in_block m ix n B T (S w)).
Proof. eapply runs_post; [|apply runs_ret]. intros s (Hs & Hr). split; [|done]. eapply in_tx_weaken; [|exact Hs]. lia. Qed.

Lemma unindex_loop_runs m ix n B T w fs k doc :
  runs (in_block m ix n B T w) (collection.unindex_loop fs k doc) (Ok tt) (in_block m ix n B (spec_unindex fs k doc T) (w + length fs)).
Proof.
  revert T w. induction fs as [|f fs IH]; intros T w; [rewrite Nat.add_0_r; apply runs_ret|]. cbn [collection.unindex_loop].
  replace (w + length (f :: fs))%nat with (S w + length fs)%nat by (simpl; lia).
  change (spec_unindex (f :: fs) k doc T) with (spec_unindex fs k doc (match collection.field_of doc f with Some v => kv_del (_index_key f v k) T | None => T end)).
  destruct (collection.field_of doc f) as [v|]; (eapply runs_bind; [|apply IH]); [by apply discard_step|apply skip_step].
Qed.

Lemma index_loop_runs m ix n B T w fs k doc :
  runs (in_block m ix n B T w) (collection.index_loop fs k doc) (Ok tt) (in_block m ix n B (spec_index fs k doc T) (w + length fs)).
Proof.
  revert T w. induction fs as [|f fs IH]; intros T w; [rewrite Nat.add_0_r; apply runs_ret|]. cbn [collection.index_loop].
  replace (w + length (f :: fs))%nat with (S w + length fs)%nat by (simpl; lia).
  change (spec_index (f :: fs) k doc T) with (spec_index fs k doc (match collection.field_of doc f with Some v => kv_set (_index_key f v k) (JStr k) T | None => T end)).
  destruct (collection.field_of doc f) as [v|]; (eapply runs_bind; [|apply IH]); [apply set_step; [done|apply encode_str]|apply skip_step].
Qed.

(** [for field in self._indexes] *)
Lemma over_indexes m ix n B T w (g : gset pystr -> St (Collection bnode * Transaction) unit) r Q :
  runs (in_block m ix n B T w) (g ix) r Q -> runs (in_block m ix n B T w) (s ← get_st; g (_indexes s.1)) r Q.
Proof. intros Hg. apply runs_get. intros s (_ & -> & _). eapply runs_pre; [|exact Hg]. by intros ? [? _]. Qed.

Lemma unindex_null fs k T : spec_unindex fs k JNull T = T.
Proof. induction fs as [|f fs IH]; [done|]. exact IH. Qed.

Lemma unindex_runs m ix n B T w k doc :
  doc = JNull \/ (exists d, doc = JDict d) ->
  runs (in_block m ix n B T w) (collection._unindex k doc) (Ok tt) (in_block m ix n B (spec_unindex (elements ix) k doc T) (w + size ix)).
Proof.
  intros [-> | [d ->]]; cbn [collection._unindex].
  - rewrite unindex_null. eapply runs_post; [|apply runs_ret]. intros s (Hs & Hr). split; [|done]. eapply in_tx_weaken; [|exact Hs]. lia.
  - apply (over_indexes _ _ _ _ _ _ (fun ix => collection.unindex_loop (elements ix) k (JDict d))). apply unindex_loop_runs.
Qed.

(** The document a consistent table holds is a [dict], or there is none. *)
Lemma old_doc_dict n ix T k : consistent n ix T -> valid_key k -> old_doc k T = JNull \/ exists d, old_doc k T = JDict d.
Proof.
  intros Hc Hk. unfold old_doc. destruct (kv_get k T) as [doc|] eqn:E; [|by left]. right. eapply (co_docs _ _ _ Hc); [done|apply Hk].
Qed.

(** ** The calls *)

(** The outcome of a call: as specified, or the disk failed and holds [T]. *)
Definition coll_outcome m ix n T (spec : res (gset pystr * list (pystr * json))) (out : Collection bnode * res unit) : Prop :=
  match spec with
  | Raise e => out.2 = Raise e /\ coll m ix n T out.1
  | Ok (ix', T') =>
      (out.2 = Ok tt /\ exists m', coll m' ix' n T' out.1) \/
      ((out.2 = Raise SimCrash \/ out.2 = Raise StructError) /\
       exists m' base, stored T base /\ opens (N := bnode) (disk.durable_bytes (_f (dbdb.the_storage (c_db out.1)))) m' base)
  end.

Lemma block_coll m ix n T T' c r : block_outcome order Horder m ix n T T' c r -> coll_outcome m ix n T (Ok (ix, T')) (c, r).
Proof.
  intros ([(-> & m' & Hd & Hp)|[He Hdisk]] & Hix & Hclk); [left|right; by split]. split; [done|]. exists m'. by split_and!.
Qed.

Lemma set_block_runs m ix n T k d (ttl : option number) b e :
  consistent n ix T -> valid_key k -> encode (JDict d) = Ok b ->
  match ttl with None => Ok None | Some ttl => e ← num_add n ttl; Ok (Some e) end = Ok e ->
  runs (in_block m ix n T T 0) (collection.set_block k (JDict d) ttl) (Ok tt)
    (in_block m ix n T (spec_set ix k (JDict d) e T) (S (S (size ix) + size ix))).
Proof.
  intros Hc Hk Hb He. eapply runs_bind.
  { apply on_tx_runs. intros s Hs. exists s. split; [exact (tx_get_or_none order Horder s m T T 0 k JNull Hs (proj1 Hk))|exact Hs]. }
  fold (old_doc k T). eapply runs_bind; [apply unindex_runs; by eapply old_doc_dict|].
  eapply runs_bind; [apply set_step; [apply Hk|by exists b]|].
  apply (over_indexes _ _ _ _ _ _ (fun ix' => collection.index_loop (elements ix') k (JDict d) ;; _)).
  eapply runs_bind; [apply index_loop_runs|]. unfold spec_set. cbv zeta. destruct ttl as [t|].
  - apply result_bind_inv in He as (e' & Et & [= <-]). eapply runs_bind; [apply on_self_runs, now_runs|]. cbv beta.
    eapply runs_bind; [rewrite Et; apply runs_lift|]. apply set_step; [done|apply encode_number].
  - injection He as <-. by apply discard_step.
Qed.

(** A document that cannot be encoded, or a time that cannot be computed. *)
Lemma set_block_fails m ix n T k doc (ttl : option number) e :
  consistent n ix T -> valid_key k -> encode doc = Raise e ->
  exists T' w, runs (in_block m ix n T T 0) (collection.set_block k doc ttl) (Raise e) (in_block m ix n T T' w).
Proof.
  intros Hc Hk He. do 2 eexists. eapply runs_bind.
  { apply on_tx_runs. intros s Hs. exists s. split; [exact (tx_get_or_none order Horder s m T T 0 k JNull Hs (proj1 Hk))|exact Hs]. }
  fold (old_doc k T). eapply runs_bind; [apply unindex_runs; by eapply old_doc_dict|]. apply runs_bind_raise. apply on_tx_runs.
  intros s Hs. exists s. split; [|exact Hs]. unfold transaction.set. destruct k as [|ch k]; [by destruct Hk|].
  erewrite stx_bind_ok by (by destruct s). by erewrite stx_bind_raise by (unfold lift_res; rewrite He; reflexivity).
Qed.

Lemma set_block_no_time m ix n T k d b t e :
  consistent n ix T -> valid_key k -> encode (JDict d) = Ok b -> num_add n t = Raise e ->
  exists T' w, runs (in_block m ix n T T 0) (collection.set_block k (JDict d) (Some t)) (Raise e) (in_block m ix n T T' w).
Proof.
  intros Hc Hk Hb He. do 2 eexists. eapply runs_bind.
  { apply on_tx_runs. intros s Hs. exists s. split; [exact (tx_get_or_none order Horder s m T T 0 k JNull Hs (proj1 Hk))|exact Hs]. }
  fold (old_doc k T). eapply runs_bind; [apply unindex_runs; by eapply old_doc_dict|].
  eapply runs_bind; [apply set_step; [apply Hk|by exists b]|].
  apply (over_indexes _ _ _ _ _ _ (fun ix' => collection.index_loop (elements ix') k (JDict d) ;; _)).
  eapply runs_bind; [apply index_loop_runs|]. eapply runs_bind; [apply on_self_runs, now_runs|]. cbv beta.
  apply runs_bind_raise. rewrite He. apply runs_lift.
Qed.

(** Enough room for the writes of one call. *)
Definition room ix T : Prop := Z.of_nat (2 * length T + 2 * size ix + 2) < 2 ^ 64.

Lemma set_exact m ix n T k doc (ttl : option number) c :
  coll m ix n T c -> consistent n ix T -> room ix T ->
  coll_outcome m ix n T (spec_op n (CSet k doc ttl) ix T) (collection.set k doc ttl c).
Proof.
  intros Hcoll Hc Hroom. unfold collection.set. cbn [spec_op].
  destruct (_check_key k) as [[]|e] eqn:Ek; [|by erewrite stx_bind_raise by reflexivity].
  erewrite stx_bind_ok by reflexivity. cbn [mbind result_bind]. apply check_key_ok in Ek.
  destruct doc as [| | | | | |d]; try done.
  destruct (encode (JDict d)) as [b|e] eqn:Eb; cbn [mbind result_bind].
  2:{ destruct (set_block_fails m ix n T k (JDict d) ttl e Hc Ek Eb) as (T' & w & Hr). destruct (with_transaction_aborts order Horder _ m ix n T T' w e c Hcoll Hr) as (c' & -> & Hc'). by split. }
  destruct (match ttl with None => Ok None | Some ttl => e ← num_add n ttl; Ok (Some e) end) as [e|e] eqn:Et; cbn [mbind result_bind].
  - assert (Z.of_nat (length T + S (S (size ix) + size ix)) < 2 ^ 64) as Hl by (unfold room in Hroom; lia).
    destruct (with_transaction_runs order Horder _ m ix n T _ _ c Hcoll Hl (set_block_runs m ix n T k d ttl b e Hc Ek Eb Et)) as (c' & r & -> & Hout).
    by eapply block_coll.
  - destruct ttl as [t|]; [|done]. destruct (num_add n t) as [x|e'] eqn:Ea; [done|]. injection Et as <-.
    destruct (set_block_no_time m ix n T k d b t e' Hc Ek Eb Ea) as (T' & w & Hr). destruct (with_transaction_aborts order Horder _ m ix n T T' w e' c Hcoll Hr) as (c' & -> & Hc'). by split.
Qed.

Lemma delete_exact m ix n T k c :
  coll m ix n T c -> consistent n ix T -> room ix T ->
  coll_outcome m ix n T (spec_op n (CDelete k) ix T) (collection.delete k c).
Proof.
  intros Hcoll Hc Hroom. unfold collection.delete. cbn [spec_op].
  destruct (_check_key k) as [[]|e] eqn:Ek; [|by erewrite stx_bind_raise by reflexivity].
  erewrite stx_bind_ok by reflexivity. cbn [mbind result_bind]. apply check_key_ok in Ek.
  destruct (db_get_runs order Horder m ix n T k (proj1 Ek) c Hcoll) as (c1 & E1 & Hc1). erewrite stx_bind_ok by exact E1.
  pose proof (old_doc_dict n ix T k Hc Ek) as Hd. destruct (kv_get k T) as [doc|] eqn:Eg.
  2:{ unfold old_doc. rewrite Eg. by split. }
  destruct (co_docs _ _ _ Hc k doc Eg (proj2 Ek)) as [d ->].
  assert (old_doc k T = JDict d) as Eo by (unfold old_doc; by rewrite Eg). rewrite Eo.
  assert (runs (in_block m ix n T T 0) (collection.delete_block k (JDict d)) (Ok tt) (in_block m ix n T (spec_delete ix k T) (S (S (size ix))))) as Hr.
  { unfold collection.delete_block, spec_delete. fold (old_doc k T). rewrite Eo. eapply runs_bind; [apply unindex_runs; right; by exists d|].
    eapply runs_bind; [|by apply discard_step]. apply on_tx_runs. intros s Hs. eapply tx_delete; [done|apply Ek|].
    rewrite get_unindex by apply Hc. rewrite decide_False; [by rewrite Eg|]. intros Hn%names_reserved%index_reserved. destruct Ek as [_ Ek]. congruence. }
  assert (Z.of_nat (length T + S (S (size ix))) < 2 ^ 64) as Hl by (unfold room in Hroom; lia).
  destruct (with_transaction_runs order Horder _ m ix n T _ _ c1 Hc1 Hl Hr) as (c' & r & E & Hout). rewrite E. by eapply block_coll.
Qed.

Lemma backfill_runs m ix n B W w f ks :
  Forall (fun k => k <> [] /\ is_Some (kv_get k B)) ks ->
  runs (in_block m ix n B W w) (collection.backfill ks f) (Ok tt) (in_block m ix n B (spec_backfill f ks B W) (w + length ks)).
Proof.
  intros Hks. revert W w. induction Hks as [|k ks [Hk [doc Hd]] _ IH]; intros W w; [rewrite Nat.add_0_r; apply runs_ret|]. cbn [collection.backfill].
  rewrite backfill_cons. replace (w + length (k :: ks))%nat with (S w + length ks)%nat by (simpl; lia).
  eapply runs_bind. { apply on_self_runs. pose proof (getitem_runs order Horder m ix n B k Hk) as Hg. rewrite Hd in Hg. exact Hg. }
  unfold old_doc. rewrite Hd. change (default JNull (Some doc)) with doc. unfold spec_index at 1. cbn [foldl].
  destruct (collection.field_of doc f) as [v|]; (eapply runs_bind; [|apply IH]); [apply set_step; [done|apply encode_str]|apply skip_step].
Qed.

Lemma alive_spec n T k : k ∈ alive n T T.*1 <-> k ∈ T.*1 /\ startswith k _RESERVED = false /\ expired_at n T k = false.
Proof. unfold alive. rewrite list_elem_of_filter, orb_false_iff. tauto. Qed.

Lemma create_exact m ix n T f c :
  coll m ix n T c -> consistent n ix T -> room ix T ->
  coll_outcome m ix n T (spec_op n (CCreateIndex f) ix T) (collection.create_index f c).
Proof.
  intros Hcoll Hc Hroom. unfold collection.create_index. cbn [spec_op].
  assert (runs (in_block m ix n T T 0) (ks ← collection.on_self collection.keys; collection.backfill ks f) (Ok tt)
    (in_block m ix n T (spec_backfill f (alive n T T.*1) T T) (length (alive n T T.*1)))) as Hr.
  { eapply runs_bind; [apply on_self_runs; by eapply keys_runs|]. apply backfill_runs. apply Forall_forall.
    intros k (Hin & _ & _)%alive_spec. split; [by apply (co_keys _ _ _ Hc)|by apply kv_get_in]. }
  assert (Z.of_nat (length T + length (alive n T T.*1)) < 2 ^ 64) as Hl.
  { unfold room in Hroom. pose proof (length_filter (fun k => startswith k _RESERVED || expired_at n T k = false) T.*1) as Hl. fold (alive n T T.*1) in Hl.
    rewrite length_fmap in Hl. lia. }
  destruct (with_transaction_runs order Horder _ m ix n T _ _ c Hcoll Hl Hr) as (c' & r & E & Hout).
  destruct Hout as ([(-> & m' & Hd & Hp)|[He Hdisk]] & Hix & Hclk).
  - erewrite stx_bind_ok by exact E. left. split; [done|]. exists m'. split_and!; try done. simpl. by rewrite Hix.
  - right. by destruct He as [-> | ->]; (erewrite stx_bind_raise by exact E); (split; [by auto|]).
Qed.

Lemma op_exact m ix n T (o : coll_op) c :
  coll m ix n T c -> consistent n ix T -> room ix T -> coll_outcome m ix n T (spec_op n o ix T) (coll_exec o c).
Proof. destruct o; [apply set_exact|apply delete_exact|apply create_exact]. Qed.

(** The field of a new index has no NUL in its name, which would make index keys
    ambiguous. *)
Definition field_ok (o : coll_op) : Prop := match o with CCreateIndex f => NUL ∉ f | _ => True end.

Lemma op_tended n (o : coll_op) ix T ix' T' :
  tended n ix T -> field_ok o -> spec_op n o ix T = Ok (ix', T') -> tended n ix' T'.
Proof.
  intros [Hc Hs] Ho. pose proof (co_sorted _ _ _ Hc) as HT. destruct o as [k doc ttl|k|f]; cbn [spec_op].
  - intros ([] & Hk%check_key_ok & E)%result_bind_inv. destruct doc as [| | | | | |d]; try done.
    apply result_bind_inv in E as (b & _ & E). apply result_bind_inv in E as (e & _ & [= <- <-]).
    split; [by apply consistent_set|by eapply strays_replaces; [..|apply set_replaces]].
  - intros ([] & Hk%check_key_ok & E)%result_bind_inv. destruct (kv_get k T); [|done]. injection E as <- <-.
    split; [by apply consistent_delete|by eapply strays_replaces; [..|apply delete_replaces]].
  - intros [= <- <-]. split; [|by apply strays_create]. apply consistent_create; [done|done|by eapply strays_sound|apply alive_spec].
Qed.

End write.
