(* ===== verification/CollectionQuery.v ===== *)
(** Queries: an index only narrows the candidates, it does not change the answer;
    except for [None], which an index cannot find. *)

From S2P Require Import Prelude PyBase Struct SimDisk Locking Physical PhysicalFacts Recovery KeyList Logical Pickle Index.
From S2P Require Import BPlusTree BPlusIndex Engine Session Text Database TableDb Json Collection CollectionSpec CollectionInv CollectionRun.

(** ** Sorted lists of keys *)

Lemma sorted_ext (l r : list pystr) : sorted l -> sorted r -> (forall x, x ∈ l <-> x ∈ r) -> l = r.
Proof.
  intros Hl. revert r. induction Hl as [|x l Hl IH Hx]; intros [|y r] Hr Hm; [done|..].
  - exfalso. apply (not_elem_of_nil y), Hm. by left.
  - exfalso. apply (not_elem_of_nil x), Hm. by left.
  - apply sorted_cons in Hr as [Hr Hy]. rewrite Forall_forall in Hx.
    assert (x = y) as ->.
    { pose proof (proj1 (Hm x) ltac:(by left)) as [->|Hin]%elem_of_cons; [done|]. pose proof (proj2 (Hm y) ltac:(by left)) as [->|Hin']%elem_of_cons; [done|].
      specialize (Hy _ Hin). specialize (Hx _ Hin'). key_order. }
    f_equal. apply IH; [done|]. intros z. specialize (Hm z). rewrite !elem_of_cons in Hm. split; intros Hz.
    + destruct (proj1 Hm ltac:(by right)) as [->|?]; [|done]. specialize (Hx _ Hz). key_order.
    + destruct (proj2 Hm ltac:(by right)) as [->|?]; [|done]. specialize (Hy _ Hz). key_order.
Qed.

Lemma sorted_filter (P : pystr -> Prop) `{!forall x, Decision (P x)} (l : list pystr) : sorted l -> sorted (base.filter P l).
Proof.
  induction l as [|x l IH]; [done|]. intros [Hl Hx]%sorted_cons. rewrite filter_cons. destruct (decide (P x)); [|by apply IH].
  apply sorted_cons. split; [by apply IH|]. intros y [_ Hy]%list_elem_of_filter. auto.
Qed.

Lemma sorted_set_spec (s : gset pystr) : sorted (collection.sorted_set s) /\ forall x, x ∈ collection.sorted_set s <-> x ∈ s.
Proof.
  unfold collection.sorted_set. setoid_rewrite <- (elem_of_elements s).
  assert (forall l : list pystr, kv_sorted (foldr (fun k acc => kv_set k tt acc) [] l) /\
    forall x, x ∈ (foldr (fun k acc => kv_set k tt acc) [] l).*1 <-> x ∈ l) as Hl; [|apply Hl].
  induction l as [|k l [IH1 IH2]]; [split; [constructor|done]|]. simpl. split; [by apply kv_set_sorted|].
  intros x. rewrite kv_set_keys, IH2, elem_of_cons. done.
Qed.

(** ** Runs with any result *)

Lemma runs_seq {E S A B} (P : S -> Prop) (f : stx E S A) (g : A -> stx E S B) (r : result E A) (h : A -> result E B) :
  runs P f r P -> (forall a, r = Ok a -> runs P (g a) (h a) P) -> runs P (f ≫= g) (r ≫= h) P.
Proof. intros Hf Hg. destruct r as [a|e]; [eapply runs_bind; [done|by apply Hg]|by apply runs_bind_raise]. Qed.

Section query.
Context `{Pickle} (order : nat) (Horder : (3 <= order)%nat) `{JsonLibLaws} `{!Codec json, !CodecLaws json}.
#[local] Hint Extern 0 (Index bnode) => exact (bplus_index order) : typeclass_instances.
#[local] Hint Extern 0 (IndexSpec bnode) => exact (bplus_spec order Horder) : typeclass_instances.
Implicit Types (c : Collection bnode) (m : _Meta) (T : list (pystr * json)) (k f x : pystr) (doc v : json) (ks : list pystr) (ix : gset pystr) (n : number) (q : Query).

Abbreviation coll := (coll order Horder).

(** * The reference answer *)

(** What a query makes of one key. *)
Definition spec_hit n q T k : res (option json) :=
  match old_doc k T with
  | JNull => Ok None
  | doc => if expired_at n T k then Ok None else b ← collection._matches q doc; Ok (if (b : bool) then Some doc else None)
  end.

Fixpoint spec_pick n q T ks : res (list (pystr * json)) :=
  match ks with
  | [] => Ok []
  | k :: ks =>
      hit ← spec_hit n q T k;
      rest ← spec_pick n q T ks;
      Ok match hit with Some doc => (k, doc) :: rest | None => rest end
  end.

Definition doc_keys T : list pystr := base.filter (fun k => startswith k _RESERVED = false) T.*1.

(** Every document in key order that is alive and matches. *)
Definition spec_all n q T : res (list (pystr * json)) := spec_pick n q T (doc_keys T).

(** * The two plans *)

Lemma loop_runs m ix ix' n q T (fetch : pystr -> St (Collection bnode) (option json)) ks :
  consistent n ix' T ->
  (forall k, k ∈ ks -> exists item, runs (coll m ix n T) (fetch k) (Ok item) (coll m ix n T) /\
     (item = Some (old_doc k T) \/ item = None /\ spec_hit n q T k = Ok None)) ->
  runs (coll m ix n T) (collection.all_loop q fetch ks) (spec_pick n q T ks) (coll m ix n T).
Proof.
  intros Hc Hf. induction ks as [|k ks IH]; [apply runs_ret|]. cbn [collection.all_loop spec_pick].
  destruct (Hf k ltac:(by left)) as (item & Hi & Hitem). eapply runs_bind; [exact Hi|].
  apply runs_seq.
  - destruct Hitem as [-> | [-> ->]]; [|apply runs_ret]. unfold spec_hit. destruct (old_doc k T) eqn:Eo; try apply runs_ret;
      (eapply runs_bind; [by eapply is_expired_runs|]; destruct (expired_at n T k); [apply runs_ret|]; apply runs_seq; [apply runs_lift|]; intros ? _; apply runs_ret).
  - intros hit _. apply runs_seq; [apply IH; intros k' Hk'; apply Hf; by right|]. intros rest _. apply runs_ret.
Qed.


(** The full scan. *)
Lemma scan_plan m ix ix' n q T :
  consistent n ix' T ->
  runs (coll m ix n T) (collection.all_loop q collection.scanned T.*1) (spec_all n q T) (coll m ix n T).
Proof.
  intros Hc. unfold spec_all, doc_keys.
  assert (Forall (fun k => k <> [] /\ is_Some (kv_get k T)) T.*1) as Hks.
  { apply Forall_forall. intros k Hk. split; [by apply (co_keys _ _ _ Hc)|by apply kv_get_in]. }
  induction Hks as [|k ks [Hk [doc Hd]] Hks IH]; [apply runs_ret|]. rewrite filter_cons.
  destruct (startswith k _RESERVED) eqn:Er.
  - rewrite decide_False by congruence. cbn [collection.all_loop].
    eapply runs_bind; [unfold collection.scanned; rewrite Er; apply runs_ret|]. eapply runs_bind; [apply runs_ret|]. replace (spec_pick _ _ _ _) with (spec_pick n q T (base.filter (fun k => startswith k _RESERVED = false) ks) ≫= fun rest => Ok rest) by (by destruct (spec_pick _ _ _ _)).
    apply runs_seq; [exact IH|]. intros rest _. apply runs_ret.
  - rewrite decide_True by done. cbn [collection.all_loop spec_pick].
    destruct (expired_at n T k) eqn:Ex.
    + eapply runs_bind. { unfold collection.scanned. rewrite Er. eapply runs_bind; [by eapply is_expired_runs|]. rewrite Ex. apply runs_ret. }
      eapply runs_bind; [apply runs_ret|]. assert (spec_hit n q T k = Ok None) as -> by (unfold spec_hit; rewrite Ex; by destruct (old_doc k T)).
      cbn [mbind result_bind]. apply runs_seq; [exact IH|]. intros rest _. apply runs_ret.
    + eapply runs_bind.
      { unfold collection.scanned. rewrite Er. eapply runs_bind; [by eapply is_expired_runs|]. rewrite Ex. eapply runs_bind; [|apply runs_ret].
        pose proof (getitem_runs order Horder m ix n T k Hk) as Hg. rewrite Hd in Hg. exact Hg. }
      destruct (co_docs _ _ _ Hc k doc Hd Er) as [d ->].
      assert (spec_hit n q T k = b ← collection._matches q (JDict d); Ok (if (b : bool) then Some (JDict d) else None)) as ->
        by (unfold spec_hit, old_doc; rewrite Hd, Ex; done).
      apply runs_seq; [|intros hit _; apply runs_seq; [exact IH|intros rest _; apply runs_ret]].
      eapply runs_bind; [by eapply is_expired_runs|]. rewrite Ex. apply runs_seq; [apply runs_lift|]. intros b _. apply runs_ret.
Qed.

(** ** Candidates *)

Lemma kv_get_entry T x v : kv_sorted T -> (x, v) ∈ T <-> kv_get x T = Some v.
Proof.
  induction T as [|[a b] T IH]; intros Hs; [split; [by intros ?%elem_of_nil|done]|]. apply kv_sorted_cons in Hs as [Hs Ha]. rewrite elem_of_cons. simpl.
  destruct (decide (x = a)) as [->|Hne].
  - split; [|by intros [= ->]; left]. intros [[= ->]|Hin]; [done|]. apply IH in Hin; [|done]. by rewrite (kv_get_above a T Ha) in Hin.
  - rewrite <- IH by done. split; [by intros [[= -> _]|?]|by right].
Qed.

Lemma as_keys (l : list (pystr * json)) :
  Forall (fun kv => exists k, kv.2 = JStr k) l ->
  exists ks, mapM (fun kv => collection.as_key kv.2) l = Ok ks /\ forall k, k ∈ ks <-> exists x, (x, JStr k) ∈ l.
Proof.
  induction 1 as [|[x v] l [k Hv] _ (ks & E & Hks)]; [exists []; split; [done|]; intros k; split; [by intros ?%elem_of_nil|by intros (x & ?%elem_of_nil)]|].
  simpl in *. subst v. exists (k :: ks). rewrite E. split; [done|]. intros k'. rewrite elem_of_cons, Hks. setoid_rewrite elem_of_cons. naive_solver.
Qed.

(** The keys an index lists for a value are documents, and those with the value
    that are alive are among them. *)
Definition narrows n T (fvs : list (pystr * json)) (s : gset pystr) : Prop :=
  (forall k, k ∈ s -> k ∈ doc_keys T /\
     Forall (fun fv => exists w, collection.field_of (old_doc k T) fv.1 = Some w /\ _value_token w = _value_token fv.2) fvs) /\
  forall k doc, kv_get k T = Some doc -> valid_key k -> expired_at n T k = false ->
    Forall (fun fv => exists w, collection.field_of doc fv.1 = Some w /\ _value_token w = _value_token fv.2) fvs -> k ∈ s.

Lemma key_set_runs m ix n T fv :
  consistent n ix T -> fv.1 ∈ ix -> exists s, runs (coll m ix n T) (collection.key_set fv) (Ok s) (coll m ix n T) /\ narrows n T [fv] s.
Proof.
  destruct fv as [f v]. intros Hc Hf. simpl in Hf. pose proof (co_sorted _ _ _ Hc) as HT.
  set (l := base.filter (fun a : pystr * json => startswith a.1 (_index_scan_prefix f v) = true) T).
  assert (Hl : forall x u, (x, u) ∈ l <-> startswith x (_index_scan_prefix f v) = true /\ kv_get x T = Some u).
  { intros x u. unfold l. by rewrite list_elem_of_filter, kv_get_entry. }
  destruct (as_keys l) as (ks & Ek & Hks).
  { apply Forall_forall. intros [x u] [Hp%scan_prefix_field Hx]%Hl. destruct (co_sound _ _ _ Hc f Hf x u Hx Hp) as (k & _ & _ & _ & -> & _). by exists k. }
  exists (list_to_set ks). split; [|split].
  - unfold collection.key_set. eapply runs_bind; [by apply scan_runs|]. eapply runs_bind; [|apply runs_ret]. cbn [fst snd]. fold l. rewrite Ek. apply runs_lift.
  - intros k (x & [Hp Hx]%Hl)%elem_of_list_to_set%Hks.
    destruct (co_sound _ _ _ Hc f Hf x _ Hx (scan_prefix_field _ _ _ Hp)) as (k' & doc & w & -> & [= ->] & Hk & Hd & Hw). split.
    + apply list_elem_of_filter. split; [apply Hk|]. apply kv_get_in. by exists doc.
    + constructor; [|constructor]. exists w. unfold old_doc. rewrite Hd. split; [done|]. by eapply scan_prefix_token.
  - intros k doc Hd Hk Hex [(w & Hw & Etok) _]%Forall_cons. apply elem_of_list_to_set, Hks. exists (_index_key f w k). apply Hl.
    split; [by apply index_key_scan|]. by apply (co_complete _ _ _ Hc f Hf k doc w).
Qed.

Lemma narrows_inter n T fvs fvs' s s' : narrows n T fvs s -> narrows n T fvs' s' -> narrows n T (fvs ++ fvs') (s ∩ s').
Proof. intros [Ha Hb] [Hc Hd]. split.
  { intros k [Hk Hk']%elem_of_intersection. split; [by apply Ha|]. apply Forall_app. split; [by apply Ha|by apply Hc]. }
  intros k doc Hk Hv Hex [Hl Hr]%Forall_app. apply elem_of_intersection. eauto. Qed.

Lemma key_sets_runs m ix n T fvs :
  consistent n ix T -> Forall (fun fv => fv.1 ∈ ix) fvs ->
  exists ss, runs (coll m ix n T) (mapM_st collection.key_set fvs) (Ok ss) (coll m ix n T) /\ Forall2 (fun fv s => narrows n T [fv] s) fvs ss.
Proof.
  intros Hc. induction 1 as [|fv fvs Hf _ (ss & Hr & Hn)]; [exists []; split; [apply runs_ret|constructor]|].
  destruct (key_set_runs m ix n T fv Hc Hf) as (s & Hs & Hns). exists (s :: ss). split; [|by constructor]. cbn [mapM_st].
  eapply runs_bind; [exact Hs|]. eapply runs_bind; [exact Hr|]. apply runs_ret.
Qed.

Lemma fold_narrows n T fvs0 s fvs ss :
  narrows n T fvs0 s -> Forall2 (fun fv s => narrows n T [fv] s) fvs ss -> narrows n T (fvs0 ++ fvs) (foldl (∩) s ss).
Proof.
  intros Hs Hss. revert fvs0 s Hs. induction Hss as [|fv s' fvs ss Hfv _ IH]; intros fvs0 s Hs; [by rewrite app_nil_r|]. cbn [foldl].
  change (fv :: fvs) with ([fv] ++ fvs). rewrite app_assoc. apply IH. by apply narrows_inter.
Qed.

Lemma candidates_run m ix n T q :
  consistent n ix T ->
  match collection.indexed ix q with
  | [] => runs (coll m ix n T) (collection._candidate_keys q) (Ok None) (coll m ix n T)
  | fvs => exists s, runs (coll m ix n T) (collection._candidate_keys q) (Ok (Some s)) (coll m ix n T) /\ narrows n T fvs s
  end.
Proof.
  intros Hc. assert (Forall (fun fv => fv.1 ∈ ix) (collection.indexed ix q)) as Hall by (apply Forall_forall; by intros fv [? _]%list_elem_of_filter).
  destruct (collection.indexed ix q) as [|fv fvs] eqn:Ei.
  - unfold collection._candidate_keys. apply runs_get. intros c (_ & _ & -> & _). rewrite Ei. eapply runs_pre; [|eapply runs_post; [|apply runs_ret]]; [by intros ? [? _]|done].
  - apply Forall_cons in Hall as [Hf Hfs]. destruct (key_set_runs m ix n T fv Hc Hf) as (s & Hs & Hns). destruct (key_sets_runs m ix n T fvs Hc Hfs) as (ss & Hr & Hnss).
    exists (foldl (∩) s ss). split; [|by apply (fold_narrows n T [fv])].
    unfold collection._candidate_keys. apply runs_get. intros c (_ & _ & -> & _). rewrite Ei. eapply runs_pre; [by intros ? [? _]|].
    eapply runs_bind; [exact Hs|]. eapply runs_bind; [exact Hr|]. apply runs_ret.
Qed.

(** ** The index plan *)

Lemma pick_skip n q T (P : pystr -> Prop) `{!forall k, Decision (P k)} ks :
  (forall k, k ∈ ks -> ~ P k -> spec_hit n q T k = Ok None) -> spec_pick n q T (base.filter P ks) = spec_pick n q T ks.
Proof.
  induction ks as [|k ks IH]; intros Hk; [done|]. rewrite filter_cons. cbn [spec_pick]. destruct (decide (P k)) as [HP|HP]; cbn [spec_pick].
  - rewrite IH; [done|]. intros k' Hk'. apply Hk. by right.
  - rewrite (Hk k ltac:(by left) HP), IH by (intros k' Hk'; apply Hk; by right). cbn [mbind result_bind]. by destruct (spec_pick n q T ks).
Qed.

Lemma equals_miss l (d : list (pystr * json)) f v :
  (f, v) ∈ l -> _value_token (default JNull (dict_lookup d f)) <> _value_token v -> collection.equals_match l (JDict d) = Ok false.
Proof.
  induction l as [|[f' v'] l IH]; intros Hin Hne; [by apply elem_of_nil in Hin|]. cbn [collection.equals_match collection.doc_get mbind result_bind].
  case_bool_decide as E; [|done]. apply elem_of_cons in Hin as [[= -> ->]|Hin]; [done|]. auto.
Qed.

(** A document an index does not list cannot match. *)
Lemma unlisted_no_hit ix n q T (s : gset pystr) k :
  consistent n ix T -> narrows n T (collection.indexed ix q) s ->
  (forall f v, (f, v) ∈ _equals q -> f ∈ ix -> _value_token v <> _value_token JNull) ->
  k ∈ doc_keys T -> k ∉ s -> spec_hit n q T k = Ok None.
Proof.
  intros Hc [_ Hn] Hnull [Hres Hin]%list_elem_of_filter Hk. pose proof Hin as [doc Hd]%kv_get_in.
  unfold spec_hit, old_doc. rewrite Hd. change (default JNull (Some doc)) with doc. destruct (co_docs _ _ _ Hc k doc Hd Hres) as [d ->].
  destruct (expired_at n T k) eqn:Ex; [done|].
  destruct (decide (Forall (fun fv => _value_token (default JNull (dict_lookup d fv.1)) = _value_token fv.2) (collection.indexed ix q))) as [Ha|Ha].
  - destruct Hk. apply (Hn k (JDict d) Hd); [split; [by apply (co_keys _ _ _ Hc)|done]|done|].
    apply Forall_forall. intros [f v] Hin'. rewrite Forall_forall in Ha. pose proof (Ha _ Hin') as Etok. apply list_elem_of_filter in Hin' as [Hf Hq]. simpl in *. destruct (dict_lookup d f) as [w|]; [by exists w|]. exfalso. by apply (Hnull f v).
  - apply not_Forall_Exists in Ha; [|intros ?; apply _]. apply Exists_exists in Ha as ([f v] & [Hf Hq]%list_elem_of_filter & Hne).
    unfold collection._matches. by rewrite (equals_miss _ d f v Hq Hne).
Qed.

Lemma index_plan m ix n T q :
  consistent n ix T -> collection.indexed ix q <> [] ->
  exists s, narrows n T (collection.indexed ix q) s /\
    runs (coll m ix n T) (collection.all q) (spec_pick n q T (base.filter (fun k => k ∈ s) (doc_keys T))) (coll m ix n T).
Proof.
  intros Hc Hne. pose proof (candidates_run m ix n T q Hc) as Hcand. destruct (collection.indexed ix q) as [|fv fvs]; [done|].
  destruct Hcand as (s & Hs & Hn). exists s. split; [done|]. eapply runs_bind; [exact Hs|]. destruct (sorted_set_spec s) as [Hsort Hmem].
  assert (collection.sorted_set s = base.filter (fun k => k ∈ s) (doc_keys T)) as ->.
  { apply sorted_ext; [done|apply sorted_filter, sorted_filter, Hc|]. intros k. rewrite list_elem_of_filter, Hmem. destruct Hn as [Hn _].
    split; [|tauto]. intros Hk. split; [done|by apply Hn]. }
  eapply loop_runs; [done|]. intros k [_ [_ Hk]%list_elem_of_filter]%list_elem_of_filter. exists (Some (old_doc k T)). split; [|by left].
  eapply runs_bind; [apply (db_get_runs order Horder); by apply (co_keys _ _ _ Hc)|]. apply runs_ret.
Qed.

Lemma all_runs m ix n T q :
  consistent n ix T -> (forall f v, (f, v) ∈ _equals q -> f ∈ ix -> _value_token v <> _value_token JNull) ->
  runs (coll m ix n T) (collection.all q) (spec_all n q T) (coll m ix n T).
Proof.
  intros Hc Hnull. destruct (collection.indexed ix q) as [|fv fvs] eqn:Ei.
  - pose proof (candidates_run m ix n T q Hc) as Hcand. rewrite Ei in Hcand. eapply runs_bind; [exact Hcand|].
    eapply runs_bind; [apply (db_keys_runs order Horder m ix n T)|]. by eapply scan_plan.
  - destruct (index_plan m ix n T q Hc) as (s & Hn & Hr); [by rewrite Ei|]. unfold spec_all.
    rewrite <- (pick_skip n q T (fun k => k ∈ s) (doc_keys T)); [done|]. intros k Hk Hks. by eapply unlisted_no_hit.
Qed.

End query.
