(* ===== verification/CollectionProps.v ===== *)
(** The theorems on collections, and each of them at work on a new database
    ([src/imustore/collection.py]). *)

From Stdlib Require Import Strings.String.
From S2P Require Import Prelude PyBase Struct Text SimDisk Locking Physical PhysicalFacts Recovery StorageProps KeyList Logical Pickle BPlusTree Index.
From S2P Require Import BPlusIndex Engine Session Database BinaryProps Metrics TableDb Json Collection CollectionSpec CollectionInv CollectionRun.
From S2P Require Import CollectionWrite CollectionQuery.

(** A collection's documents and indexes stay consistent, indexes do not change
    what a query returns, and a sweep removes exactly what has expired. *)

Section props.
Context `{Pickle} (order : nat) (Horder : (3 <= order)%nat) `{JsonLibLaws} `{!Codec json, !CodecLaws json, !JsonCodecLaws}.
#[local] Hint Extern 0 (Index bnode) => exact (bplus_index order) : typeclass_instances.
#[local] Hint Extern 0 (IndexSpec bnode) => exact (bplus_spec order Horder) : typeclass_instances.
Implicit Types (c : Collection bnode) (m : _Meta) (T : list (pystr * json)) (k f x : pystr) (doc v : json) (ks : list pystr) (ix : gset pystr) (n : number) (q : Query).

Abbreviation coll := (coll order Horder).

(** C8: a collection stays consistent.  Take a collection in whose table every
    live document is listed in every index under its value, every index entry
    belongs to such a document, and no entry is left of an index the collection
    does not have (a new collection, or one opened with the indexes it had).  Each
    [set], [delete] and [create_index] (of a field without NUL in its name) either
    raises what its arguments call for and changes nothing; or commits exactly the
    specified table, of which the same holds again; or the disk fails and still
    holds the old table. *)
Theorem collection_consistent (o : coll_op) c m ix n T :
  coll m ix n T c -> tended n ix T -> room ix T -> field_ok o ->
  coll_outcome order Horder m ix n T (spec_op n o ix T) (coll_exec o c) /\
  forall ix' T', spec_op n o ix T = Ok (ix', T') -> tended n ix' T'.
Proof. intros Hcoll [Hc Hs] Hr Ho. split; [by apply op_exact|]. intros ix' T'. by apply op_tended. Qed.

(** ** Queries *)

Lemma consistent_no_index n ix T : consistent n ix T -> consistent n ∅ T.
Proof. intros [? ? ? ? ? ? ?]. split; try done; by intros f ?%elem_of_empty. Qed.

Lemma coll_no_index m ix n T c : coll m ix n T c -> coll m ∅ n T (collection.set_indexes ∅ c).
Proof. intros (? & ? & _ & ?). by split_and!. Qed.

(** C12: indexes are pure optimisation.  On a consistent collection, a query whose
    equality values on indexed fields are not [None] returns the same through the
    indexes as with no index declared at all, errors of user predicates included:
    every live document that matches, in key order. *)
Theorem query_plans_agree q c m ix n T :
  coll m ix n T c -> consistent n ix T ->
  (forall f v, (f, v) ∈ _equals q -> f ∈ ix -> _value_token v <> _value_token JNull) ->
  (collection.all q c).2 = spec_all n q T /\ (collection.all q c).2 = (collection.all q (collection.set_indexes ∅ c)).2.
Proof.
  intros Hcoll Hc Hnull. destruct (all_runs order Horder m ix n T q Hc Hnull c Hcoll) as (c1 & E1 & _).
  destruct (all_runs order Horder m ∅ n T q (consistent_no_index _ _ _ Hc)) with (s := collection.set_indexes ∅ c) as (c2 & E2 & _).
  - intros f v _ ?%elem_of_empty. done.
  - by eapply coll_no_index.
  - rewrite E1, E2. done.
Qed.

Lemma pick_keys n q T ks l : spec_pick n q T ks = Ok l -> forall k, k ∈ l.*1 -> k ∈ ks.
Proof.
  revert l. induction ks as [|k ks IH]; intros l; cbn [spec_pick]; [by intros [= <-] k ?%elem_of_nil|].
  intros (hit & _ & (rest & Er & [= <-])%result_bind_inv)%result_bind_inv k' Hk'. destruct hit as [doc|]; [|right; by eapply IH].
  apply elem_of_cons in Hk' as [->|Hk']; [by left|right; by eapply IH].
Qed.

Lemma pick_hit n q T ks l k doc : spec_pick n q T ks = Ok l -> k ∈ ks -> spec_hit n q T k = Ok (Some doc) -> (k, doc) ∈ l.
Proof.
  revert l. induction ks as [|k' ks IH]; intros l; cbn [spec_pick]; [by intros _ ?%elem_of_nil|].
  intros (hit & Eh & (rest & Er & [= <-])%result_bind_inv)%result_bind_inv Hk Hhit. destruct (decide (k = k')) as [->|Hne].
  - rewrite Hhit in Eh. injection Eh as <-. by left.
  - apply elem_of_cons in Hk as [->|Hk]; [done|]. specialize (IH rest Er Hk Hhit). by destruct hit; [right|].
Qed.

(** An index cannot find [None].  For a live document without the indexed field,
    [where(field, None)] returns it when the field has no index, since
    [document.get(field)] is [None], and does not return it through the index,
    which lists only documents that have the field. *)
Theorem null_query_misses c m ix n T f k (d : list (pystr * json)) :
  coll m ix n T c -> consistent n ix T -> f ∈ ix -> valid_key k -> kv_get k T = Some (JDict d) -> expired_at n T k = false -> dict_lookup d f = None ->
  let q := collection.where_ f JNull collection.query in
  (forall l, (collection.all q c).2 = Ok l -> k ∉ l.*1) /\
  (forall l, (collection.all q (collection.set_indexes ∅ c)).2 = Ok l -> (k, JDict d) ∈ l).
Proof.
  intros Hcoll Hc Hf Hk Hd Hex Hno q. split.
  - assert (collection.indexed ix q = [(f, JNull)]) as Ei by (unfold collection.indexed; simpl; by rewrite filter_cons_True).
    destruct (index_plan order Horder m ix n T q Hc) as (s & [Hs _] & Hr); [by rewrite Ei|].
    destruct (Hr c Hcoll) as (c1 & -> & _). intros l El Hin. apply (pick_keys _ _ _ _ _ El) in Hin. apply list_elem_of_filter in Hin as [Hin _].
    apply Hs in Hin as [_ Hall]. rewrite Ei in Hall. apply Forall_cons in Hall as [(w & Hw & _) _]. unfold old_doc in Hw. rewrite Hd in Hw. simpl in Hw. congruence.
  - destruct (all_runs order Horder m ∅ n T q (consistent_no_index _ _ _ Hc)) with (s := collection.set_indexes ∅ c) as (c2 & -> & _);
      [by intros f' v _ ?%elem_of_empty|by eapply coll_no_index|].
    intros l El. eapply pick_hit; [exact El|apply list_elem_of_filter; split; [apply Hk|apply kv_get_in; by eexists]|].
    unfold spec_hit, old_doc. rewrite Hd, Hex. cbn. rewrite Hno. by rewrite bool_decide_true.
Qed.

(** ** Sweeping *)

Lemma str_lt_app (p a b : pystr) : str_lt (p ++ a) (p ++ b) <-> str_lt a b.
Proof. induction p as [|x p IH]; [done|]. rewrite <- IH. unfold str_lt. simpl. by rewrite N.compare_refl. Qed.

Lemma filter_fst_keys (P : pystr -> bool) (l : list (pystr * json)) :
  (base.filter (fun a => P a.1 = true) l).*1 = base.filter (fun x => P x = true) l.*1.
Proof. induction l as [|[x v] l IH]; [done|]. csimpl. rewrite !filter_cons. simpl. destruct (decide (P x = true)); csimpl; by rewrite IH. Qed.

(** The documents that have expired, in key order. *)
Definition expired_docs n T : list pystr := base.filter (fun k => expired_at n T k = true) (doc_keys T).

Lemma drop_expiry k : drop (length _EXPIRY_PREFIX) (_expiry_key k) = k.
Proof. apply drop_app_length. Qed.

Lemma expired_keys_run n (l : list (pystr * json)) :
  Forall (fun kv => exists k e, kv = (_expiry_key k, of_number e)) l -> kv_sorted l ->
  exists ks, collection.expired_keys n l = Ok ks /\ sorted ks /\
    forall k, k ∈ ks <-> exists e, (_expiry_key k, of_number e) ∈ l /\ num_ge n e = true.
Proof.
  induction 1 as [|kv l (k & e & ->) _ IH]; intros Hs.
  { exists []. split_and!; [done|constructor|]. intros k. split; [by intros ?%elem_of_nil|by intros (e & ?%elem_of_nil & _)]. }
  pose proof Hs as Hs'. unfold kv_sorted in Hs'. rewrite fmap_cons in Hs'. apply sorted_cons in Hs' as [_ Hlt]. apply kv_sorted_cons in Hs as [Hs _].
  destruct (IH Hs) as (ks & E & Hsk & Hks). cbn [collection.expired_keys]. rewrite of_to_number, E, drop_expiry. cbn [mbind result_bind].
  assert (Hinj : forall a b, of_number a = of_number b -> a = b) by (intros [] []; simpl; congruence).
  destruct (num_ge n e) eqn:Ege; eexists; (split; [reflexivity|]); split.
  - apply sorted_cons. split; [done|]. intros k' (e' & Hin & _)%Hks. apply (proj1 (str_lt_app _EXPIRY_PREFIX k k')), Hlt, list_elem_of_fmap. by exists (_expiry_key k', of_number e').
  - intros k'. rewrite elem_of_cons, Hks. setoid_rewrite elem_of_cons. split.
    + intros [->|(e' & Hin & Hge)]; [exists e; auto|exists e'; auto].
    + intros (e' & [[Ek Ee]%pair_equal_spec|Hin] & Hge); [left; by apply expiry_key_inj|right; by exists e'].
  - done.
  - intros k'. rewrite Hks. setoid_rewrite elem_of_cons. split; [intros (e' & Hin & Hge); exists e'; auto|].
    intros (e' & [[Ek Ee]%pair_equal_spec|Hin] & Hge); [|by exists e']. apply Hinj in Ee as ->. congruence.
Qed.

Lemma expired_scan n ix T :
  consistent n ix T ->
  collection.expired_keys n (base.filter (fun a => startswith a.1 _EXPIRY_PREFIX = true) T) = Ok (expired_docs n T).
Proof.
  intros Hc. pose proof (co_sorted _ _ _ Hc) as HT. set (l := base.filter (fun a : pystr * json => startswith a.1 _EXPIRY_PREFIX = true) T).
  assert (Hl : forall x v, (x, v) ∈ l <-> startswith x _EXPIRY_PREFIX = true /\ kv_get x T = Some v) by (intros x v; unfold l; by rewrite list_elem_of_filter, kv_get_entry).
  destruct (expired_keys_run n l) as (ks & -> & Hsk & Hks).
  { apply Forall_forall. intros [x v] [Hp Hx]%Hl. destruct (co_expiry _ _ _ Hc x v Hx Hp) as (k & e & _ & -> & -> & _). by exists k, e. }
  { unfold kv_sorted, l. rewrite (filter_fst_keys (fun x => startswith x _EXPIRY_PREFIX)). by apply sorted_filter. }
  f_equal. apply sorted_ext; [done|apply sorted_filter, sorted_filter, HT|]. intros k. rewrite Hks. unfold expired_docs, doc_keys. rewrite !list_elem_of_filter. split.
  - intros (e & [Hp Hx]%Hl & Hge). destruct (co_expiry _ _ _ Hc _ _ Hx Hp) as (k' & e' & doc & ->%expiry_key_inj & _ & Hk & Hd).
    split_and!; [unfold expired_at; by rewrite Hx, of_to_number|apply Hk|apply kv_get_in; by exists doc].
  - intros (Hex & _ & _). unfold expired_at in Hex. destruct (kv_get (_expiry_key k) T) as [v|] eqn:Ev; [|done].
    assert (startswith (_expiry_key k) _EXPIRY_PREFIX = true) as Hp by (apply startswith_spec; by eexists).
    destruct (co_expiry _ _ _ Hc _ _ Ev Hp) as (k' & e & doc & _ & -> & _). rewrite of_to_number in Hex. exists e. split; [by apply Hl|done].
Qed.

Definition delete_all ix ks T : list (pystr * json) := foldl (fun T k => spec_delete ix k T) T ks.

Lemma unindex_length fs k doc T : (length (spec_unindex fs k doc T) <= length T)%nat.
Proof.
  revert T. induction fs as [|f fs IH]; intros T; [done|]. simpl. etrans; [apply IH|]. destruct (collection.field_of doc f) as [v|]; [|done].
  pose proof (kv_del_length (_index_key f v k) T). lia.
Qed.

Lemma delete_length ix k T : (length (spec_delete ix k T) <= length T)%nat.
Proof.
  unfold spec_delete. pose proof (unindex_length (elements ix) k (default JNull (kv_get k T)) T).
  pose proof (kv_del_length k (spec_unindex (elements ix) k (default JNull (kv_get k T)) T)).
  pose proof (kv_del_length (_expiry_key k) (kv_del k (spec_unindex (elements ix) k (default JNull (kv_get k T)) T))). lia.
Qed.

(** The state after deleting a list of stored documents one by one. *)
Definition swept ix n T ks (out : Collection bnode * res unit) : Prop :=
  exists ks1 ks2, ks = ks1 ++ ks2 /\ consistent n ix (delete_all ix ks1 T) /\
    (forall k, valid_key k -> kv_get k (delete_all ix ks1 T) = if decide (k ∈ ks1) then None else kv_get k T) /\
    ((out.2 = Ok tt /\ ks2 = [] /\ exists m', coll m' ix n (delete_all ix ks1 T) out.1) \/
     ((out.2 = Raise SimCrash \/ out.2 = Raise StructError) /\ ks2 <> [] /\
      exists m' base, stored (delete_all ix ks1 T) base /\ opens (N := bnode) (disk.durable_bytes (_f (dbdb.the_storage (c_db out.1)))) m' base)).

Lemma delete_each_run ix n ks :
  forall m T c, coll m ix n T c -> consistent n ix T -> room ix T -> NoDup ks ->
  Forall (fun k => valid_key k /\ is_Some (kv_get k T)) ks -> swept ix n T ks (collection.delete_each ks c).
Proof.
  induction ks as [|k ks IH]; intros m T c Hcoll Hc Hroom Hnd Hks.
  { exists [], []. split_and!; try done. left. split_and!; try done. by exists m. }
  apply NoDup_cons in Hnd as [Hk Hnd]. apply Forall_cons in Hks as [[Hv [doc Hd]] Hks].
  pose proof (delete_exact order Horder m ix n T k c Hcoll Hc Hroom) as Hdel. cbn [spec_op] in Hdel.
  rewrite (proj2 (check_key_ok k) Hv), Hd in Hdel. cbn [mbind result_bind] in Hdel.
  pose proof (delete_replaces ix k T (co_sorted _ _ _ Hc) Hv) as Hrep.
  cbn [collection.delete_each]. unfold try_with at 1. unfold mbind, stx_bind. destruct (collection.delete k c) as [c1 r1].
  destruct Hdel as [(E1 & m1 & Hc1)|[He Hdisk]]; cbn [fst snd] in *.
  - subst r1. cbv iota. pose proof (consistent_delete n ix k T Hc Hv) as Hcons.
    assert (Hoth : forall k', valid_key k' -> k' <> k -> kv_get k' (spec_delete ix k T) = kv_get k' T) by (intros k' Hk' Hne; by apply (replaces_other _ _ _ _ _ _ k' Hrep)).
    destruct (IH m1 (spec_delete ix k T) c1 Hc1 Hcons) as (ks1 & ks2 & -> & Hcs & Hget & Hout); [|done| |].
    + unfold room in *. pose proof (delete_length ix k T). lia.
    + apply Forall_forall. intros k' Hk'. rewrite Forall_forall in Hks. destruct (Hks k' Hk') as [Hv' Hd']. split; [done|]. rewrite Hoth; [done|done|]. by intros ->.
    + exists (k :: ks1), ks2. split_and!; try done. intros k' Hv'. change (delete_all ix (k :: ks1) T) with (delete_all ix ks1 (spec_delete ix k T)).
      rewrite Hget by done. destruct (decide (k' ∈ ks1)) as [Hin|Hin]; [by rewrite decide_True by (by right)|].
      destruct (decide (k' = k)) as [->|Hne].
      * rewrite decide_True by (by left). apply Hrep.
      * rewrite decide_False by (intros [?|?]%elem_of_cons; done). by apply Hoth.
  - exists [], (k :: ks). split_and!; try done.
    right. destruct He as [-> | ->]; (split_and!; [|done|done]); by auto.
Qed.

(** C23: a sweep removes exactly the documents whose time has come, with their index
    entries and expiry records, and returns how many they were; other documents
    are as before and the collection is consistent.  If the disk fails on the way,
    it holds the table in which the first of them are gone. *)
Theorem sweep_exact c m ix n T :
  coll m ix n T c -> consistent n ix T -> room ix T ->
  swept ix n T (expired_docs n T)
    ((collection.sweep c).1, match (collection.sweep c).2 with Ok _ => Ok tt | Raise e => Raise e end) /\
  forall count, (collection.sweep c).2 = Ok count -> count = Z.of_nat (length (expired_docs n T)).
Proof.
  intros Hcoll Hc Hroom. unfold collection.sweep.
  destruct (now_runs order Horder m ix n T c Hcoll) as (c1 & E1 & Hc1). erewrite stx_bind_ok by exact E1.
  destruct (scan_runs order Horder m ix n T _EXPIRY_PREFIX ltac:(done) c1 Hc1) as (c2 & E2 & Hc2). erewrite stx_bind_ok by exact E2.
  erewrite stx_bind_ok by (unfold lift_res; rewrite (expired_scan n ix T Hc); reflexivity).
  assert (Hsw : swept ix n T (expired_docs n T) (collection.delete_each (expired_docs n T) c2)).
  { eapply delete_each_run; try done.
    - eapply sorted_nodup. apply sorted_filter, sorted_filter, Hc.
    - apply Forall_forall. intros k [_ [Hres Hin]%list_elem_of_filter]%list_elem_of_filter. split; [split; [by apply (co_keys _ _ _ Hc)|done]|by apply kv_get_in]. }
  unfold mbind, stx_bind. destruct (collection.delete_each (expired_docs n T) c2) as [c3 [u|e]]; cbn [fst snd].
  - split; [by destruct u|]. by intros count [= <-].
  - by split.
Qed.

End props.

(** The collection theorems at work on a new database, with a small JSON library. *)

Section witnesses.

(** * The library *)

(** No floats; texts with quotes and shifted characters, so that none is NUL. *)
Fixpoint plain_dumps (v : json_of Empty_set) : pystr :=
  match v with
  | JNull => str "null"
  | JBool b => if b then str "true" else str "false"
  | JInt z => (fun ch => ch + 1)%N <$> show_int z
  | JFloat x => match x with end
  | JStr s => str "s" ++ ((fun ch => ch + 1)%N <$> s)
  | JList _ => str "list"
  | JDict _ => str "dict"
  end.

#[local] Instance plain_json_lib : JsonLib := {|
  jfloat := Empty_set;
  as_integer x := match x with end;
  num_add a b := match a, b with inl a, inl b => Ok (inl (a + b)) | inr x, _ => match x with end | _, inr x => match x with end end;
  num_ge a b := match a, b with inl a, inl b => b <=? a | inr x, _ => match x with end | _, inr x => match x with end end;
  json_dumps := plain_dumps
|}.

#[local] Instance plain_json_laws : JsonLibLaws.
Proof.
  assert (forall s : pystr, 0%N ∉ (fun ch => ch + 1)%N <$> s) as Hs by (intros s (ch & Hch & _)%list_elem_of_fmap; lia).
  split.
  - intros [a|[]] [b|[]] [c|[]]; simpl. lia.
  - intros v. change (0%N ∉ plain_dumps v). destruct v as [|[]|z|[]|s| |]; cbn [plain_dumps]; try apply Hs; try (by vm_compute; set_solver).
Qed.

(** Strings, integers and flat documents, one byte per bit. *)
Definition atom : Type := Z + pystr.
Definition code : Type := atom + list (pystr * atom).
#[local] Instance code_countable : Countable code.
Proof. unfold code, atom, pystr. apply _. Defined.

Definition to_atom (v : json) : option atom := match v with JInt z => Some (inl z) | JStr s => Some (inr s) | _ => None end.
Definition of_atom (a : atom) : json := match a with inl z => JInt z | inr s => JStr s end.
Definition to_atoms (d : list (pystr * json)) : option (list (pystr * atom)) := mapM (fun kv => a ← to_atom kv.2; Some (kv.1, a)) d.

Definition to_code_json (v : json) : option code :=
  match v with
  | JDict d => d ← to_atoms d; Some (inr d)
  | v => a ← to_atom v; Some (inl a)
  end.
Definition of_code_json (c : code) : json :=
  match c with inl a => of_atom a | inr d => JDict (prod_map id of_atom <$> d) end.

Lemma of_to_atom v a : to_atom v = Some a -> of_atom a = v.
Proof. destruct v; simpl; try done; by intros [= <-]. Qed.

Lemma of_to_atoms d l : to_atoms d = Some l -> prod_map id of_atom <$> l = d.
Proof.
  unfold to_atoms. intros Hl%mapM_Some. induction Hl as [|[k v] [k' a] d l Hx _ IH]; [done|]. rewrite fmap_cons. f_equal; [|exact IH].
  apply bind_Some in Hx as (b & Hb & [= <- <-]). unfold prod_map. simpl. f_equal. by apply of_to_atom.
Qed.

#[local] Instance flat_codec : Codec json := {|
  Database.encode v := match to_code_json v with Some c => Ok (bits_of (countable.encode c)) | None => Raise TypeError end;
  Database.decode b := match countable.decode (of_bits b) with Some c => Ok (of_code_json c) | None => Raise ValueError end
|}.

#[local] Instance flat_codec_laws : CodecLaws json.
Proof.
  constructor. intros v b. simpl. destruct (to_code_json v) as [c|] eqn:Ec; [|done]. intros [= <-].
  rewrite of_bits_of, countable.decode_encode. f_equal.
  destruct v as [| | | | | |d]; simpl in Ec; simplify_eq/=; try done. apply bind_Some in Ec as (l & Hl & [= <-]). simpl. f_equal. by apply of_to_atoms.
Qed.

#[local] Instance flat_json_laws : JsonCodecLaws.
Proof. split; [intros s|intros [z|[]]]; by eexists. Qed.

#[local] Instance collection_pickle : Pickle := bit_pickle.
#[local] Hint Extern 0 (Index bnode) => exact (bplus_index 3) : typeclass_instances.
#[local] Hint Extern 0 (IndexSpec bnode) => exact (bplus_spec 3 bplus_order3) : typeclass_instances.

(** * A new collection indexed on [age], at time 100 *)

Definition hundred : number := inl 100.
Definition age : pystr := str "age".
Definition coll0 : Collection bnode := collection.init (mkDBDB (Some (str "db")) bplus0 0) {[ age ]} (fun _ => hundred).

Lemma coll0_holds : coll 3 bplus_order3 meta0 {[ age ]} hundred [] coll0.
Proof.
  split_and!; [|done|done|done]. exists [], []. split_and!; [|constructor|constructor|vm_compute; reflexivity].
  apply (null_handle (bplus_index 3) (bplus_spec 3 bplus_order3)). reflexivity.
Qed.

Lemma empty_tended (n : number) (ix : gset pystr) : (forall f, f ∈ ix -> NUL ∉ f) -> tended n ix [].
Proof. intros Hix. split; [|done]. split; try done; try constructor. by intros k ?%elem_of_nil. Qed.

Lemma age_no_nul f : f ∈ ({[ age ]} : gset pystr) -> NUL ∉ f.
Proof. intros ->%elem_of_singleton. vm_compute. set_solver. Qed.

Definition ann : json := JDict [(age, JInt 30)].
Definition bob : json := JDict [(str "name", JStr (str "bob"))].
Definition u1 : pystr := str "u1".
Definition u2 : pystr := str "u2".

Definition set_ann : coll_op := CSet u1 ann None.
Definition set_bob : coll_op := CSet u2 bob (Some (inl 5)).

(** * Two documents; the second lives until 105 *)

Definition ages : gset pystr := {[ age ]}.
Definition table1 : list (pystr * json) := spec_set ages u1 ann None [].
Definition table2 : list (pystr * json) := spec_set ages u2 bob (Some (inl 105)) table1.
Definition coll1 : Collection bnode := (coll_exec set_ann coll0).1.
Definition coll2 : Collection bnode := (coll_exec set_bob coll1).1.

(** One step of the construction. *)
Lemma op_step (o : coll_op) c m ix ix' T T' :
  coll 3 bplus_order3 m ix hundred T c -> tended hundred ix T -> room ix T -> field_ok o ->
  spec_op hundred o ix T = Ok (ix', T') -> (coll_exec o c).2 = Ok tt ->
  (exists m', coll 3 bplus_order3 m' ix' hundred T' (coll_exec o c).1) /\ tended hundred ix' T'.
Proof.
  intros Hcoll Hc Hr Ho Es Er. pose proof (op_exact 3 bplus_order3 m ix hundred T o c Hcoll (proj1 Hc) Hr) as Hout. rewrite Es in Hout.
  split; [|by eapply op_tended]. destruct Hout as [(_ & Hm)|[[E|E] _]]; [done|rewrite E in Er; discriminate Er..].
Qed.

Lemma coll2_tended : (exists m, coll 3 bplus_order3 m ages hundred table2 coll2) /\ tended hundred ages table2.
Proof.
  destruct (op_step set_ann coll0 meta0 ages ages [] table1) as [(m1 & H1) Hc1].
  - exact coll0_holds.
  - apply empty_tended. exact age_no_nul.
  - vm_compute. reflexivity.
  - exact I.
  - reflexivity.
  - vm_compute. reflexivity.
  - apply (op_step set_bob coll1 m1 ages ages table1 table2 H1 Hc1).
    + vm_compute. reflexivity.
    + exact I.
    + reflexivity.
    + vm_compute. reflexivity.
Qed.

Lemma coll2_holds : (exists m, coll 3 bplus_order3 m ages hundred table2 coll2) /\ consistent hundred ages table2.
Proof. destruct coll2_tended as [Hm [Hc _]]. split; [exact Hm|exact Hc]. Qed.

(** An index on [name] is added, which lists the second document, a document is
    changed, and one is deleted. *)
Definition index_name : coll_op := CCreateIndex (str "name").
Definition set_older : coll_op := CSet u1 (JDict [(age, JInt 31); (str "name", JStr (str "ann"))]) None.
Definition names_ages : gset pystr := {[ str "name" ]} ∪ ages.

Definition coll3 : Collection bnode := (coll_exec index_name coll2).1.
Definition coll4 : Collection bnode := (coll_exec set_older coll3).1.
Definition table3 : list (pystr * json) := match spec_op hundred index_name ages table2 with Ok (_, T) => T | Raise _ => [] end.
Definition table4 : list (pystr * json) := match spec_op hundred set_older names_ages table3 with Ok (_, T) => T | Raise _ => [] end.

Lemma name_ok : field_ok index_name.
Proof. vm_compute. set_solver. Qed.

Lemma coll3_tended : (exists m, coll 3 bplus_order3 m names_ages hundred table3 coll3) /\ tended hundred names_ages table3.
Proof.
  destruct coll2_tended as [[m2 H2] Hc2]. apply (op_step index_name coll2 m2 ages names_ages table2 table3 H2 Hc2).
  - vm_compute. reflexivity.
  - exact name_ok.
  - vm_compute. reflexivity.
  - vm_compute. reflexivity.
Qed.

Lemma coll4_tended : (exists m, coll 3 bplus_order3 m names_ages hundred table4 coll4) /\ tended hundred names_ages table4.
Proof.
  destruct coll3_tended as [[m3 H3] Hc3]. apply (op_step set_older coll3 m3 names_ages names_ages table3 table4 H3 Hc3).
  - vm_compute. reflexivity.
  - exact I.
  - vm_compute. reflexivity.
  - vm_compute. reflexivity.
Qed.

Lemma collection_consistent_witness :
  (exists m, coll_outcome 3 bplus_order3 m ages hundred table2 (spec_op hundred index_name ages table2) (coll_exec index_name coll2)) /\
  kv_get (_index_key (str "name") (JStr (str "bob")) u2) table3 = Some (JStr u2) /\
  (exists m, coll_outcome 3 bplus_order3 m names_ages hundred table3 (spec_op hundred set_older names_ages table3) (coll_exec set_older coll3)) /\
  (exists m, coll_outcome 3 bplus_order3 m names_ages hundred table4 (spec_op hundred (CDelete u2) names_ages table4) (coll_exec (CDelete u2) coll4)).
Proof.
  destruct coll2_tended as [[m2 H2] Hc2]. destruct coll3_tended as [[m3 H3] Hc3]. destruct coll4_tended as [[m4 H4] Hc4]. split; [|split; [|split]].
  - exists m2. apply (collection_consistent 3 bplus_order3 index_name coll2 m2 ages hundred table2 H2 Hc2); [vm_compute; reflexivity|exact name_ok].
  - vm_compute. reflexivity.
  - exists m3. apply (collection_consistent 3 bplus_order3 set_older coll3 m3 names_ages hundred table3 H3 Hc3); [vm_compute; reflexivity|exact I].
  - exists m4. apply (collection_consistent 3 bplus_order3 (CDelete u2) coll4 m4 names_ages hundred table4 H4 Hc4); [vm_compute; reflexivity|exact I].
Defined.

(** A collection opened without an index it had does not keep that index up to
    date, and [create_index] only adds entries: the entry of a value the document
    no longer has stays. *)
Definition reopened : Collection bnode :=
  (coll_exec (CCreateIndex age) (coll_exec set_older (collection.set_indexes ∅ coll1)).1).1.

Example stale_entry_after_reopening :
  (collection.key_set (age, JInt 30) reopened).2 = Ok {[ u1 ]} /\ (collection.key_set (age, JInt 31) reopened).2 = Ok {[ u1 ]}.
Proof. split; vm_compute; reflexivity. Qed.

Definition thirty : Query := collection.where_ age (JInt 30) collection.query.

Lemma query_plans_agree_witness :
  (collection.all thirty coll2).2 = Ok [(u1, ann)] /\ (collection.all thirty coll2).2 = (collection.all thirty (collection.set_indexes ∅ coll2)).2.
Proof.
  destruct coll2_holds as [[m Hm] Hc].
  destruct (query_plans_agree 3 bplus_order3 thirty coll2 m ages hundred table2 Hm Hc) as [E1 E2].
  - intros f v Hin _. apply list_elem_of_singleton in Hin as [= -> ->]. vm_compute. discriminate.
  - split; [rewrite E1; vm_compute; reflexivity|exact E2].
Defined.

Lemma null_query_misses_witness :
  let q := collection.where_ age JNull collection.query in
  (forall l, (collection.all q coll2).2 = Ok l -> u2 ∉ l.*1) /\
  (forall l, (collection.all q (collection.set_indexes ∅ coll2)).2 = Ok l -> (u2, bob) ∈ l).
Proof.
  destruct coll2_holds as [[m Hm] Hc].
  apply (null_query_misses 3 bplus_order3 coll2 m ages hundred table2 age u2 [(str "name", JStr (str "bob"))] Hm Hc).
  - apply elem_of_singleton. reflexivity.
  - split; [discriminate|reflexivity].
  - vm_compute. reflexivity.
  - vm_compute. reflexivity.
  - reflexivity.
Defined.

(** The same collection at time 200. *)
Definition later : number := inl 200.
Definition at_time (n : number) (c : Collection bnode) : Collection bnode := mkCollection (c_db c) (_indexes c) (fun _ => n) 0.

Lemma at_time_holds m ix (n n' : number) T c : coll 3 bplus_order3 m ix n T c -> coll 3 bplus_order3 m ix n' T (at_time n' c).
Proof. intros (Hd & Hp & Hix & _). by split_and!. Qed.

Lemma sweep_exact_witness : expired_docs later table2 = [u2] /\
  swept 3 bplus_order3 ages later table2 [u2]
    ((collection.sweep (at_time later coll2)).1, match (collection.sweep (at_time later coll2)).2 with Ok _ => Ok tt | Raise e => Raise e end).
Proof.
  assert (expired_docs later table2 = [u2]) as E by (vm_compute; reflexivity). split; [exact E|]. rewrite <- E.
  destruct coll2_holds as [[m Hm] Hc]. apply (at_time_holds _ _ _ later) in Hm.
  pose proof (consistent_later hundred later ages table2 eq_refl Hc) as Hc'.
  assert (room ages table2) as Hr by (vm_compute; reflexivity).
  exact (proj1 (sweep_exact 3 bplus_order3 (at_time later coll2) m ages later table2 Hm Hc' Hr)).
Defined.

End witnesses.
