(* ===== verification/Server.v ===== *)
(** The network server: [src/imustore/server.py].

    The command handlers come twice.  As functions on the state of the server and
    one connection they are run without interruption: that is what one client
    sees.  As coroutines ([Co]) they stop where they await: when they hand a call
    to the single worker thread, and when they wait for the client to take what
    was written; [run_events] interleaves the coroutines of any number of
    connections.  What a handler writes is appended to the connection's output. *)

From Stdlib Require Import Strings.String.
From S2P Require Import Prelude PyBase Struct SimDisk Locking Physical PhysicalFacts Recovery KeyList Logical Pickle Index.
From S2P Require Import Text Resp Pubsub Metrics Database TableDb.

(** [fnmatch.fnmatchcase] *)
Class Fnmatch := fnmatchcase : pystr -> pystr -> bool.

(** * State *)

Record ImmuServer (N : Type) `{Float} : Type := mkServer {
  _db : option (DBDB N);
  _broker : ChangeBroker;
  registry : metrics.Registry
}.
Arguments mkServer {N H} _db _broker registry.
Arguments _db {N H} i.
Arguments _broker {N H} i.
Arguments registry {N H} i.

Record Connection : Type := mkConnection {
  _queue : option Z;
  _subscriptions : gset pystr;
  written : bytes
}.

Definition new_connection : Connection := mkConnection None ∅ [].

Definition m_commands : pystr := str "immustore_commands_total".
Definition m_latency : pystr := str "immustore_command_seconds".
Definition m_connections : pystr := str "immustore_connections".
Definition m_changes : pystr := str "immustore_change_events_total".

Definition _SUBSCRIBE_MODE_COMMANDS : list bytes := [lit "SUBSCRIBE"; lit "UNSUBSCRIBE"; lit "PING"; lit "QUIT"].
Definition _GLOB_METACHARS : pystr := str "*?[]".

Inductive cmd_name : Type :=
| cmd_ping | cmd_echo | cmd_set | cmd_get | cmd_del | cmd_exists | cmd_keys | cmd_dbsize | cmd_info | cmd_command
| cmd_quit | cmd_subscribe | cmd_unsubscribe.

#[global] Instance cmd_name_eq_dec : EqDecision cmd_name.
Proof. solve_decision. Defined.

Definition handlers : list (pystr * cmd_name) :=
  [(str "ping", cmd_ping); (str "echo", cmd_echo); (str "set", cmd_set); (str "get", cmd_get); (str "del", cmd_del);
   (str "exists", cmd_exists); (str "keys", cmd_keys); (str "dbsize", cmd_dbsize); (str "info", cmd_info);
   (str "command", cmd_command); (str "quit", cmd_quit); (str "subscribe", cmd_subscribe); (str "unsubscribe", cmd_unsubscribe)].

(** [getattr(self, f"_cmd_{name}", None)] *)
Definition handler_of (name : pystr) : option cmd_name := kv_get name handlers.

Module server.
Section server.
Context `{Pickle} {N : Type} `{Index N} `{ChangeJson} `{Float} `{Fnmatch}.
Implicit Types (s : ImmuServer N) (c : Connection) (args : list bytes) (key : pystr).

(** ** Lifecycle *)

(** [ImmuServer.__init__]: the metrics are registered. *)
Definition init (buckets : list float) : St metrics.Registry unit :=
  metrics.counter m_commands (str "RESP commands handled") ;;
  metrics.histogram m_latency (str "RESP command handling latency (seconds)") buckets ;;
  metrics.gauge m_connections (str "currently open client connections") ;;
  metrics.counter m_changes (str "change events published to subscribers") ;;
  mret tt.

Definition set_db (d : option (DBDB N)) s : ImmuServer N := mkServer d (_broker s) (registry s).
Definition set_broker (b : ChangeBroker) s : ImmuServer N := mkServer (_db s) b (registry s).
Definition set_registry (r : metrics.Registry) s : ImmuServer N := mkServer (_db s) (_broker s) r.

(** [start]: the database file is opened. *)
Definition start (fileobj : SimDisk) (path durability : pystr) : St (ImmuServer N) unit :=
  d ← lift_res (dbdb.init fileobj (Some path) durability);
  modify (set_db (Some d)).

(** A call on [self._db]; the attribute is [None] unless the server runs. *)
Definition on_db {A} (m : St (DBDB N) A) : St (ImmuServer N) A := fun s =>
  match _db s with
  | None => (s, Raise TypeError)
  | Some d => let '(d, r) := m d in (set_db (Some d) s, r)
  end.

Definition stop : St (ImmuServer N) unit :=
  s ← get_st;
  match _db s with
  | None => mret tt
  | Some _ => on_db dbdb.close ;; modify (set_db None)
  end.

(** ** Database operations *)

Definition _set key (value : pystr) : St (ImmuServer N) unit :=
  on_db (dbdb.setitem key value) ;; on_db dbdb.commit.

Definition _get key : St (ImmuServer N) (option pystr) :=
  try_with (v ← on_db (dbdb.getitem key); mret (Some v))
    (fun e => match e with KeyError _ => mret None | e => raise e end).

Fixpoint delete_loop (keys : list pystr) : St (ImmuServer N) (list pystr) :=
  match keys with
  | [] => mret []
  | key :: keys =>
      gone ← try_with (on_db (dbdb.delitem key) ;; mret [key])
               (fun e => match e with KeyError _ => mret [] | e => raise e end);
      rest ← delete_loop keys;
      mret (gone ++ rest)
  end.

Definition _delete (keys : list pystr) : St (ImmuServer N) (list pystr) :=
  removed ← delete_loop keys;
  match removed with
  | [] => mret []
  | _ => on_db dbdb.commit ;; mret removed
  end.

Fixpoint _exists (keys : list pystr) : St (ImmuServer N) Z :=
  match keys with
  | [] => mret 0
  | key :: keys =>
      found ← try_with (on_db (dbdb.getitem (V := pystr) key) ;; mret 1)
                (fun e => match e with KeyError _ => mret 0 | e => raise e end);
      rest ← _exists keys;
      mret (found + rest)
  end.

Definition _match_keys (pattern : pystr) : St (ImmuServer N) (list pystr) :=
  if bool_decide (pattern = str "*") then on_db (dbdb.keys (V := pystr) None None None)
  else
    let prefix := py_upto pattern (-1) in
    if bool_decide (last pattern = Some 42%N) && bool_decide (prefix <> []) &&
       negb (existsb (fun ch => bool_decide (ch ∈ _GLOB_METACHARS)) prefix)
    then on_db (dbdb.keys (V := pystr) (Some prefix) None None)
    else keys ← on_db (dbdb.keys (V := pystr) None None None);
         mret (base.filter (fun key => fnmatchcase key pattern = true) keys).

(** ** The connection *)

(** A connection and its server. *)
Definition state : Type := ImmuServer N * Connection.
Abbreviation M A := (St state A).

Definition on_server {A} (m : St (ImmuServer N) A) : M A := zoom fst (fun s st => (s, st.2)) m.
Definition on_conn (f : Connection -> Connection) : M unit := modify (fun st => (st.1, f st.2)).
Definition on_broker {A} (m : St ChangeBroker A) : M A :=
  on_server (zoom _broker set_broker m).
Definition on_registry {A} (m : St metrics.Registry A) : M A :=
  on_server (zoom registry set_registry m).

Definition set_queue (q : option Z) c : Connection := mkConnection q (_subscriptions c) (written c).
Definition set_subscriptions (l : gset pystr) c : Connection := mkConnection (_queue c) l (written c).
Definition write (b : bytes) c : Connection := mkConnection (_queue c) (_subscriptions c) (written c ++ b).

Definition _send (v : resp_value) : M unit := b ← lift_res (resp.encode v); on_conn (write b).

Definition _wrong_args (name : pystr) : M bool :=
  _send (RError (str "ERR wrong number of arguments for '" ++ name ++ str "'")) ;; mret true.

Definition _send_ok_error (message : pystr) : M bool := _send (RError message) ;; mret true.

Definition decode_arg (b : bytes) : M pystr := lift_res (utf8_decode b).
Definition decode_args args : M (list pystr) := mapM_st decode_arg args.

(** ** Commands *)

Definition _cmd_ping args : M bool :=
  match args with
  | _ :: arg :: _ => s ← decode_arg arg; _send (RStr s) ;; mret true
  | _ => _send (RSimpleString (str "PONG")) ;; mret true
  end.

Definition _cmd_echo args : M bool :=
  match args with
  | [_; arg] => s ← decode_arg arg; _send (RStr s) ;; mret true
  | _ => _wrong_args (str "echo")
  end.

Definition _cmd_set args : M bool :=
  match args with
  | [_; k; v] =>
      key ← decode_arg k;
      value ← decode_arg v;
      match key with
      | [] => _send_ok_error (str "ERR key must not be empty")
      | _ =>
          on_server (_set key value) ;;
          on_broker (broker.publish key (str "set") (Some value)) ;;
          on_registry (metrics.on_metric m_changes (metrics.inc 1 [])) ;;
          _send (RSimpleString (str "OK")) ;;
          mret true
      end
  | _ => _wrong_args (str "set")
  end.

(** A value, or nil. *)
Definition reply_of (value : option pystr) : resp_value := match value with Some s => RStr s | None => RNone end.

Definition _cmd_get args : M bool :=
  match args with
  | [_; k] =>
      key ← decode_arg k;
      value ← on_server (_get key);
      _send (reply_of value) ;;
      mret true
  | _ => _wrong_args (str "get")
  end.

Fixpoint publish_removed (removed : list pystr) : M unit :=
  match removed with
  | [] => mret tt
  | key :: removed =>
      on_broker (broker.publish key (str "del") None) ;;
      on_registry (metrics.on_metric m_changes (metrics.inc 1 [])) ;;
      publish_removed removed
  end.

Definition _cmd_del args : M bool :=
  match args with
  | _ :: _ :: _ =>
      keys ← decode_args (tail args);
      removed ← on_server (_delete keys);
      publish_removed removed ;;
      _send (RInt (Z.of_nat (length removed))) ;;
      mret true
  | _ => _wrong_args (str "del")
  end.

Definition _cmd_exists args : M bool :=
  match args with
  | _ :: _ :: _ =>
      keys ← decode_args (tail args);
      found ← on_server (_exists keys);
      _send (RInt found) ;;
      mret true
  | _ => _wrong_args (str "exists")
  end.

Definition _cmd_keys args : M bool :=
  match args with
  | [_; p] =>
      pattern ← decode_arg p;
      keys ← on_server (_match_keys pattern);
      _send (RList (RStr <$> keys)) ;;
      mret true
  | _ => _wrong_args (str "keys")
  end.

Definition _cmd_dbsize args : M bool :=
  n ← on_server (on_db dbdb.len);
  _send (RInt n) ;;
  mret true.

Definition CRLF_text : pystr := [13; 10]%N.

(** The report of [_cmd_info]. *)
Definition info_report (stats : StorageStats) : M pystr :=
  st ← get_st;
  clients ← lift_res (match registry st.1 !! m_connections with Some m => metrics.value [] m | None => Raise AttributeError end);
  mret (join CRLF_text
    [str "# Server"; str "immustore_version:0.2.0"; []; str "# Storage";
     str "keys:" ++ show_int (st_key_count stats);
     str "records:" ++ show_int (st_record_count stats);
     str "file_size:" ++ show_int (st_file_size stats);
     str "txn_id:" ++ show_int (st_txn_id stats);
     []; str "# Clients"; str "connected_clients:" ++ show_int clients; []]).

Definition _cmd_info args : M bool :=
  stats ← on_server (on_db dbdb.stats);
  report ← info_report stats;
  _send (RStr report) ;;
  mret true.

Definition _cmd_command args : M bool := _send (RList []) ;; mret true.

Definition _cmd_quit args : M bool := _send (RSimpleString (str "OK")) ;; mret false.

(** [if self._queue is None: self._queue = ...] *)
Definition subscriber_queue : M Z :=
  st ← get_st;
  match _queue st.2 with
  | Some q => mret q
  | None => q ← on_broker broker.new_queue; on_conn (set_queue (Some q)) ;; mret q
  end.

(** One prefix of [_cmd_subscribe], with the queue it uses: the reply. *)
Definition subscribe_one (queue : Z) (raw : bytes) : M resp_value :=
  prefix ← decode_arg raw;
  on_broker (broker.subscribe prefix queue) ;;
  on_conn (fun c => set_subscriptions ({[ prefix ]} ∪ _subscriptions c) c) ;;
  st ← get_st;
  mret (RList [RStr (str "subscribe"); RStr prefix; RInt (Z.of_nat (size (_subscriptions st.2)))]).

Fixpoint subscribe_loop (queue : Z) (raws : list bytes) : M unit :=
  match raws with
  | [] => mret tt
  | raw :: raws => reply ← subscribe_one queue raw; _send reply ;; subscribe_loop queue raws
  end.

Definition _cmd_subscribe args : M bool :=
  match args with
  | _ :: _ :: _ =>
      queue ← subscriber_queue;
      subscribe_loop queue (tail args) ;;
      mret true
  | _ => _wrong_args (str "subscribe")
  end.

(** [self._broker.unsubscribe(prefix, self._queue)]; [None] is in no set. *)
Definition broker_unsubscribe (prefix : pystr) (queue : option Z) : M unit :=
  match queue with
  | Some q => on_broker (broker.unsubscribe prefix q)
  | None => mret tt
  end.

Definition unsubscribe_one (prefix : pystr) : M resp_value :=
  st ← get_st;
  broker_unsubscribe prefix (_queue st.2) ;;
  on_conn (fun c => set_subscriptions (_subscriptions c ∖ {[ prefix ]}) c) ;;
  st ← get_st;
  mret (RList [RStr (str "unsubscribe"); RStr prefix; RInt (Z.of_nat (size (_subscriptions st.2)))]).

Fixpoint unsubscribe_loop (prefixes : list pystr) : M unit :=
  match prefixes with
  | [] => mret tt
  | prefix :: prefixes => reply ← unsubscribe_one prefix; _send reply ;; unsubscribe_loop prefixes
  end.

(** The prefixes given, or all those subscribed to. *)
Definition to_unsubscribe args : M (list pystr) :=
  prefixes ← decode_args (tail args);
  st ← get_st;
  mret (match prefixes with [] => elements (_subscriptions st.2) | _ => prefixes end).

Definition _cmd_unsubscribe args : M bool :=
  prefixes ← to_unsubscribe args;
  unsubscribe_loop prefixes ;;
  mret true.

(** [_pump]: forward one waiting message to the client. *)
Definition _pump : M bool :=
  st ← get_st;
  match _queue st.2 with
  | None => mret false
  | Some q =>
      m ← on_broker (broker.get_message q);
      match m with
      | None => mret false
      | Some m => _send (RList [RStr (str "message"); RStr (msg_prefix m); RStr (msg_payload m)]) ;; mret true
      end
  end.

(** ** Dispatch *)

Definition run_handler (h : cmd_name) args : M bool :=
  match h with
  | cmd_ping => _cmd_ping args | cmd_echo => _cmd_echo args | cmd_set => _cmd_set args | cmd_get => _cmd_get args
  | cmd_del => _cmd_del args | cmd_exists => _cmd_exists args | cmd_keys => _cmd_keys args | cmd_dbsize => _cmd_dbsize args
  | cmd_info => _cmd_info args | cmd_command => _cmd_command args | cmd_quit => _cmd_quit args
  | cmd_subscribe => _cmd_subscribe args | cmd_unsubscribe => _cmd_unsubscribe args
  end.

(** [elapsed] is what the clock measured while the handler ran. *)
Definition _dispatch args (elapsed : float) : M bool :=
  match args with
  | [] => raise IndexError
  | arg0 :: _ =>
      let command := upper arg0 in
      let name := ascii_lower command in
      st ← get_st;
      if negb (bool_decide (_subscriptions st.2 = ∅)) && negb (bool_decide (command ∈ _SUBSCRIBE_MODE_COMMANDS)) then
        _send (RError (str "ERR only SUBSCRIBE/UNSUBSCRIBE/PING/QUIT allowed while subscribed")) ;; mret true
      else
        match handler_of name with
        | None =>
            on_registry (metrics.on_metric m_commands (metrics.inc 1 [(str "command", str "unknown")])) ;;
            _send (RError (str "ERR unknown command '" ++ utf8_decode_replace command ++ str "'")) ;;
            mret true
        | Some h =>
            try_finally (run_handler h args)
              (on_registry (metrics.on_metric m_commands (metrics.inc 1 [(str "command", name)])) ;;
               on_registry (metrics.on_metric m_latency (metrics.observe elapsed [(str "command", name)])))
        end
  end.

Definition _teardown : M unit :=
  st ← get_st;
  match _queue st.2 with
  | Some q => on_broker (broker.unsubscribe_all q)
  | None => mret tt
  end.

(** One round of the loop of [serve] on what the client still sends, with the time
    the command takes: what is left, or [None] when the loop ends. *)
Definition serve_turn (elapsed : float) (input : bytes) : M (option bytes) :=
  match resp.read_command input with
  | (_, Raise (ProtocolError e)) => _send (RError (str "ERR protocol error: " ++ e)) ;; mret None
  | (_, Raise e) => raise e
  | (_, Ok None) => mret None
  | (rest, Ok (Some [])) => mret (Some rest)
  | (rest, Ok (Some args)) =>
      keep ← _dispatch args elapsed;
      mret (if (keep : bool) then Some rest else None)
  end.

(** The loop of [serve].  Every round consumes input. *)
Fixpoint serve_loop (fuel : nat) (clock : nat -> float) (input : bytes) : M unit :=
  match fuel with
  | O => raise RecursionError
  | S fuel =>
      next ← serve_turn (clock fuel) input;
      match next with Some rest => serve_loop fuel clock rest | None => mret tt end
  end.

(** The [finally] block of [serve]. *)
Definition hang_up : M unit :=
  on_registry (metrics.on_metric m_connections (metrics.dec 1 [])) ;; _teardown.

Definition serve (clock : nat -> float) (input : bytes) : M unit :=
  on_registry (metrics.on_metric m_connections (metrics.inc 1 [])) ;;
  try_finally (serve_loop (S (length input)) clock input) hang_up.

(** ** Coroutines *)

(** A coroutine that was started: it has returned or raised; it waits in [drain]
    until the client has taken what was written; or it waits for a call that it
    gave to the executor, and goes on with what that returned or raised ([B] is
    the type of that result, plain data). *)
Inductive task (A : Type) : Type :=
| Returned (r : res A)
| Draining (k : state -> state * task A)
| Calling (B : Set) (call : St (ImmuServer N) B) (k : res B -> state -> state * task A).

Definition Co (A : Type) : Type := state -> state * task A.

(** What follows a coroutine, whether it returned or raised. *)
Fixpoint resume {A B} (f : res A -> Co B) (t : task A) : Co B := fun st =>
  match t with
  | Returned _ r => f r st
  | Draining _ k => (st, Draining B (fun st => let '(st, t) := k st in resume f t st))
  | Calling _ C call k => (st, Calling B C call (fun r st => let '(st, t) := k r st in resume f t st))
  end.

Definition and_then {A B} (m : Co A) (f : res A -> Co B) : Co B := fun st => let '(st, t) := m st in resume f t st.

#[global] Instance co_ret : MRet Co := fun A a st => (st, Returned A (Ok a)).
#[global] Instance co_bind : MBind Co := fun A B f m =>
  and_then m (fun r => match r with Ok a => f a | Raise e => fun st => (st, Returned B (Raise e)) end).

(** Code between two suspensions. *)
Definition inline {A} (m : M A) : Co A := fun st => let '(st, r) := m st in (st, Returned A r).

(** [try: await m finally: fin] *)
Definition co_finally {A} (m : Co A) (fin : M unit) : Co A :=
  and_then m (fun r st => let '(st, r') := fin st in (st, Returned A (match r' with Ok _ => r | Raise e => Raise e end))).

Definition drain : Co unit := fun st => (st, Draining unit (fun st => (st, Returned unit (Ok tt)))).

(** [await self._server._run(fn)] *)
Definition _run {B : Set} (call : St (ImmuServer N) B) : Co B := fun st => (st, Calling B B call (fun r st => (st, Returned B r))).

Definition co_send (v : resp_value) : Co unit := inline (_send v) ;; drain.

(** [await self._send(v); return b] *)
Definition co_reply (v : resp_value) (b : bool) : Co bool := co_send v ;; mret b.

(** The handlers again, with their suspensions. *)
Definition co_wrong_args (name : pystr) : Co bool := co_reply (RError (str "ERR wrong number of arguments for '" ++ name ++ str "'")) true.

Definition co_ping args : Co bool :=
  match args with
  | _ :: arg :: _ => s ← inline (decode_arg arg); co_reply (RStr s) true
  | _ => co_reply (RSimpleString (str "PONG")) true
  end.

Definition co_echo args : Co bool :=
  match args with
  | [_; arg] => s ← inline (decode_arg arg); co_reply (RStr s) true
  | _ => co_wrong_args (str "echo")
  end.

Definition co_set args : Co bool :=
  match args with
  | [_; k; v] =>
      key ← inline (decode_arg k);
      value ← inline (decode_arg v);
      match key with
      | [] => co_reply (RError (str "ERR key must not be empty")) true
      | _ =>
          _run (_set key value) ;;
          inline (on_broker (broker.publish key (str "set") (Some value)) ;; on_registry (metrics.on_metric m_changes (metrics.inc 1 []))) ;;
          co_reply (RSimpleString (str "OK")) true
      end
  | _ => co_wrong_args (str "set")
  end.

(** The key is decoded in the executor. *)
Definition co_get args : Co bool :=
  match args with
  | [_; k] =>
      value ← _run (key ← lift_res (utf8_decode k); _get key);
      co_reply (reply_of value) true
  | _ => co_wrong_args (str "get")
  end.

Definition co_del args : Co bool :=
  match args with
  | _ :: _ :: _ =>
      keys ← inline (decode_args (tail args));
      removed ← _run (_delete keys);
      inline (publish_removed removed) ;;
      co_reply (RInt (Z.of_nat (length removed))) true
  | _ => co_wrong_args (str "del")
  end.

Definition co_exists args : Co bool :=
  match args with
  | _ :: _ :: _ =>
      keys ← inline (decode_args (tail args));
      found ← _run (_exists keys);
      co_reply (RInt found) true
  | _ => co_wrong_args (str "exists")
  end.

Definition co_keys args : Co bool :=
  match args with
  | [_; p] =>
      pattern ← inline (decode_arg p);
      keys ← _run (_match_keys pattern);
      co_reply (RList (RStr <$> keys)) true
  | _ => co_wrong_args (str "keys")
  end.

Definition co_dbsize args : Co bool := n ← _run (on_db dbdb.len); co_reply (RInt n) true.

Definition co_info args : Co bool :=
  stats ← _run (on_db dbdb.stats);
  report ← inline (info_report stats);
  co_reply (RStr report) true.

Definition co_command args : Co bool := co_reply (RList []) true.

Definition co_quit args : Co bool := co_reply (RSimpleString (str "OK")) false.

Fixpoint co_subscribe_loop (queue : Z) (raws : list bytes) : Co unit :=
  match raws with
  | [] => mret tt
  | raw :: raws =>
      reply ← inline (subscribe_one queue raw);
      co_send reply ;;
      co_subscribe_loop queue raws
  end.

Definition co_subscribe args : Co bool :=
  match args with
  | _ :: _ :: _ =>
      queue ← inline subscriber_queue;
      co_subscribe_loop queue (tail args) ;;
      mret true
  | _ => co_wrong_args (str "subscribe")
  end.

Fixpoint co_unsubscribe_loop (prefixes : list pystr) : Co unit :=
  match prefixes with
  | [] => mret tt
  | prefix :: prefixes =>
      reply ← inline (unsubscribe_one prefix);
      co_send reply ;;
      co_unsubscribe_loop prefixes
  end.

Definition co_unsubscribe args : Co bool :=
  prefixes ← inline (to_unsubscribe args);
  co_unsubscribe_loop prefixes ;;
  mret true.

Definition co_handler (h : cmd_name) args : Co bool :=
  match h with
  | cmd_ping => co_ping args | cmd_echo => co_echo args | cmd_set => co_set args | cmd_get => co_get args
  | cmd_del => co_del args | cmd_exists => co_exists args | cmd_keys => co_keys args | cmd_dbsize => co_dbsize args
  | cmd_info => co_info args | cmd_command => co_command args | cmd_quit => co_quit args
  | cmd_subscribe => co_subscribe args | cmd_unsubscribe => co_unsubscribe args
  end.

Definition co_dispatch args (elapsed : float) : Co bool :=
  match args with
  | [] => inline (raise IndexError)
  | arg0 :: _ =>
      let command := upper arg0 in
      let name := ascii_lower command in
      st ← inline get_st;
      if negb (bool_decide (_subscriptions st.2 = ∅)) && negb (bool_decide (command ∈ _SUBSCRIBE_MODE_COMMANDS)) then
        co_reply (RError (str "ERR only SUBSCRIBE/UNSUBSCRIBE/PING/QUIT allowed while subscribed")) true
      else
        match handler_of name with
        | None =>
            inline (on_registry (metrics.on_metric m_commands (metrics.inc 1 [(str "command", str "unknown")]))) ;;
            co_reply (RError (str "ERR unknown command '" ++ utf8_decode_replace command ++ str "'")) true
        | Some h =>
            co_finally (co_handler h args)
              (on_registry (metrics.on_metric m_commands (metrics.inc 1 [(str "command", name)])) ;;
               on_registry (metrics.on_metric m_latency (metrics.observe elapsed [(str "command", name)])))
        end
  end.

(** One round of the loop of [serve], from the moment the next command can be read. *)
Definition co_turn (elapsed : float) (input : bytes) : Co (option bytes) :=
  match resp.read_command input with
  | (_, Raise (ProtocolError e)) => co_send (RError (str "ERR protocol error: " ++ e)) ;; mret None
  | (_, Raise e) => inline (raise e)
  | (_, Ok None) => mret None
  | (rest, Ok (Some [])) => mret (Some rest)
  | (rest, Ok (Some args)) =>
      keep ← co_dispatch args elapsed;
      mret (if (keep : bool) then Some rest else None)
  end.

(** A coroutine that is run without interruption. *)
Fixpoint alone {A} (t : task A) : M A := fun st =>
  match t with
  | Returned _ r => (st, r)
  | Draining _ k => let '(st, t) := k st in alone t st
  | Calling _ C call k => let '(s, r) := call st.1 in let '(st, t) := k r (s, st.2) in alone t st
  end.
Definition run_alone {A} (m : Co A) : M A := fun st => let '(st, t) := m st in alone t st.

(** ** Several clients *)

(** What the task of a connection does: it waits for the next command ([input] is
    what the client still sends), it waits in [drain], its call is in the queue
    of the executor, its call is done and it is about to go on, or it has ended. *)
Inductive phase : Type :=
| Reading (input : bytes)
| Paused (k : Co (option bytes))
| Queued (B : Set) (call : St (ImmuServer N) B) (k : res B -> Co (option bytes))
| Completed (k : Co (option bytes))
| Closed.

Record client : Type := mkClient {
  cl_conn : Connection;
  cl_phase : phase
}.

(** The server with its connections; the executor's queue and the calls whose
    results the event loop has not handed out yet, by connection, in order. *)
Record world : Type := mkWorld {
  w_server : ImmuServer N;
  w_clients : list client;
  w_queue : list nat;
  w_done : list nat
}.

Definition idle_world s : world := mkWorld s [] [] [].

(** The event loop runs one task at a time until its next [await], the executor's
    thread one call at a time in the order they came: a client connects; the task
    of a connection that waits for a command or in [drain] goes on; the executor
    runs the next call; the result of the first finished call is handed to its
    task; the [_pump] of a connection forwards a message. *)
Inductive event : Type :=
| Connects (input : bytes)
| Wake (i : nat) (elapsed : float)
| Work
| Deliver
| Pump (i : nat).

(** A new connection, and [serve] up to its loop. *)
Definition _handle (input : bytes) (w : world) : world :=
  let '((s, c), _) := on_registry (metrics.on_metric m_connections (metrics.inc 1 [])) (w_server w, new_connection) in
  mkWorld s (w_clients w ++ [mkClient c (Reading input)]) (w_queue w) (w_done w).

(** Where connection [i] stops next.  The end of its loop and an exception lead to
    the [finally] block of [serve], and end no other task. *)
Definition settle (i : nat) (out : state * task (option bytes)) (w : world) : world :=
  let '((s, c), t) := out in
  let put s c p := mkWorld s (<[i := mkClient c p]> (w_clients w)) in
  match t with
  | Returned _ (Ok (Some rest)) => put s c (Reading rest) (w_queue w) (w_done w)
  | Returned _ _ => let '((s, c), _) := hang_up (s, c) in put s c Closed (w_queue w) (w_done w)
  | Draining _ k => put s c (Paused k) (w_queue w) (w_done w)
  | Calling _ B call k => put s c (Queued B call k) (w_queue w ++ [i]) (w_done w)
  end.

Definition wake (i : nat) (elapsed : float) (w : world) : world :=
  match w_clients w !! i with
  | Some (mkClient c (Reading input)) => settle i (co_turn elapsed input (w_server w, c)) w
  | Some (mkClient c (Paused k)) => settle i (k (w_server w, c)) w
  | _ => w
  end.

Definition work (w : world) : world :=
  match w_queue w with
  | [] => w
  | i :: queue =>
      match w_clients w !! i with
      | Some (mkClient c (Queued B call k)) =>
          let '(s, r) := call (w_server w) in
          mkWorld s (<[i := mkClient c (Completed (k r))]> (w_clients w)) queue (w_done w ++ [i])
      | _ => w
      end
  end.

Definition deliver (w : world) : world :=
  match w_done w with
  | [] => w
  | i :: finished =>
      match w_clients w !! i with
      | Some (mkClient c (Completed k)) => settle i (k (w_server w, c)) (mkWorld (w_server w) (w_clients w) (w_queue w) finished)
      | _ => w
      end
  end.

Definition pump (i : nat) (w : world) : world :=
  match w_clients w !! i with
  | None | Some (mkClient _ Closed) => w
  | Some (mkClient c p) => let '((s, c), _) := _pump (w_server w, c) in mkWorld s (<[i := mkClient c p]> (w_clients w)) (w_queue w) (w_done w)
  end.

Definition exec (e : event) (w : world) : world :=
  match e with
  | Connects input => _handle input w
  | Wake i elapsed => wake i elapsed w
  | Work => work w
  | Deliver => deliver w
  | Pump i => pump i w
  end.

Definition run_events (es : list event) (w : world) : world := fold_left (fun w e => exec e w) es w.

End server.
End server.
