(* ===== verification/ServerSpec.v ===== *)
(** What the server's commands promise, on a table of texts, and that the handlers
    keep the promise. *)

From Stdlib Require Import Strings.String.
From S2P Require Import Prelude PyBase Struct SimDisk Locking Physical PhysicalFacts Recovery KeyList Logical Pickle Index.
From S2P Require Import Engine Session Text Resp Pubsub Metrics Database TableDb Server.

(** * The abstract server *)

(** A change event: key, operation and value. *)
Definition change : Type := pystr * pystr * option pystr.

Fixpoint spec_del (ks : list pystr) (T : texts) : texts * list pystr :=
  match ks with
  | [] => (T, [])
  | k :: ks =>
      match kv_get k T with
      | Some _ => let '(T', removed) := spec_del ks (kv_del k T) in (T', k :: removed)
      | None => spec_del ks T
      end
  end.

Definition spec_exists (ks : list pystr) (T : texts) : Z :=
  Z.of_nat (length (base.filter (fun k => is_Some (kv_get k T)) ks)).

Definition wrong_args (name : string) : resp_value := RError (str "ERR wrong number of arguments for '" ++ str name ++ str "'").

Record answer : Type := mkAnswer { new_texts : texts; reply : resp_value; changes : list change; keep : bool }.

(** The answer to a command with the given (decoded) arguments; [None] for the
    commands this table does not cover and for empty keys. *)
Definition spec_cmd `{Fnmatch} (h : cmd_name) (args : list pystr) (T : texts) : option answer :=
  let only r := Some (mkAnswer T r [] true) in
  match h, args with
  | cmd_ping, [] => only (RSimpleString (str "PONG"))
  | cmd_ping, t :: _ => only (RStr t)
  | cmd_echo, [t] => only (RStr t)
  | cmd_echo, _ => only (wrong_args "echo")
  | cmd_set, [k; v] =>
      match k with
      | [] => only (RError (str "ERR key must not be empty"))
      | _ => Some (mkAnswer (kv_set k v T) (RSimpleString (str "OK")) [(k, str "set", Some v)] true)
      end
  | cmd_set, _ => only (wrong_args "set")
  | cmd_get, [k] => match k with [] => None | _ => only (server.reply_of (kv_get k T)) end
  | cmd_get, _ => only (wrong_args "get")
  | cmd_del, [] => only (wrong_args "del")
  | cmd_del, ks =>
      if bool_decide ([] ∈ ks) then None
      else let '(T', removed) := spec_del ks T in
           Some (mkAnswer T' (RInt (Z.of_nat (length removed))) ((fun k => (k, str "del", None)) <$> removed) true)
  | cmd_exists, [] => only (wrong_args "exists")
  | cmd_exists, ks => if bool_decide ([] ∈ ks) then None else only (RInt (spec_exists ks T))
  | cmd_keys, [p] => only (RList (RStr <$> base.filter (fun k => fnmatchcase k p = true) T.*1))
  | cmd_keys, _ => only (wrong_args "keys")
  | cmd_dbsize, _ => only (RInt (Z.of_nat (length T)))
  | cmd_command, _ => only (RList [])
  | cmd_quit, _ => Some (mkAnswer T (RSimpleString (str "OK")) [] false)
  | _, _ => None
  end.

(** What [fnmatch] documents of the patterns the server treats specially: [*]
    matches everything, and ordinary characters match themselves. *)
Class FnmatchLaws `{Fnmatch} := {
  fnmatch_all key : fnmatchcase key (str "*") = true;
  fnmatch_prefix key p : Forall (fun ch => ch ∉ _GLOB_METACHARS) p -> fnmatchcase key (p ++ str "*") = startswith key p
}.

(** * The handlers *)

Section handlers.
Context `{Pickle} {N : Type} `{IndexSpec N} `{ChangeJson} `{Float} `{FnmatchLaws}.
Implicit Types (s : ImmuServer N) (c : Connection) (m : _Meta) (B T : texts) (r : metrics.Registry).
Abbreviation state := (ImmuServer N * Connection)%type.

(** The metrics [__init__] registered are there. *)
Record registered r : Prop := {
  rg_commands : exists mt, r !! m_commands = Some mt /\ metrics.class_of mt = metrics.CounterClass;
  rg_latency : exists mt, r !! m_latency = Some mt /\ metrics.class_of mt = metrics.HistogramClass;
  rg_connections : exists mt, r !! m_connections = Some mt /\ metrics.class_of mt = metrics.GaugeClass;
  rg_changes : exists mt, r !! m_changes = Some mt /\ metrics.class_of mt = metrics.CounterClass
}.

(** The server runs on a database in which [B] is committed and [T] current. *)
Definition serving s m B T : Prop := (exists d, _db s = Some d /\ db_holds d m B T) /\ registered (registry s).

(** What is on disk. *)
Definition on_disk s : bytes := match _db s with Some d => disk.durable_bytes (_f (dbdb.the_storage d)) | None => [] end.

(** The disk was set to fail in a flush to come. *)
Definition armed s : Prop := match _db s with Some d => _crash_at_flush (_f (dbdb.the_storage d)) <> None | None => False end.

(** ** Small steps *)

Lemma send_run (v : resp_value) b (st : state) : resp.encode v = Ok b -> server._send v st = ((st.1, server.write b st.2), Ok tt).
Proof. intros E. unfold server._send. by erewrite stx_bind_ok by (unfold lift_res; rewrite E; reflexivity). Qed.

Lemma reply_run (v : resp_value) b (st : state) (k : bool) :
  resp.encode v = Ok b -> (server._send v ;; mret k) st = ((st.1, server.write b st.2), Ok k).
Proof. intros E. by erewrite stx_bind_ok by (by apply send_run). Qed.

Lemma decode_run raw t (st : state) : utf8_decode raw = Ok t -> server.decode_arg raw st = (st, Ok t).
Proof. intros E. unfold server.decode_arg, lift_res. by rewrite E. Qed.

Lemma decode_args_run raws ts (st : state) :
  Forall2 (fun b t => utf8_decode b = Ok t) raws ts -> server.decode_args raws st = (st, Ok ts).
Proof.
  induction 1 as [|b t raws ts Hb _ IH]; [done|]. unfold server.decode_args in *. cbn [mapM_st].
  erewrite stx_bind_ok by (by apply decode_run). by erewrite stx_bind_ok by exact IH.
Qed.

Lemma on_server_run {A} (f : St (ImmuServer N) A) s c s' (x : res A) :
  f s = (s', x) -> server.on_server f (s, c) = ((s', c), x).
Proof. intros E. unfold server.on_server, zoom. simpl. by rewrite E. Qed.

Lemma on_db_run {A} (f : St (DBDB N) A) s d d' (x : res A) :
  _db s = Some d -> f d = (d', x) -> server.on_db f s = (server.set_db (Some d') s, x).
Proof. intros Ed E. unfold server.on_db. by rewrite Ed, E. Qed.

Lemma registered_insert r name (mt mt' : metrics.metric) :
  registered r -> r !! name = Some mt -> metrics.class_of mt = metrics.class_of mt' -> registered (<[name := mt']> r).
Proof.
  intros [R1 R2 R3 R4] Hm Hc.
  assert (Hins : forall n cl, (exists x, r !! n = Some x /\ metrics.class_of x = cl) ->
    exists x, <[name := mt']> r !! n = Some x /\ metrics.class_of x = cl).
  { intros n cl (x & Hx & Hcl). destruct (decide (name = n)) as [<-|Hne].
    - exists mt'. split; [apply (lookup_insert_eq (M := gmap pystr))|congruence].
    - exists x. split; [|done]. rewrite <- Hx. by apply (lookup_insert_ne (M := gmap pystr)). }
  split; by apply Hins.
Qed.

(** A method the metric's class has can be called. *)
Lemma on_metric_run r name (f : metrics.metric -> res metrics.metric) mt mt' :
  registered r -> r !! name = Some mt -> f mt = Ok mt' -> metrics.class_of mt = metrics.class_of mt' ->
  exists r', metrics.on_metric name f r = (r', Ok tt) /\ registered r'.
Proof.
  intros Hr E Ef Hc. eexists. split; [|by eapply registered_insert].
  unfold metrics.on_metric. erewrite stx_bind_ok by reflexivity. rewrite E. unfold lift_res. by erewrite stx_bind_ok by (rewrite Ef; reflexivity).
Qed.

Lemma counter_inc_run r name l :
  registered r -> (exists mt, r !! name = Some mt /\ metrics.class_of mt = metrics.CounterClass) ->
  exists r', metrics.on_metric name (metrics.inc 1 l) r = (r', Ok tt) /\ registered r'.
Proof. intros Hr ([h v| |] & E & Hc); try done. by eapply on_metric_run. Qed.

Lemma latency_run r x l :
  registered r -> exists r', metrics.on_metric m_latency (metrics.observe x l) r = (r', Ok tt) /\ registered r'.
Proof. intros Hr. destruct (rg_latency r Hr) as ([| |h b v] & E & Hc); try done. by eapply on_metric_run. Qed.

Lemma on_registry_run {A} (f : St metrics.Registry A) s c r' (x : res A) :
  f (registry s) = (r', x) -> server.on_registry f (s, c) = ((server.set_registry r' s, c), x).
Proof. intros E. apply on_server_run. by apply zoom_eq. Qed.

(** All events of a command, in order. *)
Definition publish_all (evs : list change) (b : ChangeBroker) : ChangeBroker :=
  fold_left (fun b '(k, op, v) => (broker.publish k op v b).1) evs b.

(** The outcome of a command: the answer was written, the texts are the new ones
    and committed, and the changes were published; or the disk failed, nothing was
    written or published, and the disk still holds the old texts. *)
Definition answered s c T (a : answer) (out : state * res bool) : Prop :=
  (exists s' m' b, resp.encode (reply a) = Ok b /\ out = ((s', server.write b c), Ok (keep a)) /\
     serving s' m' (new_texts a) (new_texts a) /\ _broker s' = publish_all (changes a) (_broker s)) \/
  (exists s' e m' base, out = ((s', c), Raise e) /\ (e = SimCrash \/ e = StructError) /\ stored T base /\
     opens (N := N) (on_disk s') m' base /\ _broker s' = _broker s /\ registered (registry s')).

(** A command that only reads. *)
Lemma answered_read s s' c m T (v : resp_value) b (k : bool) :
  serving s' m T T -> _broker s' = _broker s -> resp.encode v = Ok b ->
  answered s c T (mkAnswer T v [] k) ((server._send v ;; mret k) (s', c)).
Proof.
  intros Hs Hb E. left. exists s', m, b. split_and!; [done| |done|done]. by rewrite (reply_run v b (s', c)).
Qed.

Lemma encode_str t raw : utf8_encode t = Ok raw -> resp.encode (RStr t) = Ok (bulk raw).
Proof. intros E. simpl. by rewrite E. Qed.

Lemma decoded_encodable raw t : utf8_decode raw = Ok t -> encodable t.
Proof. intros E. exists raw. by apply utf8_roundtrip. Qed.

(** ** Database operations *)

Lemma serving_db s m B T d d' m' B' T' :
  serving s m B T -> _db s = Some d -> db_holds d' m' B' T' -> serving (server.set_db (Some d') s) m' B' T'.
Proof. intros [_ Hr] _ Hd. split; [by exists d'|done]. Qed.

Lemma get_run s m T k :
  serving s m T T -> k <> [] -> exists s', server._get k s = (s', Ok (kv_get k T)) /\ serving s' m T T /\ _broker s' = _broker s.
Proof.
  intros Hs Hk. pose proof Hs as [(d & Ed & Hd) _]. destruct (db_getitem d m T T k Hd Hk) as (d' & E & Hd').
  exists (server.set_db (Some d') s). split; [|split; [by eapply serving_db|done]].
  unfold server._get, try_with, mbind, stx_bind. rewrite (on_db_run _ _ _ _ _ Ed E). by destruct (kv_get k T).
Qed.

Lemma set_run s m B T k v s' (r : res unit) :
  serving s m B T -> k <> [] -> encodable k -> encodable v -> fits_n (N := N) (S (length T)) -> server._set k v s = (s', r) ->
  _broker s' = _broker s /\ registered (registry s') /\
  ((r = Ok tt /\ exists m', serving s' m' (kv_set k v T) (kv_set k v T)) \/
   exists e m' base, r = Raise e /\ (e = SimCrash \/ e = StructError) /\ stored B base /\ opens (N := N) (on_disk s') m' base).
Proof.
  intros Hs Hk Hek Hev Hf E. pose proof Hs as [(d & Ed & Hd) Hr]. destruct (db_setitem d m B T k v Hd Hk Hek Hev Hf) as (d1 & E1 & Hd1).
  unfold server._set in E. erewrite stx_bind_ok in E by (by eapply on_db_run). destruct (dbdb.commit d1) as [d2 r2] eqn:E2.
  rewrite (on_db_run dbdb.commit (server.set_db (Some d1) s) d1 d2 r2 eq_refl E2) in E. injection E as <- <-. split_and!; [done|done|].
  destruct (db_commit _ _ _ _ _ _ Hd1 E2) as [[-> (m' & Hd2 & _)]|[He (m' & base & Hst & Hop)]].
  - left. split; [done|]. exists m'. split; [by exists d2|done].
  - right. destruct He as [-> | ->]; eexists _, m', base; split_and!; eauto.
Qed.

Lemma set_armed s m B T k v s' :
  serving s m B T -> k <> [] -> encodable k -> encodable v -> fits_n (N := N) (S (length T)) -> server._set k v s = (s', Raise SimCrash) -> armed s.
Proof.
  intros Hs Hk Hek Hev Hf E. pose proof Hs as [(d & Ed & Hd) Hr]. destruct (db_setitem_file d m B T k v Hd Hk Hek Hev Hf) as (d1 & E1 & Hd1 & Hsf).
  unfold server._set in E. erewrite stx_bind_ok in E by (by eapply on_db_run). destruct (dbdb.commit d1) as [d2 r2] eqn:E2.
  rewrite (on_db_run dbdb.commit (server.set_db (Some d1) s) d1 d2 r2 eq_refl E2) in E. injection E as <- ->.
  unfold armed. rewrite Ed. pose proof (db_commit_armed _ _ _ _ _ Hd1 E2) as Hc. by rewrite (proj1 (proj2 (proj2 (same_file_fields _ _ Hsf)))) in Hc.
Qed.

Lemma delete_loop_armed s m B T ks s' (r : res (list pystr)) : serving s m B T -> [] ∉ ks -> server.delete_loop ks s = (s', r) -> armed s' -> armed s.
Proof.
  revert s T r. induction ks as [|k ks IH]; intros s T r Hs Hk; [by intros [= <- <-]|]. apply not_elem_of_cons in Hk as [Hk Hks].
  pose proof Hs as [(d & Ed & Hd) Hr]. destruct (db_delitem_file d m B T k Hd (not_eq_sym Hk)) as (d1 & E1 & Hd1 & _ & Hsf). cbn [server.delete_loop].
  assert (armed (server.set_db (Some d1) s) -> armed s) as Hback.
  { unfold armed. rewrite Ed. cbn [_db server.set_db]. by rewrite (proj1 (proj2 (proj2 (same_file_fields _ _ Hsf)))). }
  unfold try_with, mbind, stx_bind. rewrite (on_db_run _ _ _ _ _ Ed E1). destruct (kv_get k T) as [v|] eqn:Eg.
  all: unfold mret, stx_ret; destruct (server.delete_loop ks (server.set_db (Some d1) s)) as [s2 r2] eqn:E2; intros E Ha; apply Hback.
  all: assert (s2 = s') as -> by (destruct r2; by injection E as ->).
  all: eapply (IH (server.set_db (Some d1) s)); [|done|exact E2|done]; by eapply serving_db.
Qed.

Lemma delete_loop_run s m B T ks :
  serving s m B T -> [] ∉ ks ->
  exists s', server.delete_loop ks s = (s', Ok (spec_del ks T).2) /\ serving s' m B (spec_del ks T).1 /\ _broker s' = _broker s.
Proof.
  revert s T. induction ks as [|k ks IH]; intros s T Hs Hk; [by exists s|]. apply not_elem_of_cons in Hk as [Hk Hks].
  pose proof Hs as [(d & Ed & Hd) Hr]. destruct (db_delitem d m B T k Hd (not_eq_sym Hk)) as (d1 & E1 & Hd1 & _). cbn [server.delete_loop spec_del].
  destruct (kv_get k T) as [v|] eqn:Eg.
  - erewrite stx_bind_ok.
    2:{ unfold try_with. by erewrite stx_bind_ok by (by eapply on_db_run). }
    destruct (IH (server.set_db (Some d1) s) (kv_del k T)) as (s' & E2 & Hs' & Hb'); [by eapply serving_db|done|].
    exists s'. erewrite stx_bind_ok by exact E2. destruct (spec_del ks (kv_del k T)). done.
  - erewrite stx_bind_ok.
    2:{ unfold try_with, mbind, stx_bind. by rewrite (on_db_run _ _ _ _ _ Ed E1). }
    rewrite (kv_del_absent k T Eg) in Hd1.
    destruct (IH (server.set_db (Some d1) s) T) as (s' & E2 & Hs' & Hb'); [by eapply serving_db|done|].
    exists s'. erewrite stx_bind_ok by exact E2. done.
Qed.

Lemma spec_del_none ks T : (spec_del ks T).2 = [] -> (spec_del ks T).1 = T.
Proof.
  revert T. induction ks as [|k ks IH]; intros T; [done|]. simpl. destruct (kv_get k T); [|apply IH].
  by destruct (spec_del ks (kv_del k T)).
Qed.

Lemma exists_run s m T ks :
  serving s m T T -> [] ∉ ks ->
  exists s', server._exists ks s = (s', Ok (spec_exists ks T)) /\ serving s' m T T /\ _broker s' = _broker s.
Proof.
  revert s. induction ks as [|k ks IH]; intros s Hs Hk; [by exists s|]. apply not_elem_of_cons in Hk as [Hk Hks].
  pose proof Hs as [(d & Ed & Hd) Hr]. destruct (db_getitem d m T T k Hd (not_eq_sym Hk)) as (d1 & E1 & Hd1). cbn [server._exists].
  destruct (IH (server.set_db (Some d1) s)) as (s' & E2 & Hs' & Hb'); [by eapply serving_db|done|]. exists s'. split; [|done].
  unfold spec_exists in *. rewrite filter_cons. destruct (kv_get k T) as [v|].
  - erewrite stx_bind_ok.
    2:{ unfold try_with. by erewrite stx_bind_ok by (by eapply on_db_run). }
    erewrite stx_bind_ok by exact E2. rewrite decide_True by done. unfold mret, stx_ret. do 2 f_equal. simpl. lia.
  - erewrite stx_bind_ok.
    2:{ unfold try_with, mbind, stx_bind. by rewrite (on_db_run _ _ _ _ _ Ed E1). }
    erewrite stx_bind_ok by exact E2. rewrite decide_False by (by intros [? ?]). done.
Qed.

Lemma filter_fst (P : pystr -> bool) T : (base.filter (fun a => P a.1 = true) T).*1 = base.filter (fun k => P k = true) T.*1.
Proof. induction T as [|[a b] T IH]; [done|]. csimpl. rewrite !filter_cons. simpl. destruct (decide (P a = true)); csimpl; by rewrite IH. Qed.

Lemma filter_ext_bool (P Q : pystr -> bool) (l : list pystr) : (forall k, P k = Q k) -> base.filter (fun k => P k = true) l = base.filter (fun k => Q k = true) l.
Proof. intros Hpq. induction l as [|k l IH]; [done|]. rewrite !filter_cons, Hpq, IH. done. Qed.

(** The prefix scan is only an optimisation. *)
Lemma match_keys_run s m T pattern :
  serving s m T T ->
  exists s', server._match_keys pattern s = (s', Ok (base.filter (fun k => fnmatchcase k pattern = true) T.*1)) /\
    serving s' m T T /\ _broker s' = _broker s.
Proof.
  intros Hs. pose proof Hs as [(d & Ed & Hd) Hr]. unfold server._match_keys.
  destruct (db_keys d m T T None Hd ltac:(done)) as (d1 & E1 & Hd1).
  case_bool_decide as Hstar.
  - exists (server.set_db (Some d1) s). split; [|split; [by eapply serving_db|done]]. rewrite (on_db_run _ _ _ _ _ Ed E1). do 2 f_equal.
    rewrite (filter_fst (fun _ => true)). subst pattern. apply filter_ext_bool. intros k. by rewrite fnmatch_all.
  - cbv zeta. destruct (_ && _ && _) eqn:Ep.
    + apply andb_true_iff in Ep as [[El%bool_decide_eq_true En%bool_decide_eq_true]%andb_true_iff Eg%negb_true_iff].
      destruct (last_split _ _ El) as [p ->]. assert (py_upto (p ++ [42%N]) (-1) = p) as Eu.
      { unfold py_upto, py_bound. rewrite length_app. simpl. replace (Z.to_nat _) with (length p) by lia. apply take_app_length. }
      rewrite Eu in En, Eg |- *. destruct (db_keys d m T T (Some p) Hd ltac:(congruence)) as (d2 & E2 & Hd2).
      exists (server.set_db (Some d2) s). split; [|split; [by eapply serving_db|done]]. rewrite (on_db_run _ _ _ _ _ Ed E2). do 2 f_equal.
      rewrite (filter_fst (fun k => startswith k p)). apply filter_ext_bool. intros k. symmetry. apply (fnmatch_prefix k p).
      apply Forall_forall. intros ch Hch Hin. assert (existsb (fun ch => bool_decide (ch ∈ _GLOB_METACHARS)) p = true) as Hx; [|congruence].
      apply existsb_exists. exists ch. split; [by apply list_elem_of_In|]. by apply bool_decide_eq_true.
    + exists (server.set_db (Some d1) s). split; [|split; [by eapply serving_db|done]]. erewrite stx_bind_ok by (by eapply on_db_run).
      unfold mret, stx_ret. do 3 f_equal. rewrite (filter_fst (fun _ => true)). clear. induction (T.*1) as [|k l IH]; [done|].
      rewrite filter_cons, decide_True by done. by rewrite IH.
Qed.

End handlers.
