(* ===== verification/ServerProps.v ===== *)
(** The server answers as the abstract table of texts does, for one command and for
    a whole connection ([src/imustore/server.py]). *)

From Stdlib Require Import Strings.Byte Strings.String.
From S2P Require Import Prelude PyBase Struct Text SimDisk Locking Physical PhysicalFacts Recovery KeyList Logical Pickle Index Engine Session Database.
From S2P Require Import Resp RespProps Pubsub PubsubProps Metrics TableDb Server ServerSpec.

(** The server answers every command as the abstract table of texts does, an
    acknowledged write is on disk, and what clients can do to each other. *)

Section props.
Context `{Pickle} {N : Type} `{IndexSpec N} `{ChangeJson} `{Float} `{FnmatchLaws}.
Implicit Types (s : ImmuServer N) (c : Connection) (m : _Meta) (T : texts) (args : list bytes) (ts : list pystr).

Lemma publish_step s c k (op : pystr) v :
  server.on_broker (broker.publish k op v) (s, c) = ((server.set_broker (broker.publish k op v (_broker s)).1 s, c), Ok tt).
Proof. apply on_server_run, zoom_eq. rewrite publish_run. done. Qed.

Lemma serving_broker s m B T b : serving s m B T -> serving (server.set_broker b s) m B T.
Proof. intros [Hd Hr]. by split. Qed.

Lemma serving_registry s m B T r : serving s m B T -> registered r -> serving (server.set_registry r s) m B T.
Proof. intros [Hd _] Hr. by split. Qed.

(** One event published and counted. *)
Lemma publish_counted s c m B T k (op : pystr) v :
  serving s m B T ->
  exists s', (server.on_broker (broker.publish k op v) ;; server.on_registry (metrics.on_metric m_changes (metrics.inc 1 []))) (s, c) = ((s', c), Ok tt) /\
    serving s' m B T /\ _broker s' = (broker.publish k op v (_broker s)).1 /\ _db s' = _db s.
Proof.
  intros Hs. pose proof Hs as [_ Hr]. destruct (counter_inc_run (registry s) m_changes [] Hr (rg_changes _ Hr)) as (r' & E & Hr').
  eexists. split; [erewrite stx_bind_ok by apply publish_step; by apply on_registry_run|].
  split; [|done]. apply serving_registry; [|done]. by apply serving_broker.
Qed.

Lemma publish_removed_run s c m B T ks :
  serving s m B T ->
  exists s', server.publish_removed ks (s, c) = ((s', c), Ok tt) /\ serving s' m B T /\
    _broker s' = publish_all ((fun k => (k, str "del", None)) <$> ks) (_broker s).
Proof.
  revert s. induction ks as [|k ks IH]; intros s Hs; [by exists s|]. cbn [server.publish_removed].
  destruct (publish_counted s c m B T k (str "del") None Hs) as (s1 & E1 & Hs1 & Hb1 & _).
  destruct (IH s1 Hs1) as (s' & E' & Hs' & Hb'). exists s'. split_and!; [|done|].
  - unfold mbind, stx_bind in E1 |- *. destruct (server.on_broker _ (s, c)) as [st1 [u|e]]; [|done].
    destruct (server.on_registry _ st1) as [st2 [u'|e]]; [|done]. injection E1 as ->. exact E'.
  - by rewrite Hb', Hb1.
Qed.

(** ** The handlers *)

Lemma set_answered s c m B T a0 k v kt vt :
  serving s m B T -> fits_n (N := N) (S (length T)) -> utf8_decode k = Ok kt -> utf8_decode v = Ok vt -> kt <> [] ->
  answered s c B (mkAnswer (kv_set kt vt T) (RSimpleString (str "OK")) [(kt, str "set", Some vt)] true) (server._cmd_set [a0; k; v] (s, c)).
Proof.
  intros Hs Hf Ek Ev Hk. unfold server._cmd_set. erewrite stx_bind_ok by (by apply decode_run). erewrite stx_bind_ok by (by apply decode_run).
  destruct kt as [|ch kt]; [done|]. destruct (server._set (ch :: kt) vt s) as [s1 r1] eqn:E1.
  destruct (set_run s m B T (ch :: kt) vt s1 r1) as (Hb1 & Hr1 & [(-> & m' & Hs1)|(e & m' & base & -> & He & Hst & Hop)]); try done.
  { by eapply decoded_encodable. } { by eapply decoded_encodable. }
  - destruct (publish_counted s1 c m' _ _ (ch :: kt) (str "set") (Some vt) Hs1) as (s2 & E2 & Hs2 & Hb2 & _).
    left. exists s2, m'. eexists. split; [reflexivity|]. split_and!; [|done|].
    + erewrite stx_bind_ok by (by apply on_server_run). unfold mbind, stx_bind in E2 |- *.
      destruct (server.on_broker _ (s1, c)) as [st1 [u|e]]; [|done]. destruct (server.on_registry _ st1) as [st2 [u'|e]]; [|done].
      injection E2 as ->. reflexivity.
    + simpl. by rewrite Hb2, Hb1.
  - right. exists s1, e, m', base. split_and!; try done. by erewrite stx_bind_raise by (by apply on_server_run).
Qed.

Lemma delete_run s m T ks s' (r : res (list pystr)) :
  serving s m T T -> [] ∉ ks -> server._delete ks s = (s', r) ->
  _broker s' = _broker s /\ registered (registry s') /\
  ((r = Ok (spec_del ks T).2 /\ exists m', serving s' m' (spec_del ks T).1 (spec_del ks T).1) \/
   exists e m' base, r = Raise e /\ (e = SimCrash \/ e = StructError) /\ stored T base /\ opens (N := N) (on_disk s') m' base).
Proof.
  intros Hs Hne E. destruct (delete_loop_run s m T T ks Hs Hne) as (s1 & E1 & Hs1 & Hb1). pose proof (spec_del_none ks T) as Hnone.
  destruct (spec_del ks T) as [T' removed]. cbn [fst snd] in *. unfold server._delete in E. erewrite stx_bind_ok in E by exact E1.
  pose proof Hs1 as [(d & Ed & Hd1) Hreg1]. destruct removed as [|x removed].
  - injection E as <- <-. split_and!; [done|done|]. left. split; [done|]. exists m. by rewrite Hnone in *.
  - destruct (dbdb.commit d) as [d2 r2] eqn:Ec. unfold mbind, stx_bind in E. rewrite (on_db_run _ _ _ _ _ Ed Ec) in E.
    destruct (db_commit _ _ _ _ _ _ Hd1 Ec) as [[-> (m' & Hd2 & _)]|[He (m' & base & Hst & Hop)]].
    + injection E as <- <-. split_and!; [done|done|]. left. split; [done|]. exists m'. split; [by exists d2|done].
    + destruct He as [-> | ->]; injection E as <- <-; (split_and!; [done|done|]); right; eexists _, m', base; split_and!; eauto.
Qed.

Lemma delete_armed s m T ks s' : serving s m T T -> [] ∉ ks -> server._delete ks s = (s', Raise SimCrash) -> armed s.
Proof.
  intros Hs Hne E. destruct (delete_loop_run s m T T ks Hs Hne) as (s1 & E1 & [(d & Ed & Hd1) _] & _). unfold server._delete in E. erewrite stx_bind_ok in E by exact E1.
  destruct (spec_del ks T).2 as [|x removed]; [discriminate|]. apply (delete_loop_armed s m T T ks s1 _ Hs Hne E1). unfold armed. rewrite Ed.
  destruct (dbdb.commit d) as [d2 r2] eqn:Ec. unfold mbind, stx_bind in E. rewrite (on_db_run _ _ _ _ _ Ed Ec) in E. destruct r2; [discriminate|]. injection E as _ ->.
  by eapply db_commit_armed.
Qed.

Lemma del_answered s c m T a0 raws ts a :
  serving s m T T -> Forall2 (fun b t => utf8_decode b = Ok t) raws ts -> spec_cmd cmd_del ts T = Some a ->
  answered s c T a (server._cmd_del (a0 :: raws) (s, c)).
Proof.
  intros Hs Hd Ha. destruct Hd as [|raw t raws ts Hr Hrs]; [injection Ha as <-; by eapply answered_read|].
  unfold server._cmd_del. cbn [tail]. erewrite stx_bind_ok by (apply decode_args_run; by constructor).
  cbn [spec_cmd] in Ha. case_bool_decide as Hne; [done|]. destruct (server._delete (t :: ts) s) as [s1 r] eqn:Edel.
  destruct (delete_run s m T (t :: ts) s1 r Hs Hne Edel) as (Hb1 & Hr1 & Hcase).
  destruct (spec_del (t :: ts) T) as [T' removed]. cbn [fst snd] in Hcase. injection Ha as <-.
  destruct Hcase as [(-> & m' & Hs1)|(e & m' & base & -> & He & Hst & Hop)].
  - destruct (publish_removed_run s1 c m' _ _ removed Hs1) as (s3 & E3 & Hs3 & Hb3). left. exists s3, m'. eexists. split; [reflexivity|].
    split_and!; [|done|by rewrite Hb3, Hb1]. erewrite stx_bind_ok by (by apply on_server_run). erewrite stx_bind_ok by exact E3. by erewrite reply_run by reflexivity.
  - right. exists s1, e, m', base. split_and!; try done. by erewrite stx_bind_raise by (by apply on_server_run).
Qed.

(** Arguments sent back are those that were decoded. *)
Lemma texts_encodable s m B T k : serving s m B T -> k ∈ T.*1 -> encodable k.
Proof.
  intros [(d & _ & base & kvs & _ & _ & HT & _) _]. induction HT as [|[a b] [x y] T kvs (_ & _ & He) _ IH]; csimpl; [by intros ?%elem_of_nil|].
  intros [->|Hk]%elem_of_cons; auto.
Qed.

Lemma encode_strs (ks : list pystr) : Forall encodable ks -> exists b, resp.encode (RList (RStr <$> ks)) = Ok b.
Proof.
  intros Hk. assert (exists bs, resp.encode_all (RStr <$> ks) = Ok bs) as (bs & E).
  { induction Hk as [|k ks [raw Hr] _ (bs & IH)]; [by eexists|]. eexists. rewrite fmap_cons.
    transitivity (b ← resp.encode (RStr k); bs ← resp.encode_all (RStr <$> ks); Ok (b ++ bs) : res bytes); [done|]. rewrite (encode_str k raw Hr), IH. done. }
  eexists. cbn [resp.encode]. fold resp.encode_all. by rewrite E.
Qed.

Lemma handler_answered h s c m T a0 raws ts a :
  serving s m T T -> fits_n (N := N) (S (length T)) -> Forall2 (fun b t => utf8_decode b = Ok t) raws ts ->
  spec_cmd h ts T = Some a -> answered s c T a (server.run_handler h (a0 :: raws) (s, c)).
Proof.
  intros Hs Hf Hd Ha. destruct h; cbn [server.run_handler].
  - (* ping *) destruct Hd as [|raw t raws ts Hr Hrs]; injection Ha as <-; [by eapply answered_read|].
    unfold server._cmd_ping. erewrite stx_bind_ok by (by apply decode_run). apply utf8_roundtrip in Hr. eapply answered_read; [done|done|by apply encode_str].
  - (* echo *) destruct Hd as [|raw t raws' ts' Hr [|raw' t' raws ts Hr' Hrs]]; injection Ha as <-; try (by eapply answered_read).
    unfold server._cmd_echo. erewrite stx_bind_ok by (by apply decode_run). apply utf8_roundtrip in Hr. eapply answered_read; [done|done|by apply encode_str].
  - (* set *) destruct Hd as [|k kt raws' ts' Hk [|v vt raws1 ts1 Hv [|x xt raws ts Hx Hrs]]]; try (injection Ha as <-; by eapply answered_read).
    destruct kt as [|ch kt]; [|injection Ha as <-; by eapply set_answered].
    injection Ha as <-. unfold server._cmd_set. erewrite stx_bind_ok by (by apply decode_run). erewrite stx_bind_ok by (by apply decode_run). by eapply answered_read.
  - (* get *) destruct Hd as [|k kt raws' ts' Hk [|v vt raws ts Hv Hrs]]; try (injection Ha as <-; by eapply answered_read).
    cbn [spec_cmd] in Ha. destruct kt as [|ch kt]; [done|]. injection Ha as <-.
    unfold server._cmd_get. erewrite stx_bind_ok by (by apply decode_run).
    destruct (get_run s m T (ch :: kt) Hs ltac:(done)) as (s1 & E1 & Hs1 & Hb1). erewrite stx_bind_ok by (by apply on_server_run).
    pose proof Hs as [(d & _ & base & kvs & _ & _ & HT & _) _]. pose proof (stored_get T kvs (ch :: kt) HT) as Hg.
    destruct (kv_get (ch :: kt) T) as [v|]; [|by eapply answered_read]. destruct Hg as (p & _ & Hv). eapply answered_read; [done|done|by apply encode_str].
  - (* del *) by eapply del_answered.
  - (* exists *) destruct Hd as [|raw t raws ts Hr Hrs]; [injection Ha as <-; by eapply answered_read|].
    cbn [spec_cmd] in Ha. case_bool_decide as Hne; [done|]. injection Ha as <-.
    unfold server._cmd_exists. cbn [tail]. erewrite stx_bind_ok by (apply decode_args_run; by constructor).
    destruct (exists_run s m T (t :: ts) Hs Hne) as (s1 & E1 & Hs1 & Hb1). erewrite stx_bind_ok by (by apply on_server_run). by eapply answered_read.
  - (* keys *) destruct Hd as [|p pt raws' ts' Hp [|v vt raws ts Hv Hrs]]; try (injection Ha as <-; by eapply answered_read).
    injection Ha as <-. unfold server._cmd_keys. erewrite stx_bind_ok by (by apply decode_run).
    destruct (match_keys_run s m T pt Hs) as (s1 & E1 & Hs1 & Hb1). erewrite stx_bind_ok by (by apply on_server_run).
    destruct (encode_strs (base.filter (fun k => fnmatchcase k pt = true) T.*1)) as (b & Eb).
    { apply Forall_forall. intros k [_ Hk]%list_elem_of_filter. by eapply texts_encodable. }
    by eapply answered_read.
  - (* dbsize *) injection Ha as <-. unfold server._cmd_dbsize. pose proof Hs as [(d & Ed & Hdb) Hr].
    destruct (db_len d m T T Hdb) as (d1 & E1 & Hd1). erewrite stx_bind_ok by (apply on_server_run; by eapply on_db_run).
    eapply answered_read; [by eapply serving_db|done|reflexivity].
  - done.
  - (* command *) injection Ha as <-. by eapply answered_read.
  - (* quit *) injection Ha as <-. by eapply answered_read.
  - done.
  - done.
Qed.

(** ** Dispatch *)

(** The accounting after a handler succeeds and changes nothing else. *)
Lemma account_run s c (name : pystr) (el : float) :
  registered (registry s) ->
  exists r', registered r' /\
    (server.on_registry (metrics.on_metric m_commands (metrics.inc 1 [(str "command", name)])) ;;
     server.on_registry (metrics.on_metric m_latency (metrics.observe el [(str "command", name)]))) (s, c) =
      ((server.set_registry r' s, c), Ok tt).
Proof.
  intros Hr. destruct (counter_inc_run (registry s) m_commands [(str "command", name)] Hr (rg_commands _ Hr)) as (r1 & E1 & Hr1).
  destruct (latency_run r1 el [(str "command", name)] Hr1) as (r2 & E2 & Hr2). exists r2. split; [done|].
  erewrite stx_bind_ok by (by apply on_registry_run). rewrite (on_registry_run _ (server.set_registry r1 s) c r2 (Ok tt) E2). done.
Qed.

(** [_dispatch] adds the accounting to what the handler does. *)
Lemma dispatch_wrap h s c T a0 raws a (el : float) :
  _subscriptions c = ∅ -> handler_of (ascii_lower (upper a0)) = Some h ->
  answered s c T a (server.run_handler h (a0 :: raws) (s, c)) -> answered s c T a (server._dispatch (a0 :: raws) el (s, c)).
Proof.
  intros Hsub Hh Hans.
  unfold server._dispatch. cbv zeta. erewrite stx_bind_ok by reflexivity. cbn [snd]. rewrite Hsub, bool_decide_true by done. cbn [negb andb].
  rewrite Hh. unfold try_finally.
  destruct Hans as [(s' & m' & b & Eb & -> & [Hd' Hr'] & Hb)|(s' & e & m' & base & -> & He & Hst & Hop & Hb & Hr')].
  - destruct (account_run s' (server.write b c) (ascii_lower (upper a0)) el Hr') as (r2 & Hr2 & ->).
    left. exists (server.set_registry r2 s'), m', b. split_and!; [done|done|by split|done].
  - destruct (account_run s' c (ascii_lower (upper a0)) el Hr') as (r2 & Hr2 & ->).
    right. by exists (server.set_registry r2 s'), e, m', base.
Qed.

Lemma dispatch_answered h s c m T a0 raws ts a (el : float) :
  serving s m T T -> fits_n (N := N) (S (length T)) -> _subscriptions c = ∅ ->
  Forall2 (fun b t => utf8_decode b = Ok t) raws ts -> handler_of (ascii_lower (upper a0)) = Some h ->
  spec_cmd h ts T = Some a -> answered s c T a (server._dispatch (a0 :: raws) el (s, c)).
Proof. intros. eapply dispatch_wrap; [done..|]. by eapply handler_answered. Qed.

(** What is served is on disk. *)
Lemma serving_durable s m B T : serving s m B T -> exists base, stored B base /\ opens (N := N) (on_disk s) m base.
Proof.
  intros [(d & Ed & base & kvs & Hh & HB & _ & _) _]. exists base. split; [done|]. unfold on_disk. rewrite Ed. by eapply handle_durable.
Qed.

(** The server refines a table of texts.  Whenever the abstract table has an
    answer to a command, the server writes exactly that reply, publishes exactly
    its changes, in order, and serves exactly the new table, which is on disk
    before the reply is written; or the disk failed, and then nothing was written
    or published and the disk still holds the old table. *)
Theorem server_refines_table (h : cmd_name) s c m T (a0 : bytes) (raws : list bytes) ts (a : answer) (el : float) :
  serving s m T T -> fits_n (N := N) (S (length T)) -> _subscriptions c = ∅ ->
  Forall2 (fun b t => utf8_decode b = Ok t) raws ts -> handler_of (ascii_lower (upper a0)) = Some h -> spec_cmd h ts T = Some a ->
  (exists s' m' b base, resp.encode (reply a) = Ok b /\
     server._dispatch (a0 :: raws) el (s, c) = ((s', server.write b c), Ok (keep a)) /\
     serving s' m' (new_texts a) (new_texts a) /\ _broker s' = publish_all (changes a) (_broker s) /\
     stored (new_texts a) base /\ opens (N := N) (on_disk s') m' base) \/
  (exists s' e m' base, server._dispatch (a0 :: raws) el (s, c) = ((s', c), Raise e) /\ (e = SimCrash \/ e = StructError) /\
     _broker s' = _broker s /\ stored T base /\ opens (N := N) (on_disk s') m' base).
Proof.
  intros Hs Hf Hsub Hd Hh Ha. destruct (dispatch_answered h s c m T a0 raws ts a el Hs Hf Hsub Hd Hh Ha)
    as [(s' & m' & b & Eb & E & Hs' & Hb)|(s' & e & m' & base & E & He & Hst & Hop & Hb & _)].
  - left. destruct (serving_durable _ _ _ _ Hs') as (base & Hst & Hop). exists s', m', b, base. split_and!; done.
  - right. exists s', e, m', base. split_and!; done.
Qed.

End props.

(** A whole connection: the requests a client pipelines are answered one by one, in
    order, as the abstract server answers them. *)

(** * The abstract session *)

(** A request: the command's name as sent, and its arguments. *)
Abbreviation request := (bytes * list pystr)%type.

Definition request_args (rq : request) : list (pystr + bytes) := inr rq.1 :: (inl <$> rq.2).

(** What the client sends. *)
Fixpoint encode_session (rqs : list request) : res bytes :=
  match rqs with
  | [] => Ok []
  | rq :: rqs => b ← resp.encode_command (request_args rq); bs ← encode_session rqs; Ok (b ++ bs)
  end.

(** The answers, one after the other, up to the first that ends the session. *)
Fixpoint spec_session `{Fnmatch} (rqs : list request) (T : texts) : option (list answer) :=
  match rqs with
  | [] => Some []
  | rq :: rqs =>
      h ← handler_of (ascii_lower (upper rq.1));
      a ← spec_cmd h rq.2 T;
      if keep a then rest ← spec_session rqs (new_texts a); Some (a :: rest) else Some [a]
  end.

(** What a list of answers does. *)
Definition texts_after (T : texts) (l : list answer) : texts := default T (new_texts <$> last l).
Definition changes_of (l : list answer) : list change := l ≫= changes.

Lemma texts_after_cons T a l : texts_after T (a :: l) = texts_after (new_texts a) l.
Proof. unfold texts_after. destruct l as [|a' l]; [done|]. rewrite last_cons_cons. by destruct (last (a' :: l)) eqn:E; [|apply last_None in E]. Qed.

Lemma spec_cmd_length `{Fnmatch} h ts T a :
  kv_sorted T -> spec_cmd h ts T = Some a -> (length (new_texts a) <= S (length T))%nat.
Proof.
  intros HT.
  assert (Hdel : forall ks T, (length (spec_del ks T).1 <= length T)%nat).
  { clear. intros ks. induction ks as [|k ks IH]; intros T; simpl; [done|].
    destruct (kv_get k T) eqn:E; [|done]. specialize (IH (kv_del k T)). destruct (spec_del ks (kv_del k T)). simpl in *.
    pose proof (kv_del_length k T). rewrite E in *. lia. }
  destruct (decide (h = cmd_del)) as [->|Hh].
  - destruct ts as [|t ts]; cbn [spec_cmd]; [intros [= <-]; simpl; lia|]. case_bool_decide; [done|]. specialize (Hdel (t :: ts) T).
    destruct (spec_del (t :: ts) T) as [T' removed]. intros [= <-]. simpl in *. lia.
  - destruct h; simpl; repeat (case_match; subst); try done; intros [= <-]; simpl; try lia. rewrite kv_set_length by done. case_match; lia.
Qed.

Section session.
Context `{Pickle} {N : Type} `{IndexSpec N} `{ChangeJson} `{Float} `{FnmatchLaws}.
Implicit Types (s : ImmuServer N) (c : Connection) (m : _Meta) (T : texts).

Lemma publish_all_app evs evs' b : publish_all (evs ++ evs') b = publish_all evs' (publish_all evs b).
Proof. unfold publish_all. by rewrite fold_left_app. Qed.

(** What a request decodes to. *)
Lemma request_raws (rq : request) b rest :
  resp.encode_command (request_args rq) = Ok b -> zlen b <= MAXSIZE ->
  exists raws, Forall2 (fun b t => utf8_decode b = Ok t) raws rq.2 /\ resp.read_command (b ++ rest) = (rest, Ok (Some (rq.1 :: raws))).
Proof.
  intros E Hz. destruct (encode_command_size _ _ E) as (all & Er & Hn & Hall).
  assert (exists raws, all = rq.1 :: raws /\ Forall2 (fun b t => utf8_decode b = Ok t) raws rq.2) as (raws & -> & Hd).
  { unfold request_args in Er. cbn [mapM resp.arg_bytes] in Er. apply result_bind_inv in Er as (x & [= <-] & Er).
    apply result_bind_inv in Er as (raws & Er & [= <-]). exists raws. split; [done|]. clear -Er. revert raws Er.
    induction rq.2 as [|t ts IH]; intros raws; csimpl; [intros [= <-]; constructor|].
    intros (r & Et & (rs & Ers & [= <-])%result_bind_inv)%result_bind_inv. constructor; [|auto]. by apply utf8_roundtrip. }
  exists raws. split; [done|]. eapply read_command_encode; [done|done|lia|]. eapply Forall_impl; [exact Hall|]. simpl. intros; lia.
Qed.

(** The state of a connection after the answers [done] were written. *)
Definition session_state s c T (ans : list answer) (st : ImmuServer N * Connection) : Prop :=
  exists out, resp.encode_all (reply <$> ans) = Ok out /\ st.2 = server.write out c /\
    _broker st.1 = publish_all (changes_of ans) (_broker s) /\
    (exists m base, stored (texts_after T ans) base /\ opens (N := N) (on_disk st.1) m base) /\ registered (registry st.1).

(** The loop answered everything, or stopped where the disk failed. *)
Definition session_outcome s c T (ans : list answer) (out : (ImmuServer N * Connection) * res unit) : Prop :=
  exists ans1 ans2, ans = ans1 ++ ans2 /\ session_state s c T ans1 out.1 /\
    (out.2 = Ok tt /\ ans2 = [] \/ (out.2 = Raise SimCrash \/ out.2 = Raise StructError) /\ ans2 <> []).

Lemma write_write b b' c : server.write b' (server.write b c) = server.write (b ++ b') c.
Proof. unfold server.write. simpl. by rewrite app_assoc. Qed.

Lemma write_nil c : server.write [] c = c.
Proof. destruct c. unfold server.write. simpl. by rewrite app_nil_r. Qed.

Lemma session_start s c m T : serving s m T T -> session_state s c T [] (s, c).
Proof.
  intros Hs. exists []. rewrite write_nil. split_and!; try done; [|apply Hs]. exists m. by eapply serving_durable.
Qed.

Lemma session_cons s s' c T a (ans : list answer) b out :
  resp.encode (reply a) = Ok b -> _broker s' = publish_all (changes a) (_broker s) ->
  session_outcome s' (server.write b c) (new_texts a) ans out -> session_outcome s c T (a :: ans) out.
Proof.
  intros Eb Hb (ans1 & ans2 & -> & (o & Eo & Hc & Hbr & Hd & Hr) & Hout). exists (a :: ans1), ans2. split; [done|]. split; [|done].
  exists (b ++ o). rewrite texts_after_cons. split_and!; [|by rewrite Hc, write_write| |done..].
  - rewrite fmap_cons. cbn [resp.encode_all]. by rewrite Eb, Eo.
  - unfold changes_of. rewrite bind_cons, publish_all_app. by rewrite Hbr, Hb.
Qed.

(** One round of the loop, on a client that sends [rq] and then [rqs]. *)
Lemma turn_answered rq rqs input s c m T h a el :
  encode_session (rq :: rqs) = Ok input -> zlen input <= MAXSIZE -> serving s m T T -> fits_n (N := N) (S (length T)) -> _subscriptions c = ∅ ->
  handler_of (ascii_lower (upper rq.1)) = Some h -> spec_cmd h rq.2 T = Some a ->
  exists rest, encode_session rqs = Ok rest /\ zlen rest <= MAXSIZE /\ (length rest < length input)%nat /\
    ((exists s' m' o, resp.encode (reply a) = Ok o /\
        server.serve_turn el input (s, c) = ((s', server.write o c), Ok (if keep a then Some rest else None)) /\
        serving s' m' (new_texts a) (new_texts a) /\ _broker s' = publish_all (changes a) (_broker s)) \/
     (exists s' e m' base, server.serve_turn el input (s, c) = ((s', c), Raise e) /\ (e = SimCrash \/ e = StructError) /\
        stored T base /\ opens (N := N) (on_disk s') m' base /\ _broker s' = _broker s /\ registered (registry s'))).
Proof.
  intros E Hz Hs Hfit Hsub Eh Ec. cbn [encode_session] in E. apply result_bind_inv in E as (b & Eb & E). apply result_bind_inv in E as (bs & Ebs & <-%Ok_inj).
  assert (zlen b <= MAXSIZE /\ zlen bs <= MAXSIZE) as [Hzb Hzs] by (unfold zlen in *; rewrite length_app in Hz; lia).
  destruct (request_raws rq b bs Eb Hzb) as (raws & Hd & Er).
  assert (0 < length b)%nat as Hb0.
  { destruct b as [|x b]; [|simpl; lia]. unfold resp.encode_command in Eb. apply result_bind_inv in Eb as (y & _ & Eb%Ok_inj). done. }
  exists bs. split_and!; [done|done|rewrite length_app; lia|]. unfold server.serve_turn. rewrite Er.
  destruct (dispatch_answered h s c m T rq.1 raws rq.2 a el Hs) as [(s' & m' & o & Eo & Erun & Hs' & Hbr)|(s' & e & m' & base & Erun & He & Hst & Hop & Hbr & Hreg)]; try done.
  - left. exists s', m', o. split_and!; try done. erewrite stx_bind_ok by exact Erun. by destruct (keep a).
  - right. exists s', e, m', base. split_and!; try done. by erewrite stx_bind_raise by exact Erun.
Qed.

Lemma turn_closed el s c : server.serve_turn el [] (s, c) = ((s, c), Ok None).
Proof. reflexivity. Qed.

Lemma serve_loop_session (clock : nat -> float) rqs :
  forall fuel input s c m T ans,
  encode_session rqs = Ok input -> zlen input <= MAXSIZE -> (length input < fuel)%nat ->
  serving s m T T -> fits_n (N := N) (length rqs + length T) -> _subscriptions c = ∅ ->
  spec_session rqs T = Some ans -> session_outcome s c T ans (server.serve_loop fuel clock input (s, c)).
Proof.
  induction rqs as [|rq rqs IH]; intros [|fuel] input s c m T ans E Hz Hf Hs Hfit Hsub Ha; try lia.
  { injection E as <-. injection Ha as <-. exists [], []. split_and!; [done|by eapply session_start|by left]. }
  cbn [spec_session] in Ha. destruct (handler_of _) as [h|] eqn:Eh; [|done]. simpl in Ha.
  destruct (spec_cmd h rq.2 T) as [a|] eqn:Ec; [|done]. simpl in Ha. cbn [server.serve_loop].
  assert (Hlen : (length (new_texts a) <= S (length T))%nat).
  { eapply spec_cmd_length; [|done]. destruct Hs as [(d & _ & Hdb) _]. by eapply db_sorted. }
  destruct (turn_answered rq rqs input s c m T h a (clock fuel) E Hz Hs) as (rest & Er & Hzr & Hlr & Hturn); try done.
  { intros kvs Hk. apply Hfit. simpl. lia. }
  destruct Hturn as [(s' & m' & o & Eo & Erun & Hs' & Hbr)|(s' & e & m' & base & Erun & He & Hst & Hop & Hbr & Hreg)].
  - erewrite stx_bind_ok by exact Erun. destruct (keep a).
    + apply bind_Some in Ha as (ans' & Hans & [= <-]). eapply session_cons; [done|done|].
      eapply IH; try done; [lia|]. intros kvs Hk. apply Hfit. simpl. lia.
    + injection Ha as <-. eapply (session_cons s s' c T a []); [done|done|]. exists [], []. split_and!; [done|by eapply session_start|by left].
  - erewrite stx_bind_raise by exact Erun. exists [], ans. split_and!; [done| |].
    + exists []. rewrite write_nil. split_and!; try done. by exists m', base.
    + right. split; [by destruct He as [-> | ->]; [left|right]|]. destruct (keep a); [|by injection Ha as <-]. by apply bind_Some in Ha as (ans' & _ & [= <-]).
Qed.

(** The gauge of open connections. *)
Lemma gauge_run s c (f : metrics.metric -> res metrics.metric) :
  registered (registry s) -> (forall h v, exists v', f (metrics.Gauge h v) = Ok (metrics.Gauge h v')) ->
  exists r', server.on_registry (metrics.on_metric m_connections f) (s, c) = ((server.set_registry r' s, c), Ok tt) /\ registered r'.
Proof.
  intros Hr Hf. destruct (rg_connections _ Hr) as ([|h v|] & E & Hc); try done. destruct (Hf h v) as (v' & Ef).
  destruct (on_metric_run (registry s) m_connections f _ _ Hr E Ef) as (r' & Er & Hr'); [done|]. exists r'. split; [|done].
  by apply on_registry_run.
Qed.

Lemma hang_up_run s c : registered (registry s) -> _queue c = None ->
  exists r', server.hang_up (s, c) = ((server.set_registry r' s, c), Ok tt) /\ registered r'.
Proof.
  intros Hr Hq. destruct (gauge_run s c (metrics.dec 1 []) Hr) as (r' & E & Hr'); [by eexists|]. exists r'. split; [|done].
  unfold server.hang_up. erewrite stx_bind_ok by exact E. unfold server._teardown. erewrite stx_bind_ok by reflexivity. cbn [snd]. by rewrite Hq.
Qed.

(** C3: a connection is served exactly.  A client that pipelines requests the
    abstract server has answers to, then closes, receives those answers in order
    and nothing else; the changes are published in order, and the final table is
    on disk.  If the disk fails on the way, the answers before the failure were
    written, nothing after them was, and the disk holds the table those answers
    left: no acknowledged write is lost and none is half done. *)
Theorem session_exact (clock : nat -> float) (rqs : list request) (input : bytes) s m T (ans : list answer) :
  encode_session rqs = Ok input -> zlen input <= MAXSIZE -> serving s m T T -> fits_n (N := N) (length rqs + length T) ->
  spec_session rqs T = Some ans ->
  session_outcome s new_connection T ans (server.serve clock input (s, new_connection)).
Proof.
  intros E Hz Hs Hfit Ha. unfold server.serve.
  destruct (gauge_run s new_connection (metrics.inc 1 []) (proj2 Hs)) as (r1 & E1 & Hr1); [by eexists|].
  erewrite stx_bind_ok by exact E1. unfold try_finally.
  destruct (serve_loop_session clock rqs (S (length input)) input (server.set_registry r1 s) new_connection m T ans) as (ans1 & ans2 & Eans & Hst & Hout);
    [done|done|lia|by apply serving_registry|done|done|done|].
  destruct (server.serve_loop _ _ _ _) as [[s2 c2] r]. destruct Hst as (out & Eo & Hc2 & Hbr & Hd & Hreg). cbn [fst snd] in *.
  destruct (hang_up_run s2 c2 Hreg) as (r2 & -> & Hr2); [by rewrite Hc2|].
  exists ans1, ans2. split_and!; [done| |by destruct r]. by exists out.
Qed.

End session.

(** * Coroutines *)

Section coroutines.
Context `{Pickle} {N : Type} `{Index N} `{ChangeJson} `{Float} `{Fnmatch}.
Abbreviation state := (ImmuServer N * Connection)%type.
Implicit Types (st : state).

Lemma alone_resume {A B} (f : res A -> server.Co (N := N) B) (t : server.task A) st :
  server.run_alone (server.resume f t) st = let '(st, r) := server.alone t st in server.run_alone (f r) st.
Proof.
  revert t st. fix IH 1. intros [r|k|C call k] st; cbn.
  - done.
  - unfold server.run_alone. cbn. destruct (k st) as [st1 t1]. apply IH.
  - unfold server.run_alone. cbn. destruct (call st.1) as [s1 r]. destruct (k r (s1, st.2)) as [st1 t1]. apply IH.
Qed.

Lemma run_alone_bind {A B} (m : server.Co (N := N) A) (f : A -> server.Co B) st :
  server.run_alone (m ≫= f) st = (server.run_alone m ≫= fun a => server.run_alone (f a)) st.
Proof.
  unfold mbind at 1, server.co_bind, server.and_then. unfold server.run_alone at 1. destruct (m st) as [st1 t] eqn:E.
  change (server.run_alone (server.resume (fun r => match r with Ok a => f a | Raise e => fun st => (st, server.Returned B (Raise e)) end) t) st1 =
    (server.run_alone m ≫= fun a => server.run_alone (f a)) st).
  rewrite alone_resume. unfold mbind, stx_bind, server.run_alone at 2. rewrite E. by destruct (server.alone t st1) as [st2 [a|e]].
Qed.

Lemma run_alone_finally {A} (m : server.Co (N := N) A) (fin : St state unit) st :
  server.run_alone (server.co_finally m fin) st = try_finally (server.run_alone m) fin st.
Proof.
  unfold server.co_finally, server.and_then. unfold server.run_alone at 1. destruct (m st) as [st1 t] eqn:E.
  match goal with |- context [server.resume ?f t st1] => change (server.run_alone (server.resume f t) st1 = try_finally (server.run_alone m) fin st) end.
  rewrite alone_resume. unfold try_finally, server.run_alone at 2. rewrite E. destruct (server.alone t st1) as [st2 r].
  unfold server.run_alone. by destruct (fin st2) as [st3 [|]].
Qed.

(** Pieces that run alone as the functions they are made of. *)
Definition same_run {A} (m : server.Co (N := N) A) (f : St state A) : Prop := forall st, server.run_alone m st = f st.

Lemma same_bind {A B} (m : server.Co (N := N) A) (f : A -> server.Co B) m' f' :
  same_run m m' -> (forall a, same_run (f a) (f' a)) -> same_run (m ≫= f) (m' ≫= f').
Proof.
  intros Hm Hf st. rewrite run_alone_bind. unfold mbind, stx_bind. rewrite Hm. destruct (m' st) as [st1 [a|e]]; [apply Hf|done].
Qed.

Lemma same_ret {A} (a : A) : same_run (mret a) (mret a).
Proof. done. Qed.

Lemma same_inline {A} (m : St state A) : same_run (server.inline m) m.
Proof. intros st. unfold server.run_alone, server.inline. by destruct (m st). Qed.

Lemma same_call {A : Set} (m : St (ImmuServer N) A) : same_run (server._run m) (server.on_server m).
Proof. intros [s c]. unfold server.run_alone, server._run. cbn. unfold server.on_server, zoom. cbn. by destruct (m s). Qed.

Lemma same_send v : same_run (server.co_send v) (server._send v).
Proof.
  intros st. unfold server.co_send. rewrite run_alone_bind. unfold mbind, stx_bind. rewrite same_inline. by destruct (server._send v st) as [st1 [[]|e]].
Qed.

Lemma same_reply v b : same_run (server.co_reply v b) (server._send v ;; mret b).
Proof. apply same_bind; [apply same_send|intros; apply same_ret]. Qed.

Lemma same_eq {A} (m : server.Co (N := N) A) f f' : same_run m f -> (forall st, f st = f' st) -> same_run m f'.
Proof. intros Hm Hf st. by rewrite Hm. Qed.

#[local] Hint Resolve same_ret same_inline same_call same_send same_reply : core.

(** Run without interruption, the coroutines of the handlers are the handlers. *)
Lemma handlers_alone h args : same_run (server.co_handler h args) (server.run_handler h args).
Proof.
  destruct h; cbn [server.co_handler server.run_handler].
  - destruct args as [|? [|? ?]]; [apply same_reply..|]. apply same_bind; [auto|]. intros. apply same_reply.
  - destruct args as [|? [|? [|]]]; try apply same_reply. apply same_bind; [auto|]. intros. apply same_reply.
  - destruct args as [|? [|? [|? [|]]]]; try apply same_reply. apply same_bind; [auto|]. intros key. apply same_bind; [auto|]. intros value.
    destruct key as [|ch key]; [apply same_reply|]. apply same_bind; [auto|]. intros _.
    eapply same_eq; [apply same_bind; [apply same_inline|intros; apply same_reply]|].
    intros st. unfold mbind, stx_bind. destruct (server.on_broker _ st) as [st1 [|]]; [|done]. by destruct (server.on_registry _ st1) as [st2 [|]].
  - destruct args as [|? [|k [|]]]; try apply same_reply.
    eapply same_eq; [apply same_bind; [apply same_call|intros; apply same_reply]|]. intros [s c]. unfold server._cmd_get, mbind, stx_bind, server.decode_arg, lift_res, server.on_server, zoom. cbn.
    destruct (utf8_decode k) as [x|]; cbn; [|reflexivity]. destruct (server._get x s) as [s1 [y|]]; reflexivity.
  - destruct args as [|? [|? ?]]; try apply same_reply. apply same_bind; [auto|]. intros. apply same_bind; [auto|]. intros. apply same_bind; [auto|]. intros. apply same_reply.
  - destruct args as [|? [|? ?]]; try apply same_reply. apply same_bind; [auto|]. intros. apply same_bind; [auto|]. intros. apply same_reply.
  - destruct args as [|? [|? [|]]]; try apply same_reply. apply same_bind; [auto|]. intros. apply same_bind; [auto|]. intros. apply same_reply.
  - apply same_bind; [auto|]. intros. apply same_reply.
  - apply same_bind; [auto|]. intros. apply same_bind; [auto|]. intros. apply same_reply.
  - apply same_reply.
  - apply same_reply.
  - destruct args as [|? [|a args]]; try apply same_reply. apply same_bind; [auto|]. intros q. apply same_bind; [|auto]. cbn [tail].
    generalize (a :: args). intros raws. induction raws as [|raw raws IH]; [apply same_ret|]. apply same_bind; [auto|]. intros. by apply same_bind.
  - apply same_bind; [auto|]. intros l. apply same_bind; [|auto]. induction l as [|p l IH]; [apply same_ret|]. apply same_bind; [auto|]. intros. by apply same_bind.
Qed.

(** So is a round of the loop of [serve]. *)
Lemma turn_alone (el : float) input : same_run (server.co_turn el input) (server.serve_turn el input).
Proof.
  unfold server.co_turn, server.serve_turn. destruct (resp.read_command input) as [rest [[[|arg0 args]|]|e]]; try done.
  - apply same_bind; [|done]. unfold server.co_dispatch, server._dispatch. cbv zeta. apply same_bind; [auto|]. intros st. destruct (_ && _); [apply same_reply|].
    destruct (handler_of _) as [h|].
    + intros st1. rewrite run_alone_finally. unfold try_finally. by rewrite handlers_alone.
    + apply same_bind; [auto|]. intros. apply same_reply.
  - destruct e; try done. apply same_bind; [apply same_send|done].
Qed.

End coroutines.

(** * Requests as coroutines *)

Section requests.
Context `{Pickle} {N : Type} `{IndexSpec N} `{ChangeJson} `{Float} `{FnmatchLaws}.
Implicit Types (s : ImmuServer N) (c : Connection) (m : _Meta) (T : texts) (rq : request) (a : answer).
Abbreviation Co := (server.Co (N := N)).
Abbreviation state := (ImmuServer N * Connection)%type.

(** The answer of the abstract table to a request, unknown commands included. *)
Definition spec_request rq T : option answer :=
  match handler_of (ascii_lower (upper rq.1)) with
  | None => Some (mkAnswer T (RError (str "ERR unknown command '" ++ utf8_decode_replace (upper rq.1) ++ str "'")) [] true)
  | Some h => spec_cmd h rq.2 T
  end.

(** The requests it answers: not [INFO], [SUBSCRIBE] and [UNSUBSCRIBE], no empty key
    in [GET], [DEL] and [EXISTS], and no unknown command whose name cannot be sent
    back as text. *)
Definition covered rq : bool :=
  match handler_of (ascii_lower (upper rq.1)) with
  | None => match utf8_encode (utf8_decode_replace (upper rq.1)) with Ok _ => true | Raise _ => false end
  | Some (cmd_info | cmd_subscribe | cmd_unsubscribe) => false
  | Some cmd_get => negb (bool_decide (rq.2 = [[]]))
  | Some (cmd_del | cmd_exists) => negb (bool_decide ([] ∈ rq.2))
  | Some _ => true
  end.

(** A coroutine that returns [x] without another suspension. *)
Definition ends {A} (k : Co A) (x : A) : Prop :=
  forall s c, registered (registry s) -> exists r', k (s, c) = ((server.set_registry r' s, c), server.Returned A (Ok x)) /\ registered r'.

(** A coroutine that publishes the changes of an answer, writes its reply and then
    returns [x]. *)
Definition responds {A} (k : Co A) a (x : A) : Prop :=
  forall s c m T, serving s m T T -> _subscriptions c = ∅ ->
    exists s' b k', k (s, c) = ((s', server.write b c), server.Draining A k') /\ resp.encode (reply a) = Ok b /\
      serving s' m T T /\ _broker s' = publish_all (changes a) (_broker s) /\ ends k' x.

(** A call that failed: the disk had been set to fail and did, or a record or the
    meta block cannot be packed; and the texts [T] are on disk. *)
Definition disk_error {A} T s s' (r : res A) : Prop :=
  (r = Raise SimCrash /\ armed s \/ r = Raise StructError) /\ exists m base, stored T base /\ opens (N := N) (on_disk s') m base.

(** A call to the executor that does what a request asks for, and what follows it. *)
Definition performs {A} {B : Set} (call : St (ImmuServer N) B) (k : res B -> Co A) rq (next : bool -> A) : Prop :=
  forall s m T a, serving s m T T -> fits_n (N := N) (S (length T)) -> spec_request rq T = Some a ->
    let '(s', r) := call s in
    _broker s' = _broker s /\
    ((exists v m', r = Ok v /\ serving s' m' (new_texts a) (new_texts a) /\ responds (k r) a (next (keep a))) \/ disk_error T s s' r).

(** A request is answered at once, or leads to such a call. *)
Definition starts {A} (co : Co A) rq (next : bool -> A) : Prop :=
  (forall T, exists a, spec_request rq T = Some a /\ new_texts a = T /\ changes a = [] /\ responds co a (next (keep a))) \/
  (exists B call k, (forall s c, _subscriptions c = ∅ -> co (s, c) = ((s, c), server.Calling A B call k)) /\ performs call k rq next).

(** ** Composition *)

Lemma ends_ret {A} (x : A) : ends (mret x) x.
Proof. intros s c Hr. exists (registry s). by destruct s. Qed.

Section after.
Context {A : Type} (f : res bool -> Co A) (next : bool -> A) (Hf : forall b, ends (f (Ok b)) (next b)).

Lemma resume_ends (k : Co bool) b : ends k b -> ends (server.and_then k f) (next b).
Proof.
  intros Hk s c Hr. destruct (Hk s c Hr) as (r1 & E1 & Hr1). destruct (Hf b (server.set_registry r1 s) c Hr1) as (r2 & E2 & Hr2).
  exists r2. split; [|done]. unfold server.and_then. by rewrite E1.
Qed.

Lemma resume_responds (k : Co bool) a : responds k a (keep a) -> responds (server.and_then k f) a (next (keep a)).
Proof.
  intros Hk s c m T Hs Hc. destruct (Hk s c m T Hs Hc) as (s' & b & k' & E & Eb & Hs' & Hbr & He). eexists s', b, _. split_and!; [|done..|].
  - unfold server.and_then. rewrite E. reflexivity.
  - by apply resume_ends.
Qed.

Lemma starts_then (co : Co bool) rq : starts co rq id -> starts (server.and_then co f) rq next.
Proof.
  intros [Hi|(B & call & k & E & Hp)]; [left|right].
  - intros T. destruct (Hi T) as (a & Ea & En & Ec & Hr). exists a. split_and!; try done. by apply resume_responds.
  - eexists B, call, _. split; [intros s c Hc; unfold server.and_then; rewrite E by done; reflexivity|].
    intros s m T a Hs Hfit Ha. pose proof (Hp s m T a Hs Hfit Ha) as Hcall. destruct (call s) as [s' r].
    destruct Hcall as [Hb [(v & m' & -> & Hs' & Hr)|Hd]]; (split; [done|]); [left|by right].
    exists v, m'. split_and!; [done|done|]. by apply (resume_responds (k (Ok v))).
Qed.

End after.

Lemma starts_ext {A} (co co' : Co A) rq next : (forall st, _subscriptions st.2 = ∅ -> co st = co' st) -> starts co' rq next -> starts co rq next.
Proof.
  intros E [Hi|(B & call & k & Ec & Hp)]; [left|right].
  - intros T. destruct (Hi T) as (a & Ea & En & Ech & Hr). exists a. split_and!; try done. intros s c m T' Hs Hc.
    destruct (Hr s c m T' Hs Hc) as (s' & b & k' & Ek & Hrest). exists s', b, k'. by rewrite E.
  - exists B, call, k. split; [|done]. intros s c Hc. rewrite E by done. by apply Ec.
Qed.

Lemma inline_bind {A B} (f : St state A) (g : A -> Co B) st st' x : f st = (st', Ok x) -> (server.inline f ≫= g) st = g x st'.
Proof. intros E. unfold mbind, server.co_bind, server.and_then, server.inline. by rewrite E. Qed.

(** What follows a call. *)
Lemma call_bind {A} {B : Set} (call : St (ImmuServer N) B) (g : B -> Co A) st :
  (server._run call ≫= g) st = (st, server.Calling A B call (fun r => match r with Ok v => g v | Raise e => fun st => (st, server.Returned A (Raise e)) end)).
Proof. reflexivity. Qed.

(** ** Replies *)

Lemma send_drain (v : resp_value) b o (st : state) : resp.encode v = Ok o ->
  exists k', server.co_reply v b st = ((st.1, server.write o st.2), server.Draining bool k') /\ ends k' b.
Proof.
  intros E. eexists. split.
  - unfold server.co_reply, server.co_send, mbind at 1, server.co_bind, server.and_then. rewrite (inline_bind _ _ _ _ _ (send_run v o st E)). reflexivity.
  - apply ends_ret.
Qed.

Lemma reply_responds (v : resp_value) a b o : reply a = v -> changes a = [] -> keep a = b -> resp.encode v = Ok o -> responds (server.co_reply v b) a b.
Proof.
  intros Ev Ec _ Eo s c m T Hs _. destruct (send_drain v b o (s, c) Eo) as (k' & E & He). exists s, o, k'. split_and!; try done; [by rewrite Ev|by rewrite Ec].
Qed.

(** Something is published before the reply. *)
Lemma published_responds (f : St state unit) (v : resp_value) a b o :
  reply a = v -> resp.encode v = Ok o ->
  (forall s c m T, serving s m T T -> exists s', f (s, c) = ((s', c), Ok tt) /\ serving s' m T T /\ _broker s' = publish_all (changes a) (_broker s)) ->
  responds (server.inline f ;; server.co_reply v b) a b.
Proof.
  intros Ev Eo Hf s c m T Hs _. destruct (Hf s c m T Hs) as (s' & E & Hs' & Hb). destruct (send_drain v b o (s', c) Eo) as (k' & E' & He).
  exists s', o, k'. split_and!; try done; [|by rewrite Ev]. by rewrite (inline_bind _ _ _ _ _ E).
Qed.

Lemma starts_reply (v : resp_value) b o rq : resp.encode v = Ok o -> (forall T, spec_request rq T = Some (mkAnswer T v [] b)) -> starts (server.co_reply v b) rq id.
Proof. intros Eo Hs. left. intros T. eexists. split; [apply Hs|]. split_and!; [done|done|]. by eapply reply_responds. Qed.

(** A call that only reads. *)
Lemma starts_read {B : Set} (call : St (ImmuServer N) B) (g : B -> resp_value) rq :
  (forall s m T, serving s m T T -> exists v s' o, call s = (s', Ok v) /\ serving s' m T T /\ _broker s' = _broker s /\
     resp.encode (g v) = Ok o /\ spec_request rq T = Some (mkAnswer T (g v) [] true)) ->
  starts (v ← server._run call; server.co_reply (g v) true) rq id.
Proof.
  intros Hc. right. eexists B, call, _. split; [intros; apply call_bind|]. intros s m T a Hs _ Ha.
  destruct (Hc s m T Hs) as (v & s' & o & -> & Hs' & Hb & Eo & Ea). split; [done|]. left. exists v, m. rewrite Ha in Ea. injection Ea as ->.
  split_and!; [done|done|]. by eapply reply_responds.
Qed.

(** ** The handlers *)

Lemma set_starts rq k v kt vt :
  handler_of (ascii_lower (upper rq.1)) = Some cmd_set -> rq.2 = [kt; vt] -> utf8_decode k = Ok kt -> utf8_decode v = Ok vt ->
  starts (server.co_set [rq.1; k; v]) rq id.
Proof.
  intros Eh Ea Ek Ev. assert (forall T, spec_request rq T = spec_cmd cmd_set [kt; vt] T) as Hsp by (intros T; unfold spec_request; by rewrite Eh, Ea).
  eapply starts_ext.
  { intros st _. unfold server.co_set. rewrite (inline_bind _ _ _ _ _ (decode_run k kt st Ek)), (inline_bind _ _ _ _ _ (decode_run v vt st Ev)). reflexivity. }
  destruct kt as [|ch kt]; [eapply starts_reply; [reflexivity|exact Hsp]|]. right. eexists _, _, _. split; [intros; apply call_bind|].
  intros s m T a Hs Hf Ha. rewrite Hsp in Ha. injection Ha as <-. destruct (server._set (ch :: kt) vt s) as [s1 r1] eqn:E1.
  destruct (set_run s m T T (ch :: kt) vt s1 r1) as (Hb1 & _ & [(-> & m' & Hs1)|(e & m' & base & -> & He & Hst & Hop)]); try done.
  { by eapply decoded_encodable. } { by eapply decoded_encodable. }
  - split; [done|]. left. exists tt, m'. split_and!; [done|done|]. eapply published_responds; [reflexivity|reflexivity|].
    intros s2 c2 m2 T2 Hs2. destruct (publish_counted s2 c2 m2 _ _ (ch :: kt) (str "set") (Some vt) Hs2) as (s3 & E3 & Hs3 & Hb3 & _). by exists s3.
  - split; [done|]. right. split; [|by exists m', base]. destruct He as [-> | ->]; [left|by right]. split; [done|].
    eapply (set_armed s m T T (ch :: kt) vt s1); [exact Hs|discriminate|by eapply decoded_encodable|by eapply decoded_encodable|exact Hf|exact E1].
Qed.

Lemma del_starts rq raws :
  handler_of (ascii_lower (upper rq.1)) = Some cmd_del -> [] ∉ rq.2 -> Forall2 (fun b t => utf8_decode b = Ok t) raws rq.2 ->
  starts (server.co_del (rq.1 :: raws)) rq id.
Proof.
  intros Eh Hne Hd. assert (forall T, spec_request rq T = spec_cmd cmd_del rq.2 T) as Hsp by (intros T; unfold spec_request; by rewrite Eh).
  destruct rq as [a0 ts]. cbn [fst snd] in *. destruct Hd as [|raw t raws ts Hr Hrs]; [eapply starts_reply; [reflexivity|exact Hsp]|].
  eapply starts_ext.
  { intros st _. unfold server.co_del. cbn [tail]. rewrite (inline_bind _ _ _ _ _ (decode_args_run (raw :: raws) (t :: ts) st ltac:(by constructor))). reflexivity. }
  right. eexists _, _, _. split; [intros; apply call_bind|]. intros s m T a Hs Hf Ha. rewrite Hsp in Ha. cbn [spec_cmd] in Ha.
  rewrite bool_decide_false in Ha by done. destruct (server._delete (t :: ts) s) as [s1 r] eqn:Edel.
  destruct (delete_run s m T (t :: ts) s1 r Hs Hne Edel) as (Hb1 & _ & Hcase). destruct (spec_del (t :: ts) T) as [T' removed]. cbn [fst snd] in Hcase. injection Ha as <-.
  split; [done|]. destruct Hcase as [(-> & m' & Hs1)|(e & m' & base & -> & He & Hst & Hop)].
  - left. exists removed, m'. split_and!; [done|done|]. eapply published_responds; [reflexivity|reflexivity|].
    intros s2 c2 m2 T2 Hs2. destruct (publish_removed_run s2 c2 m2 _ _ removed Hs2) as (s3 & E3 & Hs3 & Hb3). by exists s3.
  - right. split; [|by exists m', base]. destruct He as [-> | ->]; [left|by right]. split; [done|]. by eapply delete_armed.
Qed.

Lemma handler_starts h rq raws :
  handler_of (ascii_lower (upper rq.1)) = Some h -> covered rq = true -> Forall2 (fun b t => utf8_decode b = Ok t) raws rq.2 ->
  starts (server.co_handler h (rq.1 :: raws)) rq id.
Proof.
  intros Eh Hcov Hd. assert (forall T, spec_request rq T = spec_cmd h rq.2 T) as Hsp by (intros T; unfold spec_request; by rewrite Eh).
  unfold covered in Hcov. rewrite Eh in Hcov. destruct (decide (h = cmd_del)) as [->|Hndel].
  { apply del_starts; [done| |done]. by apply negb_true_iff, bool_decide_eq_false in Hcov. }
  destruct rq as [a0 ts]. cbn [fst snd] in *. destruct h; try discriminate Hcov; try (by destruct Hndel); cbn [server.co_handler].
  - (* ping *) destruct Hd as [|raw t raws ts Hr Hrs]; [eapply starts_reply; [reflexivity|exact Hsp]|].
    eapply starts_ext; [intros st _; apply (inline_bind _ _ _ _ _ (decode_run raw t st Hr))|]. eapply starts_reply; [by apply encode_str, utf8_roundtrip|exact Hsp].
  - (* echo *) destruct Hd as [|raw t raws' ts' Hr [|raw' t' raws ts Hr' Hrs]]; try (eapply starts_reply; [reflexivity|exact Hsp]).
    eapply starts_ext; [intros st _; apply (inline_bind _ _ _ _ _ (decode_run raw t st Hr))|]. eapply starts_reply; [by apply encode_str, utf8_roundtrip|exact Hsp].
  - (* set *) destruct Hd as [|k kt raws' ts' Hk [|v vt raws1 ts1 Hv [|x xt raws ts Hx Hrs]]]; try (eapply starts_reply; [reflexivity|exact Hsp]). by eapply (set_starts (a0, _)).
  - (* get *) destruct Hd as [|k kt raws' ts' Hk [|v vt raws ts Hv Hrs]]; try (eapply starts_reply; [reflexivity|exact Hsp]).
    destruct kt as [|ch kt]; [discriminate Hcov|]. apply starts_read. intros s m T Hs. destruct (get_run s m T (ch :: kt) Hs ltac:(done)) as (s1 & E1 & Hs1 & Hb1).
    pose proof Hs as [(d & _ & base & kvs & _ & _ & HT & _) _]. pose proof (stored_get T kvs (ch :: kt) HT) as Hg.
    exists (kv_get (ch :: kt) T), s1. eassert (exists o, _) as [o Ho]; [|exists o; split_and!; [|exact Hs1|exact Hb1|exact Ho|apply Hsp]].
    + destruct (kv_get (ch :: kt) T) as [v|]; [destruct Hg as (p & _ & Hv)|]; eexists; [by apply encode_str|reflexivity].
    + unfold lift_res. rewrite Hk. exact E1.
  - (* exists *) destruct Hd as [|raw t raws ts Hr Hrs]; [eapply starts_reply; [reflexivity|exact Hsp]|].
    apply negb_true_iff, bool_decide_eq_false in Hcov.
    eapply starts_ext; [intros st _; apply (inline_bind _ _ _ _ _ (decode_args_run (raw :: raws) (t :: ts) st ltac:(by constructor)))|].
    apply starts_read. intros s m T Hs. destruct (exists_run s m T (t :: ts) Hs Hcov) as (s1 & E1 & Hs1 & Hb1). eexists _, s1, _.
    split_and!; [exact E1|exact Hs1|exact Hb1|reflexivity|]. rewrite Hsp. cbn [spec_cmd]. by rewrite bool_decide_false.
  - (* keys *) destruct Hd as [|p pt raws' ts' Hp [|v vt raws ts Hv Hrs]]; try (eapply starts_reply; [reflexivity|exact Hsp]).
    eapply starts_ext; [intros st _; apply (inline_bind _ _ _ _ _ (decode_run p pt st Hp))|]. apply (starts_read (B := list pystr) _ (fun keys => RList (RStr <$> keys))). intros s m T Hs.
    destruct (match_keys_run s m T pt Hs) as (s1 & E1 & Hs1 & Hb1). destruct (encode_strs (base.filter (fun k => fnmatchcase k pt = true) T.*1)) as (b & Eb).
    { apply Forall_forall. intros k [_ Hk]%list_elem_of_filter. by eapply texts_encodable. }
    eexists _, s1, b. split_and!; [exact E1|exact Hs1|exact Hb1|exact Eb|apply Hsp].
  - (* dbsize *) apply (starts_read (B := Z) _ RInt). intros s m T Hs. pose proof Hs as [(d & Ed & Hdb) _]. destruct (db_len d m T T Hdb) as (d1 & E1 & Hd1).
    eexists _, _, _. split_and!; [by eapply on_db_run|by eapply serving_db|done|reflexivity|apply Hsp].
  - (* command *) eapply starts_reply; [reflexivity|exact Hsp].
  - (* quit *) eapply starts_reply; [reflexivity|exact Hsp].
Qed.

(** ** Dispatch *)

Lemma unknown_starts rq :
  handler_of (ascii_lower (upper rq.1)) = None -> covered rq = true ->
  starts (server.inline (server.on_registry (metrics.on_metric m_commands (metrics.inc 1 [(str "command", str "unknown")]))) ;;
    server.co_reply (RError (str "ERR unknown command '" ++ utf8_decode_replace (upper rq.1) ++ str "'")) true) rq id.
Proof.
  intros Eh Hcov. unfold covered in Hcov. rewrite Eh in Hcov. left. intros T. eexists. split; [unfold spec_request; by rewrite Eh|]. split_and!; [done|done|].
  destruct (utf8_encode (utf8_decode_replace (upper rq.1))) as [u|] eqn:Eu; [|done].
  eapply published_responds; [reflexivity| |].
  - cbn [resp.encode]. rewrite (utf8_encode_app (str "ERR unknown command '") _ (lit "ERR unknown command '") (u ++ lit "'")); [reflexivity|reflexivity|]. by apply utf8_encode_app.
  - intros s c m T' Hs. destruct (counter_inc_run (registry s) m_commands [(str "command", str "unknown")] (proj2 Hs) (rg_commands _ (proj2 Hs))) as (r' & E & Hr').
    exists (server.set_registry r' s). split_and!; [by apply on_registry_run|by apply serving_registry|done].
Qed.

Lemma dispatch_starts rq raws (el : float) :
  covered rq = true -> Forall2 (fun b t => utf8_decode b = Ok t) raws rq.2 -> starts (server.co_dispatch (rq.1 :: raws) el) rq id.
Proof.
  intros Hcov Hd. destruct (handler_of (ascii_lower (upper rq.1))) as [h|] eqn:Eh.
  - eapply starts_ext.
    { intros st Hst. unfold server.co_dispatch. cbv zeta. rewrite (inline_bind _ _ _ _ _ (eq_refl : get_st st = (st, Ok st))), Hst, bool_decide_true, Eh by done. reflexivity. }
    apply starts_then; [|by eapply handler_starts]. intros b s c Hr. destruct (account_run s c (ascii_lower (upper rq.1)) el Hr) as (r' & Hr' & E).
    exists r'. split; [|done]. by rewrite E.
  - eapply starts_ext; [|by apply unknown_starts].
    intros st Hst. unfold server.co_dispatch. cbv zeta. by rewrite (inline_bind _ _ _ _ _ (eq_refl : get_st st = (st, Ok st))), Hst, bool_decide_true, Eh.
Qed.

(** A round of the loop on a client that sends [rq] and then [rqs]. *)
Lemma turn_starts rq rqs input (el : float) :
  encode_session (rq :: rqs) = Ok input -> zlen input <= MAXSIZE -> covered rq = true ->
  exists rest, encode_session rqs = Ok rest /\ zlen rest <= MAXSIZE /\
    starts (server.co_turn el input) rq (fun b => if b then Some rest else None).
Proof.
  intros E Hz Hcov. cbn [encode_session] in E. apply result_bind_inv in E as (b & Eb & E). apply result_bind_inv in E as (bs & Ebs & <-%Ok_inj).
  assert (zlen b <= MAXSIZE /\ zlen bs <= MAXSIZE) as [Hzb Hzs] by (unfold zlen in *; rewrite length_app in Hz; lia).
  destruct (request_raws rq b bs Eb Hzb) as (raws & Hd & Er). exists bs. split_and!; [done|done|].
  eapply starts_ext; [intros st _; unfold server.co_turn; rewrite Er; reflexivity|].
  apply (starts_then _ (fun b : bool => if b then Some bs else None)); [intros k; apply ends_ret|by apply dispatch_starts].
Qed.

Lemma covered_answer rq T : covered rq = true -> exists a, spec_request rq T = Some a.
Proof.
  unfold covered, spec_request. destruct (handler_of _) as [h|]; [|by eexists]. destruct rq as [a0 ts]. cbn [snd].
  destruct h; try done; intros Hc; try (destruct ts as [|t [|t' [|t'' ts]]]; by eexists).
  - destruct ts as [|k [|v [|x ts]]]; try by eexists. destruct k; by eexists.
  - destruct ts as [|k [|v ts]]; try by eexists. by destruct k; [|eexists].
  - destruct ts as [|k ts]; [by eexists|]. cbn [spec_cmd]. destruct (bool_decide _); [done|]. destruct (spec_del _ _). by eexists.
  - destruct ts as [|k ts]; [by eexists|]. cbn [spec_cmd]. destruct (bool_decide _); [done|]. by eexists.
Qed.

Lemma spec_request_length rq T a : kv_sorted T -> spec_request rq T = Some a -> (length (new_texts a) <= S (length T))%nat.
Proof. intros HT. unfold spec_request. destruct (handler_of _) as [h|]; [by apply spec_cmd_length|]. intros [= <-]. cbn. lia. Qed.

End requests.

(** * Several clients at once *)

(** A request of some client and its answer. *)
Abbreviation entry := (nat * (request * answer))%type.

(** Requests of any clients, answered one after the other by the abstract table. *)
Inductive history `{Fnmatch} (T0 : texts) : list entry -> texts -> Prop :=
| history_nil : history T0 [] T0
| history_snoc L T i rq a : history T0 L T -> spec_request rq T = Some a -> history T0 (L ++ [(i, (rq, a))]) (new_texts a).

(** Those of client [i], and what its last answer changed. *)
Definition of_client (i : nat) (L : list entry) : list (request * answer) := snd <$> base.filter (fun e => e.1 = i) L.
Definition latest (L : list entry) (i : nat) : list change := default [] ((fun x => changes x.2) <$> last (of_client i L)).

Lemma of_client_snoc i j (x : request * answer) L : of_client i (L ++ [(j, x)]) = of_client i L ++ (if decide (j = i) then [x] else []).
Proof. unfold of_client. rewrite list.filter_app, fmap_app, filter_cons. cbn [fst]. by destruct (decide (j = i)). Qed.

Lemma latest_snoc j (x : request * answer) L : latest (L ++ [(j, x)]) j = changes x.2.
Proof. unfold latest. rewrite of_client_snoc, decide_True by done. by rewrite last_snoc. Qed.

Lemma latest_other i j (x : request * answer) L : i <> j -> latest (L ++ [(j, x)]) i = latest L i.
Proof. intros Hij. unfold latest. by rewrite of_client_snoc, decide_False, app_nil_r. Qed.

Lemma encode_all_snoc l (v : resp_value) x o : resp.encode_all l = Ok x -> resp.encode v = Ok o -> resp.encode_all (l ++ [v]) = Ok (x ++ o).
Proof.
  revert x. induction l as [|w l IH]; intros x; cbn [app resp.encode_all]; [intros [= <-] Ev; rewrite Ev; cbn; by rewrite app_nil_r|].
  destruct (resp.encode w) as [y|]; [|done]. cbn [mbind result_bind]. destruct (resp.encode_all l) as [z|]; [|done]. intros [= <-] Ev.
  rewrite (IH z eq_refl Ev). cbn [mbind result_bind]. by rewrite app_assoc.
Qed.

(** What a client was written: these replies, and it subscribed to nothing. *)
Definition told (c : Connection) (mine : list (request * answer)) : Prop :=
  exists out, resp.encode_all (reply <$> mine.*2) = Ok out /\ c = mkConnection None ∅ out.

Lemma told_snoc c mine x o : told c mine -> resp.encode (reply x.2) = Ok o -> told (server.write o c) (mine ++ [x]).
Proof.
  intros (out & Eo & ->) Ex. exists (out ++ o). split; [|done]. rewrite !fmap_app. by apply encode_all_snoc.
Qed.

Lemma told_conn c mine : told c mine -> _queue c = None /\ _subscriptions c = ∅.
Proof. by intros (out & _ & ->). Qed.

(** The inputs of the clients that connect. *)
Definition arrivals {F : Float} (evs : list server.event) : list bytes :=
  evs ≫= fun e => match e with server.Connects input => [input] | _ => [] end.

(** What a client may send: requests the abstract table answers. *)
Definition session_ok (rqs : list request) (input : bytes) : Prop :=
  encode_session rqs = Ok input /\ zlen input <= MAXSIZE /\ Forall (fun rq => covered rq = true) rqs.

Section clients.
Context `{Pickle} {N : Type} `{IndexSpec N} `{ChangeJson} `{Float} `{FnmatchLaws}.
Implicit Types (s : ImmuServer N) (c : Connection) (m : _Meta) (T : texts) (rq : request) (rqs todo : list request) (a : answer) (L : list entry).
Implicit Types (w : server.world (N := N)) (cl : server.client (N := N)) (mine : list (request * answer)).

(** A client that sends [rqs], of which those of [mine] are answered.  One that
    waits for its next command, in [drain] or for the executor was written all of
    [mine]; one whose call has come back has yet to be written the last of them;
    one whose connection has ended was written the answers to all its requests, or
    to those up to its [QUIT]. *)
Definition client_shows rqs mine cl : Prop :=
  exists todo, rqs = mine.*1 ++ todo /\
  match server.cl_phase cl with
  | server.Reading input => told (server.cl_conn cl) mine /\ encode_session todo = Ok input
  | server.Paused _ => told (server.cl_conn cl) mine
  | server.Queued _ _ _ => told (server.cl_conn cl) mine /\ todo <> []
  | server.Completed _ => exists before x, mine = before ++ [x] /\ told (server.cl_conn cl) before
  | server.Closed => told (server.cl_conn cl) mine /\ (todo = [] \/ exists x, last mine = Some x /\ keep x.2 = false)
  end.

(** The same with what its task will do next. *)
Definition goes_on todo rest (x : request * answer) : option bytes -> Prop := fun r => encode_session todo = Ok rest /\ zlen rest <= MAXSIZE /\ r = if keep x.2 then Some rest else None.

Definition client_inv rqs mine cl : Prop :=
  exists todo, rqs = mine.*1 ++ todo /\
  match server.cl_phase cl with
  | server.Reading input => told (server.cl_conn cl) mine /\ encode_session todo = Ok input /\ zlen input <= MAXSIZE
  | server.Paused k => told (server.cl_conn cl) mine /\ exists x rest r, last mine = Some x /\ goes_on todo rest x r /\ ends k r
  | server.Queued B call k => told (server.cl_conn cl) mine /\ exists rq todo' rest, todo = rq :: todo' /\
      encode_session todo' = Ok rest /\ zlen rest <= MAXSIZE /\ performs call k rq (fun b => if b then Some rest else None)
  | server.Completed k => exists before x rest r, mine = before ++ [x] /\ told (server.cl_conn cl) before /\ goes_on todo rest x r /\ responds k x.2 r
  | server.Closed => told (server.cl_conn cl) mine /\ (todo = [] \/ exists x, last mine = Some x /\ keep x.2 = false)
  end.

Lemma inv_shows rqs mine cl : client_inv rqs mine cl -> client_shows rqs mine cl.
Proof.
  intros (todo & E & Hp). exists todo. split; [done|]. destruct (server.cl_phase cl).
  - by destruct Hp as (? & ? & _).
  - by destruct Hp.
  - destruct Hp as (Ht & rq & todo' & rest & -> & _). by split.
  - destruct Hp as (before & x & rest & r & Em & Ht & _). by exists before, x.
  - done.
Qed.

Lemma inv_conn rqs mine cl : client_inv rqs mine cl -> _queue (server.cl_conn cl) = None /\ _subscriptions (server.cl_conn cl) = ∅.
Proof.
  intros (todo & _ & Hp). destruct (server.cl_phase cl); try (destruct Hp as [Ht _]; by eapply told_conn).
  destruct Hp as (before & x & rest & r & _ & Ht & _). by eapply told_conn.
Qed.

Definition is_queued cl : bool := match server.cl_phase cl with server.Queued _ _ _ => true | _ => false end.
Definition is_paused cl : bool := match server.cl_phase cl with server.Paused _ => true | _ => false end.
Definition is_completed cl : bool := match server.cl_phase cl with server.Completed _ => true | _ => false end.

(** How far a client is: four stages for each request. *)
Definition advance mine cl : nat :=
  match server.cl_phase cl with
  | server.Reading _ => 4 * length mine
  | server.Queued _ _ _ => 4 * length mine + 1
  | server.Completed _ => 4 * length mine - 2
  | server.Paused _ => 4 * length mine - 1
  | server.Closed => 4 * length mine + 1
  end.

(** The client that an event moves on: its task waits, its call is the next in the
    executor's queue, or the result of its call is the next to be handed out. *)
Definition actor (e : server.event) w : option nat :=
  match e with
  | server.Wake i _ => match server.w_clients w !! i with Some (server.mkClient _ (server.Reading _ | server.Paused _)) => Some i | _ => None end
  | server.Work => head (server.w_queue w)
  | server.Deliver => head (server.w_done w)
  | _ => None
  end.

Definition advances L w L' w' (i : nat) : Prop :=
  exists cl cl', server.w_clients w !! i = Some cl /\ server.w_clients w' !! i = Some cl' /\ (advance (of_client i L) cl < advance (of_client i L') cl')%nat.

(** The clients in such a phase, without repetition. *)
Definition all_in (f : server.client (N := N) -> bool) (cs : list server.client) (l : list nat) : Prop :=
  NoDup l /\ forall i, i ∈ l <-> exists cl, cs !! i = Some cl /\ f cl = true.

Section tracking.
Context (T0 : texts) (b0 : ChangeBroker) (sessions : list (list request)) (Hcovered : Forall (Forall (fun rq => covered rq = true)) sessions).

(** What has been published: the changes of [L] but for those of calls that have
    returned and whose task has not gone on. *)
Definition published L w : Prop :=
  exists out, changes_of L.*2.*2 = out ++ (server.w_done w ≫= latest L) /\ _broker (server.w_server w) = publish_all out b0.

Record tracked L T w : Prop := {
  tr_history : history T0 L T;
  tr_serving : exists m, serving (server.w_server w) m T T;
  tr_clients : forall i cl, server.w_clients w !! i = Some cl -> exists rqs, sessions !! i = Some rqs /\ client_inv rqs (of_client i L) cl;
  tr_bound : forall e, e ∈ L -> (e.1 < length (server.w_clients w))%nat;
  tr_broker : published L w;
  tr_queue : all_in is_queued (server.w_clients w) (server.w_queue w);
  tr_done : all_in is_completed (server.w_clients w) (server.w_done w)
}.

Lemma in_insert (f : server.client (N := N) -> bool) (cs : list server.client) (l : list nat) (i : nat) cl cl' : cs !! i = Some cl -> (forall j, j ∈ l <-> j <> i /\ exists x, cs !! j = Some x /\ f x = true) -> f cl' = false ->
  forall j, j ∈ l <-> exists x, <[i := cl']> cs !! j = Some x /\ f x = true.
Proof.
  intros Ei Hl Ef' j. rewrite Hl. destruct (decide (i = j)) as [<-|Hne].
  - rewrite list_lookup_insert_eq by (by eapply lookup_lt_Some). split; [by intros [? _]|]. intros (x & [= <-] & Ef). congruence.
  - rewrite list_lookup_insert_ne by done. split; [by intros [_ ?]|by intros ?].
Qed.

Lemma all_in_insert f cs l i cl cl' : all_in f cs l -> cs !! i = Some cl -> f cl = false -> f cl' = false -> all_in f (<[i := cl']> cs) l.
Proof.
  intros [Hn Hl] Ei Ef Ef'. split; [done|]. eapply in_insert; [done| |done]. intros j. rewrite Hl. split; [|by intros [_ ?]].
  intros (x & Ej & Efx). split; [|by exists x]. intros ->. congruence.
Qed.

Lemma all_in_add f cs l i cl cl' : all_in f cs l -> cs !! i = Some cl -> f cl = false -> f cl' = true -> all_in f (<[i := cl']> cs) (l ++ [i]).
Proof.
  intros [Hn Hl] Ei Ef Ef'. assert (i ∉ l) as Hi. { rewrite Hl. intros (x & Ex & Efx). congruence. }
  split; [apply NoDup_app; split_and!; [done| |apply NoDup_singleton]; by intros j Hj ->%list_elem_of_singleton|].
  intros j. rewrite elem_of_app, list_elem_of_singleton, Hl. destruct (decide (i = j)) as [<-|Hne].
  - rewrite list_lookup_insert_eq by (by eapply lookup_lt_Some). split; [|by right]. intros _. by exists cl'.
  - rewrite list_lookup_insert_ne by done. split; [by intros [?| ->]|by left].
Qed.

Lemma all_in_remove f cs l i cl' : all_in f cs (i :: l) -> f cl' = false -> all_in f (<[i := cl']> cs) l.
Proof.
  intros [[Hi Hn]%NoDup_cons Hl] Ef'. split; [done|]. destruct (proj1 (Hl i) ltac:(by left)) as (cl & Ei & _). eapply in_insert; [done| |done].
  intros j. rewrite <- Hl, elem_of_cons. split; [|by intros [? [?|?]]]. intros Hj. split; [by intros ->|by right].
Qed.

(** Client [i] moves on; nothing is answered. *)
Lemma tracked_move L T w s' m i cl cl' rqs queue' :
  tracked L T w -> server.w_clients w !! i = Some cl -> sessions !! i = Some rqs -> serving s' m T T -> _broker s' = _broker (server.w_server w) ->
  client_inv rqs (of_client i L) cl' -> is_completed cl = false -> is_completed cl' = false -> all_in is_queued (<[i := cl']> (server.w_clients w)) queue' ->
  tracked L T (server.mkWorld s' (<[i := cl']> (server.w_clients w)) queue' (server.w_done w)).
Proof.
  intros [Hh _ Hc Hb (out & Eout & Hbr) _ Hd] Ei Er Hs Ebr Hinv Hcomp Hcomp' Hq. split; cbn [server.w_server server.w_clients server.w_queue server.w_done].
  - done.
  - by exists m.
  - intros j clj Ej. destruct (decide (i = j)) as [<-|Hne].
    + rewrite list_lookup_insert_eq in Ej by (by eapply lookup_lt_Some). injection Ej as <-. by exists rqs.
    + rewrite list_lookup_insert_ne in Ej by done. by apply Hc.
  - rewrite length_insert. exact Hb.
  - exists out. split; [exact Eout|]. cbn. by rewrite Ebr.
  - done.
  - by eapply all_in_insert.
Qed.

(** A request of client [i] is answered; its changes are still to be published when
    its call came from the executor ([called]). *)
Lemma tracked_answer L T w s' m i cl cl' rqs rq a (called : bool) queue' :
  tracked L T w -> server.w_clients w !! i = Some cl -> sessions !! i = Some rqs -> spec_request rq T = Some a -> serving s' m (new_texts a) (new_texts a) ->
  _broker s' = _broker (server.w_server w) -> client_inv rqs (of_client i L ++ [(rq, a)]) cl' -> is_completed cl = false ->
  is_completed cl' = called -> (called = false -> changes a = []) -> all_in is_queued (<[i := cl']> (server.w_clients w)) queue' ->
  tracked (L ++ [(i, (rq, a))]) (new_texts a)
    (server.mkWorld s' (<[i := cl']> (server.w_clients w)) queue' (if called then server.w_done w ++ [i] else server.w_done w)).
Proof.
  intros [Hh _ Hc Hb (out & Eout & Hbr) _ Hd] Ei Er Ha Hs Ebr Hinv Hcomp Ecl Hnone Hq. split; cbn [server.w_server server.w_clients server.w_queue server.w_done].
  - by econstructor.
  - by exists m.
  - intros j clj Ej. rewrite of_client_snoc. destruct (decide (i = j)) as [<-|Hne].
    + rewrite list_lookup_insert_eq in Ej by (by eapply lookup_lt_Some). injection Ej as <-. by exists rqs.
    + rewrite list_lookup_insert_ne in Ej by done. rewrite app_nil_r. by apply Hc.
  - rewrite length_insert. intros e [He| ->%list_elem_of_singleton]%elem_of_app; [by apply Hb|]. by eapply lookup_lt_Some.
  - assert (server.w_done w ≫= latest (L ++ [(i, (rq, a))]) = server.w_done w ≫= latest L) as El.
    { assert (i ∉ server.w_done w) as Hi by (intros Hin; destruct (proj1 (proj2 Hd i) Hin) as (x & Ex & Ef); congruence). clear -Hi.
      induction (server.w_done w) as [|j l IH]; [done|]. apply not_elem_of_cons in Hi as [Hij Hi]. rewrite !bind_cons, IH, latest_other by done. done. }
    exists out. rewrite !fmap_app. unfold changes_of in *. rewrite bind_app, Eout. cbn. rewrite app_nil_r. split; [|by rewrite Ebr].
    destruct called; [rewrite bind_app; cbn; by rewrite El, latest_snoc, app_nil_r, app_assoc|by rewrite El, Hnone, app_nil_r].
  - done.
  - destruct called; [by eapply all_in_add|by eapply all_in_insert].
Qed.

Lemma tracked_covered (i : nat) rqs (before : list request) rq todo : sessions !! i = Some rqs -> rqs = before ++ rq :: todo -> covered rq = true.
Proof.
  intros Ei ->. rewrite Forall_forall in Hcovered. specialize (Hcovered _ (list_elem_of_lookup_2 _ _ _ Ei)). rewrite Forall_forall in Hcovered.
  apply Hcovered. apply elem_of_app. right. by left.
Qed.

Lemma queue_kept L T w i cl cl' : tracked L T w -> server.w_clients w !! i = Some cl -> is_queued cl = false -> is_queued cl' = false ->
  all_in is_queued (<[i := cl']> (server.w_clients w)) (server.w_queue w).
Proof. intros Hw Ei. exact (all_in_insert _ _ _ i cl cl' (tr_queue _ _ _ Hw) Ei). Qed.

(** An event took client [i] further. *)
Lemma advances_insert L L' w w' i cl cl' :
  server.w_clients w !! i = Some cl -> server.w_clients w' = <[i := cl']> (server.w_clients w) ->
  (advance (of_client i L) cl < advance (of_client i L') cl')%nat -> advances L w L' w' i.
Proof. intros Ei E Hlt. exists cl, cl'. split_and!; [done| |done]. rewrite E. apply list_lookup_insert_eq. by eapply lookup_lt_Some. Qed.

Lemma mine_snoc i (x : request * answer) L : length (of_client i (L ++ [(i, x)])) = S (length (of_client i L)).
Proof. rewrite of_client_snoc, decide_True by done. rewrite length_app. cbn. lia. Qed.

(** The task of client [i], which waits, comes to the end of a round. *)
Lemma round_tracked L T w i c p s' m rqs todo rest (x : request * answer) (r : option bytes) :
  tracked L T w -> server.w_clients w !! i = Some (server.mkClient c p) -> is_queued (server.mkClient c p) = false -> is_completed (server.mkClient c p) = false ->
  sessions !! i = Some rqs -> rqs = (of_client i L).*1 ++ todo -> told c (of_client i L) -> last (of_client i L) = Some x -> goes_on todo rest x r ->
  serving s' m T T -> _broker s' = _broker (server.w_server w) ->
  is_paused (server.mkClient c p) = true ->
  let w' := server.settle i ((s', c), server.Returned _ (Ok r)) w in tracked L T w' /\ advances L w L w' i.
Proof.
  intros Hw Ei Hnq Hnc Er Erqs Ht Hx (Erest & Hz & ->) Hs Hb Hpause w'. unfold w', server.settle.
  assert (0 < length (of_client i L))%nat as Hpos by (destruct (of_client i L); [done|cbn; lia]).
  destruct p; try done. destruct (keep x.2) eqn:Ek; (split; [|]).
  - eapply tracked_move; try done; [|by apply (queue_kept L T w i _ _ Hw Ei)]. exists todo. by split_and!.
  - eapply advances_insert; [exact Ei|reflexivity|cbn; lia].
  - destruct (hang_up_run s' c (proj2 Hs)) as (r' & -> & Hr'); [by apply (told_conn c _ Ht)|].
    eapply tracked_move; try done; [by apply serving_registry| |by apply (queue_kept L T w i _ _ Hw Ei)]. exists todo. split; [done|]. split; [done|]. right. by exists x.
  - destruct (server.hang_up (s', c)) as [[s2 c2] r2]. eapply advances_insert; [exact Ei|reflexivity|cbn; lia].
Qed.

Lemma wake_tracked L T w i (el : float) : tracked L T w ->
  exists L', L `prefix_of` L' /\ tracked L' T (server.wake i el w) /\ forall j, actor (server.Wake i el) w = Some j -> advances L w L' (server.wake i el w) j.
Proof.
  intros Hw. unfold server.wake, actor. destruct (server.w_clients w !! i) as [[c p]|] eqn:Ei; [|by exists L].
  destruct (tr_clients _ _ _ Hw i _ Ei) as (rqs & Er & todo & Erqs & Hp). destruct (tr_serving _ _ _ Hw) as [m Hs]. cbn [server.cl_phase server.cl_conn] in Hp.
  destruct p as [input|k|B call k|k|]; try (by exists L).
  - destruct Hp as (Ht & E & Hz). pose proof (told_conn c _ Ht) as [Hq Hsub]. destruct todo as [|rq todo].
    { injection E as <-. exists L. split; [done|]. assert (server.co_turn el [] (server.w_server w, c) = ((server.w_server w, c), server.Returned (option bytes) (Ok None))) as -> by reflexivity.
      unfold server.settle. destruct (hang_up_run (server.w_server w) c (proj2 Hs) Hq) as (r' & -> & Hr').
      split; [|intros j [= <-]; eapply advances_insert; [exact Ei|reflexivity|cbn; lia]].
      eapply tracked_move; try done; [by apply serving_registry| |by apply (queue_kept L T w i _ _ Hw Ei)]. exists []. split; [done|]. split; [done|by left]. }
    destruct (turn_starts (N := N) rq todo input el E Hz) as (rest & Erest & Hzr & Hst); [by eapply tracked_covered|].
    destruct Hst as [Hnow|(B & call & k & Erun & Hperf)].
    + destruct (Hnow T) as (a & Ea & En & Ec & Hresp). destruct (Hresp (server.w_server w) c m T Hs Hsub) as (s' & o & k' & Erun & Eo & Hs' & Hbr & Hends).
      exists (L ++ [(i, (rq, a))]). split; [by eexists|]. rewrite Erun. unfold server.settle.
      split; [|intros j [= <-]; eapply advances_insert; [exact Ei|reflexivity|cbn -[of_client]; rewrite mine_snoc; lia]]. rewrite <- En.
      eapply (tracked_answer L T w s' m i _ _ rqs rq a false); try done; [by rewrite En|by rewrite Hbr, Ec| |by apply (queue_kept L T w i _ _ Hw Ei)].
      exists todo. split; [by rewrite fmap_app, <- app_assoc|]. split; [by apply told_snoc|]. exists (rq, a), rest. eexists. by rewrite last_snoc.
    + exists L. split; [done|]. rewrite Erun by done. unfold server.settle.
      split; [|intros j [= <-]; eapply advances_insert; [exact Ei|reflexivity|cbn; lia]].
      eapply tracked_move; try done; [|by apply (all_in_add _ _ _ i _ _ (tr_queue _ _ _ Hw) Ei)]. exists (rq :: todo). split; [done|]. split; [done|]. by exists rq, todo, rest.
  - destruct Hp as (Ht & x & rest & r & Hx & Hgo & Hends). exists L. split; [done|]. destruct (Hends (server.w_server w) c (proj2 Hs)) as (r' & -> & Hr').
    destruct (round_tracked L T w i c (server.Paused k) (server.set_registry r' (server.w_server w)) m rqs todo rest x r) as [Hw' Ha]; try done; [by apply serving_registry|].
    split; [done|]. by intros j [= <-].
Qed.

(** A call of the executor did not come back. *)
Definition disk_failed T w : Prop :=
  exists i queue c (B : Set) (call : St (ImmuServer N) B) k s' r,
    server.w_queue w = i :: queue /\ server.w_clients w !! i = Some (server.mkClient c (server.Queued B call k)) /\
    call (server.w_server w) = (s', r) /\ disk_error T (server.w_server w) s' r /\ _broker s' = _broker (server.w_server w).

Lemma work_tracked L T w : tracked L T w -> fits_n (N := N) (S (length T)) ->
  (exists L' T', L `prefix_of` L' /\ (length T' <= S (length T))%nat /\ tracked L' T' (server.work w) /\
     forall j, actor server.Work w = Some j -> advances L w L' (server.work w) j) \/ disk_failed T w.
Proof.
  intros Hw Hfit. unfold server.work, actor. destruct (server.w_queue w) as [|i queue] eqn:Eq; [left; exists L, T; split_and!; [done|lia|done|done]|].
  pose proof (tr_queue _ _ _ Hw) as Hq. rewrite Eq in Hq. destruct (proj1 (proj2 Hq i) ltac:(by left)) as ([c p] & Ei & Hp). destruct p as [| |B call k| |]; try done. rewrite Ei.
  destruct (tr_clients _ _ _ Hw i _ Ei) as (rqs & Er & todo & Erqs & Ht & rq & todo' & rest & -> & Erest & Hz & Hperf). destruct (tr_serving _ _ _ Hw) as [m Hs].
  destruct (covered_answer rq T) as [a Ea]; [by eapply tracked_covered|]. pose proof (Hperf (server.w_server w) m T a Hs Hfit Ea) as Hcall.
  destruct (call (server.w_server w)) as [s' r] eqn:Ecall. destruct Hcall as [Hb [(v & m' & -> & Hs' & Hresp)|Hd]].
  - left. exists (L ++ [(i, (rq, a))]), (new_texts a). split_and!; [by eexists| | |intros j [= <-]; eapply advances_insert; [exact Ei|reflexivity|cbn -[of_client]; rewrite mine_snoc; lia]].
    { eapply spec_request_length; [|done]. destruct Hs as [(d & _ & Hdb) _]. by eapply db_sorted. }
    eapply (tracked_answer L T w s' m' i _ _ rqs rq a true); try done; [|by eapply all_in_remove].
    exists todo'. split; [by rewrite fmap_app, <- app_assoc|]. exists (of_client i L), (rq, a), rest. eexists. by split_and!.
  - right. exists i, queue, c, B, call, k, s', r. by split_and!.
Qed.

Lemma deliver_tracked L T w : tracked L T w ->
  tracked L T (server.deliver w) /\ forall j, actor server.Deliver w = Some j -> advances L w L (server.deliver w) j.
Proof.
  intros Hw. unfold server.deliver, actor. destruct (server.w_done w) as [|i finished] eqn:Ed; [done|].
  pose proof Hw as [Hh [m Hs] Hc Hb (out & Eout & Hbr) Hq Hd]. rewrite Ed in Hd, Eout. destruct (proj1 (proj2 Hd i) ltac:(by left)) as ([c p] & Ei & Hp). destruct p as [| | |k|]; try done.
  rewrite Ei. destruct (Hc i _ Ei) as (rqs & Er & todo & Erqs & before & x & rest & r & Emine & Ht & Hgo & Hresp). cbn [server.cl_conn] in Ht.
  destruct (Hresp (server.w_server w) c m T Hs) as (s' & o & k' & Erun & Eo & Hs' & Hbr' & Hends); [by apply (told_conn c _ Ht)|].
  rewrite Erun. unfold server.settle. split; [|intros j [= <-]; eapply advances_insert; [exact Ei|reflexivity|cbn -[of_client]; rewrite Emine, length_app; cbn; lia]].
  split; cbn [server.w_server server.w_clients server.w_queue server.w_done].
  - done.
  - by exists m.
  - intros j clj Ej. destruct (decide (i = j)) as [<-|Hne]; [|rewrite list_lookup_insert_ne in Ej by done; by apply Hc].
    rewrite list_lookup_insert_eq in Ej by (by eapply lookup_lt_Some). injection Ej as <-. exists rqs. split; [done|]. exists todo. split; [done|].
    split; [rewrite Emine; by apply told_snoc|]. exists x, rest, r. by rewrite Emine, last_snoc.
  - rewrite length_insert. exact Hb.
  - exists (out ++ latest L i). rewrite bind_cons, app_assoc in Eout. split; [exact Eout|]. cbn. rewrite Hbr', Hbr, publish_all_app.
    do 2 f_equal. unfold latest. by rewrite Emine, last_snoc.
  - by eapply all_in_insert.
  - by apply all_in_remove.
Qed.

Lemma pump_tracked L T w i : tracked L T w -> server.pump i w = w.
Proof.
  intros Hw. unfold server.pump. destruct (server.w_clients w !! i) as [[c p]|] eqn:Ei; [|done].
  destruct (tr_clients _ _ _ Hw i _ Ei) as (rqs & _ & Hinv). apply inv_conn in Hinv as [Hq _]. cbn [server.cl_conn] in Hq.
  assert (server._pump (server.w_server w, c) = ((server.w_server w, c), Ok false)) as Ep by (unfold server._pump, mbind, stx_bind, get_st; cbn; by rewrite Hq).
  assert (server.mkWorld (server.w_server w) (<[i := server.mkClient c p]> (server.w_clients w)) (server.w_queue w) (server.w_done w) = w) as E.
  { rewrite list_insert_id by done. by destruct w. }
  by destruct p; rewrite ?Ep, ?E.
Qed.

Lemma connects_tracked L T w rqs input : tracked L T w -> sessions !! length (server.w_clients w) = Some rqs -> session_ok rqs input ->
  tracked L T (server._handle input w).
Proof.
  intros [Hh [m Hs] Hc Hb Hbr Hq Hd] Er (E & Hz & _). unfold server._handle.
  destruct (gauge_run (server.w_server w) new_connection (metrics.inc 1 []) (proj2 Hs)) as (r' & -> & Hr'); [by eexists|].
  assert (forall f l cl, f cl = false -> all_in f (server.w_clients w) l -> all_in f (server.w_clients w ++ [cl]) l) as Hall.
  { intros f l cl Hf [Hn Hl]. split; [done|]. intros i. rewrite Hl. split; intros (x & Ex & Efx).
    - exists x. split; [|done]. by apply lookup_app_l_Some.
    - apply lookup_app_Some in Ex as [Ex|[_ [_ <-]%list_lookup_singleton_Some]]; [by exists x|congruence]. }
  split; cbn [server.w_server server.w_clients server.w_queue server.w_done]; try (by apply Hall); try done.
  - exists m. by apply serving_registry.
  - intros i cl [Ei|[Hi Ei]]%lookup_app_Some; [by apply Hc|]. apply list_lookup_singleton_Some in Ei as [Hi0 <-].
    assert (i = length (server.w_clients w)) as -> by lia. exists rqs. split; [done|].
    assert (of_client (length (server.w_clients w)) L = []) as ->.
    { unfold of_client. destruct (base.filter _ L) as [|e l] eqn:Ef; [done|]. assert (e ∈ e :: l) as He by (by left). rewrite <- Ef in He.
      apply list_elem_of_filter in He as [He Hin]. apply Hb in Hin. lia. }
    exists rqs. split; [done|]. split_and!; [by exists []|done|done].
  - intros e He. rewrite length_app. apply Hb in He. cbn. lia.
Qed.

Lemma settle_clients i (out : ImmuServer N * Connection * server.task (option bytes)) w :
  length (server.w_clients (server.settle i out w)) = length (server.w_clients w).
Proof.
  destruct out as [[s c] [[[rest|]|e]|k|B call k]]; cbn [server.settle]; try (destruct (server.hang_up (s, c)) as [[s' c'] r']); cbn [server.w_clients]; by rewrite length_insert.
Qed.

Lemma exec_clients e w : length (server.w_clients (server.exec e w)) = (length (server.w_clients w) + length (arrivals [e]))%nat.
Proof.
  destruct e as [input|i el| | |i]; cbn [server.exec arrivals mbind list_bind app length]; rewrite ?Nat.add_0_r.
  - unfold server._handle. destruct (server.on_registry _ _) as [[s c] r]. cbn. rewrite length_app. cbn. lia.
  - unfold server.wake. destruct (server.w_clients w !! i) as [[c [input|k|B call k|k|]]|]; try done; apply settle_clients.
  - unfold server.work. destruct (server.w_queue w) as [|i q]; [done|]. destruct (server.w_clients w !! i) as [[c [| |B call k| |]]|]; try done.
    destruct (call (server.w_server w)) as [s' r]. cbn. by rewrite length_insert.
  - unfold server.deliver. destruct (server.w_done w) as [|i q]; [done|]. destruct (server.w_clients w !! i) as [[c [| | |k|]]|]; try done. by rewrite settle_clients.
  - unfold server.pump. destruct (server.w_clients w !! i) as [[c p]|]; [|done].
    destruct p; try done; destruct (server._pump (server.w_server w, c)) as [[s' c'] r]; cbn; by rewrite length_insert.
Qed.

Lemma exec_tracked L T w e : tracked L T w -> fits_n (N := N) (S (length T)) ->
  (forall input, e = server.Connects input -> exists rqs, sessions !! length (server.w_clients w) = Some rqs /\ session_ok rqs input) ->
  (exists L' T', L `prefix_of` L' /\ (length T' <= S (length T))%nat /\ tracked L' T' (server.exec e w) /\
     forall i, actor e w = Some i -> advances L w L' (server.exec e w) i) \/ e = server.Work /\ disk_failed T w.
Proof.
  intros Hw Hfit Harr. destruct e as [input|i el| | |i]; cbn [server.exec].
  - left. destruct (Harr input eq_refl) as (rqs & Er & Hok). exists L, T. split_and!; [done|lia|by eapply connects_tracked|done].
  - left. destruct (wake_tracked L T w i el Hw) as (L' & Hpre & Hw' & Ha). exists L', T. split_and!; [done|lia|done|done].
  - destruct (work_tracked L T w Hw Hfit) as [?|?]; [by left|by right].
  - left. destruct (deliver_tracked L T w Hw) as [Hw' Ha]. exists L, T. split_and!; [done|lia|done|done].
  - left. exists L, T. rewrite (pump_tracked L T w i Hw). split_and!; [done|lia|done|done].
Qed.

(** The world after the first [j] events. *)
Definition after w (evs : list server.event) (j : nat) : server.world := server.run_events (take j evs) w.

(** Every event up to the first failed call; [hist] and [tab] are what was answered
    and the table before each. *)
Lemma run_tracked evs : forall w L T,
  tracked L T w -> fits_n (N := N) (length evs + length T) -> Forall2 session_ok (drop (length (server.w_clients w)) sessions) (arrivals evs) ->
  exists k (hist : nat -> list entry) (tab : nat -> texts), hist 0%nat = L /\
    (forall j, (j <= k)%nat -> tracked (hist j) (tab j) (after w evs j)) /\
    (forall j e, (j < k)%nat -> evs !! j = Some e -> hist j `prefix_of` hist (S j) /\
       forall i, actor e (after w evs j) = Some i -> advances (hist j) (after w evs j) (hist (S j)) (after w evs (S j)) i) /\
    (k = length evs \/ evs !! k = Some server.Work /\ disk_failed (tab k) (after w evs k)).
Proof.
  induction evs as [|e evs IH]; intros w L T Hw Hfit Harr.
  { exists 0%nat, (fun _ => L), (fun _ => T). split_and!; [done| |by intros; lia|by left]. intros j Hj. assert (j = 0)%nat as -> by lia. done. }
  assert (arrivals (e :: evs) = arrivals [e] ++ arrivals evs) as Ea by (unfold arrivals; rewrite bind_cons; by cbn; rewrite app_nil_r).
  destruct (exec_tracked L T w e Hw) as [(L1 & T1 & Hpre & Hlen & Hw1 & Hadv)|[-> Hf]].
  { intros kvs Hk. apply Hfit. cbn. lia. }
  { intros input ->. cbn in Harr. inversion Harr as [|rqs input' rest rest' Hok Hrest Ed]; subst. exists rqs. split; [|done].
    rewrite <- (Nat.add_0_r (length _)), <- lookup_drop, <- Ed. done. }
  - destruct (IH (server.exec e w) L1 T1 Hw1) as (k & hist & tab & E0 & Htr & Hstep & Hend).
    { intros kvs Hk. apply Hfit. cbn. lia. }
    { rewrite exec_clients, <- drop_drop. rewrite Ea in Harr. apply Forall2_app_inv_r in Harr as (l1 & l2 & Hl1 & Hl2 & Ed). rewrite Ed.
      by rewrite <- (Forall2_length _ _ _ Hl1), drop_app_length. }
    exists (S k), (fun j => match j with O => L | S j => hist j end), (fun j => match j with O => T | S j => tab j end). split_and!; [done| | |].
    + intros [|j] Hj; [exact Hw|]. apply Htr. lia.
    + intros [|j] e' Hj; [intros [= <-]; rewrite E0; by split|]. apply Hstep. lia.
    + destruct Hend as [->|Hend]; [by left|by right].
  - exists 0%nat, (fun _ => L), (fun _ => T). split_and!; [done| |by intros; lia|by right]. intros j Hj. assert (j = 0)%nat as -> by lia. done.
Qed.

(** What can be seen of a server that has given the answers [L]: the clients were
    written theirs, the changes were published, and the table [T] is on disk; as
    long as some connection has not ended, some event moves on. *)
Record linear L T w : Prop := {
  ln_history : history T0 L T;
  ln_clients : forall i cl, server.w_clients w !! i = Some cl -> exists rqs, sessions !! i = Some rqs /\ client_shows rqs (of_client i L) cl;
  ln_known : forall e, e ∈ L -> (e.1 < length (server.w_clients w))%nat;
  ln_broker : published L w;
  ln_disk : exists m base, stored T base /\ opens (N := N) (on_disk (server.w_server w)) m base;
  ln_busy : (exists i cl, server.w_clients w !! i = Some cl /\ server.cl_phase cl <> server.Closed) -> exists e i, actor e w = Some i
}.

Lemma tracked_linear L T w : tracked L T w -> linear L T w.
Proof.
  intros [Hh [m Hs] Hc Hb Hbr Hq Hd]. split; [done| |done|done| |].
  - intros i cl Ei. destruct (Hc i cl Ei) as (rqs & Er & Hinv). exists rqs. split; [done|]. by apply inv_shows.
  - exists m. by eapply serving_durable.
  - intros (i & [c p] & Ei & Hp). destruct p as [input|k|B call k|k|]; try done.
    + exists (server.Wake i fzero), i. cbn. by rewrite Ei.
    + exists (server.Wake i fzero), i. cbn. by rewrite Ei.
    + assert (i ∈ server.w_queue w) as Hi by (apply Hq; by eexists). exists server.Work. cbn. destruct (server.w_queue w) as [|j q]; [by apply not_elem_of_nil in Hi|]. by exists j.
    + assert (i ∈ server.w_done w) as Hi by (apply Hd; by eexists). exists server.Deliver. cbn. destruct (server.w_done w) as [|j q]; [by apply not_elem_of_nil in Hi|]. by exists j.
Qed.

End tracking.

Lemma idle_tracked sessions s m T : serving s m T T -> tracked T (_broker s) sessions [] T (server.idle_world s).
Proof.
  intros Hs. split; cbn; try done.
  - constructor.
  - by exists m.
  - intros e He. by apply not_elem_of_nil in He.
  - by exists [].
  - split; [constructor|]. intros i. split; [by intros ?%not_elem_of_nil|by intros (x & Ex & _)].
  - split; [constructor|]. intros i. split; [by intros ?%not_elem_of_nil|by intros (x & Ex & _)].
Qed.

Lemma sessions_covered sessions inputs : Forall2 session_ok sessions inputs -> Forall (Forall (fun rq => covered rq = true)) sessions.
Proof. induction 1 as [|rqs input ss ins (_ & _ & Hc) _ IH]; by constructor. Qed.

(** No client gets further than the end of its requests. *)
Lemma advance_bound rqs mine cl : client_shows rqs mine cl -> (advance mine cl <= 4 * length rqs + 1)%nat.
Proof.
  intros (todo & -> & Hp). rewrite length_app, length_fmap. unfold advance. destruct (server.cl_phase cl); try lia.
Qed.

(** C4: concurrent clients are served as if one after the other.  Each task of the
    event loop runs until it awaits (the executor, or the client taking what was
    written), the executor runs one call at a time, and in any order of those
    steps, for any number of connections with pipelined requests: there is one
    sequence of all the requests answered so far, which only grows, in which each
    client's own stand as it sent them and each has the answer of the abstract
    table after those before it; every client was written exactly the replies to
    its own, but for one whose call has returned and whose task has not gone on,
    which lacks the last; the changes were published in that sequence, but for
    those of such tasks; and the table is on disk.  A connection ends only when all
    its requests, or those up to its [QUIT], are answered; every step that finds
    something to do moves one client on, and while a connection is open there is
    such a step.  This holds after every step, up to the first call of the
    executor that raises: there the disk failed or a record could not be packed,
    nothing was published by the call, and the disk holds the table of the requests
    answered before it.  The requests are those of [covered]: not [INFO],
    [SUBSCRIBE] and [UNSUBSCRIBE], no empty key in [GET], [DEL] and [EXISTS]. *)
Theorem clients_linearize (evs : list server.event) (sessions : list (list request)) s m T :
  serving s m T T -> fits_n (N := N) (length evs + length T) -> Forall2 session_ok sessions (arrivals evs) ->
  exists k (hist : nat -> list entry) (tab : nat -> texts), let at_ := after (server.idle_world s) evs in
    (forall j, (j <= k)%nat -> linear T (_broker s) sessions (hist j) (tab j) (at_ j)) /\
    (forall j e, (j < k)%nat -> evs !! j = Some e -> hist j `prefix_of` hist (S j) /\
       forall i, actor e (at_ j) = Some i -> advances (hist j) (at_ j) (hist (S j)) (at_ (S j)) i) /\
    (k = length evs \/ evs !! k = Some server.Work /\ disk_failed (tab k) (at_ k)).
Proof.
  intros Hs Hfit Harr. destruct (run_tracked T (_broker s) sessions (sessions_covered _ _ Harr) evs (server.idle_world s) [] T) as (k & hist & tab & _ & Htr & Hrest).
  - by eapply idle_tracked.
  - done.
  - exact Harr.
  - exists k, hist, tab. split; [|exact Hrest]. intros j Hj. by apply tracked_linear, Htr.
Qed.

End clients.
