(* ===== verification/ServerFindings.v ===== *)
(** Where one client's request reaches another, and the server's theorems at work on
    a new database ([src/imustore/server.py]). *)

From Stdlib Require Import Strings.Byte Strings.String.
From S2P Require Import Prelude PyBase Struct Text SimDisk Locking Physical PhysicalFacts Recovery StorageProps KeyList Logical Pickle BPlusTree Index.
From S2P Require Import BPlusIndex Engine Session Database BinaryProps Resp RespProps Pubsub Metrics TableDb Server ServerSpec ServerProps.

(** Where one client's request reaches another, and where a reply is not what the
    protocol promises: behaviours of the server that callers do not expect. *)

Section findings.
Context `{Pickle} {N : Type} `{IndexSpec N} `{ChangeJson} `{Float} `{FnmatchLaws}.
Implicit Types (s : ImmuServer N) (c : Connection) (m : _Meta) (T : texts).

(** Deleting a key and then the empty key: the first delete is staged, the second
    raises. *)
Lemma delete_then_empty s m T k v :
  serving s m T T -> k <> [] -> kv_get k T = Some v ->
  exists s', server._delete [k; []] s = (s', Raise KeyEncodingError) /\ serving s' m T (kv_del k T) /\ _broker s' = _broker s.
Proof.
  intros Hs Hk Hg. pose proof Hs as [(d & Ed & Hd) Hr]. destruct (db_delitem d m T T k Hd Hk) as (d1 & E1 & Hd1 & _). rewrite Hg in E1.
  exists (server.set_db (Some d1) s). split; [|split; [by eapply serving_db|done]].
  assert (dbdb.delitem [] d1 = (d1, Raise KeyEncodingError)) as E2.
  { unfold dbdb.delitem. by erewrite stx_bind_ok by (by eapply db_open). }
  unfold server._delete. erewrite stx_bind_raise; [reflexivity|]. cbn [server.delete_loop].
  erewrite stx_bind_ok. 2:{ unfold try_with. by erewrite stx_bind_ok by (by eapply on_db_run). }
  by erewrite stx_bind_raise by (unfold try_with, mbind, stx_bind; by rewrite (on_db_run _ (server.set_db (Some d1) s) d1 _ _ eq_refl E2)).
Qed.

(** A refused [DEL] takes effect later.  [DEL k ""] raises on the empty key
    before anything is committed, so the client gets no reply and the disk keeps
    [k]; but the delete of [k] stays staged on the shared handle, and the next
    client's [SET] of any other key commits it, publishing only its own change. *)
Theorem refused_del_committed_by_next_set s c c2 m T (k k2 v2 : bytes) kt kt2 vt2 v (el el2 : float) :
  serving s m T T -> fits_n (N := N) (S (length T)) -> _subscriptions c = ∅ -> _subscriptions c2 = ∅ ->
  utf8_decode k = Ok kt -> kt <> [] -> kv_get kt T = Some v -> utf8_decode k2 = Ok kt2 -> kt2 <> [] -> utf8_decode v2 = Ok vt2 ->
  exists s1, server._dispatch [lit "DEL"; k; []] el (s, c) = ((s1, c), Raise KeyEncodingError) /\
    (exists base, stored T base /\ opens (N := N) (on_disk s1) m base) /\
    answered s1 c2 T (mkAnswer (kv_set kt2 vt2 (kv_del kt T)) (RSimpleString (str "OK")) [(kt2, str "set", Some vt2)] true)
      (server._dispatch [lit "SET"; k2; v2] el2 (s1, c2)).
Proof.
  intros Hs Hf Hc Hc2 Ek Hk Hg Ek2 Hk2 Ev2. destruct (delete_then_empty s m T kt v Hs Hk Hg) as (s' & E & Hs' & _).
  destruct (account_run s' c (str "del") el (proj2 Hs')) as (r' & Hr' & Ea).
  assert (Hs1 : serving (server.set_registry r' s') m T (kv_del kt T)) by (by apply serving_registry).
  exists (server.set_registry r' s'). split_and!; [|by eapply serving_durable|].
  - unfold server._dispatch. cbv zeta. erewrite stx_bind_ok by reflexivity. cbn [snd]. rewrite Hc, bool_decide_true by done. cbn [negb andb].
    change (handler_of (ascii_lower (upper (lit "DEL")))) with (Some cmd_del). change (ascii_lower (upper (lit "DEL"))) with (str "del").
    unfold try_finally. cbn [server.run_handler]. unfold server._cmd_del. cbn [tail].
    assert (server.decode_args [k; []] (s, c) = ((s, c), Ok [kt; []])) as Ed by (apply decode_args_run; by repeat constructor).
    erewrite stx_bind_ok by exact Ed. erewrite stx_bind_raise by (by apply on_server_run). by rewrite Ea.
  - apply (dispatch_wrap cmd_set); [done|done|]. eapply set_answered; try done. intros kvs Hl. apply Hf.
    pose proof (kv_del_length kt T) as Hd. rewrite Hg in Hd. lia.
Qed.

(** A [DEL] of an absent key changes nothing and leaves the write lock taken: no
    commit follows that would release it. *)
Lemma absent_del_keeps_lock s c m T (k : bytes) kt :
  serving s m T T -> utf8_decode k = Ok kt -> kt <> [] -> kv_get kt T = None ->
  exists s' d', server._cmd_del [lit "DEL"; k] (s, c) = ((s', server.write (lit ":0" ++ CRLF) c), Ok true) /\ serving s' m T T /\
    _db s' = Some d' /\ storage.is_locked (dbdb.the_storage d') = true.
Proof.
  intros Hs Ek Hk Hg. pose proof Hs as [(d & Ed & Hd) Hr]. destruct (db_delitem d m T T kt Hd Hk) as (d1 & E1 & Hd1 & Hl). rewrite Hg in E1.
  rewrite kv_del_absent in Hd1 by done. exists (server.set_db (Some d1) s), d1. split_and!; [|by eapply serving_db|done|done].
  unfold server._cmd_del. cbn [tail].
  assert (server.decode_args [k] (s, c) = ((s, c), Ok [kt])) as Ea by (apply decode_args_run; by repeat constructor).
  assert (server._delete [kt] s = (server.set_db (Some d1) s, Ok [])) as Ec.
  { assert (server.delete_loop [kt] s = (server.set_db (Some d1) s, Ok [])) as El.
    { cbn [server.delete_loop]. erewrite stx_bind_ok. 2:{ unfold try_with, mbind, stx_bind. by rewrite (on_db_run _ _ _ _ _ Ed E1). } done. }
    unfold server._delete. by erewrite stx_bind_ok by exact El. }
  erewrite stx_bind_ok by exact Ea. by erewrite stx_bind_ok by (by apply on_server_run).
Qed.

(** An unknown command's name is echoed in the error line as it came: a name with
    a line break in it makes the one reply read as two. *)
Lemma unknown_command_splits_reply s c (el : float) :
  registered (registry s) -> _subscriptions c = ∅ ->
  exists s' b, server._dispatch [lit "NOPE'" ++ CRLF ++ lit "+OK"] el (s, c) = ((s', server.write b c), Ok true) /\
    resp.read_replies 1 2 b = ([], Ok [RError (str "ERR unknown command 'NOPE'"); RSimpleString (str "OK'")]).
Proof.
  intros Hr Hc. destruct (counter_inc_run (registry s) m_commands [(str "command", str "unknown")] Hr (rg_commands _ Hr)) as (r' & E & _).
  exists (server.set_registry r' s). eexists. split.
  - unfold server._dispatch. cbv zeta. erewrite stx_bind_ok by reflexivity. cbn [snd]. rewrite Hc, bool_decide_true by done. cbn [negb andb].
    change (handler_of _) with (@None cmd_name). cbv iota. erewrite stx_bind_ok by (by apply on_registry_run). apply reply_run. vm_compute. reflexivity.
  - vm_compute. reflexivity.
Qed.

End findings.

(** The server's theorems at work: a server over a new B+ tree database, with
    concrete functions for the libraries it calls. *)

(** * The libraries *)

(** Shell patterns with [*] and [?]. *)
Fixpoint glob (pattern key : pystr) : bool :=
  match pattern with
  | [] => bool_decide (key = [])
  | 42%N :: pattern =>
      (fix star (key : pystr) : bool := glob pattern key || match key with [] => false | _ :: key => star key end) key
  | 63%N :: pattern => match key with [] => false | _ :: key => glob pattern key end
  | ch :: pattern => match key with [] => false | ch' :: key => bool_decide (ch = ch') && glob pattern key end
  end.

#[local] Instance glob_fnmatch : Fnmatch := fun key pattern => glob pattern key.

Lemma glob_star key : glob (str "*") key = true.
Proof. induction key as [|ch key IH]; [done|]. exact IH. Qed.

Lemma glob_literal ch p ch' key : ch ∉ _GLOB_METACHARS -> glob (ch :: p) (ch' :: key) = bool_decide (ch = ch') && glob p key.
Proof.
  intros Hch. destruct (decide (ch = 42%N)) as [->|H1]; [by destruct Hch; vm_compute; left|].
  destruct (decide (ch = 63%N)) as [->|H2]; [by destruct Hch; vm_compute; right; left|]. simpl. repeat (case_match; try done).
Qed.

#[local] Instance glob_laws : FnmatchLaws.
Proof.
  split; [apply glob_star|]. intros key p Hp. unfold fnmatchcase, glob_fnmatch. revert key.
  induction Hp as [|ch p Hch Hp IH]; intros key; [rewrite glob_star; by destruct key|]. destruct key as [|ch' key].
  - destruct (decide (ch = 42%N)) as [->|H1]; [by destruct Hch; vm_compute; left|]. simpl. repeat (case_match; try done).
  - rewrite <- app_comm_cons, glob_literal by done. rewrite IH. simpl. by destruct (N.eqb_spec ch ch'); case_bool_decide.
Qed.

Section witnesses.
#[local] Instance server_pickle : Pickle := bit_pickle.
#[local] Instance server_json : ChangeJson := fun key op value => key ++ op ++ default [] value.
#[local] Existing Instance int_float.
#[local] Hint Extern 0 (Index bnode) => exact (bplus_index 3) : typeclass_instances.
#[local] Hint Extern 0 (IndexSpec bnode) => exact (bplus_spec 3 bplus_order3) : typeclass_instances.

(** * A new server *)

Definition registry0 : metrics.Registry := (server.init [1; 5] ∅).1.
Definition db_new : DBDB bnode := mkDBDB (Some (str "db")) bplus0 0.
Definition server0 : ImmuServer bnode := mkServer (Some db_new) (broker.init 2) registry0.
Definition sec : @float int_float := 1.
Definition one_second : nat -> @float int_float := fun _ => sec.

Lemma registered0 : registered registry0.
Proof. split; eexists; (split; [vm_compute; reflexivity|reflexivity]). Qed.

Lemma serving0 : serving server0 meta0 [] [].
Proof.
  split; [|exact registered0]. exists db_new. split; [done|]. exists [], []. split_and!; [|constructor|constructor|vm_compute; reflexivity].
  apply (null_handle (bplus_index 3) (bplus_spec 3 bplus_order3)). reflexivity.
Qed.

Lemma fits_small n : Z.of_nat n < 2 ^ 64 -> fits_n (N := bnode) n.
Proof. intros Hn kvs Hk. change (Z.of_nat (length kvs) < 2 ^ 64). lia. Qed.

Lemma server_refines_table_witness : exists s' m' base,
  server._dispatch [lit "set"; lit "k"; lit "v"] sec (server0, new_connection) = ((s', server.write (lit "+OK" ++ CRLF) new_connection), Ok true) /\
  stored [(str "k", str "v")] base /\ opens (N := bnode) (on_disk s') m' base.
Proof.
  destruct (server_refines_table cmd_set server0 new_connection meta0 [] (lit "set") [lit "k"; lit "v"] [str "k"; str "v"]
    (mkAnswer [(str "k", str "v")] (RSimpleString (str "OK")) [(str "k", str "set", Some (str "v"))] true) sec)
    as [(s' & m' & b & base & Eb & E & _ & _ & Hst & Hop)|(s' & e & m' & base & E & _)].
  - exact serving0.
  - apply fits_small. vm_compute. reflexivity.
  - reflexivity.
  - repeat constructor.
  - reflexivity.
  - reflexivity.
  - exists s', m', base. injection Eb as <-. split; [exact E|by split].
  - exfalso. assert ((server._dispatch [lit "set"; lit "k"; lit "v"] sec (server0, new_connection)).2 = Ok true) as E2 by (vm_compute; reflexivity).
    rewrite E in E2. discriminate E2.
Defined.

(** * A session *)

Definition requests : list request :=
  [(lit "SET", [str "k"; str "v"]); (lit "get", [str "k"]); (lit "DEL", [str "k"; str "k"]); (lit "KEYS", [str "*"]); (lit "QUIT", []); (lit "PING", [])].

Definition answers : list answer :=
  let T := [(str "k", str "v")] in
  [mkAnswer T (RSimpleString (str "OK")) [(str "k", str "set", Some (str "v"))] true;
   mkAnswer T (RStr (str "v")) [] true;
   mkAnswer [] (RInt 1) [(str "k", str "del", None)] true;
   mkAnswer [] (RList []) [] true;
   mkAnswer [] (RSimpleString (str "OK")) [] false].

Lemma session_exact_witness : exists input,
  encode_session requests = Ok input /\
  session_outcome server0 new_connection [] answers (server.serve one_second input (server0, new_connection)).
Proof.
  eexists. split; [vm_compute; reflexivity|].
  apply (session_exact one_second requests _ server0 meta0 [] answers).
  - vm_compute. reflexivity.
  - vm_compute. discriminate.
  - exact serving0.
  - apply fits_small. vm_compute. reflexivity.
  - reflexivity.
Defined.

(** Two clients that both write [k]; the first reads what the second wrote.  Both
    calls wait for the executor together, the second is run before the first client
    is answered, and the first client's next command comes before the second is. *)
Definition two_clients : list (list request) :=
  [[(lit "SET", [str "k"; str "1"]); (lit "GET", [str "k"]); (lit "nope", [])]; [(lit "SET", [str "k"; str "2"]); (lit "QUIT", [])]].

Definition sockets (in1 in2 : bytes) : list server.event :=
  [server.Connects in1; server.Connects in2; server.Wake 0 sec; server.Wake 1 sec; server.Work; server.Work; server.Deliver; server.Wake 0 sec; server.Wake 0 sec;
   server.Deliver; server.Pump 1; server.Work; server.Wake 1 sec; server.Deliver; server.Wake 0 sec; server.Wake 1 sec; server.Wake 0 sec; server.Wake 1 sec;
   server.Wake 0 sec; server.Wake 0 sec].

Lemma two_clients_arrive : exists in1 in2, Forall2 session_ok two_clients (arrivals (sockets in1 in2)) /\
  [encode_session (two_clients !!! 0%nat); encode_session (two_clients !!! 1%nat)] = [Ok in1; Ok in2].
Proof.
  destruct (encode_session (two_clients !!! 0%nat)) as [in1|] eqn:E1; [|vm_compute in E1; discriminate].
  destruct (encode_session (two_clients !!! 1%nat)) as [in2|] eqn:E2; [|vm_compute in E2; discriminate].
  exists in1, in2. split; [|reflexivity].
  constructor; [|constructor; [|constructor]]; (split; [assumption|]).
  - vm_compute in E1. injection E1 as <-. split; [vm_compute; discriminate|]. repeat constructor.
  - vm_compute in E2. injection E2 as <-. split; [vm_compute; discriminate|]. repeat constructor.
Qed.

(** What each client was written. *)
Definition outputs (w : server.world (N := bnode)) : list bytes := (fun cl => written (server.cl_conn cl)) <$> server.w_clients w.

Lemma clients_linearize_witness : exists in1 in2 k (hist : nat -> list entry) (tab : nat -> texts),
  let at_ := after (server.idle_world server0) (sockets in1 in2) in
  (forall j, (j <= k)%nat -> linear [] (_broker server0) two_clients (hist j) (tab j) (at_ j)) /\
  (k = length (sockets in1 in2) \/ sockets in1 in2 !! k = Some server.Work /\ disk_failed (tab k) (at_ k)) /\
  outputs (at_ (length (sockets in1 in2))) =
    [lit "+OK" ++ CRLF ++ lit "$1" ++ CRLF ++ lit "2" ++ CRLF ++ lit "-ERR unknown command 'NOPE'" ++ CRLF; lit "+OK" ++ CRLF ++ lit "+OK" ++ CRLF].
Proof.
  destruct two_clients_arrive as (in1 & in2 & Harr & Ein).
  destruct (clients_linearize (sockets in1 in2) two_clients server0 meta0 []) as (k & hist & tab & Hlin & _ & Hend).
  - exact serving0.
  - apply fits_small. vm_compute. reflexivity.
  - exact Harr.
  - exists in1, in2, k, hist, tab. split; [exact Hlin|]. split; [exact Hend|].
    vm_compute in Ein. injection Ein as <- <-. vm_compute. reflexivity.
Defined.

(** * A refused delete *)

(** The server after [SET k v]. *)
Definition server1 : ImmuServer bnode := (server._dispatch [lit "SET"; lit "k"; lit "v"] sec (server0, new_connection)).1.1.

Lemma serving1 : exists m, serving server1 m [(str "k", str "v")] [(str "k", str "v")].
Proof.
  destruct (dispatch_answered cmd_set server0 new_connection meta0 [] (lit "SET") [lit "k"; lit "v"] [str "k"; str "v"]
    (mkAnswer [(str "k", str "v")] (RSimpleString (str "OK")) [(str "k", str "set", Some (str "v"))] true) sec)
    as [(s' & m' & b & Eb & E & Hs & _)|(s' & e & m' & base & E & _)].
  - exact serving0.
  - apply fits_small. vm_compute. reflexivity.
  - reflexivity.
  - repeat constructor.
  - reflexivity.
  - reflexivity.
  - exists m'. unfold server1. rewrite E. exact Hs.
  - exfalso. assert ((server._dispatch [lit "SET"; lit "k"; lit "v"] sec (server0, new_connection)).2 = Ok true) as E2 by (vm_compute; reflexivity).
    rewrite E in E2. discriminate E2.
Qed.

Lemma refused_del_witness : exists s1,
  server._dispatch [lit "DEL"; lit "k"; []] sec (server1, new_connection) = ((s1, new_connection), Raise KeyEncodingError) /\
  answered s1 new_connection [(str "k", str "v")] (mkAnswer [(str "x", str "y")] (RSimpleString (str "OK")) [(str "x", str "set", Some (str "y"))] true)
    (server._dispatch [lit "SET"; lit "x"; lit "y"] sec (s1, new_connection)).
Proof.
  destruct serving1 as [m Hs].
  assert (fits_n (N := bnode) 2) as Hf by (apply fits_small; vm_compute; reflexivity).
  assert (forall ch t, ch :: t <> @nil N) as Hne by discriminate.
  destruct (refused_del_committed_by_next_set server1 new_connection new_connection m [(str "k", str "v")]
    (lit "k") (lit "x") (lit "y") (str "k") (str "x") (str "y") (str "v") sec sec Hs Hf eq_refl eq_refl eq_refl (Hne _ _) eq_refl eq_refl (Hne _ _) eq_refl)
    as (s1 & E & _ & Ha).
  exists s1. split; [exact E|exact Ha].
Defined.

End witnesses.
