(* ===== verification/JsonText.v ===== *)
(** The text of JSON values: [json.dumps] and [json.loads] of Python's standard
    library, as [src/imustore] calls them.

    A [dict] is the list of its entries in insertion order.  Python's [float] is
    an interface: what its [repr] looks like and that [float] reads it back.  The
    interpreter's limits on the digits of an integer and on the depth of nested
    calls are an interface too ([PyLimits]); code that does not bind it runs with
    the limits lifted ([unlimited]). *)

From S2P Require Import Prelude PyBase Struct Text Database Json.
From Stdlib Require Import Strings.Byte.

(** * Limits of the interpreter *)

(** [sys.set_int_max_str_digits] (none: 0) and how many lists and dicts deep
    [json] may still go when it is called ([sys.setrecursionlimit] less the calls
    that are under way). *)
Class PyLimits := {
  int_max_str_digits : option nat;
  recursion_left : option nat
}.

#[global] Instance unlimited : PyLimits | 100 := {| int_max_str_digits := None; recursion_left := None |}.

(** An integer of [n] digits may be read and written. *)
Definition digits_allowed `{PyLimits} (n : nat) : bool :=
  match int_max_str_digits with Some m => (n <=? m)%nat | None => true end.

(** [Py_EnterRecursiveCall] of a list or a dict: what is left inside it *)
Definition enter (depth : option nat) : res (option nat) :=
  match depth with
  | None => Ok None
  | Some O => Raise RecursionError
  | Some (S n) => Ok (Some n)
  end.

(** * Numbers *)

(** The text of a number in its parts: the sign, the digits before the point, the
    point with its digits, the exponent with its sign and digits. *)
Record numtok : Type := mkTok {
  nt_neg : bool;
  nt_int : pystr;
  nt_frac : pystr;
  nt_exp : pystr
}.

Definition tok_text (t : numtok) : pystr := (if nt_neg t then [45%N] else []) ++ nt_int t ++ nt_frac t ++ nt_exp t.

Definition is_digit (c : N) : bool := (48 <=? c)%N && (c <=? 57)%N.

(** The longest run of digits at the front, and the rest. *)
Fixpoint span_digits (s : pystr) : pystr * pystr :=
  match s with
  | [] => ([], [])
  | c :: r => if is_digit c then let '(ds, rest) := span_digits r in (c :: ds, rest) else ([], s)
  end.

(** A point and at least one digit, or nothing. *)
Definition scan_frac (s : pystr) : pystr * pystr :=
  match s with
  | c :: r =>
      if (c =? 46)%N then match span_digits r with ([], _) => ([], s) | (ds, rest) => (c :: ds, rest) end
      else ([], s)
  | [] => ([], s)
  end.

(** An exponent with at least one digit, or nothing. *)
Definition scan_exp (s : pystr) : pystr * pystr :=
  match s with
  | c :: r =>
      if (c =? 101)%N || (c =? 69)%N then
        let '(sg, r) := match r with x :: r' => if (x =? 45)%N || (x =? 43)%N then ([x], r') else ([], r) | [] => ([], r) end in
        match span_digits r with ([], _) => ([], s) | (ds, rest) => (c :: sg ++ ds, rest) end
      else ([], s)
  | [] => ([], s)
  end.

(** A sign, zero or digits that do not start with zero, a fraction, an exponent. *)
Definition scan_number (s : pystr) : option (numtok * pystr) :=
  let '(neg, s1) := match s with c :: r => if (c =? 45)%N then (true, r) else (false, s) | [] => (false, s) end in
  match s1 with
  | [] => None
  | c :: r =>
      if is_digit c then
        let '(ds, r) := if (c =? 48)%N then ([c], r) else span_digits s1 in
        let '(frac, r) := scan_frac r in
        let '(exp, r) := scan_exp r in
        Some (mkTok neg ds frac exp, r)
      else None
  end.

Inductive special : Type := NaN | Infinity | NegInfinity.

(** Python's [float]: whether it is one of the special values, [float.__repr__] and
    [float()] of a text. *)
Class FloatText (F : Type) := {
  fl_special : F -> option special;
  fl_of_special : special -> F;
  float_repr : F -> pystr;
  float_of : pystr -> F
}.

(** The text of a number as [repr] writes floats. *)
Record tok_ok (t : numtok) : Prop := {
  tk_int : nt_int t = [48%N] \/ (exists c ds, nt_int t = c :: ds /\ (49 <=? c)%N && (c <=? 57)%N = true /\ Forall (fun d => is_digit d = true) ds);
  tk_frac : nt_frac t = [] \/ (exists c ds, nt_frac t = 46%N :: c :: ds /\ Forall (fun d => is_digit d = true) (c :: ds));
  tk_exp : nt_exp t = [] \/ (exists x sg c ds, nt_exp t = x :: sg ++ c :: ds /\ (x = 101%N \/ x = 69%N) /\ (sg = [] \/ sg = [45%N] \/ sg = [43%N]) /\
    Forall (fun d => is_digit d = true) (c :: ds))
}.

(** A finite float is written as a number with a point or an exponent, and read
    back. *)
Class FloatTextLaws (F : Type) `{FloatText F} := {
  float_repr_of x : fl_special x = None -> float_of (float_repr x) = x;
  float_repr_tok x : fl_special x = None -> exists t, float_repr x = tok_text t /\ tok_ok t /\ nt_frac t ++ nt_exp t <> [];
  float_special x sp : fl_special x = Some sp -> x = fl_of_special sp
}.

Definition special_text (sp : special) : pystr :=
  match sp with NaN => str "NaN" | Infinity => str "Infinity" | NegInfinity => str "-Infinity" end.

(** * Strings *)

(** [\uXXXX] *)
Definition hex4 (z : Z) : pystr :=
  [92; 117; hex_digit (z / 4096 mod 16); hex_digit (z / 256 mod 16); hex_digit (z / 16 mod 16); hex_digit (z mod 16)]%N.

(** One character of [py_encode_basestring_ascii]. *)
Definition esc_char (c : N) : pystr :=
  if (c =? 92)%N then [92; 92]%N
  else if (c =? 34)%N then [92; 34]%N
  else if (c =? 8)%N then [92; 98]%N
  else if (c =? 12)%N then [92; 102]%N
  else if (c =? 10)%N then [92; 110]%N
  else if (c =? 13)%N then [92; 114]%N
  else if (c =? 9)%N then [92; 116]%N
  else if (32 <=? c)%N && (c <=? 126)%N then [c]
  else
    let z := Z.of_N c in
    if z <? 0x10000 then hex4 z
    else hex4 (0xD800 + (z - 0x10000) / 1024) ++ hex4 (0xDC00 + (z - 0x10000) mod 1024).

Definition esc (s : pystr) : pystr := s ≫= esc_char.

Definition quote (s : pystr) : pystr := [34%N] ++ esc s ++ [34%N].

(** A hexadecimal digit, in either case. *)
Definition hex_value (c : N) : option Z :=
  let z := Z.of_N c in
  if (48 <=? z) && (z <=? 57) then Some (z - 48)
  else if (97 <=? z) && (z <=? 102) then Some (z - 87)
  else if (65 <=? z) && (z <=? 70) then Some (z - 55)
  else None.

Definition unhex4 (a b c d : N) : res Z :=
  match hex_value a, hex_value b, hex_value c, hex_value d with
  | Some a, Some b, Some c, Some d => Ok (a * 4096 + b * 256 + c * 16 + d)
  | _, _, _, _ => Raise JSONDecodeError
  end.

Definition is_high (z : Z) : bool := (0xD800 <=? z) && (z <=? 0xDBFF).
Definition is_low (z : Z) : bool := (0xDC00 <=? z) && (z <=? 0xDFFF).

(** The character after a backslash, [u] apart. *)
Definition unescape (c : N) : res N :=
  if (c =? 34)%N || (c =? 92)%N || (c =? 47)%N then Ok c
  else if (c =? 98)%N then Ok 8%N
  else if (c =? 102)%N then Ok 12%N
  else if (c =? 110)%N then Ok 10%N
  else if (c =? 114)%N then Ok 13%N
  else if (c =? 116)%N then Ok 9%N
  else Raise JSONDecodeError.

(** [scanstring] in its strict mode, after the opening quote: the string and what
    follows the closing quote.  The escapes of a surrogate pair are one
    character. *)
Fixpoint scan_string (s : pystr) : res (pystr * pystr) :=
  match s with
  | [] => Raise JSONDecodeError
  | c :: r =>
      if (c =? 34)%N then Ok ([], r)
      else if (c =? 92)%N then
        match r with
        | [] => Raise JSONDecodeError
        | e :: r1 =>
            if (e =? 117)%N then
              match r1 with
              | a :: b :: c :: d :: r2 =>
                  u ← unhex4 a b c d;
                  let single := '(t, rest) ← scan_string r2; Ok (Z.to_N u :: t, rest) in
                  if is_high u then
                    match r2 with
                    | x :: y :: a' :: b' :: c' :: d' :: r3 =>
                        if (x =? 92)%N && (y =? 117)%N then
                          v ← unhex4 a' b' c' d';
                          if is_low v then
                            '(t, rest) ← scan_string r3;
                            Ok (Z.to_N (0x10000 + (u - 0xD800) * 1024 + (v - 0xDC00)) :: t, rest)
                          else single
                        else single
                    | _ => single
                    end
                  else single
              | _ => Raise JSONDecodeError
              end
            else ch ← unescape e; '(t, rest) ← scan_string r1; Ok (ch :: t, rest)
        end
      else if (c <? 32)%N then Raise JSONDecodeError
      else '(t, rest) ← scan_string r; Ok (c :: t, rest)
  end.

(** * Values *)

(** [separators=(item, key)] *)
Record separators : Type := mkSeps { item_sep : pystr; key_sep : pystr }.

Definition default_seps : separators := mkSeps (str ", ") (str ": ").
Definition compact_seps : separators := mkSeps (str ",") (str ":").

(** [sep.join(parts)] *)
Fixpoint join (sep : pystr) (parts : list pystr) : pystr :=
  match parts with
  | [] => []
  | [p] => p
  | p :: parts => p ++ sep ++ join sep parts
  end.

(** [str(z)] *)
Definition int_text (z : Z) : pystr := Byte.to_N <$> dec z.

(** How many digits [str(z)] has, its sign apart *)
Definition int_digits (z : Z) : nat := length (int_text (Z.abs z)).

(** [int(text)] of a text of digits *)
Definition int_of (s : pystr) : res Z := py_int ((fun c => byte_of_Z (Z.of_N c)) <$> s).

(** [d[k] = v]: a new key goes to the end. *)
Fixpoint dict_set {A} (k : pystr) (v : A) (d : list (pystr * A)) : list (pystr * A) :=
  match d with
  | [] => [(k, v)]
  | (k', v') :: d => if bool_decide (k' = k) then (k', v) :: d else (k', v') :: dict_set k v d
  end.

(** [dict(pairs)] *)
Definition dict_of {A} (pairs : list (pystr * A)) : list (pystr * A) :=
  foldl (fun d kv => dict_set kv.1 kv.2 d) [] pairs.

Definition is_ws (c : N) : bool := (c =? 32)%N || (c =? 9)%N || (c =? 10)%N || (c =? 13)%N.

Fixpoint skip_ws (s : pystr) : pystr :=
  match s with
  | [] => []
  | c :: r => if is_ws c then skip_ws r else s
  end.

(** [f] on every element in turn, up to the first that raises *)
Definition each {A} (f : A -> res unit) : list A -> res unit :=
  fix each l := match l with [] => Ok tt | x :: l => _ ← f x; each l end.

(** [text] at the front of [s] *)
Fixpoint strip_prefix (text s : pystr) : option pystr :=
  match text, s with
  | [], _ => Some s
  | x :: text, y :: s => if (x =? y)%N then strip_prefix text s else None
  | _ :: _, [] => None
  end.

Section json.
Context {F : Type} `{FloatText F}.
Abbreviation js := (json_of F).

(** [json.dumps(v, separators=...)] *)
Fixpoint dumps (sep : separators) (v : js) : pystr :=
  match v with
  | JNull => str "null"
  | JBool true => str "true"
  | JBool false => str "false"
  | JInt z => int_text z
  | JFloat x => match fl_special x with Some sp => special_text sp | None => float_repr x end
  | JStr s => quote s
  | JList l => [91%N] ++ join (item_sep sep) (dumps sep <$> l) ++ [93%N]
  | JDict d => [123%N] ++ join (item_sep sep) ((fun kv => quote kv.1 ++ key_sep sep ++ dumps sep kv.2) <$> d) ++ [125%N]
  end.

(** The limits [json.dumps] meets on its way through a value. *)
Fixpoint writable `{PyLimits} (depth : option nat) (v : js) : res unit :=
  match v with
  | JInt z => if digits_allowed (int_digits z) then Ok tt else Raise ValueError
  | JList l => depth ← enter depth; each (writable depth) l
  | JDict d => depth ← enter depth; each (fun kv => writable depth kv.2) d
  | _ => Ok tt
  end.

(** What [sort_keys=True] does to every [dict] of a value. *)
Fixpoint sort_keys (v : js) : js :=
  match v with
  | JList l => JList (sort_keys <$> l)
  | JDict d => JDict (merge_sort (fun a b => str_le a.1 b.1) ((fun kv => (kv.1, sort_keys kv.2)) <$> d))
  | v => v
  end.

(** A number, or one of the names Python adds. *)
Definition scan_other `{PyLimits} (s : pystr) : res (js * pystr) :=
  match strip_prefix (str "null") s with Some r => Ok (JNull, r) | None =>
  match strip_prefix (str "true") s with Some r => Ok (JBool true, r) | None =>
  match strip_prefix (str "false") s with Some r => Ok (JBool false, r) | None =>
  match scan_number s with
  | Some (t, r) =>
      match nt_frac t ++ nt_exp t with
      | [] => if digits_allowed (length (nt_int t)) then z ← int_of (tok_text t); Ok (JInt z, r) else Raise ValueError
      | _ => Ok (JFloat (float_of (tok_text t)), r)
      end
  | None =>
  match strip_prefix (str "NaN") s with Some r => Ok (JFloat (fl_of_special NaN), r) | None =>
  match strip_prefix (str "Infinity") s with Some r => Ok (JFloat (fl_of_special Infinity), r) | None =>
  match strip_prefix (str "-Infinity") s with Some r => Ok (JFloat (fl_of_special NegInfinity), r) | None =>
  Raise JSONDecodeError end end end end end end end.

(** [scan_once], and the loops of [JSONArray] and [JSONObject] over the items that
    follow.  Every second call at the latest has read a character, so twice the
    length of the text is fuel enough ([scan_total]). *)
Fixpoint scan_once `{PyLimits} (depth : option nat) (fuel : nat) (s : pystr) : res (js * pystr) :=
  match s, fuel with
  | [], _ => Raise JSONDecodeError
  | _ :: _, O => Raise RecursionError
  | c :: r, S fuel =>
      if (c =? 34)%N then '(t, rest) ← scan_string r; Ok (JStr t, rest)
      else if (c =? 123)%N then
        depth ← enter depth;
        let r := skip_ws r in
        match r with
        | x :: rest => if (x =? 125)%N then Ok (JDict [], rest) else '(d, rest) ← scan_pairs depth fuel r; Ok (JDict (dict_of d), rest)
        | [] => Raise JSONDecodeError
        end
      else if (c =? 91)%N then
        depth ← enter depth;
        let r := skip_ws r in
        match r with
        | x :: rest => if (x =? 93)%N then Ok (JList [], rest) else '(l, rest) ← scan_items depth fuel r; Ok (JList l, rest)
        | [] => Raise JSONDecodeError
        end
      else scan_other s
  end
with scan_items `{PyLimits} (depth : option nat) (fuel : nat) (s : pystr) : res (list js * pystr) :=
  match fuel with
  | O => Raise RecursionError
  | S fuel =>
      '(v, r) ← scan_once depth fuel s;
      match skip_ws r with
      | x :: rest =>
          if (x =? 93)%N then Ok ([v], rest)
          else if (x =? 44)%N then '(l, rest) ← scan_items depth fuel (skip_ws rest); Ok (v :: l, rest)
          else Raise JSONDecodeError
      | [] => Raise JSONDecodeError
      end
  end
with scan_pairs `{PyLimits} (depth : option nat) (fuel : nat) (s : pystr) : res (list (pystr * js) * pystr) :=
  match s, fuel with
  | [], _ => Raise JSONDecodeError
  | _ :: _, O => Raise RecursionError
  | c :: r, S fuel =>
      if (c =? 34)%N then
        '(k, r) ← scan_string r;
        match skip_ws r with
        | x :: r =>
            if (x =? 58)%N then
              '(v, r) ← scan_once depth fuel (skip_ws r);
              match skip_ws r with
              | y :: rest =>
                  if (y =? 125)%N then Ok ([(k, v)], rest)
                  else if (y =? 44)%N then '(d, rest) ← scan_pairs depth fuel (skip_ws rest); Ok ((k, v) :: d, rest)
                  else Raise JSONDecodeError
              | [] => Raise JSONDecodeError
              end
            else Raise JSONDecodeError
        | [] => Raise JSONDecodeError
        end
      else Raise JSONDecodeError
  end.

(** [json.loads(s)] *)
Definition loads `{PyLimits} (s : pystr) : res js :=
  if match s with c :: _ => (c =? 0xFEFF)%N | [] => false end then Raise JSONDecodeError
  else
    let s := skip_ws s in
    '(v, r) ← scan_once recursion_left (2 * length s) s;
    match skip_ws r with [] => Ok v | _ => Raise JSONDecodeError end.

End json.
