(* ===== verification/JsonRoundtrip.v ===== *)
(** [json.loads] reads back what [json.dumps] wrote, and reading fails in no other
    way than [JSONDecodeError] or at a limit of the interpreter. *)

From S2P Require Import Prelude PyBase Struct Text Database Json JsonText.
From Stdlib Require Import Strings.Byte.
From Stdlib Require DecimalN DecimalFacts.

(** * Strings *)

Lemma hex_value_digit d : 0 <= d < 16 -> hex_value (hex_digit d) = Some d.
Proof.
  intros Hd. unfold hex_value, hex_digit. destruct (Z.ltb_spec d 10); rewrite Z2N.id by lia; zcmp; f_equal; lia.
Qed.

Lemma unhex4_hex z : 0 <= z < 0x10000 ->
  unhex4 (hex_digit (z / 4096 mod 16)) (hex_digit (z / 256 mod 16)) (hex_digit (z / 16 mod 16)) (hex_digit (z mod 16)) = Ok z.
Proof.
  intros Hz. assert (forall x, 0 <= x mod 16 < 16) as Hm by (intros x; apply Z.mod_pos_bound; lia).
  unfold unhex4. rewrite !hex_value_digit by apply Hm. f_equal.
  assert (z / 256 = z / 16 / 16) as E1 by (by rewrite Z.div_div). assert (z / 4096 = z / 16 / 16 / 16) as E2 by (by rewrite !Z.div_div).
  assert (z / 4096 / 16 = 0) as E3 by (rewrite Z.div_div by lia; apply Z.div_small; lia).
  rewrite E2 in E3. rewrite E1, E2.
  pose proof (Z.div_mod z 16 ltac:(lia)). pose proof (Z.div_mod (z / 16) 16 ltac:(lia)).
  pose proof (Z.div_mod (z / 16 / 16) 16 ltac:(lia)). pose proof (Z.div_mod (z / 16 / 16 / 16) 16 ltac:(lia)). lia.
Qed.

(** No escape of a low surrogate at the front, which a high one would take. *)
Definition quiet (s : pystr) : Prop :=
  match s with
  | x :: y :: a :: b :: c :: d :: _ => (x =? 92)%N && (y =? 117)%N = false \/ exists v, unhex4 a b c d = Ok v /\ is_low v = false
  | _ => True
  end.

Lemma scan_single u s : 0 <= u < 0x10000 -> is_high u = false \/ quiet s ->
  scan_string (hex4 u ++ s) = ('(t, rest) ← scan_string s; Ok (Z.to_N u :: t, rest)).
Proof.
  intros Hu Hq. unfold hex4. cbn [app scan_string N.eqb Pos.eqb]. rewrite unhex4_hex by done. cbn [mbind result_bind].
  destruct (is_high u); [|done]. destruct Hq as [|Hq]; [done|].
  destruct s as [|x [|y [|a [|b [|c [|d r]]]]]]; try done. simpl in Hq.
  destruct ((x =? 92)%N && (y =? 117)%N); [|done]. destruct Hq as [|(v & E & Hv)]; [done|]. rewrite E. simpl. by rewrite Hv.
Qed.

Lemma scan_joined u v s : 0 <= u < 0x10000 -> 0 <= v < 0x10000 -> is_high u = true -> is_low v = true ->
  scan_string (hex4 u ++ hex4 v ++ s) =
    ('(t, rest) ← scan_string s; Ok (Z.to_N (0x10000 + (u - 0xD800) * 1024 + (v - 0xDC00)) :: t, rest)).
Proof.
  intros Hu Hv H1 H2. unfold hex4. cbn [app scan_string N.eqb Pos.eqb]. rewrite (unhex4_hex u), (unhex4_hex v) by done.
  cbn [mbind result_bind andb]. by rewrite H1, H2.
Qed.

(** The strings that are read back: characters of Unicode, in which no high
    surrogate stands before a low one. *)
Fixpoint clean (s : pystr) : bool :=
  match s with
  | [] => true
  | c :: r =>
      (c <? 0x110000)%N && negb (is_high (Z.of_N c) && match r with d :: _ => is_low (Z.of_N d) | [] => false end) && clean r
  end.

Lemma surrogates z : 0x10000 <= z < 0x110000 ->
  is_high (0xD800 + (z - 0x10000) / 1024) = true /\ is_low (0xDC00 + (z - 0x10000) mod 1024) = true /\
  is_low (0xD800 + (z - 0x10000) / 1024) = false /\
  0x10000 + (0xD800 + (z - 0x10000) / 1024 - 0xD800) * 1024 + (0xDC00 + (z - 0x10000) mod 1024 - 0xDC00) = z.
Proof.
  intros Hz. pose proof (Z.mod_pos_bound (z - 0x10000) 1024 ltac:(lia)).
  assert (0 <= (z - 0x10000) / 1024 < 1024) by (split; [apply Z.div_pos|apply Z.div_lt_upper_bound]; lia).
  pose proof (Z.div_mod (z - 0x10000) 1024 ltac:(lia)). unfold is_high, is_low. split_and!; [by zcmp..|lia].
Qed.

(** One character, by the way it is written. *)
Lemma esc_cases c : (c < 0x110000)%N ->
  (exists e, esc_char c = [92%N; e] /\ e <> 117%N /\ unescape e = Ok c) \/
  (esc_char c = [c] /\ (c =? 34)%N = false /\ (c =? 92)%N = false /\ (c <? 32)%N = false) \/
  (esc_char c = hex4 (Z.of_N c) /\ Z.of_N c < 0x10000) \/
  (exists u v, esc_char c = hex4 u ++ hex4 v /\ 0 <= u < 0x10000 /\ 0 <= v < 0x10000 /\ is_high u = true /\ is_low v = true /\ is_low u = false /\
    0x10000 + (u - 0xD800) * 1024 + (v - 0xDC00) = Z.of_N c /\ 0x10000 <= Z.of_N c).
Proof.
  intros Hc. unfold esc_char.
  destruct (N.eqb_spec c 92) as [->|N1]; [left; by eexists|]. destruct (N.eqb_spec c 34) as [->|N2]; [left; by eexists|].
  destruct (N.eqb_spec c 8) as [->|N3]; [left; by eexists|]. destruct (N.eqb_spec c 12) as [->|N4]; [left; by eexists|].
  destruct (N.eqb_spec c 10) as [->|N5]; [left; by eexists|]. destruct (N.eqb_spec c 13) as [->|N6]; [left; by eexists|].
  destruct (N.eqb_spec c 9) as [->|N7]; [left; by eexists|]. right.
  destruct (N.leb_spec 32 c) as [Hlo|Hlo], (N.leb_spec c 126) as [Hhi|Hhi]; cbn [andb].
  1:{ left. split_and!; try done. apply N.ltb_ge. lia. }
  all: right; destruct (Z.ltb_spec (Z.of_N c) 0x10000); [by left|right].
  all: destruct (surrogates (Z.of_N c)) as (H1 & H2 & H3 & H4); [lia|]; eexists _, _; split; [reflexivity|].
  all: pose proof (Z.mod_pos_bound (Z.of_N c - 0x10000) 1024 ltac:(lia)).
  all: assert (0 <= (Z.of_N c - 0x10000) / 1024 < 1024) by (split; [apply Z.div_pos|apply Z.div_lt_upper_bound]; lia).
  all: split_and!; try done; lia.
Qed.

Lemma esc_quiet s rest : clean s = true -> match s with d :: _ => is_low (Z.of_N d) | [] => false end = false -> quiet (esc s ++ 34%N :: rest).
Proof.
  destruct s as [|c s]; [by destruct rest as [|? [|? [|? [|? [|? ?]]]]]; simpl; auto|].
  cbn [clean]. rewrite !andb_true_iff, N.ltb_lt. intros [[Hc _] _] Hl. cbn [esc mbind list_bind]. rewrite <- app_assoc.
  destruct (esc_cases c Hc) as [(e & -> & He & _)|[(-> & _ & H92 & _)|[(-> & Hz)|(u & v & -> & Hu & Hv & _ & _ & Hlow & _)]]].
  - cbn [app]. destruct (_ ++ 34%N :: rest) as [|? [|? [|? [|? ?]]]]; simpl; try done. left. by apply N.eqb_neq.
  - cbn [app]. destruct (_ ++ 34%N :: rest) as [|? [|? [|? [|? [|? ?]]]]]; simpl; try done. left. by rewrite H92.
  - simpl. right. eexists. split; [apply unhex4_hex; lia|done].
  - simpl. right. eexists. split; [by apply unhex4_hex|done].
Qed.

Lemma scan_string_esc s rest : clean s = true -> scan_string (esc s ++ 34%N :: rest) = Ok (s, rest).
Proof.
  induction s as [|c s IH]; [done|]. intros Hcl. pose proof Hcl as Hcl0. cbn [clean] in Hcl.
  rewrite !andb_true_iff, N.ltb_lt, negb_true_iff, andb_false_iff in Hcl. destruct Hcl as [[Hc Hp] Hs].
  cbn [esc mbind list_bind]. rewrite <- app_assoc. fold (esc s). specialize (IH Hs).
  destruct (esc_cases c Hc) as [(e & -> & He & Hun)|[(-> & H34 & H92 & H32)|[(-> & Hz)|(u & v & -> & Hu & Hv & Hhi & Hlo & _ & Ej & _)]]].
  - cbn [app scan_string N.eqb Pos.eqb]. rewrite (proj2 (N.eqb_neq e 117)) by done. rewrite Hun. cbn [mbind result_bind]. by rewrite IH.
  - cbn [app scan_string]. rewrite H34, H92, H32. by rewrite IH.
  - rewrite scan_single by (lia || (destruct Hp as [Hp|Hp]; [by left|right; by apply esc_quiet])). rewrite IH. simpl. by rewrite N2Z.id.
  - rewrite <- app_assoc, scan_joined by done. rewrite IH. cbn [mbind result_bind]. by rewrite Ej, N2Z.id.
Qed.

(** * Numbers *)

Abbreviation digits := (Forall (fun d => is_digit d = true)).

(** What may follow a number: nothing that would be read as part of it. *)
Definition ends (s : pystr) : Prop :=
  match s with [] => True | c :: _ => is_digit c = false /\ c <> 46%N /\ c <> 101%N /\ c <> 69%N end.

Definition no_digit (s : pystr) : Prop := match s with [] => True | c :: _ => is_digit c = false end.

Lemma ends_no_digit s : ends s -> no_digit s.
Proof. destruct s; [done|]. by intros [? _]. Qed.

Lemma span_digits_app ds r : digits ds -> no_digit r -> span_digits (ds ++ r) = (ds, r).
Proof.
  intros Hd Hr. induction Hd as [|c ds Hc _ IH]; simpl.
  - destruct r as [|x r]; [done|]. simpl in *. by rewrite Hr.
  - by rewrite Hc, IH.
Qed.

Lemma scan_exp_app (t : numtok) r : tok_ok t -> ends r -> scan_exp (nt_exp t ++ r) = (nt_exp t, r) /\ no_digit (nt_exp t ++ r) /\
  (forall x s, nt_exp t ++ r = x :: s -> x <> 46%N).
Proof.
  intros [_ _ Hx] Hr. destruct Hx as [->|(x & sg & c & ds & -> & Hx & Hsg & Hds)]; cbn [app].
  - destruct r as [|c r]; [done|]. destruct Hr as (Hd & H1 & H2 & H3). cbn [scan_exp]. apply N.eqb_neq in H2, H3. rewrite H2, H3.
    split_and!; [done|done|by intros ? ? [= <- <-]].
  - split_and!; [|by destruct Hx as [->| ->]|by destruct Hx as [->| ->]; intros ? ? [= <- <-]].
    cbn [scan_exp]. assert ((x =? 101)%N || (x =? 69)%N = true) as -> by (by destruct Hx as [->| ->]).
    assert (forall q, span_digits ((c :: ds) ++ r) = q -> q = (c :: ds, r)) as Hspan.
    { intros q <-. apply span_digits_app; [done|by apply ends_no_digit]. }
    rewrite <- app_assoc. destruct Hsg as [->|[->| ->]]; cbn [app].
    + apply Forall_cons in Hds as [Hc _]. assert ((c =? 45)%N || (c =? 43)%N = false) as ->.
      { unfold is_digit in Hc. apply andb_true_iff in Hc as [?%N.leb_le ?%N.leb_le]. apply orb_false_iff. split; apply N.eqb_neq; lia. }
      by rewrite (Hspan _ eq_refl : span_digits (c :: ds ++ r) = _).
    + cbn [N.eqb Pos.eqb orb]. by rewrite (Hspan _ eq_refl : span_digits (c :: ds ++ r) = _).
    + cbn [N.eqb Pos.eqb orb]. by rewrite (Hspan _ eq_refl : span_digits (c :: ds ++ r) = _).
Qed.

Lemma scan_frac_app (t : numtok) r : tok_ok t -> no_digit r -> (forall x s, r = x :: s -> x <> 46%N) ->
  scan_frac (nt_frac t ++ r) = (nt_frac t, r) /\ no_digit (nt_frac t ++ r).
Proof.
  intros [_ Hf _] Hr Hdot. destruct Hf as [->|(c & ds & -> & Hds)]; cbn [app].
  - split; [|done]. destruct r as [|x r]; [done|]. cbn [scan_frac]. by rewrite (proj2 (N.eqb_neq x 46)) by (by eapply Hdot).
  - split; [|done]. cbn [scan_frac N.eqb Pos.eqb]. by rewrite (span_digits_app (c :: ds) r Hds Hr : span_digits (c :: ds ++ r) = _).
Qed.

(** A well-formed number is read to its end. *)
Lemma scan_number_text t r : tok_ok t -> ends r -> scan_number (tok_text t ++ r) = Some (t, r).
Proof.
  intros Ht Hr. destruct (scan_exp_app t r Ht Hr) as (Ex & Hn & Hd). destruct (scan_frac_app t _ Ht Hn Hd) as [Ef Hn'].
  assert (exists c ds, nt_int t = c :: ds /\ is_digit c = true /\ c <> 45%N /\
    (if (c =? 48)%N then ([c], ds ++ nt_frac t ++ nt_exp t ++ r) else span_digits (c :: ds ++ nt_frac t ++ nt_exp t ++ r)) = (nt_int t, nt_frac t ++ nt_exp t ++ r))
    as (c & ds & Ei & Hc & Hneg & Espan).
  { destruct (tk_int t Ht) as [E|(c & ds & E & Hc & Hds)]; [by exists 48%N, []; rewrite E|].
    apply andb_true_iff in Hc as [H1%N.leb_le H2%N.leb_le]. exists c, ds. rewrite E.
    assert (is_digit c = true) as Hdig by (unfold is_digit; apply andb_true_iff; split; apply N.leb_le; lia).
    split_and!; [done|done|lia|]. rewrite (proj2 (N.eqb_neq c 48)) by lia. apply (span_digits_app (c :: ds)); [by constructor|done]. }
  assert (tok_text t ++ r = (if nt_neg t then [45%N] else []) ++ c :: ds ++ nt_frac t ++ nt_exp t ++ r) as ->.
  { unfold tok_text. rewrite Ei. rewrite <- !app_assoc. done. }
  unfold scan_number. destruct t as [neg int frac expo]. cbn [nt_neg nt_int nt_frac nt_exp] in *.
  destruct neg; cbn [app N.eqb Pos.eqb]; [|rewrite (proj2 (N.eqb_neq c 45)) by done]; by rewrite Hc, Espan, Ef, Ex.
Qed.

Lemma to_N_digits d : digits (Byte.to_N <$> uint_bytes d).
Proof. induction d; constructor; done. Qed.

Lemma uint_head n : N.to_uint n = Decimal.D0 Decimal.Nil \/ exists c ds, Byte.to_N <$> uint_bytes (N.to_uint n) = c :: ds /\ (49 <=? c)%N && (c <=? 57)%N = true.
Proof.
  pose proof (DecimalN.Unsigned.to_of (N.to_uint n)) as E. rewrite DecimalN.Unsigned.of_to in E.
  destruct (N.to_uint n) as [|d|d|d|d|d|d|d|d|d|d]; try discriminate E; try (right; by eexists _, _).
  left. unfold Decimal.unorm in E. cbn [Decimal.nzhead] in E. pose proof (DecimalFacts.nzhead_nonzero d) as Hz.
  destruct (Decimal.nzhead d) eqn:En; try discriminate E; [by injection E as ->|]. by destruct (Hz u).
Qed.

Lemma int_tok z : exists t, int_text z = tok_text t /\ tok_ok t /\ nt_frac t ++ nt_exp t = [] /\ length (nt_int t) = int_digits z.
Proof.
  assert (forall n, (Byte.to_N <$> uint_bytes (N.to_uint n) = [48%N]) \/ (exists c ds, Byte.to_N <$> uint_bytes (N.to_uint n) = c :: ds /\
    (49 <=? c)%N && (c <=? 57)%N = true /\ digits ds)) as Hn.
  { intros n. destruct (uint_head n) as [->|(c & ds & E & Hc)]; [by left|]. right. exists c, ds. split_and!; [done..|].
    pose proof (to_N_digits (N.to_uint n)) as Hd. rewrite E in Hd. by apply Forall_cons in Hd as [_ ?]. }
  exists (mkTok (z <? 0) (Byte.to_N <$> uint_bytes (N.to_uint (Z.abs_N z))) [] []). split_and!; [|split; simpl; [apply Hn|by left..]|done|by destruct z].
  unfold int_text, dec, tok_text. simpl. rewrite app_nil_r. by destruct z.
Qed.

Lemma int_of_text z : int_of (int_text z) = Ok z.
Proof.
  unfold int_of, int_text. rewrite <- list_fmap_compose.
  replace ((fun c => byte_of_Z (Z.of_N c)) ∘ Byte.to_N <$> dec z) with (dec z); [apply py_int_dec|].
  symmetry. erewrite list_fmap_ext; [apply list_fmap_id|]. intros _ x _. apply byte_of_to_Z.
Qed.

(** * Values *)

Lemma json_induction {F} (P : json_of F -> Prop) :
  P JNull -> (forall b, P (JBool b)) -> (forall z, P (JInt z)) -> (forall x, P (JFloat x)) -> (forall s, P (JStr s)) ->
  (forall l, Forall P l -> P (JList l)) -> (forall d, Forall (fun kv => P kv.2) d -> P (JDict d)) -> forall v, P v.
Proof.
  intros Hn Hb Hi Hf Hs Hl Hd. fix IH 1. intros [ |b|z|x|s|l|d]; [done..| |].
  - apply Hl. induction l as [|v l IHl]; constructor; [apply IH|exact IHl].
  - apply Hd. induction d as [|[k v] d IHd]; constructor; [apply IH|exact IHd].
Qed.

(** The values that are read back as they were: their strings are clean and no
    [dict] has a key twice. *)
Fixpoint json_ok {F} (v : json_of F) : bool :=
  match v with
  | JStr s => clean s
  | JList l => forallb json_ok l
  | JDict d => forallb (fun kv => clean kv.1 && json_ok kv.2) d && bool_decide (NoDup d.*1)
  | _ => true
  end.

(** A separator: its character and blanks. *)
Definition sep_ok (c : N) (s : pystr) : Prop := exists w, s = c :: w /\ Forall (fun x => is_ws x = true) w.
Definition seps_ok (sep : separators) : Prop := sep_ok 44 (item_sep sep) /\ sep_ok 58 (key_sep sep).

Lemma default_seps_ok : seps_ok default_seps.
Proof. split; [exists [32%N]|exists [32%N]]; split; try done; by repeat constructor. Qed.

Lemma compact_seps_ok : seps_ok compact_seps.
Proof. split; exists []; split; try done; by repeat constructor. Qed.

Lemma skip_blanks w c r : Forall (fun x => is_ws x = true) w -> is_ws c = false -> skip_ws (w ++ c :: r) = c :: r.
Proof. intros Hw Hc. induction Hw as [|x w Hx _ IH]; simpl; [by rewrite Hc|by rewrite Hx]. Qed.

Lemma dict_set_new {A} k (v : A) d : k ∉ d.*1 -> dict_set k v d = d ++ [(k, v)].
Proof.
  induction d as [|[k' v'] d IH]; [done|]. csimpl. intros [Hne Hk]%not_elem_of_cons. rewrite bool_decide_false by congruence. by rewrite IH.
Qed.

Lemma dict_of_nodup {A} (d : list (pystr * A)) : NoDup d.*1 -> dict_of d = d.
Proof.
  unfold dict_of. intros Hnd. assert (forall acc, NoDup (acc ++ d).*1 -> foldl (fun d kv => dict_set kv.1 kv.2 d) acc d = acc ++ d) as H; [|by apply (H [])].
  clear Hnd. induction d as [|[k v] d IH]; intros acc Hnd; [by rewrite app_nil_r|]. csimpl.
  rewrite dict_set_new.
  - rewrite IH by (by rewrite <- app_assoc). by rewrite <- app_assoc.
  - rewrite fmap_app, NoDup_app in Hnd. destruct Hnd as (_ & Hd & _). intros Hk. apply (Hd _ Hk). csimpl. by left.
Qed.

Section values.
Context {F : Type} `{FloatTextLaws F} `{L : PyLimits} (sep : separators) (Hsep : seps_ok sep).
Abbreviation js := (json_of F).
Implicit Types (v : js) (rest : pystr).

Lemma tok_head t : tok_ok t -> exists c r, tok_text t = c :: r /\ (c = 45%N \/ is_digit c = true).
Proof.
  intros Ht. unfold tok_text. destruct (nt_neg t); [by eexists _, _; eauto|].
  destruct (tk_int t Ht) as [->|(c & ds & -> & Hc & _)]; [by eexists _, _; eauto|]. eexists _, _. split; [reflexivity|right].
  unfold is_digit. apply andb_true_iff in Hc as [?%N.leb_le ?%N.leb_le]. apply andb_true_iff. split; apply N.leb_le; lia.
Qed.

(** The first character of a number starts nothing else. *)
Lemma number_char c : c = 45%N \/ is_digit c = true ->
  is_ws c = false /\ (c =? 34)%N = false /\ (c =? 123)%N = false /\ (c =? 91)%N = false /\ (c =? 93)%N = false /\ (c =? 125)%N = false /\
  (110 =? c)%N = false /\ (116 =? c)%N = false /\ (102 =? c)%N = false /\ (c =? 0xFEFF)%N = false.
Proof.
  intros [->|Hc]; [done|]. unfold is_digit in Hc. apply andb_true_iff in Hc as [?%N.leb_le ?%N.leb_le].
  unfold is_ws. rewrite !orb_false_iff, !N.eqb_neq. lia.
Qed.

Lemma scan_other_number t rest : tok_ok t -> ends rest ->
  scan_other (F := F) (tok_text t ++ rest) =
    match nt_frac t ++ nt_exp t with
    | [] => if digits_allowed (length (nt_int t)) then z ← int_of (tok_text t); Ok (JInt z, rest) else Raise ValueError
    | _ => Ok (JFloat (float_of (tok_text t)), rest)
    end.
Proof.
  intros Ht Hr. pose proof (scan_number_text t rest Ht Hr) as E. destruct (tok_head t Ht) as (c & r & Et & Hc).
  destruct (number_char c Hc) as (_ & _ & _ & _ & _ & _ & H1 & H2 & H3 & _). unfold scan_other.
  assert (forall text x xs, text = x :: xs -> (x =? c)%N = false -> strip_prefix text (tok_text t ++ rest) = None) as Hno.
  { intros text x xs -> Hx. rewrite Et. simpl. by rewrite Hx. }
  rewrite (Hno (str "null") 110%N _ eq_refl), (Hno (str "true") 116%N _ eq_refl), (Hno (str "false") 102%N _ eq_refl) by done. by rewrite E.
Qed.

Lemma dumps_head v : exists c r, dumps sep v = c :: r /\ is_ws c = false /\ (c =? 93)%N = false /\ (c =? 125)%N = false /\ (c =? 0xFEFF)%N = false.
Proof.
  assert (forall t, tok_ok t -> exists c r, tok_text t = c :: r /\ is_ws c = false /\ (c =? 93)%N = false /\ (c =? 125)%N = false /\ (c =? 0xFEFF)%N = false) as Hnum.
  { intros t Ht. destruct (tok_head t Ht) as (c & r & -> & Hc). destruct (number_char c Hc) as (? & _ & _ & _ & ? & ? & _ & _ & _ & ?). by eexists _, _. }
  destruct v as [ |[]|z|x|s|l|d]; cbn [dumps]; try by eexists _, _.
  - destruct (int_tok z) as (t & -> & Ht & _). by apply Hnum.
  - destruct (fl_special x) as [[]|] eqn:Es; [by eexists _, _..|]. destruct (float_repr_tok x Es) as (t & -> & Ht & _). by apply Hnum.
Qed.

Lemma skip_ws_dumps v rest : skip_ws (dumps sep v ++ rest) = dumps sep v ++ rest.
Proof. destruct (dumps_head v) as (c & r & -> & Hc & _). simpl. by rewrite Hc. Qed.

(** Reading a value that was written, with anything that ends it after it. *)
Definition reads v : Prop := forall depth fuel rest, writable depth v = Ok tt -> ends rest -> (length (dumps sep v) <= fuel)%nat ->
  scan_once depth fuel (dumps sep v ++ rest) = Ok (v, rest).

Lemma each_cons {A} (f : A -> res unit) x l : each f (x :: l) = Ok tt <-> f x = Ok tt /\ each f l = Ok tt.
Proof. simpl. destruct (f x) as [[]|]; simpl; [tauto|]. split; [done|by intros [? _]]. Qed.

Lemma enter_ok (depth : option nat) (f : option nat -> res unit) : (depth' ← enter depth; f depth') = Ok tt -> exists depth', enter depth = Ok depth' /\ f depth' = Ok tt.
Proof. destruct (enter depth) as [depth'|]; [|done]. by exists depth'. Qed.

Lemma scan_plain depth fuel c r : (c =? 34)%N = false -> (c =? 123)%N = false -> (c =? 91)%N = false -> scan_once depth (S fuel) (c :: r) = scan_other (F := F) (c :: r).
Proof. intros H1 H2 H3. cbn [scan_once]. by rewrite H1, H2, H3. Qed.

Lemma reads_number t depth fuel rest : tok_ok t -> ends rest -> (length (tok_text t) <= fuel)%nat ->
  scan_once depth fuel (tok_text t ++ rest) = scan_other (F := F) (tok_text t ++ rest).
Proof.
  intros Ht Hr Hf. destruct (tok_head t Ht) as (c & r & E & Hc). rewrite E in *. destruct (number_char c Hc) as (_ & H1 & H2 & H3 & _).
  destruct fuel; [simpl in Hf; lia|]. by apply scan_plain.
Qed.

Lemma scan_items_dumps (l : list js) depth fuel rest :
  Forall reads l -> each (writable depth) l = Ok tt -> l <> [] -> (length (join (item_sep sep) (dumps sep <$> l)) < fuel)%nat ->
  scan_items depth fuel (join (item_sep sep) (dumps sep <$> l) ++ 93%N :: rest) = Ok (l, rest).
Proof.
  intros Hl. revert fuel. induction Hl as [|v l Hv Hl IH]; intros fuel Hw Hne Hf; [done|]. apply each_cons in Hw as [Hwv Hwl]. destruct fuel as [|fuel]; [lia|].
  destruct l as [|v' l].
  - cbn [fmap list_fmap join] in *. cbn [scan_items]. rewrite Hv by (done || lia). done.
  - destruct Hsep as [(w & Ew & Hblank) _].
    change (join (item_sep sep) (dumps sep <$> v :: v' :: l)) with (dumps sep v ++ item_sep sep ++ join (item_sep sep) (dumps sep <$> v' :: l)) in *.
    rewrite !length_app in Hf. rewrite <- !app_assoc. rewrite Ew in *. cbn [length] in Hf. cbn [scan_items]. rewrite Hv by (done || lia).
    cbn [mbind result_bind app skip_ws is_ws N.eqb Pos.eqb orb].
    destruct (dumps_head v') as (c & r & Eh & Hc & _).
    assert (exists r', join (44%N :: w) (dumps sep <$> v' :: l) = c :: r') as [r' Ej].
    { destruct l; csimpl; rewrite Eh; by eexists. }
    rewrite Ej in IH, Hf |- *. cbn [app]. rewrite skip_blanks by done.
    by rewrite (IH fuel Hwl ltac:(done) ltac:(simpl in *; lia) : scan_items depth fuel (c :: r' ++ 93%N :: rest) = _).
Qed.

(** The text of an entry. *)
Definition entry (kv : pystr * js) : pystr := quote kv.1 ++ key_sep sep ++ dumps sep kv.2.

Lemma scan_pairs_key depth fuel r :
  scan_pairs (F := F) depth (S fuel) (34%N :: r) =
    ('(k, r) ← scan_string r;
     match skip_ws r with
     | x :: r =>
         if (x =? 58)%N then
           '(v, r) ← scan_once depth fuel (skip_ws r);
           match skip_ws r with
           | y :: rest =>
               if (y =? 125)%N then Ok ([(k, v)], rest)
               else if (y =? 44)%N then '(d, rest) ← scan_pairs depth fuel (skip_ws rest); Ok ((k, v) :: d, rest)
               else Raise JSONDecodeError
           | [] => Raise JSONDecodeError
           end
         else Raise JSONDecodeError
     | [] => Raise JSONDecodeError
     end).
Proof. reflexivity. Qed.

Lemma scan_pairs_dumps (d : list (pystr * js)) depth fuel rest :
  Forall (fun kv => clean kv.1 = true /\ reads kv.2) d -> each (fun kv => writable depth kv.2) d = Ok tt -> d <> [] -> (length (join (item_sep sep) (entry <$> d)) < fuel)%nat ->
  scan_pairs depth fuel (join (item_sep sep) (entry <$> d) ++ 125%N :: rest) = Ok (d, rest).
Proof.
  intros Hl. revert fuel. induction Hl as [|[k v] d [Hk Hv] Hl IH]; intros fuel Hwr Hne Hf; [done|]. apply each_cons in Hwr as [Hwv Hwd]. destruct fuel as [|fuel]; [lia|]. simpl in Hk, Hv.
  destruct Hsep as [(w & Ew & Hw) (wk & Ek & Hwk)]. destruct (dumps_head v) as (cv & rv & Ev & Hcv & _).
  assert (forall tail, ends tail -> (length (dumps sep v) <= fuel)%nat -> scan_pairs depth (S fuel) (entry (k, v) ++ tail) =
    match skip_ws tail with
    | y :: rest => if (y =? 125)%N then Ok ([(k, v)], rest) else if (y =? 44)%N then '(d, rest) ← scan_pairs depth fuel (skip_ws rest); Ok ((k, v) :: d, rest) else Raise JSONDecodeError
    | [] => Raise JSONDecodeError end) as Hentry.
  { intros tail Ht Hlen. unfold entry, quote. cbn [fst snd]. rewrite <- !app_assoc. cbn [app]. rewrite scan_pairs_key.
    rewrite scan_string_esc by done. cbn [mbind result_bind]. rewrite Ek. cbn [app skip_ws is_ws N.eqb Pos.eqb orb].
    rewrite Ev. cbn [app]. rewrite skip_blanks by done.
    pose proof (Hv depth fuel tail Hwv Ht Hlen) as E. rewrite Ev in E. cbn [app] in E. by rewrite E. }
  assert (length (dumps sep v) <= length (entry (k, v)))%nat as He by (unfold entry; rewrite !length_app; simpl; lia).
  destruct d as [|kv' d].
  - cbn [fmap list_fmap join] in *. rewrite Hentry by (done || lia). done.
  - change (join (item_sep sep) (entry <$> (k, v) :: kv' :: d)) with (entry (k, v) ++ item_sep sep ++ join (item_sep sep) (entry <$> kv' :: d)) in *.
    rewrite !length_app in Hf. rewrite <- !app_assoc.
    assert (exists r', join (item_sep sep) (entry <$> kv' :: d) = 34%N :: r') as [r' Ej] by (destruct d; by eexists).
    rewrite Ej in IH, Hf |- *. rewrite Ew in *. cbn [length] in Hf. rewrite Hentry by (done || lia).
    cbn [app skip_ws is_ws N.eqb Pos.eqb orb]. rewrite skip_blanks by done.
    rewrite (IH fuel Hwd ltac:(done) ltac:(cbn [length]; lia) : scan_pairs depth fuel (34%N :: r' ++ 125%N :: rest) = _). done.
Qed.

Lemma dumps_reads v : json_ok v = true -> reads v.
Proof.
  induction v as [ |b|z|x|s|l IH|d IH] using json_induction; intros Hok depth fuel rest Hw Hr Hf.
  - destruct fuel; [simpl in Hf; lia|]. done.
  - destruct fuel; [destruct b; simpl in Hf; lia|]. by destruct b.
  - cbn [dumps] in *. destruct (int_tok z) as (t & E & Ht & En & Ed). pose proof (int_of_text z) as Hz. rewrite E in Hz, Hf |- *.
    rewrite reads_number, scan_other_number, En, Hz by done. rewrite Ed. cbn [writable] in Hw. by destruct (digits_allowed _).
  - cbn [dumps] in *. destruct (fl_special x) as [sp|] eqn:Es.
    + rewrite (float_special x sp Es). destruct sp; (destruct fuel; [simpl in Hf; lia|]; done).
    + destruct (float_repr_tok x Es) as (t & E & Ht & En). pose proof (float_repr_of x Es) as Hx. rewrite E in Hx, Hf |- *.
      rewrite reads_number, scan_other_number by done. destruct (nt_frac t ++ nt_exp t); [done|]. by rewrite Hx.
  - destruct fuel; [simpl in Hf; lia|]. cbn [dumps]. unfold quote. rewrite <- !app_assoc. cbn [app scan_once N.eqb Pos.eqb].
    by rewrite scan_string_esc.
  - cbn [dumps] in *. rewrite !length_app in Hf. cbn [length] in Hf. destruct fuel as [|fuel]; [lia|].
    rewrite <- !app_assoc. destruct l as [|v l]; [by apply enter_ok in Hw as (depth' & Ed & _); cbn; rewrite Ed|]. set (l' := v :: l) in *.
    apply enter_ok in Hw as (depth' & Ed & Hw).
    assert (scan_items depth' fuel (join (item_sep sep) (dumps sep <$> l') ++ 93%N :: rest) = Ok (l', rest)) as E.
    { apply scan_items_dumps; [|exact Hw|done|lia]. cbn [json_ok] in Hok. rewrite forallb_forall in Hok. rewrite Forall_forall in IH |- *.
      intros y Hy. apply IH; [done|]. by apply Hok, list_elem_of_In. }
    destruct (dumps_head v) as (c & r & Eh & Hc & H93 & _ & _).
    assert (exists r', join (item_sep sep) (dumps sep <$> l') = c :: r') as [r' Ej] by (unfold l'; destruct l; csimpl; rewrite Eh; by eexists).
    rewrite Ej in E |- *. cbn [app] in E |- *. change (scan_once depth (S fuel) (91%N :: c :: r' ++ 93%N :: rest)) with
      (depth ← enter depth;
       match skip_ws (c :: r' ++ 93%N :: rest) with
       | x :: q => if (x =? 93)%N then Ok (JList [], q) else '(l, q) ← scan_items depth fuel (skip_ws (c :: r' ++ 93%N :: rest)); Ok (JList l, q)
       | [] => Raise JSONDecodeError end : res (js * pystr)).
    rewrite Ed. cbn [mbind result_bind skip_ws]. rewrite Hc, H93. by rewrite E.
  - cbn [dumps] in *. rewrite !length_app in Hf. cbn [length] in Hf. destruct fuel as [|fuel]; [lia|].
    rewrite <- !app_assoc. destruct d as [|kv d]; [by apply enter_ok in Hw as (depth' & Ed & _); cbn; rewrite Ed|]. set (d' := kv :: d) in *.
    change (join (item_sep sep) (_ <$> d')) with (join (item_sep sep) (entry <$> d')) in Hf |- *.
    cbn [json_ok] in Hok. apply andb_true_iff in Hok as [Hok Hnd%bool_decide_eq_true].
    apply enter_ok in Hw as (depth' & Ed & Hw).
    assert (scan_pairs depth' fuel (join (item_sep sep) (entry <$> d') ++ 125%N :: rest) = Ok (d', rest)) as E.
    { apply scan_pairs_dumps; [|exact Hw|done|lia]. rewrite forallb_forall in Hok. rewrite Forall_forall in IH |- *.
      intros y Hy. pose proof (Hok y (proj1 (list_elem_of_In _ _) Hy)) as [? ?]%andb_true_iff. split; [done|]. by apply IH. }
    assert (exists r', join (item_sep sep) (entry <$> d') = 34%N :: r') as [r' Ej] by (unfold d'; destruct d; by eexists).
    rewrite Ej in E |- *. cbn [app] in E |- *.
    change (scan_once depth (S fuel) (123%N :: 34%N :: r' ++ 125%N :: rest)) with
      (depth ← enter depth; '(d, q) ← scan_pairs depth fuel (34%N :: r' ++ 125%N :: rest); Ok (JDict (dict_of d), q) : res (js * pystr)).
    rewrite Ed. cbn [mbind result_bind]. rewrite E. cbn [mbind result_bind]. by rewrite dict_of_nodup.
Qed.

(** Reading back what was written. *)
Lemma loads_dumps_within v : json_ok v = true -> writable recursion_left v = Ok tt -> loads (dumps sep v) = Ok v.
Proof.
  intros Hok Hw. unfold loads. destruct (dumps_head v) as (c & r & Eh & Hc & _ & _ & Hb).
  pose proof (dumps_reads v Hok recursion_left (2 * length (dumps sep v))%nat [] Hw I ltac:(lia)) as E. rewrite app_nil_r in E.
  pose proof (skip_ws_dumps v []) as Es. rewrite app_nil_r in Es. rewrite Eh in *. rewrite Hb. by rewrite Es, E.
Qed.

End values.

(** With the limits lifted everything can be written. *)
Lemma writable_unlimited {F} (v : json_of F) : writable None v = Ok tt.
Proof.
  induction v as [ |b|z|x|s|l IH|d IH] using json_induction; try done; cbn [writable enter mbind result_bind].
  - induction IH as [|v l Hv Hl IHl]; [done|]. by apply each_cons.
  - induction IH as [|kv d Hv Hl IHl]; [done|]. by apply each_cons.
Qed.

Lemma loads_dumps {F} `{FloatTextLaws F} sep (Hsep : seps_ok sep) (v : json_of F) : json_ok v = true -> loads (dumps sep v) = Ok v.
Proof. intros Hok. apply (loads_dumps_within (L := unlimited)); [done|done|apply writable_unlimited]. Qed.

(** * Reading always ends *)

(** What is left of a text after at least one character of it. *)
Definition strict (rest s : pystr) : Prop := rest `suffix_of` s /\ (length rest < length s)%nat.

Lemma strict_suffix rest s : strict rest s -> rest `suffix_of` s.
Proof. by intros [? _]. Qed.

Lemma strict_cons c rest s : rest `suffix_of` s -> strict rest (c :: s).
Proof. intros Hs. split; [by apply suffix_cons_r|]. apply suffix_length in Hs. simpl. lia. Qed.

Lemma strict_trans rest q s : rest `suffix_of` q -> strict q s -> strict rest s.
Proof. intros Hr [Hq Hl]. split; [by etrans|]. apply suffix_length in Hr. lia. Qed.

Lemma strict_split rest s t : s = t ++ rest -> t <> [] -> strict rest s.
Proof. intros -> Ht. split; [by apply suffix_app_r|]. rewrite length_app. destruct t; [done|]. simpl. lia. Qed.

Lemma skip_ws_suffix s : skip_ws s `suffix_of` s.
Proof. induction s as [|c s IH]; simpl; [done|]. destruct (is_ws c); [by apply suffix_cons_r|done]. Qed.

(** [tails]: one text is left of another by the steps in the context; [lens]: how
    long such texts are. *)
Ltac tails :=
  lazymatch goal with
  | |- ?a `suffix_of` ?a => reflexivity
  | H : strict ?a ?b |- ?a `suffix_of` _ => etrans; [exact (strict_suffix _ _ H)|clear H; tails]
  | H : ?a `suffix_of` ?b |- ?a `suffix_of` _ => etrans; [exact H|clear H; tails]
  | H : (?x :: ?a) `suffix_of` ?b |- ?a `suffix_of` _ => etrans; [exact (suffix_cons_r a a x (reflexivity a))|etrans; [exact H|clear H; tails]]
  | |- skip_ws ?a `suffix_of` _ => etrans; [apply skip_ws_suffix|tails]
  | |- _ `suffix_of` (_ :: _) => apply suffix_cons_r; tails
  | |- strict _ (_ :: _) => apply strict_cons; tails
  | H : strict ?a ?s |- strict ?a ?s => exact H
  | H : strict ?q ?s |- strict ?a ?s => apply (strict_trans a q s); [tails|exact H]
  end.

Ltac lens :=
  repeat match goal with
  | H : strict _ _ |- _ => destruct H as [_ H]
  | H : _ `suffix_of` _ |- _ => apply suffix_length in H
  end; simpl in *; lia.

(** The limits of the interpreter in a text: a run of more digits than an integer
    may have, more lists and dicts than may be entered. *)
Definition bracket (c : N) : bool := (c =? 123)%N || (c =? 91)%N.
Definition brackets (s : list N) : nat := length (base.filter (fun c => bracket c = true) s).

Definition long_digits `{PyLimits} (s : pystr) : Prop :=
  exists a ds b, s = a ++ ds ++ b /\ digits ds /\ digits_allowed (length ds) = false.

Definition limit_met `{PyLimits} (depth : option nat) (s : pystr) (e : exn) : Prop :=
  e = ValueError /\ long_digits s \/ e = RecursionError /\ exists n, depth = Some n /\ (n < brackets s)%nat.

Lemma limit_met_suffix `{PyLimits} depth s s' e : s' `suffix_of` s -> limit_met depth s' e -> limit_met depth s e.
Proof.
  intros [t ->] [[-> (a & ds & b & -> & Hd & Hl)]|[-> (n & -> & Hn)]]; [left|right]; split; [done| |done|].
  - exists (t ++ a), ds, b. by rewrite <- app_assoc.
  - exists n. split; [done|]. unfold brackets in *. rewrite list.filter_app, length_app. lia.
Qed.

Lemma limit_met_enter `{PyLimits} depth depth' c s e : enter depth = Ok depth' -> bracket c = true -> limit_met depth' s e -> limit_met depth (c :: s) e.
Proof.
  intros Ed Hc [[-> (a & ds & b & -> & Hd & Hl)]|[-> (n & -> & Hn)]]; [left|right]; (split; [done|]).
  - by exists (c :: a), ds, b.
  - unfold brackets in *. rewrite filter_cons_True by done. destruct depth as [[|m]|]; simplify_eq/=. eexists. split; [done|]. simpl. lia.
Qed.

Lemma enter_raise `{PyLimits} depth c s e : enter depth = Raise e -> bracket c = true -> limit_met depth (c :: s) e.
Proof.
  destruct depth as [[|m]|]; intros [= <-] Hc. right. split; [done|]. exists O. split; [done|]. unfold brackets. rewrite filter_cons_True by done. simpl. lia.
Qed.

(** A scan from [s]: it reads something, or the text is not JSON, or a limit is met. *)
Definition progress `{PyLimits} {A} (depth : option nat) (s : pystr) (r : res (A * pystr)) : Prop :=
  match r with Ok (_, rest) => strict rest s | Raise e => e = JSONDecodeError \/ limit_met depth s e end.

Lemma progress_bind `{PyLimits} {A B} depth s s' (r : res (A * pystr)) (f : A * pystr -> res (B * pystr)) :
  progress depth s' r -> s' `suffix_of` s -> (forall a rest, strict rest s' -> progress depth s (f (a, rest))) -> progress depth s (r ≫= f).
Proof. destruct r as [[a rest]|e]; simpl; [by auto|]. intros [->|Hl] Hs _; [by left|right]. by eapply limit_met_suffix. Qed.

(** Reading what a list or a dict holds, one step deeper. *)
Lemma progress_enter `{PyLimits} {A B} depth depth' c s s' (r : res (A * pystr)) (f : A * pystr -> res (B * pystr)) :
  enter depth = Ok depth' -> bracket c = true -> progress depth' s' r -> s' `suffix_of` s ->
  (forall a rest, strict rest s' -> progress depth (c :: s) (f (a, rest))) -> progress depth (c :: s) (r ≫= f).
Proof.
  intros Ed Hc. destruct r as [[a rest]|e]; simpl; [by auto|]. intros [->|Hl] Hs _; [by left|right].
  eapply limit_met_enter; [done..|]. by eapply limit_met_suffix.
Qed.

Lemma unhex4_total a b c d : (exists u, unhex4 a b c d = Ok u) \/ unhex4 a b c d = Raise JSONDecodeError.
Proof. unfold unhex4. destruct (hex_value a), (hex_value b), (hex_value c), (hex_value d); eauto. Qed.

Lemma scan_string_progress `{PyLimits} depth s : progress depth s (scan_string s).
Proof.
  assert (forall n s, (length s <= n)%nat -> progress depth s (scan_string s)) as Hn; [|by eapply Hn].
  clear s. induction n as [|n IH]; intros s Hs; (destruct s as [|c r]; [by left|simpl in Hs; try lia]).
  assert (forall q (f : pystr -> pystr), q `suffix_of` r -> progress depth (c :: r) ('(t, rest) ← scan_string q; Ok (f t, rest))) as Hq.
  { intros q f Hq. eapply progress_bind; [apply IH; apply suffix_length in Hq; lia|tails|]. intros t rest Hr. cbn [progress]. tails. }
  cbn [scan_string]. destruct (c =? 34)%N; [cbn [progress]; tails|]. destruct (c =? 92)%N; [|destruct (c <? 32)%N; [by left|by apply Hq]].
  destruct r as [|e r1]; [by left|]. destruct (e =? 117)%N.
  - destruct r1 as [|a [|b [|c1 [|d r2]]]]; try by left. destruct (unhex4_total a b c1 d) as [[u ->]| ->]; [|by left]. cbn [mbind result_bind].
    assert (progress depth (c :: e :: a :: b :: c1 :: d :: r2) ('(t, rest) ← scan_string r2; Ok (Z.to_N u :: t, rest))) as Hsingle.
    { apply (Hq r2 (cons (Z.to_N u))). tails. }
    destruct (is_high u); [|done]. destruct r2 as [|x [|y [|a' [|b' [|c' [|d' r3]]]]]]; try exact Hsingle.
    destruct ((x =? 92)%N && (y =? 117)%N); [|done]. destruct (unhex4_total a' b' c' d') as [[v ->]| ->]; [|by left].
    cbn [mbind result_bind]. destruct (is_low v); [|done]. apply (Hq r3 (cons _)). tails.
  - unfold unescape. repeat case_match; cbn [mbind result_bind]; first [by left | apply (Hq r1 (cons _)); tails].
Qed.

Lemma strip_prefix_split t s r : strip_prefix t s = Some r -> s = t ++ r.
Proof.
  revert s. induction t as [|x t IH]; intros [|y s]; simpl; try done; [by intros [= <-]..|].
  destruct (N.eqb_spec x y) as [->|]; [|done]. by intros ->%IH.
Qed.

Lemma span_digits_split s ds r : span_digits s = (ds, r) -> s = ds ++ r /\ digits ds.
Proof.
  revert ds. induction s as [|c s IH]; intros ds; simpl; [by intros [= <- <-]|]. destruct (is_digit c) eqn:Hc; [|by intros [= <- <-]].
  destruct (span_digits s) as [ds' r'] eqn:E. intros [= <- <-]. destruct (IH _ eq_refl) as [-> Hd]. split; [done|by constructor].
Qed.

Lemma scan_frac_split s f r : scan_frac s = (f, r) -> s = f ++ r.
Proof.
  unfold scan_frac. destruct s as [|c s]; [by intros [= <- <-]|]. destruct (c =? 46)%N; [|by intros [= <- <-]].
  destruct (span_digits s) as [[|d ds] r'] eqn:E; intros [= <- <-]; [done|]. by apply span_digits_split in E as [-> _].
Qed.

Lemma scan_exp_split s f r : scan_exp s = (f, r) -> s = f ++ r.
Proof.
  unfold scan_exp. destruct s as [|c s]; [by intros [= <- <-]|]. destruct (_ || _); [|by intros [= <- <-]].
  set (p := match s with x :: r' => _ | [] => _ end). assert (s = p.1 ++ p.2) as Hs.
  { unfold p. destruct s as [|x s']; [done|]. by destruct (_ || _). }
  destruct p as [sg s']. simpl in Hs. destruct (span_digits s') as [[|d ds] r'] eqn:E; intros [= <- <-]; [done|].
  apply span_digits_split in E as [-> _]. rewrite Hs. simpl. by rewrite <- app_assoc.
Qed.

Lemma scan_number_split s t r : scan_number s = Some (t, r) -> s = tok_text t ++ r /\ nt_int t <> [] /\ digits (nt_int t).
Proof.
  unfold scan_number. set (p := match s with c :: r => _ | [] => _ end).
  assert (s = (if p.1 then [45%N] else []) ++ p.2) as Hs.
  { unfold p. destruct s as [|c s']; [done|]. by destruct (N.eqb_spec c 45) as [->|]. }
  destruct p as [neg s1]. simpl in Hs. destruct s1 as [|c s1]; [done|]. destruct (is_digit c) eqn:Hc; [|done].
  set (q := if (c =? 48)%N then _ else _). assert (c :: s1 = q.1 ++ q.2 /\ q.1 <> [] /\ digits q.1) as (Hq & Hne & Hd).
  { unfold q. destruct (c =? 48)%N; [split_and!; [done|done|by repeat constructor]|].
    destruct (span_digits (c :: s1)) as [ds r'] eqn:E. destruct (span_digits_split _ _ _ E) as [Es Hd]. split_and!; [done| |done].
    simpl in E. rewrite Hc in E. destruct (span_digits s1). by injection E as <- <-. }
  destruct q as [ds r1]. simpl in Hq, Hne, Hd. destruct (scan_frac r1) as [f r2] eqn:Ef. destruct (scan_exp r2) as [x r3] eqn:Ex.
  intros [= <- <-]. simpl. split_and!; [|done|done]. apply scan_frac_split in Ef as ->. apply scan_exp_split in Ex as ->.
  unfold tok_text. simpl. rewrite Hs, Hq. by rewrite <- !app_assoc.
Qed.

Lemma parse_digit_codes ds b : digits ds -> ds <> [] \/ b = true ->
  exists u, parse_digits b ((fun c => byte_of_Z (Z.of_N c)) <$> ds) = Some u /\ Decimal.nb_digits u = length ds.
Proof.
  intros Hd. revert b. induction Hd as [|c ds Hc _ IH]; intros b Hb; [destruct Hb as [| ->]; [done|by eexists]|]. csimpl.
  assert (exists f, digit (byte_of_Z (Z.of_N c)) = Some f /\ forall u, Decimal.nb_digits (f u) = S (Decimal.nb_digits u)) as (f & -> & Hf).
  { unfold is_digit in Hc. apply andb_true_iff in Hc as [?%N.leb_le ?%N.leb_le].
    assert (exists i : nat, (i < 10)%nat /\ c = (48 + N.of_nat i)%N) as (i & Hi & ->) by (exists (N.to_nat (c - 48)); lia).
    do 10 (destruct i as [|i]; [by eexists|]). lia. }
  destruct (IH true) as (u & -> & Hu); [by right|]. eexists. split; [done|]. rewrite Hf. simpl. congruence.
Qed.

(** Leading zeros apart, a number has the digits it was read from. *)
Lemma int_digits_of u (neg : bool) : u <> Decimal.Nil -> (int_digits (Z.of_int (if neg then Decimal.Neg u else Decimal.Pos u)) <= Decimal.nb_digits u)%nat.
Proof.
  intros Hu. assert (forall d, length (uint_bytes d) = Decimal.nb_digits d) as Hlen by (induction d; simpl; congruence).
  assert (forall z, int_digits z = Decimal.nb_digits (N.to_uint (Z.abs_N z))) as ->.
  { intros z. unfold int_digits, int_text. rewrite length_fmap. unfold dec. destruct z; [done|..]; by rewrite <- Hlen. }
  assert (Z.abs_N (Z.of_int (if neg then Decimal.Neg u else Decimal.Pos u)) = N.of_uint u) as ->.
  { destruct neg; unfold Z.of_int, Z.of_uint, N.of_uint; rewrite ?Zabs2N.inj_opp; by rewrite Zabs2N.id. }
  rewrite DecimalN.Unsigned.to_of. by apply DecimalFacts.nb_digits_unorm.
Qed.

Lemma int_of_tok t : nt_frac t ++ nt_exp t = [] -> nt_int t <> [] -> digits (nt_int t) ->
  exists z, int_of (tok_text t) = Ok z /\ (int_digits z <= length (nt_int t))%nat.
Proof.
  intros En Hne Hd. assert (nt_frac t = [] /\ nt_exp t = []) as [Ef Ee] by (by apply app_nil in En).
  unfold tok_text. rewrite Ef, Ee, !app_nil_r. destruct (parse_digit_codes (nt_int t) false Hd (or_introl Hne)) as (u & Eu & Hu).
  assert (u <> Decimal.Nil) as Hnil by (intros ->; by destruct (nt_int t)). rewrite <- Hu.
  assert (forall ds, digits ds -> Forall (fun x => is_space x = false /\ x <> x2d /\ x <> x2b) ((fun c => byte_of_Z (Z.of_N c)) <$> ds)) as Hsp.
  { intros ds Hds. apply Forall_fmap. eapply Forall_impl; [exact Hds|]. intros c Hc. simpl. unfold is_digit in Hc. apply andb_true_iff in Hc as [?%N.leb_le ?%N.leb_le].
    assert (exists i : nat, (i < 10)%nat /\ c = (48 + N.of_nat i)%N) as (i & Hi & ->) by (exists (N.to_nat (c - 48)); lia).
    do 10 (destruct i as [|i]; [by vm_compute|]). lia. }
  specialize (Hsp _ Hd). unfold int_of, py_int. destruct (nt_neg t).
  - change ((fun c => byte_of_Z (Z.of_N c)) <$> [45%N] ++ nt_int t) with (x2d :: ((fun c => byte_of_Z (Z.of_N c)) <$> nt_int t)).
    rewrite strip_id; [|constructor; [done|eapply Forall_impl; [exact Hsp|by intros ? [? _]]]].
    rewrite Eu. eexists. split; [done|]. by apply (int_digits_of u true).
  - cbn [app]. rewrite strip_id; [|eapply Forall_impl; [exact Hsp|by intros ? [? _]]].
    revert Hsp Eu. generalize ((fun c => byte_of_Z (Z.of_N c)) <$> nt_int t). intros [|x bs] Hsp Eu; [done|].
    apply Forall_cons in Hsp as [(_ & H1 & H2) _]. destruct x; try done; rewrite Eu; (eexists; split; [done|]; by apply (int_digits_of u false)).
Qed.

Section total.
Context {F : Type} `{FloatText F} `{L : PyLimits}.

Lemma scan_other_progress depth s : progress depth s (scan_other (F := F) s).
Proof.
  unfold scan_other.
  repeat match goal with
  | |- context [strip_prefix ?t s] => destruct (strip_prefix t s) eqn:?; [match goal with E : strip_prefix _ _ = Some _ |- _ => apply strip_prefix_split in E; by eapply strict_split end|]
  | |- context [scan_number s] => destruct (scan_number s) as [[t r]|] eqn:En
  end; try by left.
  destruct (scan_number_split _ _ _ En) as (Es & Hne & Hd). assert (strict r s) as Hlen.
  { apply (strict_split _ _ _ Es). unfold tok_text. intros [_ [E _]%app_nil]%app_nil. done. }
  destruct (nt_frac t ++ nt_exp t) eqn:Ef; [|done]. destruct (digits_allowed _) eqn:Ea.
  - destruct (int_of_tok t Ef Hne Hd) as (z & -> & _). done.
  - right. left. split; [done|]. rewrite Es. unfold tok_text. rewrite <- !app_assoc. by eexists _, (nt_int t), _.
Qed.

Lemma scan_total fuel depth :
  (forall s, (2 * length s <= fuel)%nat -> progress depth s (scan_once (F := F) depth fuel s)) /\
  (forall s, (2 * length s < fuel)%nat -> progress depth s (scan_items (F := F) depth fuel s)) /\
  (forall s, (2 * length s < fuel)%nat -> progress depth s (scan_pairs (F := F) depth fuel s)).
Proof.
  revert depth. induction fuel as [|fuel IH]; intros depth.
  { split_and!; [|intros s Hs; lia..]. intros [|c s] Hs; [by left|simpl in Hs; lia]. }
  destruct (IH depth) as (IHo & IHi & IHp). split_and!.
  - intros [|c r] Hs; [by left|]. simpl in Hs. pose proof (skip_ws_suffix r) as Hw. cbn [scan_once].
    destruct (c =? 34)%N; [|destruct (c =? 123)%N eqn:Ec; [|destruct (c =? 91)%N eqn:Ec'; [|apply scan_other_progress]]].
    + eapply progress_bind; [apply scan_string_progress|tails|]. intros t rest Hr. cbn [progress]. tails.
    + assert (bracket c = true) as Hb by (unfold bracket; by rewrite Ec).
      destruct (enter depth) as [depth'|e] eqn:Ed; [|right; by apply enter_raise]. cbn [mbind result_bind]. destruct (IH depth') as (_ & _ & IHp').
      destruct (skip_ws r) as [|x q] eqn:E; [by left|]. destruct (x =? 125)%N; [cbn [progress]; tails|].
      eapply (progress_enter _ _ _ _ (x :: q)); [done..|apply IHp'; lens|done|]. intros d rest Hr. cbn [progress]. tails.
    + assert (bracket c = true) as Hb by (unfold bracket; by rewrite Ec, Ec').
      destruct (enter depth) as [depth'|e] eqn:Ed; [|right; by apply enter_raise]. cbn [mbind result_bind]. destruct (IH depth') as (_ & IHi' & _).
      destruct (skip_ws r) as [|x q] eqn:E; [by left|]. destruct (x =? 93)%N; [cbn [progress]; tails|].
      eapply (progress_enter _ _ _ _ (x :: q)); [done..|apply IHi'; lens|done|]. intros d rest Hr. cbn [progress]. tails.
  - intros s Hs. cbn [scan_items]. eapply progress_bind; [apply IHo; lia|done|]. intros v r Hr. pose proof (skip_ws_suffix r) as Hw.
    destruct (skip_ws r) as [|x q]; [by left|]. destruct (x =? 93)%N; [cbn [progress]; tails|]. destruct (x =? 44)%N; [|by left].
    pose proof (skip_ws_suffix q) as Hq. eapply progress_bind; [apply IHi; lens|apply strict_suffix; tails|]. intros l rest Hl. cbn [progress]. tails.
  - intros [|c r] Hs; [by left|]. simpl in Hs. destruct (N.eqb_spec c 34) as [->|Hc].
    2:{ cbn [scan_pairs]. rewrite (proj2 (N.eqb_neq c 34)) by done. by left. }
    rewrite scan_pairs_key. eapply progress_bind; [apply scan_string_progress|tails|]. intros k r1 H1. pose proof (skip_ws_suffix r1) as Hw.
    destruct (skip_ws r1) as [|x r2]; [by left|]. destruct (x =? 58)%N; [|by left]. pose proof (skip_ws_suffix r2) as Hw2.
    eapply progress_bind; [apply IHo; lens|tails|]. intros v r3 H3. pose proof (skip_ws_suffix r3) as Hw3.
    destruct (skip_ws r3) as [|y q]; [by left|]. destruct (y =? 125)%N; [cbn [progress]; tails|]. destruct (y =? 44)%N; [|by left].
    pose proof (skip_ws_suffix q) as Hq. eapply progress_bind; [apply IHp; lens|tails|]. intros d rest Hd. cbn [progress]. tails.
Qed.

(** [json.loads] returns a value or raises [JSONDecodeError], or meets a limit of
    the interpreter, on every text. *)
Lemma loads_cases s : match loads (F := F) s with Ok _ => True | Raise e => e = JSONDecodeError \/ limit_met recursion_left s e end.
Proof.
  unfold loads. destruct (match s with [] => false | _ => _ end); [by left|].
  destruct (scan_total (2 * length (skip_ws s)) recursion_left) as [Ho _]. specialize (Ho (skip_ws s) ltac:(lia)). cbv zeta.
  destruct (scan_once _ _ _) as [[v r]|e]; cbn [progress mbind result_bind] in *; [by destruct (skip_ws r); [|left]|].
  destruct Ho as [->|Ho]; [by left|right]. eapply limit_met_suffix; [apply skip_ws_suffix|done].
Qed.

End total.
