(* ===== verification/JsonCodec.v ===== *)
(** [JsonCodec] and [parse_cli_value] of [src/imustore/codec.py]. *)

From S2P Require Import Prelude PyBase Struct Text Database Json JsonText JsonRoundtrip.
From Stdlib Require Import Strings.Byte.

Section codec.
Context {F : Type} `{FloatText F} `{PyLimits}.
Abbreviation js := (json_of F).

#[export] Instance JsonCodec : Codec js := {|
  encode v := _ ← writable recursion_left (sort_keys v); utf8_encode (dumps compact_seps (sort_keys v));
  decode payload := s ← utf8_decode payload; loads s
|}.

Definition parse_cli_value (raw : pystr) : res js :=
  match loads raw with Raise JSONDecodeError => Ok (JStr raw) | r => r end.

(** Structural equality: the order of a [dict] does not count.  It is finer than
    Python's [==], for which [1], [1.0] and [True] are equal. *)
Inductive json_eq : js -> js -> Prop :=
| eq_same v : json_eq v v
| eq_list l l' : Forall2 json_eq l l' -> json_eq (JList l) (JList l')
| eq_dict d d1 d' : d ≡ₚ d1 -> Forall2 (fun a b => a.1 = b.1 /\ json_eq a.2 b.2) d1 d' -> json_eq (JDict d) (JDict d').

End codec.

(** * What is written is plain ASCII *)

Abbreviation printable := (Forall (fun c : N => (32 <= c <= 126)%N)).

Lemma printable_utf8 s : printable s -> exists b, utf8_encode s = Ok b.
Proof.
  induction 1 as [|c s Hc _ [b IH]]; [by eexists|]. cbn [utf8_encode]. unfold utf8_char. zcmp. rewrite IH. by eexists.
Qed.

Lemma digit_printable ds : digits ds -> printable ds.
Proof. intros Hd. eapply Forall_impl; [exact Hd|]. unfold is_digit. intros c [?%N.leb_le ?%N.leb_le]%andb_true_iff. lia. Qed.

Lemma tok_printable t : tok_ok t -> printable (tok_text t).
Proof.
  intros [Hi Hf Hx]. unfold tok_text. repeat apply Forall_app_2.
  - destruct (nt_neg t); by repeat constructor.
  - destruct Hi as [->|(c & ds & -> & Hc & Hds)]; [by repeat constructor|]. apply andb_true_iff in Hc as [?%N.leb_le ?%N.leb_le].
    constructor; [lia|by apply digit_printable].
  - destruct Hf as [->|(c & ds & -> & Hds)]; [by constructor|]. constructor; [done|by apply digit_printable].
  - destruct Hx as [->|(x & sg & c & ds & -> & Hx & Hsg & Hds)]; [by constructor|]. constructor; [by destruct Hx as [->| ->]|].
    apply Forall_app_2; [by destruct Hsg as [->|[->| ->]]; repeat constructor|by apply digit_printable].
Qed.

Lemma hex4_printable z : printable (hex4 z).
Proof.
  assert (forall x, (32 <= hex_digit (x mod 16) <= 126)%N) as Hh.
  { intros x. pose proof (Z.mod_pos_bound x 16 ltac:(lia)). unfold hex_digit. destruct (Z.ltb_spec (x mod 16) 10); lia. }
  unfold hex4. repeat constructor; try apply Hh; done.
Qed.

Lemma quote_printable s : printable (quote s).
Proof.
  unfold quote, esc. constructor; [done|]. apply Forall_app_2; [|by repeat constructor].
  induction s as [|c s IH]; [constructor|]. cbn [mbind list_bind]. apply Forall_app_2; [|exact IH]. unfold esc_char.
  repeat (destruct (c =? _)%N; [by repeat constructor|]). destruct (N.leb_spec 32 c), (N.leb_spec c 126); cbn [andb]; [by repeat constructor|..];
    (destruct (_ <? _); [|apply Forall_app_2]; apply hex4_printable).
Qed.

Lemma join_printable sep l : printable sep -> Forall printable l -> printable (join sep l).
Proof.
  intros Hs. induction 1 as [|p l Hp Hl IH]; [constructor|]. destruct l as [|q l]; [done|].
  change (join sep (p :: q :: l)) with (p ++ sep ++ join sep (q :: l)). by repeat apply Forall_app_2.
Qed.

Section laws.
Context {F : Type} `{FloatTextLaws F}.
Abbreviation js := (json_of F).
Implicit Types (v w : js).

Lemma dumps_printable sep v : printable (item_sep sep) -> printable (key_sep sep) -> printable (dumps sep v).
Proof.
  intros Hi Hk. induction v as [ |b|z|x|s|l IH|d IH] using json_induction; cbn [dumps].
  - by repeat constructor.
  - destruct b; by repeat constructor.
  - destruct (int_tok z) as (t & -> & Ht & _ & _). by apply tok_printable.
  - destruct (fl_special x) as [[]|] eqn:Es; [by repeat constructor..|]. destruct (float_repr_tok x Es) as (t & -> & Ht & _). by apply tok_printable.
  - apply quote_printable.
  - constructor; [done|]. apply Forall_app_2; [|by repeat constructor]. apply join_printable; [done|]. by apply Forall_fmap.
  - constructor; [done|]. apply Forall_app_2; [|by repeat constructor]. apply join_printable; [done|]. apply Forall_fmap.
    eapply Forall_impl; [exact IH|]. intros [k v] Hv. cbn [fst snd] in *. apply Forall_app_2; [apply quote_printable|by apply Forall_app_2].
Qed.

(** * Sorting the keys *)

Lemma sort_keys_fst (d : list (pystr * js)) : ((fun kv => (kv.1, sort_keys kv.2)) <$> d).*1 = d.*1.
Proof. rewrite <- list_fmap_compose. by apply list_fmap_ext. Qed.

Lemma sort_keys_ok v : json_ok v = true -> json_ok (sort_keys v) = true.
Proof.
  induction v as [ |b|z|x|s|l IH|d IH] using json_induction; try done; cbn [json_ok sort_keys].
  - rewrite !forallb_forall. intros Hl w [v [-> Hv]]%list_elem_of_In%list_elem_of_fmap. rewrite Forall_forall in IH. apply IH; [done|].
    by apply Hl, list_elem_of_In.
  - rewrite !andb_true_iff, !bool_decide_eq_true, !forallb_forall. intros [Hl Hnd]. set (d' := _ <$> d). split.
    + intros kv Hkv%list_elem_of_In. rewrite merge_sort_Permutation in Hkv. apply list_elem_of_fmap in Hkv as [[k v] [-> Hv]]. simpl.
      pose proof (Hl (k, v) (proj1 (list_elem_of_In _ _) Hv)) as [Hk Hv']%andb_true_iff. rewrite Forall_forall in IH. apply andb_true_iff. split; [done|].
      by apply (IH (k, v)).
    + rewrite merge_sort_Permutation. unfold d'. by rewrite sort_keys_fst.
Qed.

Lemma sort_keys_eq v : json_eq v (sort_keys v).
Proof.
  induction v as [ |b|z|x|s|l IH|d IH] using json_induction; try apply eq_same; cbn [sort_keys].
  - apply eq_list. induction IH; constructor; done.
  - set (f := fun kv : pystr * js => (kv.1, sort_keys kv.2)).
    destruct (Permutation_map_inv f d (merge_sort_Permutation (fun a b => str_le a.1 b.1) (f <$> d))) as (d1 & E & Hp).
    apply (eq_dict d d1); [done|].
    refine (eq_ind_r (Forall2 _ d1) _ E). change (List.map f d1) with (f <$> d1). apply Forall2_fmap_r, Forall_Forall2_diag.
    rewrite Hp in IH. eapply Forall_impl; [exact IH|]. by intros [k v] Hv.
Qed.

#[local] Instance key_le_total : Total (fun a b : pystr * js => str_le a.1 b.1).
Proof. intros a b. unfold str_le. destruct (str_lt_total a.1 b.1) as [|[|]]; auto. Qed.
#[local] Instance key_le_trans : Transitive (fun a b : pystr * js => str_le a.1 b.1).
Proof. intros a b c H1 H2. simpl in *. key_order. Qed.

Lemma nodup_key {A} (d : list (pystr * A)) a b : NoDup d.*1 -> a ∈ d -> b ∈ d -> a.1 = b.1 -> a = b.
Proof.
  intros Hnd [i Hi]%list_elem_of_lookup [j Hj]%list_elem_of_lookup E.
  assert (i = j) as ->; [|congruence]. eapply (NoDup_lookup _ i j a.1 Hnd); rewrite list_lookup_fmap; [by rewrite Hi|rewrite Hj; simpl; by rewrite E].
Qed.

(** Sorting gives equal values the same form. *)
Lemma sort_keys_canonical v w : json_ok v = true -> json_eq v w -> sort_keys v = sort_keys w.
Proof.
  revert w. induction v as [ |b|z|x|s|l IH|d IH] using json_induction; intros w Hok Heq; try (inversion Heq; subst; done).
  - inversion Heq as [|? l' Hl|]; subst; [done|]. cbn [sort_keys]. f_equal. cbn [json_ok] in Hok. rewrite forallb_forall in Hok.
    induction Hl as [|v w l l' Hvw Hl IHl]; [done|]. csimpl. apply Forall_cons in IH as [IHv IH]. f_equal.
    + apply IHv; [|done]. apply Hok. by left.
    + apply IHl; [done| |by apply eq_list]. intros u Hu. apply Hok. by right.
  - inversion Heq as [| |? d1 d' Hp Hd]; subst; [done|]. cbn [sort_keys json_ok] in *. f_equal.
    apply andb_true_iff in Hok as [Hok Hnd%bool_decide_eq_true]. rewrite forallb_forall in Hok.
    set (f := fun kv : pystr * js => (kv.1, sort_keys kv.2)).
    assert (f <$> d1 = f <$> d') as E.
    { rewrite Hp in IH. assert (forall kv, kv ∈ d1 -> json_ok kv.2 = true) as Hok1.
      { intros kv Hkv. rewrite <- Hp in Hkv. by pose proof (Hok kv (proj1 (list_elem_of_In _ _) Hkv)) as [_ ?]%andb_true_iff. }
      clear -IH Hd Hok1. induction Hd as [|[k v] [k' w] d1 d' [Hk Hv] Hd IHd]; [done|]. csimpl. apply Forall_cons in IH as [IHv IH]. simpl in *. f_equal.
      - unfold f. simpl. subst. f_equal. apply IHv; [|done]. apply (Hok1 (k', v)). by left.
      - apply IHd; [done|]. intros kv Hkv. apply Hok1. by right. }
    rewrite <- E. apply (StronglySorted_unique_strong (fun a b => str_le a.1 b.1)).
    + intros a b Ha Hb H1 H2. rewrite merge_sort_Permutation in Ha, Hb.
      assert (a ∈ f <$> d1) as Ha1 by (by rewrite <- Hp).
      apply (nodup_key (f <$> d1)); [rewrite sort_keys_fst, <- Hp; done|done|done|]. key_order.
    + apply StronglySorted_merge_sort; apply _.
    + apply StronglySorted_merge_sort; apply _.
    + rewrite !merge_sort_Permutation. by rewrite Hp.
Qed.

Lemma each_Forall {A} (f : A -> res unit) l : each f l = Ok tt <-> Forall (fun x => f x = Ok tt) l.
Proof. induction l as [|x l IH]; [done|]. by rewrite each_cons, Forall_cons, IH. Qed.

Lemma writable_sort_keys `{PyLimits} depth v : writable depth v = Ok tt -> writable depth (sort_keys v) = Ok tt.
Proof.
  revert depth. induction v as [ |b|z|x|s|l IH|d IH] using json_induction; intros depth; try done; cbn [writable sort_keys];
    intros (depth' & Ed & Hw%each_Forall)%enter_ok; rewrite Ed; cbn [mbind result_bind]; apply each_Forall.
  - apply Forall_fmap. rewrite Forall_forall in Hw, IH |- *. intros v Hv. apply IH, Hw; done.
  - rewrite merge_sort_Permutation. apply Forall_fmap. rewrite Forall_forall in Hw, IH |- *. intros kv Hv. by apply IH, Hw.
Qed.

(** What is encoded is read back with its keys sorted. *)
Lemma codec_reads_back_within `{L : PyLimits} v : json_ok v = true -> writable recursion_left v = Ok tt ->
  exists b, encode v = Ok b /\ decode b = Ok (sort_keys v).
Proof.
  intros Hok Hw%writable_sort_keys. destruct (printable_utf8 (dumps compact_seps (sort_keys v))) as [b Hb].
  { apply dumps_printable; by repeat constructor. }
  exists b. split; [simpl; by rewrite Hw|]. simpl. apply utf8_roundtrip in Hb. rewrite Hb. simpl.
  apply loads_dumps_within; [apply compact_seps_ok|by apply sort_keys_ok|done].
Qed.

Lemma codec_reads_back v : json_ok v = true -> exists b, encode v = Ok b /\ decode b = Ok (sort_keys v).
Proof. intros Hok. apply (codec_reads_back_within (L := unlimited)); [done|apply writable_unlimited]. Qed.

(** C26: what [JsonCodec] stores is read back, and equal values are stored alike.  A
    value whose strings are well formed is always encoded; decoding the bytes
    gives an equal value (the keys of each [dict] sorted); and every equal value
    has the same bytes. *)
Theorem json_codec_roundtrip v : json_ok v = true ->
  exists b, encode v = Ok b /\ decode b = Ok (sort_keys v) /\ json_eq v (sort_keys v) /\
    forall w, json_eq v w -> encode w = Ok b.
Proof.
  intros Hok. destruct (codec_reads_back v Hok) as (b & Hb & Hd). exists b. split_and!; [done|done|apply sort_keys_eq|].
  intros w Hw. rewrite <- Hb. simpl. by rewrite <- (sort_keys_canonical v w).
Qed.

(** A command-line value: what [json.loads] reads; text that is not JSON as it is;
    refused only at a limit of the interpreter. *)
Lemma parse_cli_value_cases `{L : PyLimits} (raw : pystr) :
  match parse_cli_value (F := F) raw with
  | Ok v => loads raw = Ok v \/ v = JStr raw
  | Raise e => limit_met recursion_left raw e
  end.
Proof.
  unfold parse_cli_value. pose proof (loads_cases (F := F) raw) as Hl. destruct (loads raw) as [v|e]; [by left|].
  destruct Hl as [->|Hl]; [by right|]. by destruct Hl as [[-> ?]|[-> ?]]; [left|right].
Qed.

(** With the limits lifted no text is refused. *)
Lemma parse_cli_value_total (raw : pystr) : exists v : js, parse_cli_value raw = Ok v /\ (loads raw = Ok v \/ v = JStr raw).
Proof.
  pose proof (parse_cli_value_cases (L := unlimited) raw) as Hc. destruct (parse_cli_value raw) as [v|e]; [by exists v|].
  destruct Hc as [[_ (a & ds & b & _ & _ & Hl)]|[_ (n & Hn & _)]]; [discriminate Hl|discriminate Hn].
Qed.

End laws.
