(* ===== verification/JsonStore.v ===== *)
(** JSON values on disk and on their way in: the bindings a database with
    [JsonCodec] keeps, and that what it decodes is well formed
    ([src/imustore/codec.py], [interface.py]). *)

From Stdlib Require Import Strings.Byte ZifyBool.
From S2P Require Import Prelude PyBase Struct Text KeyList Database Json JsonText JsonRoundtrip JsonCodec.

(** JSON values on disk: the bindings a database with [JsonCodec] keeps for an
    association list of values ([src/imustore/codec.py], [interface.py]). *)

(** * Association lists under a map of their values *)

Section assoc_map.
Context {A B : Type} (f : A -> B).
Implicit Types (l : list (pystr * A)) (k : pystr).

Abbreviation onto l := ((fun kv => (kv.1, f kv.2)) <$> l).

Lemma kv_set_onto k v l : kv_set k (f v) (onto l) = onto (kv_set k v l).
Proof.
  induction l as [|[x y] l IH]; [done|]. csimpl.
  destruct (decide (str_lt k x)); [done|]. destruct (decide (k = x)); [done|]. csimpl. by rewrite IH.
Qed.

Lemma kv_get_onto k l : kv_get k (onto l) = f <$> kv_get k l.
Proof. induction l as [|[x y] l IH]; [done|]. csimpl. by destruct (decide (k = x)). Qed.

Lemma kv_del_onto k l : kv_del k (onto l) = onto (kv_del k l).
Proof. induction l as [|[x y] l IH]; [done|]. csimpl. destruct (decide (k = x)); [done|]. csimpl. by rewrite IH. Qed.

Lemma onto_keys l : (onto l).*1 = l.*1.
Proof. rewrite <- list_fmap_compose. by apply list_fmap_ext. Qed.

Lemma onto_sorted l : kv_sorted (onto l) <-> kv_sorted l.
Proof. unfold kv_sorted. by rewrite onto_keys. Qed.

End assoc_map.

Lemma kv_set_in {A} k (v : A) l kv : kv ∈ kv_set k v l -> kv = (k, v) \/ kv ∈ l.
Proof.
  induction l as [|[x y] l IH]; simpl; [set_solver|]. destruct (decide (str_lt k x)); [set_solver|]. destruct (decide (k = x)); set_solver.
Qed.

(** Decimal digits have no surrogates. *)
Lemma int_text_clean z : clean (int_text z) = true.
Proof.
  unfold int_text. generalize (dec z). intros b. induction b as [|x b IH]; [done|]. csimpl. rewrite IH.
  pose proof (Byte.to_N_bounded x) as Hx. rewrite (proj2 (N.ltb_lt _ _)) by lia.
  unfold is_high. rewrite (proj2 (Z.leb_gt 0xD800 _)) by lia. done.
Qed.

(** * Stored values *)

Section stored.
Context {F : Type} `{FloatTextLaws F}.
Abbreviation js := (json_of F).
Implicit Types (v : js) (l : list (pystr * js)) (k : pystr).

(** A value as it is read back: well formed, the keys of each [dict] sorted. *)
Definition canon v : Prop := json_ok v = true /\ sort_keys v = v.

Lemma sort_keys_canon v : json_ok v = true -> canon (sort_keys v).
Proof.
  intros Hok. split; [by apply sort_keys_ok|]. symmetry. apply sort_keys_canonical; [done|]. apply sort_keys_eq.
Qed.

Definition enc v : bytes := match encode v with Ok b => b | Raise _ => [] end.

Lemma canon_codec v : canon v -> encode v = Ok (enc v) /\ decode (enc v) = Ok v.
Proof.
  intros [Hok Hs]. destruct (codec_reads_back v Hok) as (b & He & Hd). unfold enc. rewrite He. by rewrite Hs in Hd.
Qed.

(** A value is stored as its sorted form is. *)
Lemma encode_sorted v : json_ok v = true -> encode v = Ok (enc (sort_keys v)).
Proof.
  intros Hok. destruct (canon_codec _ (sort_keys_canon v Hok)) as [He _]. rewrite <- He.
  destruct (sort_keys_canon v Hok) as [_ E]. simpl. by rewrite E.
Qed.

Definition stored l : kvlist := (fun kv => (kv.1, enc kv.2)) <$> l.

Abbreviation canonical l := (Forall (fun kv : pystr * js => canon kv.2) l).

Lemma decode_stored l : canonical l -> snapshot.decode_all (yields (stored l)) = Ok l.
Proof.
  induction 1 as [|[k v] l Hv Hl IH]; [done|]. simpl in Hv. destruct (canon_codec v Hv) as [_ Hd].
  unfold stored, yields in *. cbn [fmap list_fmap map fst snd snapshot.decode_all]. rewrite Hd. cbn [mbind result_bind]. by rewrite IH.
Qed.

Lemma canonical_set k v l : canon v -> canonical l -> canonical (kv_set k v l).
Proof.
  intros Hv Hl. apply Forall_forall. intros kv [->|Hkv]%kv_set_in; [done|]. by apply (proj1 (Forall_forall _ _) Hl).
Qed.

Lemma canonical_del k l : canonical l -> canonical (kv_del k l).
Proof.
  intros Hl. apply Forall_forall. intros kv Hkv. apply (proj1 (Forall_forall _ _) Hl).
  eapply elem_of_sublist; [exact Hkv|apply kv_del_sublist].
Qed.

Lemma canonical_get k l v : canonical l -> kv_get k l = Some v -> canon v.
Proof.
  induction 1 as [|[x y] l Hv Hl IH]; [done|]. simpl. destruct (decide (k = x)); [by intros [= <-]|done].
Qed.

(** Scanning the stored bindings is scanning the values. *)
Definition scanned (prefix start stop : option pystr) l : list (pystr * js) :=
  base.filter (fun kv => match prefix with None => true | Some p => startswith kv.1 p end = true) (kv_range start stop l).

Lemma scan_stored prefix start stop l :
  snapshot.with_prefix prefix (yields (kv_range start stop (stored l))) = yields (stored (scanned prefix start stop l)).
Proof.
  unfold snapshot.with_prefix, scanned, kv_range. induction l as [|[k v] l IH]; [done|].
  change (stored ((k, v) :: l)) with ((k, enc v) :: stored l). rewrite !filter_cons. cbn [fst].
  destruct (decide (in_range start stop k = true)); [|exact IH].
  change (yields ((k, enc v) :: ?x)) with ((k, Some (enc v)) :: yields x). rewrite !filter_cons. cbn [fst].
  destruct (decide (_ = true)); [|exact IH]. cbn. f_equal. exact IH.
Qed.

Lemma canonical_scanned prefix start stop l : canonical l -> canonical (scanned prefix start stop l).
Proof.
  intros Hl. apply Forall_forall. intros kv [_ [_ Hkv]%list_elem_of_filter]%list_elem_of_filter. by apply (proj1 (Forall_forall _ _) Hl).
Qed.

End stored.

(** What [json.loads] returns is well formed: from text without surrogates every
    value it reads can be written and read back, so [JsonCodec] never decodes a
    value that it could not store again ([src/imustore/codec.py]). *)

(** * Text without surrogates *)

Definition scalar (c : N) : Prop := (c < 0x110000)%N /\ is_high (Z.of_N c) = false /\ is_low (Z.of_N c) = false.
Abbreviation scalars := (Forall scalar).

Lemma encoded_scalars s b : utf8_encode s = Ok b -> scalars s.
Proof.
  revert b. induction s as [|c s IH]; intros b; [by constructor|]. cbn [utf8_encode].
  destruct (utf8_char c) as [bc|] eqn:E; [|done]. destruct (utf8_encode s) as [bs|e]; [|done]. intros _. constructor; [|by eapply IH].
  revert E. unfold utf8_char, scalar, is_high, is_low. repeat case_match; try done; intros _; lia.
Qed.

(** [utf8_decode] only ever raises [UnicodeError]. *)
Lemma utf8_decode_raise b e : utf8_decode b = Raise e -> e = UnicodeError.
Proof.
  unfold utf8_decode. generalize (length b). intros fuel. revert b. induction fuel as [|fuel IH]; intros [|b0 b]; cbn [utf8_decode_loop]; try done.
  - by intros [= <-].
  - destruct (utf8_take _) as [[c r]|]; [|by intros [= <-]]. specialize (IH r). destruct (utf8_decode_loop fuel r); [done|].
    intros [= <-]. by apply IH.
Qed.

(** * Strings *)

Lemma unhex4_range a b c d u : unhex4 a b c d = Ok u -> 0 <= u < 0x10000.
Proof.
  assert (forall x z, hex_value x = Some z -> 0 <= z < 16) as Hx.
  { intros x z. unfold hex_value. repeat case_match; intros [= <-]; lia. }
  unfold unhex4. destruct (hex_value a) as [a'|] eqn:Ea, (hex_value b) as [b'|] eqn:Eb, (hex_value c) as [c'|] eqn:Ec, (hex_value d) as [d'|] eqn:Ed; try done.
  apply Hx in Ea, Eb, Ec, Ed. intros [= <-]. lia.
Qed.

Definition head_low (t : pystr) : bool := match t with d :: _ => is_low (Z.of_N d) | [] => false end.

(** A scanned string and the text after it.  It starts with a low surrogate only
    when the text starts with the escape of one. *)
Definition string_ok (s : pystr) (r : res (pystr * pystr)) : Prop :=
  match r with Ok (t, rest) => clean t = true /\ scalars rest /\ (quiet s -> head_low t = false) | Raise _ => True end.

Lemma string_cons s q u : (u < 0x110000)%N -> is_high (Z.of_N u) = false \/ quiet q -> (quiet s -> is_low (Z.of_N u) = false) ->
  string_ok q (scan_string q) -> string_ok s ('(t, rest) ← scan_string q; Ok (u :: t, rest)).
Proof.
  intros Hu Hh Hs Hq. destruct (scan_string q) as [[t rest]|e]; [|done]. destruct Hq as (Hc & Hr & Hlow). split_and!; [|done|exact Hs].
  cbn [clean]. rewrite !andb_true_iff, N.ltb_lt, negb_true_iff. split_and!; [done| |done].
  destruct Hh as [->|Hh]; [done|]. by rewrite (Hlow Hh : match t with d :: _ => _ | [] => false end = false), andb_false_r.
Qed.

Lemma scalar_cons s q u : scalar u -> string_ok q (scan_string q) -> string_ok s ('(t, rest) ← scan_string q; Ok (u :: t, rest)).
Proof. intros (Hu & Hh & Hl) Hq. apply string_cons; auto. Qed.

Lemma unescape_scalar e ch : unescape e = Ok ch -> scalar ch.
Proof.
  unfold unescape, scalar, is_high, is_low. repeat case_match; intros [= <-]; lia.
Qed.

Lemma scan_string_ok s : scalars s -> string_ok s (scan_string s).
Proof.
  assert (forall n s, (length s <= n)%nat -> scalars s -> string_ok s (scan_string s)) as H; [|by intros; eapply H].
  clear s. induction n as [|n IH]; intros s Hs Hsc; (destruct s as [|c r]; [done|simpl in Hs; try lia]).
  apply Forall_cons in Hsc as [Hc Hr]. cbn [scan_string]. destruct (c =? 34)%N; [split_and!; [done|done|by intros _]|].
  destruct (c =? 92)%N eqn:E92; [|destruct (c <? 32)%N; [done|apply scalar_cons; [done|apply IH; [lia|done]]]].
  destruct r as [|e r1]; [done|]. simpl in Hs. apply Forall_cons in Hr as [He Hr1]. destruct (e =? 117)%N eqn:E117.
  2:{ destruct (unescape e) as [ch|] eqn:Ee; [|done]. cbn [mbind result_bind]. apply scalar_cons; [by eapply unescape_scalar|apply IH; [lia|done]]. }
  destruct r1 as [|a [|b [|c1 [|d r2]]]]; try done. rewrite !Forall_cons in Hr1. destruct Hr1 as (_ & _ & _ & _ & Hr2). simpl in Hs.
  destruct (unhex4 a b c1 d) as [u|] eqn:Eu; [|done]. cbn [mbind result_bind]. pose proof (unhex4_range _ _ _ _ _ Eu) as Hu.
  assert (is_high u = false \/ quiet r2 ->
    string_ok (c :: e :: a :: b :: c1 :: d :: r2) ('(t, rest) ← scan_string r2; Ok (Z.to_N u :: t, rest))) as Hsingle.
  { intros Hh. apply string_cons; [lia|by rewrite Z2N.id by lia| |apply IH; [lia|done]]. rewrite Z2N.id by lia. simpl. rewrite E92, E117, Eu.
    intros [|(v & [= <-] & Hv)]; done. }
  destruct (is_high u) eqn:Eh; [|auto]. destruct r2 as [|x [|y [|a' [|b' [|c' [|d' r3]]]]]]; try (apply Hsingle; by right).
  destruct ((x =? 92)%N && (y =? 117)%N) eqn:Exy; [|apply Hsingle; right; by left].
  destruct (unhex4 a' b' c' d') as [v|] eqn:Ev; [|done]. cbn [mbind result_bind].
  destruct (is_low v) eqn:El; [|apply Hsingle; right; right; by exists v]. pose proof (unhex4_range _ _ _ _ _ Ev) as Hv.
  rewrite !Forall_cons in Hr2. destruct Hr2 as (_ & _ & _ & _ & _ & _ & Hr3). simpl in Hs. apply scalar_cons; [|apply IH; [lia|done]].
  unfold scalar, is_high, is_low in *. lia.
Qed.

(** * Values *)

Section values.
Context {F : Type} `{FloatText F} `{L : PyLimits}.
Abbreviation js := (json_of F).

(** Whatever [ok] says of what was read, and the text after it. *)
Definition reads_ok {A} (ok : A -> Prop) (r : res (A * pystr)) : Prop :=
  match r with Ok (a, rest) => ok a /\ scalars rest | Raise _ => True end.

Lemma reads_ok_bind {A B} (ok : A -> Prop) (ok' : B -> Prop) (r : res (A * pystr)) f :
  reads_ok ok r -> (forall a rest, ok a -> scalars rest -> reads_ok ok' (f (a, rest))) -> reads_ok ok' (r ≫= f).
Proof. destruct r as [[a rest]|e]; [|done]. intros [Ha Hr] Hf. by apply Hf. Qed.

Lemma string_reads s : scalars s -> reads_ok (fun t => clean t = true) (scan_string s).
Proof. intros Hs. pose proof (scan_string_ok s Hs) as Ht. destruct (scan_string s) as [[t rest]|]; [|done]. by destruct Ht as (? & ? & _). Qed.

Lemma skip_ws_scalars s : scalars s -> scalars (skip_ws s).
Proof. induction 1 as [|c s Hc Hs IH]; simpl; [done|]. destruct (is_ws c); [done|by constructor]. Qed.

Lemma strip_prefix_scalars t s r : strip_prefix t s = Some r -> scalars s -> scalars r.
Proof. intros ->%strip_prefix_split [_ ?]%Forall_app. done. Qed.

(** A value that was read: well formed, and within the limits. *)
Definition read_ok (depth : option nat) (v : js) : Prop := json_ok v = true /\ writable depth v = Ok tt.

Lemma digits_allowed_mono n m : (m <= n)%nat -> digits_allowed n = true -> digits_allowed m = true.
Proof. unfold digits_allowed. destruct int_max_str_digits; [|done]. rewrite !Nat.leb_le. lia. Qed.

Lemma scan_other_reads depth s : scalars s -> reads_ok (read_ok depth) (scan_other s).
Proof.
  intros Hs. unfold scan_other.
  repeat match goal with
  | |- context [strip_prefix ?t s] => destruct (strip_prefix t s) eqn:?; [split; [done|by eapply strip_prefix_scalars]|]
  | |- context [scan_number s] => destruct (scan_number s) as [[t r]|] eqn:En
  end; try done.
  destruct (scan_number_split _ _ _ En) as (-> & Hne & Hd). apply Forall_app in Hs as [_ Hr].
  destruct (nt_frac t ++ nt_exp t) eqn:Ef; [|done]. destruct (digits_allowed _) eqn:Ea; [|done].
  destruct (int_of_tok t Ef Hne Hd) as (z & -> & Hz). split; [|done]. split; [done|]. cbn [writable].
  by rewrite (digits_allowed_mono _ _ Hz Ea).
Qed.

(** The entries of a [dict], before a repeated key replaces an earlier value. *)
Definition entry_ok (depth : option nat) (kv : pystr * js) : Prop := clean kv.1 = true /\ read_ok depth kv.2.

Lemma dict_set_in x (k : pystr) (v : js) d : x ∈ (dict_set k v d).*1 -> x = k \/ x ∈ d.*1.
Proof.
  induction d as [|[k' v'] d IH]; cbn [dict_set]; [intros ->%list_elem_of_singleton; by left|].
  case_bool_decide; simpl; [by right|]. intros [->|Hx%IH]%elem_of_cons; [right; by left|]. destruct Hx; [by left|right; by right].
Qed.

Lemma dict_set_entries depth (k : pystr) (v : js) d : entry_ok depth (k, v) -> Forall (entry_ok depth) d -> NoDup d.*1 ->
  Forall (entry_ok depth) (dict_set k v d) /\ NoDup (dict_set k v d).*1.
Proof.
  intros Hkv. induction 1 as [|[k' v'] d Hx Hd IH]; intros Hnd; cbn [dict_set]; [split; [by apply Forall_singleton|apply NoDup_singleton]|].
  simpl in Hnd. apply NoDup_cons in Hnd as [Hn Hnd]. destruct (IH Hnd) as [IH1 IH2].
  case_bool_decide as E; [subst k'|]; (split; [by constructor|]); simpl; apply NoDup_cons; [done|].
  split; [|done]. by intros [->|]%dict_set_in.
Qed.

Lemma dict_of_ok depth depth' pairs : enter depth = Ok depth' -> Forall (entry_ok depth') pairs -> read_ok depth (JDict (dict_of pairs)).
Proof.
  intros Ed Hp. assert (forall acc, Forall (entry_ok depth') acc -> NoDup acc.*1 ->
    Forall (entry_ok depth') (foldl (fun d kv => dict_set kv.1 kv.2 d) acc pairs) /\ NoDup (foldl (fun d kv => dict_set kv.1 kv.2 d) acc pairs).*1) as Hacc.
  { induction Hp as [|[k v] pairs Hkv _ IH]; intros acc Ha Hnd; [done|]. simpl. destruct (dict_set_entries depth' k v acc Hkv Ha Hnd). by apply IH. }
  destruct (Hacc [] (Forall_nil_2 _) NoDup_nil_2) as [Hf Hnd]. fold (dict_of pairs) in Hf, Hnd. rewrite Forall_forall in Hf. split; cbn [json_ok writable].
  - apply andb_true_iff. split; [|by apply bool_decide_eq_true]. apply forallb_forall. intros kv (Hk & Hv & _)%list_elem_of_In%Hf. by apply andb_true_iff.
  - rewrite Ed. cbn [mbind result_bind]. apply each_Forall, Forall_forall. by intros kv (_ & _ & ?)%Hf.
Qed.

Lemma list_read_ok depth depth' l : enter depth = Ok depth' -> Forall (read_ok depth') l -> read_ok depth (JList l).
Proof.
  intros Ed Hl. rewrite Forall_forall in Hl. split; cbn [json_ok writable].
  - apply forallb_forall. by intros v [? _]%list_elem_of_In%Hl.
  - rewrite Ed. cbn [mbind result_bind]. apply each_Forall, Forall_forall. by intros v [_ ?]%Hl.
Qed.

Lemma scan_reads depth fuel s : scalars s ->
  reads_ok (read_ok depth) (scan_once depth fuel s) /\
  reads_ok (Forall (read_ok depth)) (scan_items depth fuel s) /\
  reads_ok (Forall (entry_ok depth)) (scan_pairs depth fuel s).
Proof.
  revert depth s. induction fuel as [|fuel IH]; intros depth s Hs; [by destruct s|].
  split_and!.
  - destruct Hs as [|c r Hc Hr]; [done|]. cbn [scan_once]. pose proof (skip_ws_scalars r Hr) as Hw.
    destruct (c =? 34)%N; [eapply reads_ok_bind; [by apply string_reads|]; by intros t rest Ht Hrest|].
    destruct (c =? 123)%N; [|destruct (c =? 91)%N; [|apply scan_other_reads; by constructor]];
      (destruct (enter depth) as [depth'|] eqn:Ed; [|done]); cbn [mbind result_bind]; (destruct Hw as [|x q Hx Hq]; [done|]).
    + destruct (x =? 125)%N; [split; [|done]; by apply (dict_of_ok depth depth' [])|].
      eapply reads_ok_bind; [eapply (IH depth' (x :: q)); by constructor|]. intros d rest Hd Hrest. split; [by eapply dict_of_ok|done].
    + destruct (x =? 93)%N; [split; [|done]; by apply (list_read_ok depth depth' [])|].
      eapply reads_ok_bind; [eapply (IH depth' (x :: q)); by constructor|]. intros l rest Hl Hrest. split; [by eapply list_read_ok|done].
  - cbn [scan_items]. eapply reads_ok_bind; [by apply IH|]. intros v r Hv Hr%skip_ws_scalars. destruct Hr as [|x q Hx Hq]; [done|].
    destruct (x =? 93)%N; [split; [by apply Forall_singleton|done]|]. destruct (x =? 44)%N; [|done].
    eapply reads_ok_bind; [by eapply IH, skip_ws_scalars|]. intros l rest Hl Hrest. split; [by constructor|done].
  - destruct Hs as [|c r Hc Hr]; [done|]. cbn [scan_pairs]. destruct (c =? 34)%N; [|done].
    eapply reads_ok_bind; [by apply string_reads|]. intros k r1 Hk Hr1%skip_ws_scalars. destruct Hr1 as [|x r2 Hx Hr2]; [done|].
    destruct (x =? 58)%N; [|done]. eapply reads_ok_bind; [by eapply IH, skip_ws_scalars|]. intros v r3 Hv Hr3%skip_ws_scalars.
    assert (entry_ok depth (k, v)) as Hkv by done. destruct Hr3 as [|y q Hy Hq]; [done|].
    destruct (y =? 125)%N; [split; [by apply Forall_singleton|done]|]. destruct (y =? 44)%N; [|done].
    eapply reads_ok_bind; [by eapply IH, skip_ws_scalars|]. intros d rest Hd Hrest. split; [by constructor|done].
Qed.

Lemma loads_ok s (v : js) : scalars s -> loads s = Ok v -> read_ok recursion_left v.
Proof.
  intros Hs. unfold loads. destruct (match s with [] => false | _ => _ end); [done|]. cbv zeta.
  destruct (scan_reads recursion_left (2 * length (skip_ws s)) _ (skip_ws_scalars s Hs)) as [Ho _]. destruct (scan_once _ _ _) as [[w r]|e]; [|done].
  destruct Ho as [Hw _]. cbn [mbind result_bind]. destruct (skip_ws r); [|done]. by intros [= <-].
Qed.

End values.

Section typed.
Context {F : Type} `{FloatTextLaws F} `{L : PyLimits}.
Abbreviation js := (json_of F).

Lemma plain_text_clean s : scalars s -> clean s = true.
Proof.
  induction 1 as [|c s Hc Hs IH]; [done|]. destruct Hc as (Hc & Hh & _). cbn [clean]. rewrite Hh, (proj2 (N.ltb_lt _ _) Hc). exact IH.
Qed.

(** C27: every value that comes into the store is well formed, whatever limits the
    interpreter sets on the digits of integers and on nested calls.  Given any
    bytes, [JsonCodec] returns a value whose strings and keys are well formed and
    that it can encode and read back under the same limits; or it raises
    [UnicodeError] (the bytes are not UTF-8), [JSONDecodeError], [ValueError] (only
    for text with a run of more digits than an integer may have) or
    [RecursionError] (only for text with more opening brackets and braces than
    calls that are left).  Every command-line argument that is text (it can be
    encoded in UTF-8) is taken as such a value, namely what [json.loads] reads or
    the text itself, and refused only with those last two exceptions. *)
Theorem json_values_typed :
  (forall payload : bytes, match (decode payload : res js) with
   | Ok v => json_ok v = true /\ exists b, encode v = Ok b /\ decode b = Ok (sort_keys v)
   | Raise e => e = UnicodeError \/ exists s, utf8_decode payload = Ok s /\ (e = JSONDecodeError \/ limit_met recursion_left s e)
   end) /\
  (forall raw b, utf8_encode raw = Ok b -> match (parse_cli_value raw : res js) with
   | Ok v => (loads raw = Ok v \/ v = JStr raw) /\ json_ok v = true /\ exists b', encode v = Ok b' /\ decode b' = Ok (sort_keys v)
   | Raise e => limit_met recursion_left raw e
   end).
Proof.
  assert (forall v : js, read_ok recursion_left v -> json_ok v = true /\ exists b, encode v = Ok b /\ decode b = Ok (sort_keys v)) as Hback.
  { intros v [Hv Hw]. split; [done|by apply codec_reads_back_within]. }
  split.
  - intros payload. cbn [decode JsonCodec]. destruct (utf8_decode payload) as [s|e] eqn:Eu; [|left; by eapply utf8_decode_raise]. cbn [mbind result_bind].
    apply utf8_roundtrip, encoded_scalars in Eu. pose proof (loads_cases (F := F) s) as Hl. destruct (loads s) as [v|e] eqn:E; [|right; by exists s].
    by eapply Hback, loads_ok.
  - intros raw b Hs%encoded_scalars. pose proof (parse_cli_value_cases (F := F) raw) as Hc. destruct (parse_cli_value raw) as [v|e]; [|done].
    split; [done|]. apply Hback. destruct Hc as [Hv| ->]; [by eapply loads_ok|]. split; [by apply plain_text_clean|done].
Qed.

End typed.

(** * Witness *)

(** The only floats here are the special ones. *)
#[local] Instance typed_float_text : FloatText special := {|
  fl_special x := Some x;
  fl_of_special x := x;
  float_repr _ := [];
  float_of _ := NaN
|}.

#[local] Instance typed_float_laws : FloatTextLaws special.
Proof. split; intros x; [done|done|]. intros sp [= ->]. done. Qed.

(** A repeated key keeps its last value; an unpaired escape is a character. *)
Definition quoted (s : pystr) : pystr := [34%N] ++ s ++ [34%N].
Definition argument : pystr :=
  str "{" ++ quoted (str "a") ++ str ": 1, " ++ quoted (str "b") ++ str ": " ++ quoted (str "\ud800x") ++ str ", " ++
  quoted (str "a") ++ str ": [true]}".

(** CPython's defaults, at a call ten frames deep. *)
Definition cpython : PyLimits := {| int_max_str_digits := Some 4300%nat; recursion_left := Some 990%nat |}.

Lemma json_values_typed_witness :
  (exists v : json_of special, parse_cli_value (H0 := cpython) argument = Ok v /\ json_ok v = true /\
    v = JDict [(str "a", JList [JBool true]); (str "b", JStr [0xD800; 120]%N)]) /\
  parse_cli_value (F := special) (H0 := cpython) (replicate 5000 49%N) = Raise ValueError /\ long_digits (H := cpython) (replicate 5000 49%N) /\
  parse_cli_value (F := special) (H0 := cpython) (replicate 991 91%N) = Raise RecursionError /\
  parse_cli_value (F := special) (H0 := cpython) (replicate 990 91%N) = Ok (JStr (replicate 990 91%N)).
Proof.
  split_and!; [|vm_compute; reflexivity| |vm_compute; reflexivity..].
  - pose proof (proj2 (json_values_typed (F := special) (L := cpython)) argument _ eq_refl) as Ht.
    destruct (parse_cli_value (H0 := cpython) argument) as [v|e] eqn:E; [|vm_compute in E; discriminate E].
    destruct Ht as (_ & Hok & _). exists v. split_and!; [reflexivity|exact Hok|].
    vm_compute in E. by injection E as <-.
  - exists [], (replicate 5000 49%N), []. split_and!; [by rewrite app_nil_r|by apply Forall_replicate|vm_compute; reflexivity].
Defined.
