(* ===== verification/RaftWire.v ===== *)
(** The wire format of Raft messages: [src/imustore/raft/wire.py].

    A command is a [dict]; [command_dict] spells out the ones the state machines
    know.  [decode] builds a message from whatever the JSON text holds and checks
    nothing, so the fields of a decoded message ([wire_body]) are JSON values;
    [obj] is the message object a node sends, seen in the same way. *)

From S2P Require Import Prelude PyBase Struct Text Database Json JsonText JsonRoundtrip JsonCodec RaftLog.

Inductive wire_body (F : Type) : Type :=
| WRequestVote (term candidate_id last_log_index last_log_term : json_of F)
| WRequestVoteReply (term vote_granted : json_of F)
| WAppendEntries (term leader_id prev_log_index prev_log_term : json_of F)
    (entries : list (json_of F * json_of F)) (leader_commit : json_of F)
| WAppendEntriesReply (term success match_index : json_of F).
Arguments WRequestVote {F} term candidate_id last_log_index last_log_term.
Arguments WRequestVoteReply {F} term vote_granted.
Arguments WAppendEntries {F} term leader_id prev_log_index prev_log_term entries leader_commit.
Arguments WAppendEntriesReply {F} term success match_index.

Record wire_envelope (F : Type) : Type := mkWire {
  w_src : json_of F;
  w_dst : json_of F;
  w_body : wire_body F
}.
Arguments mkWire {F} w_src w_dst w_body.
Arguments w_src {F} w.
Arguments w_dst {F} w.
Arguments w_body {F} w.

Section wire.
Context {F : Type} `{FloatText F}.
Abbreviation js := (json_of F).
Implicit Types (env : Envelope js) (b : message js) (data : js).

(** * Encoding *)

Definition command_dict (c : command js) : js :=
  match c with
  | CmdSet k v => JDict [(str "op", JStr (str "set")); (str "key", JStr k); (str "value", v)]
  | CmdDel k => JDict [(str "op", JStr (str "del")); (str "key", JStr k)]
  | CmdNoop => JDict [(str "op", JStr (str "noop"))]
  | CmdOther op => JDict [(str "op", JStr op)]
  end.

Definition _body_to_dict b : js :=
  match b with
  | RequestVote t c i lt =>
      JDict [(str "term", JInt t); (str "candidate_id", JInt c); (str "last_log_index", JInt i); (str "last_log_term", JInt lt)]
  | RequestVoteReply t g => JDict [(str "term", JInt t); (str "vote_granted", JBool g)]
  | AppendEntries t l pi pt es lc =>
      JDict [(str "term", JInt t); (str "leader_id", JInt l); (str "prev_log_index", JInt pi); (str "prev_log_term", JInt pt);
             (str "entries", JList ((fun e => JList [JInt (term e); command_dict (cmd e)]) <$> es)); (str "leader_commit", JInt lc)]
  | AppendEntriesReply t s m => JDict [(str "term", JInt t); (str "success", JBool s); (str "match_index", JInt m)]
  end.

(** [type(envelope.body).__name__] *)
Definition type_name b : pystr :=
  match b with
  | RequestVote _ _ _ _ => str "RequestVote"
  | RequestVoteReply _ _ => str "RequestVoteReply"
  | AppendEntries _ _ _ _ _ _ => str "AppendEntries"
  | AppendEntriesReply _ _ _ => str "AppendEntriesReply"
  end.

Definition envelope_dict env : js :=
  JDict [(str "src", JInt (src env)); (str "dst", JInt (dst env)); (str "kind", JStr (type_name (body env))); (str "body", _body_to_dict (body env))].

Definition encode env : res bytes := utf8_encode (dumps default_seps (envelope_dict env)).

(** * Decoding *)

Fixpoint assoc (d : list (pystr * js)) (k : pystr) : option js :=
  match d with
  | [] => None
  | (k', v) :: d => if bool_decide (k' = k) then Some v else assoc d k
  end.

(** [data[k]]; a list, a string and a number have no string subscripts. *)
Definition subscript data (k : pystr) : res js :=
  match data with
  | JDict d => match assoc d k with Some v => Ok v | None => Raise (KeyError k) end
  | _ => Raise TypeError
  end.

(** Iterating over a value: the items of a list, the keys of a [dict], the
    characters of a string. *)
Definition iterate data : res (list js) :=
  match data with
  | JList l => Ok l
  | JDict d => Ok (JStr <$> d.*1)
  | JStr s => Ok ((fun c => JStr [c]) <$> s)
  | _ => Raise TypeError
  end.

(** [term, command = item] *)
Definition unpack2 data : res (js * js) :=
  l ← iterate data;
  match l with [a; b] => Ok (a, b) | _ => Raise ValueError end.

Fixpoint unpack_all (l : list js) : res (list (js * js)) :=
  match l with
  | [] => Ok []
  | v :: l => p ← unpack2 v; ps ← unpack_all l; Ok (p :: ps)
  end.

Definition _dict_to_body (kind data : js) : res (wire_body F) :=
  match kind with
  | JStr k =>
      if str_eqb k (str "RequestVote") then
        t ← subscript data (str "term"); c ← subscript data (str "candidate_id");
        i ← subscript data (str "last_log_index"); lt ← subscript data (str "last_log_term");
        Ok (WRequestVote t c i lt)
      else if str_eqb k (str "RequestVoteReply") then
        t ← subscript data (str "term"); g ← subscript data (str "vote_granted"); Ok (WRequestVoteReply t g)
      else if str_eqb k (str "AppendEntries") then
        items ← subscript data (str "entries"); items ← iterate items; es ← unpack_all items;
        t ← subscript data (str "term"); l ← subscript data (str "leader_id");
        pi ← subscript data (str "prev_log_index"); pt ← subscript data (str "prev_log_term");
        lc ← subscript data (str "leader_commit");
        Ok (WAppendEntries t l pi pt es lc)
      else if str_eqb k (str "AppendEntriesReply") then
        t ← subscript data (str "term"); s ← subscript data (str "success"); m ← subscript data (str "match_index");
        Ok (WAppendEntriesReply t s m)
      else Raise TypeError
  | _ => Raise TypeError
  end.

Definition decode (raw : bytes) : res (wire_envelope F) :=
  s ← utf8_decode raw; data ← loads s;
  src ← subscript data (str "src"); dst ← subscript data (str "dst");
  kind ← subscript data (str "kind"); inner ← subscript data (str "body");
  body ← _dict_to_body kind inner;
  Ok (mkWire src dst body).

(** * The messages of the nodes *)

Definition body_obj b : wire_body F :=
  match b with
  | RequestVote t c i lt => WRequestVote (JInt t) (JInt c) (JInt i) (JInt lt)
  | RequestVoteReply t g => WRequestVoteReply (JInt t) (JBool g)
  | AppendEntries t l pi pt es lc =>
      WAppendEntries (JInt t) (JInt l) (JInt pi) (JInt pt) ((fun e => (JInt (term e), command_dict (cmd e))) <$> es) (JInt lc)
  | AppendEntriesReply t s m => WAppendEntriesReply (JInt t) (JBool s) (JInt m)
  end.

Definition obj env : wire_envelope F := mkWire (JInt (src env)) (JInt (dst env)) (body_obj (body env)).

(** Reading the fields with the types a node's own messages have; [None] when one
    has another type. *)
Definition as_int data : option Z := match data with JInt z => Some z | _ => None end.
Definition as_bool data : option bool := match data with JBool b => Some b | _ => None end.

Definition as_command data : option (command js) :=
  match data with
  | JDict [(k1, JStr op)] =>
      if str_eqb k1 (str "op") then Some (if str_eqb op (str "noop") then CmdNoop else CmdOther op) else None
  | JDict [(k1, JStr op); (k2, JStr k)] =>
      if str_eqb k1 (str "op") && str_eqb op (str "del") && str_eqb k2 (str "key") then Some (CmdDel k) else None
  | JDict [(k1, JStr op); (k2, JStr k); (k3, v)] =>
      if str_eqb k1 (str "op") && str_eqb op (str "set") && str_eqb k2 (str "key") && str_eqb k3 (str "value") then Some (CmdSet k v) else None
  | _ => None
  end.

Fixpoint as_entries (l : list (js * js)) : option (list (LogEntry js)) :=
  match l with
  | [] => Some []
  | (t, c) :: l => t ← as_int t; c ← as_command c; es ← as_entries l; Some (mkEntry t c :: es)
  end.

Definition as_body (b : wire_body F) : option (message js) :=
  match b with
  | WRequestVote t c i lt => t ← as_int t; c ← as_int c; i ← as_int i; lt ← as_int lt; Some (RequestVote t c i lt)
  | WRequestVoteReply t g => t ← as_int t; g ← as_bool g; Some (RequestVoteReply t g)
  | WAppendEntries t l pi pt es lc =>
      t ← as_int t; l ← as_int l; pi ← as_int pi; pt ← as_int pt; es ← as_entries es; lc ← as_int lc;
      Some (AppendEntries t l pi pt es lc)
  | WAppendEntriesReply t s m => t ← as_int t; s ← as_bool s; m ← as_int m; Some (AppendEntriesReply t s m)
  end.

Definition as_envelope (w : wire_envelope F) : option (Envelope js) :=
  s ← as_int (w_src w); d ← as_int (w_dst w); b ← as_body (w_body w); Some (mkEnvelope s d b).

(** Commands that JSON text can carry: their strings are well formed, and a
    command with an [op] of its own is not one of the known ones. *)
Definition command_ok (c : command js) : bool :=
  json_ok (command_dict c) && match c with CmdOther op => negb (str_eqb op (str "noop")) | _ => true end.

Definition entries_ok (es : list (LogEntry js)) : Prop := Forall (fun e => command_ok (cmd e) = true) es.

Definition body_ok b : Prop := match b with AppendEntries _ _ _ _ es _ => entries_ok es | _ => True end.

End wire.

(** * Round trip *)

Section roundtrip.
Context {F : Type} `{FloatTextLaws F}.
Abbreviation js := (json_of F).
Implicit Types (env : Envelope js) (b : message js).

Lemma body_json_ok b : body_ok b -> json_ok (_body_to_dict b) = true.
Proof.
  destruct b as [t c i lt|t g|t l pi pt es lc|t s m]; intros Hb; cbn [_body_to_dict json_ok]; apply andb_true_iff; split; try done.
  simpl. rewrite !andb_true_iff. split_and!; try done. apply forallb_forall. intros v [e [-> He]]%list_elem_of_In%list_elem_of_fmap.
  simpl in Hb. unfold entries_ok in Hb. rewrite Forall_forall in Hb. specialize (Hb e He). unfold command_ok in Hb. apply andb_true_iff in Hb as [Hc _]. simpl. by rewrite Hc.
Qed.

Lemma envelope_json_ok env : body_ok (body env) -> json_ok (envelope_dict env) = true.
Proof.
  intros Hb. unfold envelope_dict. cbn [json_ok]. apply andb_true_iff. split; [|done]. cbn [forallb fst snd json_ok].
  rewrite (body_json_ok _ Hb). by destruct (body env).
Qed.

Lemma unpack_entries (es : list (LogEntry js)) :
  unpack_all ((fun e => JList [JInt (term e); command_dict (cmd e)]) <$> es) = Ok ((fun e => (JInt (term e), command_dict (cmd e))) <$> es).
Proof. induction es as [|e es IH]; [done|]. csimpl. by rewrite IH. Qed.

Lemma dict_to_body_spec b : _dict_to_body (JStr (type_name b)) (_body_to_dict b) = Ok (body_obj b).
Proof. destruct b as [t c i lt|t g|t l pi pt es lc|t s m]; try reflexivity. unfold _dict_to_body. simpl. by rewrite unpack_entries. Qed.

Lemma as_command_dict (c : command js) : command_ok c = true -> as_command (command_dict c) = Some c.
Proof.
  unfold command_ok. intros [_ Hc]%andb_true_iff. destruct c as [k v|k| |op]; try reflexivity.
  cbn [command_dict as_command]. cbv beta iota. change (str_eqb (str "op") (str "op")) with true. cbv iota. by destruct (str_eqb op _).
Qed.

Lemma as_envelope_obj env : body_ok (body env) -> as_envelope (obj env) = Some env.
Proof.
  destruct env as [s d b]. unfold as_envelope, obj. simpl. intros Hb.
  assert (as_body (body_obj b) = Some b) as E.
  { destruct b as [t c i lt|t g|t l pi pt es lc|t sc m]; try reflexivity. simpl.
    assert (as_entries ((fun e => (JInt (term e), command_dict (cmd e))) <$> es) = Some es) as E; [|by rewrite E].
    induction Hb as [|[t' c] es Hc _ IH]; [done|]. csimpl in *. rewrite as_command_dict by done. simpl. by rewrite IH. }
  by rewrite E.
Qed.

Lemma encode_total env : exists raw, encode env = Ok raw.
Proof. apply printable_utf8. apply dumps_printable; by repeat constructor. Qed.

Lemma decode_encoded env raw : body_ok (body env) -> encode env = Ok raw -> decode raw = Ok (obj env).
Proof.
  intros Hb E. apply utf8_roundtrip in E. unfold decode. rewrite E. cbn [mbind result_bind].
  rewrite loads_dumps by (apply default_seps_ok || by apply envelope_json_ok).
  change ((b ← _dict_to_body (JStr (type_name (body env))) (_body_to_dict (body env)); Ok (mkWire (JInt (src env)) (JInt (dst env)) b)) = Ok (obj env)).
  by rewrite dict_to_body_spec.
Qed.

(** C28: the wire format loses nothing.  Every message of a node whose commands are
    JSON text can be encoded, and decoding the bytes gives the same message
    object, with the same types in every field. *)
Theorem wire_roundtrip env : body_ok (body env) ->
  exists raw, encode env = Ok raw /\ decode raw = Ok (obj env) /\ as_envelope (obj env) = Some env.
Proof.
  intros Hb. destruct (encode_total env) as [raw E]. exists raw. split_and!; [done|by apply decode_encoded|by apply as_envelope_obj].
Qed.

End roundtrip.
