(* ===== verification/RaftServer.v ===== *)
(** The TCP transport of a Raft node: [src/imustore/raft/server.py].

    A connection carries one frame.  What arrives at the other end is the bytes
    the peer wrote before the connection ended, so a connection is the list of
    its bytes.  The tasks of a server interleave between the sections that hold
    its lock: a task that still has messages to send is kept in [sv_tasks], a
    [submit] that waits for its index in [sv_waiting].  The clocks ([sleep],
    [wait_for]) are the choice of the next action. *)

From S2P Require Import Prelude PyBase Struct SimDisk Text KeyList Logical Pickle Index Engine Database Json JsonText JsonRoundtrip JsonCodec Resp RaftLog RaftNode RaftMachines RaftWire.

(** * Frames *)

Definition _frame (data : bytes) : res bytes := header ← pack_uint 4 (zlen data); Ok (header ++ data).

(** [reader] yields the bytes of the connection. *)
Definition _read_frame : St bytes (option bytes) :=
  try_with (header ← readexactly 4; data ← readexactly (be_decode header); mret (Some data))
           (fun e => match e with IncompleteReadError => mret None | e => raise e end).

(** * Servers *)

Abbreviation address := (pystr * Z)%type.

(** Whether the background task sleeps, sends what a tick produced, or has ended
    with an exception. *)
Inductive tick_state : Type := Sleeping | Dispatching | Ended.

(** The coroutine that called [_dispatch]. *)
Inductive origin : Type := FromTick | FromHandle | FromSubmit (index : Z).

Record server (F SM : Type) `{Rng} : Type := mkServer {
  sv_id : Z;
  sv_peers : list (Z * address);
  sv_config : RaftConfig;
  sv_node : RaftNode (json_of F) SM;
  sv_ticking : tick_state;
  sv_tasks : list (origin * list (Envelope (json_of F)));
  sv_waiting : list Z
}.
Arguments mkServer {F SM H} sv_id sv_peers sv_config sv_node sv_ticking sv_tasks sv_waiting.
Arguments sv_id {F SM H} s.
Arguments sv_peers {F SM H} s.
Arguments sv_config {F SM H} s.
Arguments sv_node {F SM H} s.
Arguments sv_ticking {F SM H} s.
Arguments sv_tasks {F SM H} s.
Arguments sv_waiting {F SM H} s.

Module raftserver.
Section raftserver.
Context `{Rng} {F SM : Type} `{FloatText F} `{StateMachine (json_of F) SM}.
Abbreviation js := (json_of F).
Implicit Types (s : server F SM) (n : RaftNode js SM).

Definition set_node n s : server F SM := mkServer (sv_id s) (sv_peers s) (sv_config s) n (sv_ticking s) (sv_tasks s) (sv_waiting s).
Definition set_ticking (t : tick_state) s : server F SM := mkServer (sv_id s) (sv_peers s) (sv_config s) (sv_node s) t (sv_tasks s) (sv_waiting s).
Definition set_tasks (ts : list (origin * list (Envelope js))) s : server F SM :=
  mkServer (sv_id s) (sv_peers s) (sv_config s) (sv_node s) (sv_ticking s) ts (sv_waiting s).
Definition set_waiting (ws : list Z) s : server F SM := mkServer (sv_id s) (sv_peers s) (sv_config s) (sv_node s) (sv_ticking s) (sv_tasks s) ws.

(** [await self._dispatch(out)] begins. *)
Definition dispatch (o : origin) (out : list (Envelope js)) s : server F SM := set_tasks (sv_tasks s ++ [(o, out)]) s.

(** [start]: the state machine has the database [connect] opened, [file] is what
    the path of the log holds. *)
Definition start (id : Z) (ps : list (Z * address)) (conf : RaftConfig) (m : SM) (file : option (option (raft_document js))) (g : rng) :
    res (server F SM) :=
  let '(m, r) := sm_applied_index m in
  applied ← r;
  Ok (mkServer id ps conf (node.init id ps.*1 m (raftlog.init file) g conf applied) Sleeping [] []).

Definition is_leader s : bool := node.is_leader (sv_node s).

(** [leader_id] of a running server *)
Definition get_leader_id s : option Z := leader_id (sv_node s).

(** One turn of [_tick_loop]; only [CancelledError] is caught, so an exception
    ends the task. *)
Definition tick_turn s : server F SM :=
  match sv_ticking s with
  | Sleeping =>
      let '(n, r) := node.tick (sv_node s) in
      match r with
      | Ok out => dispatch FromTick out (set_ticking Dispatching (set_node n s))
      | Raise _ => set_ticking Ended (set_node n s)
      end
  | _ => s
  end.

(** [submit] up to its dispatch: the index is what it will wait for. *)
Definition submit (c : command js) s : server F SM * result raft_exn Z :=
  if negb (is_leader s) then (s, Raise (NotLeaderError (leader_id (sv_node s))))
  else
    let '(n, r) := node.propose c (sv_node s) in
    match r with
    | Ok (index, out) => (dispatch (FromSubmit index) out (set_node n s), Ok index)
    | Raise e => (set_node n s, Raise e)
    end.

(** The end of [submit] number [k] that waits: the loop of [_await_apply] ends once
    the index it waits for is applied; the index it returns. *)
Definition submit_returns (k : nat) s : option (server F SM * Z) :=
  index ← sv_waiting s !! k;
  if last_applied (sv_node s) <? index then None else Some (set_waiting (delete k (sv_waiting s)) s, index).

(** [wait_for] gives up. *)
Definition submit_times_out (k : nat) s : server F SM := set_waiting (delete k (sv_waiting s)) s.

(** [_handle] on a connection; every exception is swallowed.  [None] when a field
    of the message has a type no node sends. *)
Definition _handle (conn : bytes) s : option (server F SM) :=
  match (_read_frame conn).2 with
  | Raise _ | Ok None => Some s
  | Ok (Some raw) =>
      match decode raw with
      | Raise _ => Some s
      | Ok w =>
          env ← as_envelope w;
          let '(n, r) := node.step env (sv_node s) in
          match r with
          | Ok out => Some (dispatch FromHandle out (set_node n s))
          | Raise _ => Some (set_node n s)
          end
      end
  end.

(** [self.peers.get(dst)] *)
Fixpoint peer_address (ps : list (Z * address)) (dst : Z) : option address :=
  match ps with
  | [] => None
  | (p, a) :: ps => if p =? dst then Some a else peer_address ps dst
  end.

(** [_send]: [cut] is [None] when no connection is made in time, else how many
    bytes get through.  The bytes that arrive, and at which address. *)
Definition _send (cut : option nat) s (env : Envelope js) : res (option (address * bytes)) :=
  match peer_address (sv_peers s) (dst env), cut with
  | Some a, Some cut => raw ← encode env; fr ← _frame raw; Ok (Some (a, take cut fr))
  | _, _ => Ok None
  end.

(** A dispatch that is done, or raised. *)
Definition finish (o : origin) s : server F SM :=
  match o with
  | FromTick => set_ticking Sleeping s
  | FromHandle => s
  | FromSubmit index => set_waiting (sv_waiting s ++ [index]) s
  end.
Definition abort (o : origin) s : server F SM :=
  match o with FromTick => set_ticking Ended s | _ => s end.

(** The next message of task [k] of [_dispatch]. *)
Definition dispatch_turn (k : nat) (cut : option nat) s : option (server F SM * option (address * bytes)) :=
  '(o, envs) ← sv_tasks s !! k;
  let others := delete k (sv_tasks s) in
  match envs with
  | [] => Some (finish o (set_tasks others s), None)
  | env :: rest =>
      match _send cut s env with
      | Ok sent => Some (set_tasks (<[k := (o, rest)]> (sv_tasks s)) s, sent)
      | Raise _ => Some (abort o (set_tasks others s), None)
      end
  end.

(** [stop], and [start] again on the same files. *)
Definition restart (g : rng) s : res (server F SM) :=
  start (sv_id s) (sv_peers s) (sv_config s) (machine (sv_node s)) (_file (log (sv_node s))) g.

End raftserver.

(** [read], from the server's own database *)
Definition read `{Pickle} {N V} `{Index N} `{Codec V} (key : pystr) : St (DBDB N) (option V) :=
  try_with (v ← dbdb.getitem key; mret (Some v)) (fun e => match e with KeyError _ => mret None | e => raise e end).

End raftserver.

(** * The cluster *)

(** The servers by identifier, and the connections a server has not handled yet. *)
Record cluster (F SM : Type) `{Rng} : Type := mkServers {
  servers : gmap Z (server F SM);
  inbound : list (Z * bytes)
}.
Arguments mkServers {F SM H} servers inbound.
Arguments servers {F SM H} c.
Arguments inbound {F SM H} c.

Inductive server_action (F : Type) `{Rng} : Type :=
| Turn (i : Z)
| Submit (i : Z) (c : command (json_of F))
| Dispatch (i : Z) (k : nat) (cut : option nat)
| Handle (k : nat)
| Return (i : Z) (k : nat)
| Timeout (i : Z) (k : nat)
| Restart (i : Z) (g : rng).
Arguments Turn {F H} i.
Arguments Submit {F H} i c.
Arguments Dispatch {F H} i k cut.
Arguments Handle {F H} k.
Arguments Return {F H} i k.
Arguments Timeout {F H} i k.
Arguments Restart {F H} i g.

Section cluster.
Context `{Rng} {F SM : Type} `{FloatText F} `{StateMachine (json_of F) SM}.
(** Which server listens at an address. *)
Context (route : address -> option Z).
Implicit Types (s : server F SM) (c : cluster F SM).

Definition put (i : Z) s c : cluster F SM := mkServers (<[i := s]> (servers c)) (inbound c).

Definition connected (sent : option (address * bytes)) : list (Z * bytes) :=
  match sent with
  | Some (a, b) => match route a with Some j => [(j, b)] | None => [] end
  | None => []
  end.

Definition server_exec (a : server_action F) c : option (cluster F SM) :=
  match a with
  | Turn i => s ← servers c !! i; Some (put i (raftserver.tick_turn s) c)
  | Submit i x => s ← servers c !! i; Some (put i (raftserver.submit x s).1 c)
  | Dispatch i k cut =>
      s ← servers c !! i; '(s', sent) ← raftserver.dispatch_turn k cut s;
      Some (mkServers (<[i := s']> (servers c)) (inbound c ++ connected sent))
  | Handle k =>
      '(i, conn) ← inbound c !! k; s ← servers c !! i; s' ← raftserver._handle conn s;
      Some (mkServers (<[i := s']> (servers c)) (delete k (inbound c)))
  | Return i k => s ← servers c !! i; '(s', _) ← raftserver.submit_returns k s; Some (put i s' c)
  | Timeout i k => s ← servers c !! i; Some (put i (raftserver.submit_times_out k s) c)
  | Restart i g =>
      s ← servers c !! i;
      match raftserver.restart g s with Ok s' => Some (put i s' c) | Raise _ => None end
  end.

Fixpoint server_run (acts : list (server_action F)) c : option (cluster F SM) :=
  match acts with
  | [] => Some c
  | a :: acts => c ← server_exec a c; server_run acts c
  end.

End cluster.

(** * The command line *)

(** [int(s)] of text outside ASCII, which may have digits of other scripts. *)
Class WideInt := int_wide : pystr -> res Z.

(** [int(x)] of a float *)
Class FloatInt (F : Type) := float_int : F -> res Z.

(** [s.split(sep)] for one character *)
Fixpoint split_on (sep : N) (s : pystr) : list pystr :=
  match s with
  | [] => [[]]
  | c :: s =>
      if (c =? sep)%N then [] :: split_on sep s
      else match split_on sep s with [] => [[c]] | part :: parts => (c :: part) :: parts end
  end.

(** [d[k] = v] *)
Fixpoint peer_set (k : Z) (v : address) (d : list (Z * address)) : list (Z * address) :=
  match d with
  | [] => [(k, v)]
  | (k', v') :: d => if k' =? k then (k', v) :: d else (k', v') :: peer_set k v d
  end.

Section command_line.
Context `{WideInt}.

Definition int_str (s : pystr) : res Z := if forallb (fun c => (c <? 128)%N) s then int_of s else int_wide s.

(** [int(v)] of a stored value *)
#[export] Instance json_int {F} `{FloatInt F} : IntValue (json_of F) := {|
  of_int := JInt;
  to_int v := match v with
    | JInt z => Ok z
    | JBool b => Ok (if b then 1 else 0)
    | JFloat x => float_int x
    | JStr s => int_str s
    | _ => Raise TypeError
    end
|}.

Definition _parse_peer (spec : pystr) : res (Z * address) :=
  match split_on 58 spec with
  | [node_id; host; port] => i ← int_str node_id; p ← int_str port; Ok (i, (host, p))
  | _ => Raise ValueError
  end.

(** [dict(_parse_peer(spec) for spec in args.peer)] *)
Definition parse_peers (specs : list pystr) : res (list (Z * address)) :=
  foldl (fun r spec => d ← r; '(i, a) ← _parse_peer spec; Ok (peer_set i a d)) (Ok []) specs.

(** [main] up to the server's start: the node's identifier, its peers, the state
    machine with the database and what the file of the log holds. *)
Definition raft_main `{Rng} {F SM : Type} `{FloatText F} `{StateMachine (json_of F) SM}
    (id : Z) (specs : list pystr) (m : SM) (file : option (option (raft_document (json_of F)))) (g : rng) : res (server F SM) :=
  peers ← parse_peers specs;
  raftserver.start id peers default_config m file g.

End command_line.
