(* ===== verification/RaftServerProps.v ===== *)
(** What the servers' steps keep, and that a cluster of servers behaves like the
    Raft cluster of [RaftProps] ([src/imustore/raft/server.py]). *)

From Stdlib Require Import ZifyBool.
From S2P Require Import Prelude PyBase Struct Text SimDisk RaftLog RaftNode RaftAbstract RaftRefine RaftCluster RaftMachines Resp Json JsonText.
From S2P Require Import JsonRoundtrip JsonCodec Physical PhysicalFacts Recovery KeyList Logical Pickle Index Engine Session Database BPlusTree BPlusIndex RaftProps RaftKV RaftWire RaftServer.

(** What a node's methods keep, whatever the messages: its peers, its log file,
    and that every command it holds or sends can be carried by JSON text. *)

Section keeps.
Context `{Rng} {F SM : Type} `{FloatText F} `{StateMachine (json_of F) SM} (ps : list Z).
Abbreviation js := (json_of F).
Abbreviation Node := (RaftNode js SM).
Implicit Types (n : Node) (l : RaftLog js).

Definition sendable (es : list (Envelope js)) : Prop := Forall (fun e => body_ok (body e)) es.

Definition log_fit l : Prop :=
  entries_ok (entries l) /\ is_Some (_file l) /\ (forall p, _file l = Some (Some p) -> entries_ok (p_entries p)).

Definition fit n : Prop := log_fit (log n) /\ sendable (_outbox n) /\ peers n = ps.

(** [m] keeps a node fit and what it returns satisfies [R]. *)
Definition keeps {A} (m : stx raft_exn Node A) (R : A -> Prop) : Prop :=
  forall n n' r, fit n -> m n = (n', r) -> fit n' /\ match r with Ok a => R a | Raise _ => True end.

Lemma keeps_ret {A} (a : A) (R : A -> Prop) : R a -> keeps (mret a) R.
Proof. intros Ha n n' r Hn [= <- <-]. done. Qed.

Lemma keeps_raise {A} (e : raft_exn) (R : A -> Prop) : keeps (raise e) R.
Proof. intros n n' r Hn [= <- <-]. done. Qed.

Lemma keeps_bind {A B} (m : stx raft_exn Node A) (f : A -> stx raft_exn Node B) (R : A -> Prop) (R' : B -> Prop) :
  keeps m R -> (forall a, R a -> keeps (f a) R') -> keeps (m ≫= f) R'.
Proof.
  intros Hm Hf n n' r Hn E. unfold mbind, stx_bind in E. destruct (m n) as [n1 [a|e]] eqn:E1.
  - destruct (Hm _ _ _ Hn E1) as [Hn1 Ha]. by eapply Hf.
  - injection E as <- <-. by destruct (Hm _ _ _ Hn E1).
Qed.

Lemma keeps_get : keeps get_st fit.
Proof. by intros n n' r Hn [= <- <-]. Qed.

Lemma keeps_put n : fit n -> keeps (put_st n) (fun _ => True).
Proof. by intros Hn n0 n' r _ [= <- <-]. Qed.

Lemma keeps_modify (f : Node -> Node) : (forall n, fit n -> fit (f n)) -> keeps (modify f) (fun _ => True).
Proof. intros Hf n n' r Hn [= <- <-]. split; [by apply Hf|done]. Qed.

Lemma keeps_lift {A} (r : result raft_exn A) : keeps (lift_res r) (fun _ => True).
Proof. intros n n' r' Hn [= <- <-]. split; [done|by destruct r]. Qed.

Lemma keeps_machine {A} (m : St SM A) : keeps (node.on_machine m) (fun _ => True).
Proof. intros n n' r Hn E. unfold node.on_machine in E. destruct (m (machine n)) as [m' r']. injection E as <- <-. split; [done|by destruct r']. Qed.

Lemma keeps_log {A} (m : St (RaftLog js) A) :
  (forall l l' r, log_fit l -> m l = (l', r) -> log_fit l') -> keeps (node.on_log m) (fun _ => True).
Proof.
  intros Hm n n' r (Hl & Ho & Hp) E. unfold node.on_log in E. destruct (m (log n)) as [l' r'] eqn:El. injection E as <- <-.
  split; [|by destruct r']. split_and!; [by eapply Hm|done|done].
Qed.

(** Runs through the monadic structure of a method. *)
Ltac keep :=
  repeat first
    [ apply keeps_raise
    | eapply keeps_bind; [first [apply keeps_get | apply keeps_modify; solve [auto] | apply keeps_lift | apply keeps_machine | eauto 2]|]
    | apply keeps_modify; solve [auto]
    | apply keeps_ret; solve [auto]
    | progress intros
    | match goal with |- keeps (if ?b then _ else _) _ => destruct b end ].

Lemma fit_save n : fit n -> log_fit (raftlog.save (current_term n) (voted_for n) (log n)).
Proof. intros ((Hl & [f Hf] & _) & _). unfold raftlog.save, log_fit. rewrite Hf. split_and!; [done..|]. by intros p [= <-]. Qed.

Lemma persist_keeps : keeps node._persist (fun _ => True).
Proof. apply keeps_modify. intros n Hn. pose proof (fit_save n Hn). by destruct Hn as (_ & ? & ?). Qed.

Lemma reset_keeps : keeps node._reset_election_timer (fun _ => True).
Proof. apply keeps_modify. intros n Hn. simpl. by destruct (randint _ _ _). Qed.

Lemma send_keeps to b : body_ok b -> keeps (node._send to b) (fun _ => True).
Proof. intros Hb. apply keeps_modify. intros n (Hl & Ho & Hp). split_and!; [done| |done]. apply Forall_app_2; [done|by repeat constructor]. Qed.

Lemma drain_keeps : keeps node._drain sendable.
Proof.
  unfold node._drain. eapply keeps_bind; [apply keeps_get|]. intros n (Hl & Ho & Hp). eapply keeps_bind; [apply keeps_put; split_and!; [done|constructor|done]|].
  intros _ _. by apply keeps_ret.
Qed.

Lemma get_next_keeps p : keeps (node.get_next_index p) (fun _ => True).
Proof. unfold node.get_next_index. keep. destruct (next_index _ !! p); keep. Qed.

Lemma for_peers_keeps (f : Z -> stx raft_exn Node unit) (l : list Z) : (forall p, keeps (f p) (fun _ => True)) -> keeps (node.for_peers f l) (fun _ => True).
Proof. intros Hf. induction l as [|p l IH]; simpl; [by apply keeps_ret|]. eapply keeps_bind; [apply Hf|done]. Qed.

Lemma apply_loop_keeps k : keeps (node.apply_loop k) (fun _ => True).
Proof. induction k as [|k IH]; simpl; [by apply keeps_ret|]. keep. done. Qed.

Lemma apply_keeps : keeps node._apply (fun _ => True).
Proof. unfold node._apply. eapply keeps_bind; [apply keeps_get|]. intros. apply apply_loop_keeps. Qed.

Lemma send_append_keeps p : keeps (node._send_append_to p) (fun _ => True).
Proof.
  unfold node._send_append_to. eapply keeps_bind; [apply get_next_keeps|]. intros i _. eapply keeps_bind; [apply keeps_get|]. intros n (Hl & _).
  apply send_keeps. simpl. unfold raftlog.entries_from, py_from. by apply Forall_drop, Hl.
Qed.

Lemma broadcast_keeps : keeps node._broadcast_append (fun _ => True).
Proof. unfold node._broadcast_append. keep. apply for_peers_keeps, send_append_keeps. Qed.

Lemma advance_keeps : keeps node._maybe_advance_commit (fun _ => True).
Proof.
  unfold node._maybe_advance_commit. eapply keeps_bind; [apply keeps_get|]. intros n _. generalize (node.range_down (raftlog.last_index (log n)) (commit_index n)).
  intros l. induction l as [|x l IH]; simpl; keep; try done. apply apply_loop_keeps.
Qed.

Lemma append_entry_keeps c : command_ok c = true -> keeps (node.append_entry c) (fun _ => True).
Proof.
  intros Hc. unfold node.append_entry. eapply keeps_bind; [apply keeps_get|]. intros n ((Hl & Hf) & Ho & Hp). simpl.
  eapply keeps_bind; [|by intros; apply keeps_ret]. apply keeps_put. split_and!; [split; [|done]|done|done].
  apply Forall_app_2; [done|by repeat constructor].
Qed.

Lemma become_leader_keeps : keeps node._become_leader (fun _ => True).
Proof.
  unfold node._become_leader. eapply keeps_bind; [by apply keeps_modify|]. intros _ _. eapply keeps_bind; [by apply append_entry_keeps|]. intros _ _.
  eapply keeps_bind; [apply persist_keeps|]. intros _ _. eapply keeps_bind; [apply broadcast_keeps|]. intros _ _. apply advance_keeps.
Qed.

Lemma become_follower_keeps t : keeps (node._become_follower t) (fun _ => True).
Proof.
  unfold node._become_follower. eapply keeps_bind; [by apply keeps_modify|]. intros _ _. eapply keeps_bind; [apply keeps_get|]. intros n _.
  eapply (keeps_bind _ _ (fun _ => True)); [destruct (_ <? _); [by apply keeps_modify|by apply keeps_ret]|]. intros _ _.
  eapply keeps_bind; [by apply keeps_modify|]. intros _ _. eapply keeps_bind; [apply reset_keeps|]. intros _ _. apply persist_keeps.
Qed.

Lemma become_candidate_keeps : keeps node._become_candidate (fun _ => True).
Proof.
  unfold node._become_candidate. eapply keeps_bind; [by apply keeps_modify|]. intros _ _. eapply keeps_bind; [apply reset_keeps|]. intros _ _.
  eapply keeps_bind; [apply persist_keeps|]. intros _ _. eapply keeps_bind; [apply keeps_get|]. intros n _.
  destruct (node._has_majority _ _); [apply become_leader_keeps|]. apply for_peers_keeps. intros p. eapply keeps_bind; [apply keeps_get|]. intros. by apply send_keeps.
Qed.

Lemma append_loop_fit index es l l' r :
  entries_ok es -> log_fit l -> raftlog.append_loop index es l = (l', r) -> log_fit l'.
Proof.
  intros Hes. revert index l. induction Hes as [|e es He Hes IH]; intros index l Hl; simpl; [by intros [= <- _]|].
  unfold mbind, stx_bind, get_st. cbv beta iota. intros E.
  assert (forall l1, log_fit l1 -> raftlog.append_loop (index + 1) es l1 = (l', r) -> log_fit l') as Hnext by (intros; by eapply IH).
  destruct Hl as [Hl Hf]. destruct (index + 1 <=? raftlog.last_index l).
  - destruct (py_index (entries l) (index + 1 - 1)) as [mine|e']; simpl in E; [|by injection E as <- _].
    destruct (term mine =? term e); simpl in E; [by apply Hnext in E|].
    eapply Hnext; [|exact E]. split; [|done]. simpl. apply Forall_app_2; [|by repeat constructor]. unfold py_upto. by apply Forall_take.
  - eapply Hnext; [|exact E]. split; [|done]. simpl. apply Forall_app_2; [done|by repeat constructor].
Qed.

Lemma append_from_keeps prev es : entries_ok es -> keeps (node.on_log (raftlog.append_from prev es)) (fun _ => True).
Proof. intros Hes. apply keeps_log. intros l l' r Hl E. unfold raftlog.append_from in E. by eapply append_loop_fit. Qed.

#[local] Hint Resolve persist_keeps reset_keeps advance_keeps become_leader_keeps become_follower_keeps send_append_keeps apply_keeps append_from_keeps : core.

(** One binding of a method at a time. *)
Ltac next := eapply (keeps_bind _ _ (fun _ => True)); [first [by eauto 2|by apply keeps_modify|by apply send_keeps|by apply keeps_ret]|intros _ _].
Ltac look := eapply keeps_bind; [apply keeps_get|intros].

Lemma request_vote_keeps from t c i lt : keeps (node._handle_request_vote from t c i lt) (fun _ => True).
Proof.
  unfold node._handle_request_vote. look. destruct (_ <? _); [by apply send_keeps|].
  eapply (keeps_bind _ _ (fun _ => True)); [destruct (_ <? _); [auto|by apply keeps_ret]|intros _ _]. look.
  destruct (_ && _); [|by apply send_keeps]. do 3 next. look. by apply send_keeps.
Qed.

Lemma request_vote_reply_keeps from t g : keeps (node._handle_request_vote_reply from t g) (fun _ => True).
Proof.
  unfold node._handle_request_vote_reply. look. destruct (_ <? _); [auto|]. destruct (_ || _); [by apply keeps_ret|]. destruct g; [|by apply keeps_ret].
  next. look. destruct (node._has_majority _ _); [auto|by apply keeps_ret].
Qed.

Lemma append_entries_keeps from t (leader pi pt : Z) es lc : entries_ok es -> keeps (node._handle_append_entries from t leader pi pt es lc) (fun _ => True).
Proof.
  intros Hes. unfold node._handle_append_entries. look. destruct (_ <? _); [by apply send_keeps|].
  eapply (keeps_bind _ _ (fun _ => True)); [destruct (_ <? _); [auto|by apply keeps_ret]|intros _ _]. do 2 next. look.
  destruct (_ || _); [by apply send_keeps|]. next. look.
  eapply (keeps_bind _ _ (fun _ => True)); [destruct (_ <? _); [next; auto|by apply keeps_ret]|intros _ _]. next. look. by apply send_keeps.
Qed.

Lemma append_reply_keeps from t s m : keeps (node._handle_append_entries_reply from t s m) (fun _ => True).
Proof.
  unfold node._handle_append_entries_reply. look. destruct (_ <? _); [auto|]. destruct (_ || _); [by apply keeps_ret|].
  destruct s; [next; auto|]. eapply keeps_bind; [apply get_next_keeps|intros]. next. auto.
Qed.

Lemma tick_keeps : keeps node.tick sendable.
Proof.
  unfold node.tick. eapply keeps_bind; [apply keeps_modify; intros n (? & _ & ?); split_and!; [done|constructor|done]|intros _ _]. look.
  eapply (keeps_bind _ _ (fun _ => True)); [|intros _ _; apply drain_keeps]. destruct (bool_decide _).
  - destruct (_ <=? _); [next; apply broadcast_keeps|by apply keeps_modify].
  - next. destruct (_ <=? _); [apply become_candidate_keeps|by apply keeps_ret].
Qed.

Lemma step_keeps env : body_ok (body env) -> keeps (node.step env) sendable.
Proof.
  intros Hb. unfold node.step. eapply keeps_bind; [apply keeps_modify; intros n (? & _ & ?); split_and!; [done|constructor|done]|intros _ _].
  eapply (keeps_bind _ _ (fun _ => True)); [|intros _ _; apply drain_keeps].
  destruct (body env); [apply request_vote_keeps|apply request_vote_reply_keeps|by apply append_entries_keeps|apply append_reply_keeps].
Qed.

Lemma propose_keeps c : command_ok c = true -> keeps (node.propose c) (fun io => sendable io.2).
Proof.
  intros Hc. unfold node.propose. look. destruct (bool_decide _); [apply keeps_raise|].
  eapply keeps_bind; [apply keeps_modify; intros n (? & _ & ?); split_and!; [done|constructor|done]|intros _ _].
  eapply keeps_bind; [by apply append_entry_keeps|intros index _]. next.
  eapply keeps_bind; [apply broadcast_keeps|intros _ _]. next. eapply keeps_bind; [apply drain_keeps|intros out Ho]. by apply keeps_ret.
Qed.

End keeps.

(** A cluster of servers on TCP connections behaves like the Raft cluster whose
    safety is proved in [RaftProps]. *)

(** * Frames *)

Lemma readexactly_whole (n : Z) (b rest : bytes) : zlen b = n -> readexactly n (b ++ rest) = (rest, Ok b).
Proof.
  intros <-. unfold readexactly, zlen. rewrite (proj2 (Z.ltb_ge _ 0)) by lia. run. rewrite length_app, (proj2 (Z.ltb_ge _ _)) by lia.
  rewrite take_app_exact, drop_app_exact by lia. done.
Qed.

Lemma readexactly_short (n : Z) (b : bytes) : zlen b < n -> readexactly n b = ([], Raise IncompleteReadError).
Proof.
  intros Hb. unfold readexactly, zlen in *. rewrite (proj2 (Z.ltb_ge n 0)) by lia. run. by rewrite (proj2 (Z.ltb_lt _ n)) by lia.
Qed.

Lemma frame_parts data fr : _frame data = Ok fr -> exists h, fr = h ++ data /\ length h = 4%nat /\ be_decode h = zlen data.
Proof.
  unfold _frame. intros (h & Eh & [= <-])%result_bind_inv. destruct (pack_uint_ok _ _ _ Eh) as (Hl & Hd & _). by exists h.
Qed.

(** A whole frame is read as its data. *)
Lemma read_frame_whole data fr rest : _frame data = Ok fr -> _read_frame (fr ++ rest) = (rest, Ok (Some data)).
Proof.
  intros (h & -> & Hl & Hd)%frame_parts. unfold _read_frame, try_with. rewrite <- app_assoc.
  erewrite stx_bind_ok by (apply readexactly_whole; unfold zlen; lia). rewrite Hd. by erewrite stx_bind_ok by (by apply readexactly_whole).
Qed.

(** A frame that is cut off is dropped. *)
Lemma read_frame_cut data fr b : _frame data = Ok fr -> b `prefix_of` fr -> b <> fr -> (_read_frame b).2 = Ok None.
Proof.
  intros (h & -> & Hl & Hd)%frame_parts [r E] Hne. unfold _read_frame, try_with.
  assert (r <> []) as Hr by (intros ->; rewrite app_nil_r in E; done).
  destruct (Nat.lt_ge_cases (length b) 4) as [Hlt|Hge].
  { by erewrite stx_bind_raise by (apply readexactly_short; unfold zlen; lia). }
  assert (b = h ++ drop 4 b) as Eb.
  { rewrite <- (take_drop 4 b) at 1. f_equal. apply (f_equal (take 4)) in E. rewrite take_app_exact in E by done. by rewrite take_app_le in E by lia. }
  assert (zlen (drop 4 b) < zlen data) as Hz.
  { apply (f_equal length) in E. rewrite !length_app in E. unfold zlen. rewrite length_drop. destruct r; [done|]. simpl in E. lia. }
  rewrite Eb. erewrite stx_bind_ok by (apply readexactly_whole; unfold zlen; lia). rewrite Hd.
  by erewrite stx_bind_raise by (by apply readexactly_short).
Qed.

(** * Simulation *)

Section simulation.
Context `{Rng} {F SM : Type} `{FloatTextLaws F} `{MachineRel (json_of F) SM} (route : address -> option Z).
Abbreviation js := (json_of F).
Abbreviation World := (world js SM).
Implicit Types (s : server F SM) (c : cluster F SM) (w : World) (env : Envelope js).

(** The bytes are what arrives of the frame of a message that was sent. *)
Definition carries w (jb : Z * bytes) : Prop :=
  exists env raw fr, env ∈ sent w /\ dst env = jb.1 /\ encode env = Ok raw /\ _frame raw = Ok fr /\ jb.2 `prefix_of` fr.

(** A server with the addresses of its peers right. *)
Definition configured (ps : list (Z * address)) : Prop :=
  forall p a, raftserver.peer_address ps p = Some a -> route a = Some p.

Record server_ok w (i : Z) s : Prop := {
  so_id : sv_id s = i;
  so_fit : fit (sv_peers s).*1 (sv_node s);
  so_peers : configured (sv_peers s);
  so_tasks : Forall (fun t => Forall (fun env => env ∈ sent w) t.2) (sv_tasks s)
}.

Record explains w c : Prop := {
  ex_nodes : nodes w = sv_node <$> servers c;
  ex_servers i s : servers c !! i = Some s -> server_ok w i s;
  ex_inbound : Forall (carries w) (inbound c);
  ex_sent : sendable (sent w)
}.

Lemma carries_more w i n es jb : carries w jb -> carries (moved w i n es) jb.
Proof. intros (env & raw & fr & He & Hrest). exists env, raw, fr. split; [|done]. simpl. apply elem_of_app. by left. Qed.

(** Server [i] goes on to [s] after its node made a move, sending [es]. *)
Lemma explains_move w c i s0 s es conns :
  explains w c -> servers c !! i = Some s0 -> server_ok (moved w i (sv_node s) es) i s -> sendable es -> Forall (carries w) conns ->
  explains (moved w i (sv_node s) es) (mkServers (<[i := s]> (servers c)) conns).
Proof.
  intros [Hn Hs Hin Hse] Hi Hok Hes Hc. split; simpl.
  - by rewrite Hn, fmap_insert.
  - intros j t Hj. destruct (decide (i = j)) as [->|Hne]; [rewrite lookup_insert_eq in Hj; by injection Hj as <-|].
    rewrite lookup_insert_ne in Hj by done. destruct (Hs j t Hj) as [T1 T2 T3 T4]. split; try done.
    eapply Forall_impl; [exact T4|]. intros x Hx. eapply Forall_impl; [exact Hx|]. intros env He. simpl. apply elem_of_app. by left.
  - eapply Forall_impl; [exact Hc|]. intros jb. apply carries_more.
  - by apply Forall_app_2.
Qed.

(** Server [i] goes on to [s] with its node as it was. *)
Lemma explains_stay w c i s0 s conns :
  explains w c -> servers c !! i = Some s0 -> sv_node s = sv_node s0 -> server_ok w i s -> Forall (carries w) conns ->
  explains w (mkServers (<[i := s]> (servers c)) conns).
Proof.
  intros [Hn Hs Hin Hse] Hi En Hok Hc. split; simpl; [|intros j t Hj|done|done].
  - rewrite Hn, fmap_insert, En. symmetry. apply insert_id. by rewrite lookup_fmap, Hi.
  - destruct (decide (i = j)) as [->|Hne]; [rewrite lookup_insert_eq in Hj; by injection Hj as <-|].
    rewrite lookup_insert_ne in Hj by done. by apply Hs.
Qed.

Lemma node_of w c i s : explains w c -> servers c !! i = Some s -> nodes w !! i = Some (sv_node s).
Proof. intros Hex Hi. by rewrite (ex_nodes _ _ Hex), lookup_fmap, Hi. Qed.

(** A server whose node went on from a fit state by a method that keeps it fit. *)
Lemma server_ok_moved {A} w i s n' (m : stx raft_exn (RaftNode js SM) A) (R : A -> Prop) r es tick o out :
  server_ok w i s -> keeps (sv_peers s).*1 m R -> m (sv_node s) = (n', r) -> (forall env, env ∈ out -> env ∈ es) ->
  server_ok (moved w i n' es) i (raftserver.dispatch o out (raftserver.set_ticking tick (raftserver.set_node n' s))).
Proof.
  intros [Hi Hf Hp Ht] Hk E Hout. destruct (Hk _ _ _ Hf E) as [Hf' _]. split; simpl; try done. apply Forall_app_2.
  - eapply Forall_impl; [exact Ht|]. intros t Hx. eapply Forall_impl; [exact Hx|]. intros env He. simpl. apply elem_of_app. by left.
  - constructor; [|constructor]. simpl. apply Forall_forall. intros env He. simpl. apply elem_of_app. right. by apply Hout.
Qed.

Lemma server_ok_raised {A} w i s n' (m : stx raft_exn (RaftNode js SM) A) (R : A -> Prop) r tick :
  server_ok w i s -> keeps (sv_peers s).*1 m R -> m (sv_node s) = (n', r) ->
  server_ok (moved w i n' []) i (raftserver.set_ticking tick (raftserver.set_node n' s)).
Proof.
  intros Hok Hk E. pose proof (server_ok_moved w i s n' m R r [] tick FromHandle [] Hok Hk E ltac:(done)) as [T1 T2 T3 T4].
  split; try done. simpl in *. by apply Forall_app in T4 as [? _].
Qed.

(** The next state and the moves of the Raft cluster that lead to it. *)
Definition matched w c' : Prop := exists w', rtc cstep w w' /\ explains w' c'.

(** The exception of another component that ends a call of the node. *)
Definition raises {A} (r : result raft_exn A) : option exn := match r with Raise (PyError e) => Some e | _ => None end.

Lemma raises_smooth {A} (r : result raft_exn A) : raises r = None -> smooth r.
Proof. by destruct r as [|[]]. Qed.

(** The exception the state machine raises during an action, if it does; the server
    goes on ([_handle]), its background task ends ([_tick_loop]) or the client
    sees it ([submit]). *)
Definition conn_raises (conn : bytes) s : option exn :=
  match (_read_frame conn).2 with
  | Ok (Some raw) => match decode raw with Ok w => env ← as_envelope w; raises (node.step env (sv_node s)).2 | Raise _ => None end
  | _ => None
  end.

Definition action_raises (a : server_action F) c : option exn :=
  match a with
  | Turn i => s ← servers c !! i; match sv_ticking s with Sleeping => raises (node.tick (sv_node s)).2 | _ => None end
  | Submit i x => s ← servers c !! i; raises (raftserver.submit x s).2
  | Handle k => '(i, conn) ← inbound c !! k; s ← servers c !! i; conn_raises conn s
  | _ => None
  end.

(** A step of the servers in which no state machine raises; a server restarts
    before its machine has taken as many entries as it can count. *)
Definition smooth_step c c' : Prop :=
  exists a, server_exec route a c = Some c' /\ action_raises a c = None /\
    match a with
    | Submit _ x => command_ok x = true
    | Restart i _ => forall s, servers c !! i = Some s -> last_applied (sv_node s) < capacity
    | _ => True
    end.

Lemma matched_here w c' : explains w c' -> matched w c'.
Proof. intros Hex. exists w. done. Qed.

Lemma put_same w c i s : explains w c -> servers c !! i = Some s -> explains w (put i s c).
Proof. intros Hex Hi. apply (explains_stay w c i s); try done; [by apply (ex_servers _ _ Hex)|apply Hex]. Qed.

Lemma turn_matched w c i s : explains w c -> servers c !! i = Some s -> action_raises (Turn i) c = None -> matched w (put i (raftserver.tick_turn s) c).
Proof.
  intros Hex Hi Hno. simpl in Hno. rewrite Hi in Hno. simpl in Hno. pose proof (ex_servers _ _ Hex i s Hi) as Hok. unfold raftserver.tick_turn.
  destruct (sv_ticking s); [|by apply matched_here, put_same..].
  destruct (node.tick (sv_node s)) as [n' r] eqn:E. pose proof (C_tick w i _ n' r (node_of _ _ _ _ Hex Hi) E (raises_smooth _ Hno)) as Hstep.
  pose proof (tick_keeps (sv_peers s).*1 _ _ _ (so_fit _ _ _ Hok) E) as [_ Hout].
  destruct r as [out|e]; (eexists; split; [by apply rtc_once|]); simpl in *.
  - apply (explains_move w c i s (raftserver.dispatch FromTick out (raftserver.set_ticking Dispatching (raftserver.set_node n' s))) out); try done; [|apply Hex].
    by apply (server_ok_moved w i s n' node.tick sendable (Ok out)); try done; apply tick_keeps.
  - apply (explains_move w c i s (raftserver.set_ticking Ended (raftserver.set_node n' s)) []); try done; [|constructor|apply Hex].
    by apply (server_ok_raised w i s n' node.tick sendable (Raise e)); try done; apply tick_keeps.
Qed.

Lemma submit_matched w c i s x :
  explains w c -> servers c !! i = Some s -> command_ok x = true -> action_raises (Submit i x) c = None ->
  matched w (put i (raftserver.submit x s).1 c).
Proof.
  intros Hex Hi Hx Hno. simpl in Hno. rewrite Hi in Hno. simpl in Hno. pose proof (ex_servers _ _ Hex i s Hi) as Hok. unfold raftserver.submit in *.
  destruct (negb (raftserver.is_leader s)); [by apply matched_here, put_same|].
  destruct (node.propose x (sv_node s)) as [n' r] eqn:E.
  assert (smooth r) as Hsm by (apply raises_smooth; by destruct r as [[? ?]|]).
  pose proof (C_propose w i _ x n' r (node_of _ _ _ _ Hex Hi) E Hsm) as Hstep.
  pose proof (propose_keeps (sv_peers s).*1 x Hx _ _ _ (so_fit _ _ _ Hok) E) as [_ Hout].
  destruct r as [[index out]|e]; (eexists; split; [by apply rtc_once|]); simpl in *.
  - apply (explains_move w c i s (raftserver.dispatch (FromSubmit index) out (raftserver.set_node n' s)) out); try done; [|apply Hex].
    by apply (server_ok_moved w i s n' (node.propose x) (fun io => sendable io.2) (Ok (index, out)) out (sv_ticking s)); try done; apply propose_keeps.
  - apply (explains_move w c i s (raftserver.set_node n' s) []); try done; [|constructor|apply Hex].
    by apply (server_ok_raised w i s n' (node.propose x) (fun io => sendable io.2) (Raise e) (sv_ticking s)); try done; apply propose_keeps.
Qed.

(** What [_handle] does with a connection that carries a message of the cluster. *)
Lemma handle_carried w s i conn s' : carries w (i, conn) -> sendable (sent w) -> raftserver._handle conn s = Some s' ->
  s' = s \/ exists env n' r, env ∈ sent w /\ dst env = i /\ body_ok (body env) /\ node.step env (sv_node s) = (n', r) /\ conn_raises conn s = raises r /\
    s' = match r with Ok out => raftserver.dispatch FromHandle out (raftserver.set_node n' s) | Raise _ => raftserver.set_node n' s end.
Proof.
  intros (env & raw & fr & He & Hd & Eraw & Efr & Hp) Hse Hh. unfold sendable in Hse. rewrite Forall_forall in Hse. simpl in Hd, Hp.
  unfold raftserver._handle in Hh. destruct (decide (conn = fr)) as [->|Hne].
  2:{ rewrite (read_frame_cut raw fr conn) in Hh by done. left. by injection Hh as <-. }
  pose proof (read_frame_whole raw fr [] Efr) as Er. rewrite app_nil_r in Er. unfold conn_raises. rewrite Er in Hh |- *. simpl in Hh |- *.
  rewrite (decode_encoded env raw) in Hh |- * by (done || by apply Hse). rewrite as_envelope_obj in Hh |- * by (by apply Hse). simpl in Hh |- *.
  destruct (node.step env (sv_node s)) as [n' r] eqn:E. right. exists env, n', r. split_and!; [done..|by apply Hse|done|done|].
  destruct r; by injection Hh as <-.
Qed.

Lemma handle_matched w c k i conn s s' :
  explains w c -> inbound c !! k = Some (i, conn) -> servers c !! i = Some s -> raftserver._handle conn s = Some s' ->
  action_raises (Handle k) c = None -> matched w (mkServers (<[i := s']> (servers c)) (delete k (inbound c))).
Proof.
  intros Hex Hk Hi Hh Hno. simpl in Hno. rewrite Hk in Hno. simpl in Hno. rewrite Hi in Hno. simpl in Hno. pose proof (ex_servers _ _ Hex i s Hi) as Hok.
  assert (Forall (carries w) (delete k (inbound c))) as Hrest.
  { apply Forall_forall. intros jb Hjb. pose proof (ex_inbound _ _ Hex) as Hin. rewrite Forall_forall in Hin. apply Hin.
    eapply elem_of_submseteq; [exact Hjb|apply submseteq_delete]. }
  pose proof (Forall_lookup_1 _ _ _ _ (ex_inbound _ _ Hex) Hk) as Hcar.
  destruct (handle_carried w s i conn s' Hcar (ex_sent _ _ Hex) Hh) as [->|(env & n' & r & He & <- & Hb & E & Er & ->)].
  { apply matched_here. by apply (explains_stay w c i s). }
  rewrite Er in Hno. pose proof (C_deliver w env _ n' r He (node_of _ _ _ _ Hex Hi) E (raises_smooth _ Hno)) as Hstep.
  pose proof (step_keeps (sv_peers s).*1 env Hb _ _ _ (so_fit _ _ _ Hok) E) as [_ Hout].
  destruct r as [out|e]; (eexists; split; [by apply rtc_once|]); simpl in *.
  - apply (explains_move w c (dst env) s (raftserver.dispatch FromHandle out (raftserver.set_node n' s)) out); try done.
    by apply (server_ok_moved w _ s n' (node.step env) sendable (Ok out) out (sv_ticking s)); try done; apply step_keeps.
  - apply (explains_move w c (dst env) s (raftserver.set_node n' s) []); try done; [|constructor].
    by apply (server_ok_raised w _ s n' (node.step env) sendable (Raise e) (sv_ticking s)); try done; apply step_keeps.
Qed.

Lemma dispatch_matched w c i s k cut s' out :
  explains w c -> servers c !! i = Some s -> raftserver.dispatch_turn k cut s = Some (s', out) ->
  matched w (mkServers (<[i := s']> (servers c)) (inbound c ++ connected route out)).
Proof.
  intros Hex Hi Hd. pose proof (ex_servers _ _ Hex i s Hi) as Hok. apply matched_here. unfold raftserver.dispatch_turn in Hd.
  destruct (sv_tasks s !! k) as [[o envs]|] eqn:Ek; [|done]. simpl in Hd.
  pose proof (Forall_lookup_1 _ _ _ _ (so_tasks _ _ _ Hok) Ek) as Henvs. simpl in Henvs.
  assert (forall t, t ∈ delete k (sv_tasks s) -> Forall (fun env => env ∈ sent w) t.2) as Hdel.
  { intros t Ht. pose proof (so_tasks _ _ _ Hok) as Hts. rewrite Forall_forall in Hts. apply Hts. eapply elem_of_submseteq; [exact Ht|apply submseteq_delete]. }
  destruct Hok as [T1 T2 T3 T4]. pose proof (ex_inbound _ _ Hex) as Hin.
  destruct envs as [|env rest].
  { injection Hd as <- <-. rewrite app_nil_r. apply (explains_stay w c i s); try done; [by destruct o|].
    destruct o; split; simpl; try done; by apply Forall_forall. }
  apply Forall_cons in Henvs as [He Hrest]. unfold raftserver._send in Hd.
  assert (server_ok w i (raftserver.set_tasks (<[k := (o, rest)]> (sv_tasks s)) s)) as Hnext.
  { split; simpl; try done. by apply Forall_insert. }
  destruct (raftserver.peer_address (sv_peers s) (dst env)) as [a|] eqn:Ea.
  2:{ injection Hd as <- <-. rewrite app_nil_r. by apply (explains_stay w c i s). }
  destruct cut as [cut|]; [|injection Hd as <- <-; rewrite app_nil_r; by apply (explains_stay w c i s)].
  destruct (encode_total env) as [raw Eraw]. rewrite Eraw in Hd. simpl in Hd. destruct (_frame raw) as [fr|e] eqn:Efr; simpl in Hd; injection Hd as <- <-.
  - apply (explains_stay w c i s); try done. apply Forall_app_2; [done|]. simpl. rewrite (T3 _ _ Ea). constructor; [|constructor].
    exists env, raw, fr. split_and!; try done. apply prefix_take.
  - rewrite app_nil_r. apply (explains_stay w c i s); try done; [by destruct o|]. destruct o; split; simpl; try done; by apply Forall_forall.
Qed.

Lemma restart_matched w c i s g s' :
  explains w c -> servers c !! i = Some s -> last_applied (sv_node s) < capacity -> raftserver.restart g s = Ok s' -> matched w (put i s' c).
Proof.
  intros Hex Hi Hcap Hr. pose proof (ex_servers _ _ Hex i s Hi) as [T1 ((Hes & [f Hf] & Hdoc) & Ho & Hp) T3 T4]. unfold raftserver.restart, raftserver.start in Hr.
  destruct (sm_applied_index (machine (sv_node s))) as [m r] eqn:Em. apply result_bind_inv in Hr as (a & -> & [= <-]).
  assert (raftlog.init (_file (log (sv_node s))) = reload (log (sv_node s))) as El by (unfold reload; by rewrite Hf).
  pose proof (C_restart w i (sv_node s) (sv_peers s).*1 m (raftlog.init (_file (log (sv_node s)))) g (sv_config s) a (node_of _ _ _ _ Hex Hi)
    ltac:(by rewrite Hp) (or_intror El) Hcap Em) as Hstep.
  eexists. split; [by apply rtc_once|]. rewrite T1.
  apply (explains_move w c i s (mkServer i (sv_peers s) (sv_config s) (node.init i (sv_peers s).*1 m (raftlog.init (_file (log (sv_node s)))) g (sv_config s) a)
    Sleeping [] []) []); try done; [|constructor|apply Hex]. split; simpl; try done.
  unfold node.init. destruct (randint _ _ g) as [t g']. split_and!; [|constructor|done]. unfold log_fit. simpl. rewrite Hf. simpl.
  destruct f as [p|]; simpl; split_and!; try done; [by apply Hdoc|by intros q [= <-]; apply Hdoc|constructor].
Qed.

Lemma server_step_matched w c c' : explains w c -> smooth_step c c' -> matched w c'.
Proof.
  intros Hex ([i|i x|i k cut|k|i k|i k|i g] & E & Hno & Ha); simpl in E.
  - destruct (servers c !! i) as [s|] eqn:Hi; [|done]. injection E as <-. by apply turn_matched.
  - destruct (servers c !! i) as [s|] eqn:Hi; [|done]. injection E as <-. by apply submit_matched.
  - destruct (servers c !! i) as [s|] eqn:Hi; [|done]. simpl in E. destruct (raftserver.dispatch_turn k cut s) as [[s' out]|] eqn:Ed; [|done].
    injection E as <-. by eapply dispatch_matched.
  - destruct (inbound c !! k) as [[i conn]|] eqn:Hk; [|done]. simpl in E. destruct (servers c !! i) as [s|] eqn:Hi; [|done]. simpl in E.
    destruct (raftserver._handle conn s) as [s'|] eqn:Eh; [|done]. injection E as <-. by eapply handle_matched.
  - destruct (servers c !! i) as [s|] eqn:Hi; [|done]. simpl in E. unfold raftserver.submit_returns in E.
    destruct (sv_waiting s !! k) as [index|]; [|done]. simpl in E. destruct (_ <? _); [done|]. injection E as <-.
    apply matched_here, (explains_stay w c i s); try done; [|apply Hex]. destruct (ex_servers _ _ Hex i s Hi). by split.
  - destruct (servers c !! i) as [s|] eqn:Hi; [|done]. injection E as <-.
    apply matched_here, (explains_stay w c i s); try done; [|apply Hex]. destruct (ex_servers _ _ Hex i s Hi). by split.
  - destruct (servers c !! i) as [s|] eqn:Hi; [|done]. simpl in E. destruct (raftserver.restart g s) as [s'|e] eqn:Er; [|done].
    injection E as <-. eapply restart_matched; [done..|by apply Ha|done].
Qed.

Lemma server_run_matched w c c' : explains w c -> rtc smooth_step c c' -> matched w c'.
Proof.
  intros Hex Hr. revert w Hex. induction Hr as [c|c c1 c' Hs _ IH]; intros w Hex; [by apply matched_here|].
  destruct (server_step_matched w c c1 Hex Hs) as (w1 & Hw1 & Hex1). destruct (IH w1 Hex1) as (w' & Hw' & Hex').
  exists w'. split; [by etransitivity|done].
Qed.

End simulation.

(** Whether an action is smooth, and a run of such actions. *)
Section runs.
Context `{Rng} {F SM : Type} `{FloatText F} `{MachineRel (json_of F) SM} (route : address -> option Z).

Definition proper (a : server_action F) (c : cluster F SM) : bool :=
  bool_decide (action_raises a c = None) &&
  match a with
  | Submit _ x => command_ok x
  | Restart i _ => match servers c !! i with Some s => last_applied (sv_node s) <? capacity | None => true end
  | _ => true
  end.

Fixpoint smooth_run (acts : list (server_action F)) (c : cluster F SM) : option (cluster F SM) :=
  match acts with
  | [] => Some c
  | a :: acts => if proper a c then c ← server_exec route a c; smooth_run acts c else None
  end.

Lemma smooth_run_steps acts c c' : smooth_run acts c = Some c' -> rtc (smooth_step route) c c'.
Proof.
  revert c. induction acts as [|a acts IH]; intros c Hr; simpl in *; [by injection Hr as ->|].
  destruct (proper a c) eqn:Hp; [|done]. apply andb_true_iff in Hp as [Hno%bool_decide_eq_true Ha].
  destruct (server_exec route a c) as [c1|] eqn:E; [|done]. simpl in Hr.
  eapply rtc_l; [|by apply IH]. exists a. split_and!; [done|done|]. destruct a as [| | | | | |i g]; try done.
  intros s Hs. rewrite Hs in Ha. by apply Z.ltb_lt.
Qed.

End runs.

(** * The servers with their databases *)

Section refinement.
Context `{Pickle} (order : nat) (Horder : (3 <= order)%nat) `{Rng} {F : Type} `{FloatTextLaws F} `{FloatInt F} `{WideInt}.
Context (route : address -> option Z) (ids : list Z).
#[local] Hint Extern 0 (Index bnode) => exact (bplus_index order) : typeclass_instances.
#[local] Hint Extern 0 (IndexSpec bnode) => exact (bplus_spec order Horder) : typeclass_instances.
Abbreviation js := (json_of F).

#[export] Instance json_int_laws : IntLaws js.
Proof. split; [done|]. intros z. by apply (codec_reads_back (JInt z : js)). Qed.

#[local] Hint Extern 0 (MachineRel _ (DBDB bnode)) => exact (kv_rel order Horder) : typeclass_instances.
Implicit Types (s : server F (DBDB bnode)) (c : cluster F (DBDB bnode)).

(** A new database, open and empty. *)
Definition new_database (d : DBDB bnode) : Prop := is_open d /\ exists m, handle (db_tree d) m [] [].

(** Servers that were just started on new databases, with a path for their log,
    which does not exist yet, and with the addresses of their peers right. *)
Definition fresh_servers c : Prop :=
  NoDup ids /\ inbound c = [] /\ dom (servers c) = list_to_set ids /\
  forall i s, servers c !! i = Some s -> exists ps conf d g, ps.*1 = peers_of ids i /\ configured route ps /\ new_database d /\
    raftserver.start i ps conf d (Some None) g = Ok s.

Lemma new_database_fed d : new_database d -> fed (V := js) [] d.
Proof. intros (Ho & m & Hh). split; [by intros [] ? ?|]. intros _. by exists m. Qed.

Lemma fresh_explained c : fresh_servers c -> exists w, started ids w /\ explains route w c.
Proof.
  intros (Hnd & Hin & Hd & Hs). set (w := mkWorld (sv_node <$> servers c) [] : world js (DBDB bnode)). exists w.
  assert (forall i s, servers c !! i = Some s -> exists ps conf d g, ps.*1 = peers_of ids i /\ configured route ps /\ fed (V := js) [] d /\
    s = mkServer i ps conf (node.init i ps.*1 d (raftlog.init (Some None)) g conf 0) Sleeping [] []) as Hs'.
  { intros i s Hi. destruct (Hs i s Hi) as (ps & conf & d & g & Hps & Hc & Hm%new_database_fed & E). unfold raftserver.start in E.
    destruct (sm_applied_index d) as [d' r] eqn:Ei. apply result_bind_inv in E as (a & -> & [= <-]).
    destruct (fed_index [] d d' a Hm ltac:(done) Ei) as [-> Hm']. by exists ps, conf, d', g. }
  split.
  - split_and!; [done|done|simpl; by rewrite dom_fmap_L|]. intros i n Hn. simpl in Hn. rewrite lookup_fmap in Hn.
    destruct (servers c !! i) as [s|] eqn:Hi; [|done]. injection Hn as <-. destruct (Hs' i s Hi) as (ps & conf & d & g & Hps & _ & Hm & ->).
    exists d, (Some None), g, conf. split_and!; [by right|done|]. simpl. by rewrite Hps.
  - split; [done| |by rewrite Hin|constructor]. intros i s Hi. destruct (Hs' i s Hi) as (ps & conf & d & g & Hps & Hc & Hm & ->).
    split; simpl; [done| |done|constructor]. unfold node.init. destruct (randint _ _ g). split_and!; [|constructor|done]. by split_and!; [constructor|eexists|].
Qed.

(** The node of a server, with a recorder in place of its database, is a node of the
    Raft cluster [v]. *)
Definition simulated c (v : world js (Recorder js)) : Prop :=
  forall i s, servers c !! i = Some s -> exists r, nodes v !! i = Some (shadow r (sv_node s)).

(** What is on the disk of a server. *)
Definition on_disk s : bytes := disk.durable_bytes (_f (dbdb.the_storage (machine (sv_node s)))).

(** A server's database holds what its log says it applied. *)
Lemma applied_on_disk v0 v w c i s :
  initial ids v0 -> rtc wstep v0 v -> mirrored w v -> explains route w c -> servers c !! i = Some s -> last_applied (sv_node s) < 2 ^ 62 ->
  exists m, opens (N := bnode) (on_disk s) m (kv_of (indexed 1 (take (Z.to_nat (last_applied (sv_node s))) (entries (log (sv_node s)))))).
Proof.
  intros Hi Hr (_ & _ & Hm) Hex Hs Hlt. destruct (Hm i _ (node_of route w c i s Hex Hs)) as (r & [T1 T2 T3] & Hn).
  destruct (reachable_inv ids v0 v Hi Hr) as [g Hw]. destruct (wi_nodes _ _ _ Hw i _ Hn) as [cr Hset].
  pose proof (recorder_applied ids _ _ _ _ Hset) as Ha. pose proof Hset as ([_ _ [_ _ _ _ _ _ Ec Ea] _ _ _ _ _ _ _] & _ & Hca).
  change (machine (shadow r (sv_node s))) with r in Ha. change (log (shadow r (sv_node s))) with (log (sv_node s)) in Ha.
  replace (commit_point (shadow r (sv_node s))) with (Z.to_nat (last_applied (sv_node s))) in Ha by (unfold commit_point; simpl in *; lia).
  rewrite <- Ha. destruct T1 as [_ Hd]. destruct Hd as (m & Hh & _); [lia|]. exists m. by eapply handle_durable.
Qed.

(** C11: the servers implement Raft on their databases.  Take servers that keep
    their log in a file, started on new databases; whatever the network does to
    their connections (refused, cut off after any number of bytes, slow), however
    their tasks interleave, and through restarts, up to the first exception of a
    state machine (a committed command with a key or value the database refuses,
    a failing disk): the run is a run of the Raft cluster with the same nodes; no
    two servers lead the same term; two servers, also at different times, never
    commit different entries at the same index; and the disk of each server holds
    exactly the bindings and the index that the entries it has applied, in the
    order of its log, make. *)
Theorem raft_servers_refine c0 c c' : fresh_servers c0 -> rtc (smooth_step route) c0 c -> rtc (smooth_step route) c c' ->
  (exists v0 v v', initial ids v0 /\ rtc wstep v0 v /\ rtc wstep v v' /\ simulated c0 v0 /\ simulated c v /\ simulated c' v') /\
  (forall i j s t, servers c !! i = Some s -> servers c !! j = Some t -> role (sv_node s) = LEADER -> role (sv_node t) = LEADER ->
     current_term (sv_node s) = current_term (sv_node t) -> i = j) /\
  (forall i j s t (k : nat), servers c !! i = Some s -> servers c' !! j = Some t ->
     Z.of_nat k < Z.max (commit_index (sv_node s)) (last_applied (sv_node s)) -> Z.of_nat k < Z.max (commit_index (sv_node t)) (last_applied (sv_node t)) ->
     exists x, entries (log (sv_node s)) !! k = Some x /\ entries (log (sv_node t)) !! k = Some x) /\
  (forall i s, servers c !! i = Some s -> last_applied (sv_node s) < 2 ^ 62 ->
     exists m, opens (N := bnode) (on_disk s) m (kv_of (indexed 1 (take (Z.to_nat (last_applied (sv_node s))) (entries (log (sv_node s))))))).
Proof.
  intros Hf Hr Hr'. destruct (fresh_explained c0 Hf) as (w0 & Hi & Hex0). destruct (started_mirrored ids w0 Hi) as (v0 & Hv0 & Hm0).
  destruct (server_run_matched route w0 c0 c Hex0 Hr) as (w & Hw & Hex). destruct (cstep_run_mirrored w0 v0 w Hm0 Hw) as (v & Hv & Hm).
  destruct (server_run_matched route w c c' Hex Hr') as (w' & Hw' & Hex'). destruct (cstep_run_mirrored w v w' Hm Hw') as (v' & Hv' & Hm').
  assert (forall c w v, explains route w c -> mirrored w v -> simulated c v) as Hsim.
  { intros c1 w1 v1 Hx (_ & _ & Hm1) i s Hs. destruct (Hm1 i _ (node_of route w1 c1 i s Hx Hs)) as (r & _ & ?). by exists r. }
  split_and!.
  - exists v0, v, v'. split_and!; eauto.
  - intros i j s t Hs Ht Hl Hl' Et. destruct (Hsim c w v Hex Hm i s Hs) as [r Hn], (Hsim c w v Hex Hm j t Ht) as [r' Hn'].
    destruct (reachable_inv ids v0 v Hv0 Hv) as [g Hg]. by eapply (one_leader _ v g i j).
  - intros i j s t k Hs Ht Hk Hk'. destruct (Hsim c w v Hex Hm i s Hs) as [r Hn], (Hsim c' w' v' Hex' Hm' j t Ht) as [r' Hn'].
    exact (commits_agree ids v0 v v' i j _ _ k Hv0 Hv Hv' Hn Hn' Hk Hk').
  - intros i s Hs Hlt. by eapply applied_on_disk.
Qed.

End refinement.

(** * Peers on the command line *)

Section peers.
Context `{WideInt}.

(** [ID:HOST:PORT] *)
Definition peer_text (p : Z * address) : pystr := int_text p.1 ++ [58%N] ++ p.2.1 ++ [58%N] ++ int_text p.2.2.

Lemma split_on_app sep a b : sep ∉ a -> split_on sep (a ++ sep :: b) = a :: split_on sep b.
Proof.
  induction a as [|c a IH]; intros Ha; cbn [app split_on]; [by rewrite N.eqb_refl|].
  apply not_elem_of_cons in Ha as [Hc Ha]. rewrite (proj2 (N.eqb_neq c sep)) by congruence. by rewrite IH.
Qed.

Lemma split_on_last sep a : sep ∉ a -> split_on sep a = [a].
Proof.
  induction a as [|c a IH]; intros Ha; [done|]. apply not_elem_of_cons in Ha as [Hc Ha]. cbn [split_on].
  rewrite (proj2 (N.eqb_neq c sep)) by congruence. by rewrite IH.
Qed.

(** Numbers are written with digits and a sign. *)
Lemma int_text_ascii z : Forall (fun c => (c < 58)%N) (int_text z).
Proof.
  destruct (int_tok z) as (t & -> & Ht & En & _). apply app_nil in En as [Ef Ee]. unfold tok_text. rewrite Ef, Ee, !app_nil_r. apply Forall_app.
  split; [by destruct (nt_neg t); repeat constructor|].
  destruct (tk_int t Ht) as [->|(c & ds & -> & Hc & Hds)]; [by repeat constructor|]. constructor; [lia|].
  eapply Forall_impl; [exact Hds|]. intros d Hd. unfold is_digit in Hd. lia.
Qed.

Lemma int_str_text z : int_str (int_text z) = Ok z.
Proof.
  unfold int_str. rewrite (proj2 (forallb_forall _ _)); [apply int_of_text|].
  intros c Hc%list_elem_of_In. pose proof (proj1 (Forall_forall _ _) (int_text_ascii z) c Hc). simpl in *. lia.
Qed.

Lemma int_text_no_colon z : 58%N ∉ int_text z.
Proof. intros Hin. pose proof (proj1 (Forall_forall _ _) (int_text_ascii z) _ Hin). simpl in *. lia. Qed.

(** A peer written as the usage says is read as it was meant when its host has no
    colon, and refused when it has: an IPv6 address cannot be given. *)
Lemma parse_peer_text p : _parse_peer (peer_text p) = if bool_decide (58%N ∈ p.2.1) then Raise ValueError else Ok p.
Proof.
  destruct p as [i [host port]]. unfold _parse_peer, peer_text. cbn [fst snd app]. rewrite split_on_app by apply int_text_no_colon.
  case_bool_decide as Hh.
  - apply list_elem_of_split in Hh as (a & b & ->).
    assert (forall b c, split_on 58 (b ++ 58%N :: c) <> [] /\ forall x, split_on 58 (b ++ 58%N :: c) <> [x]) as Hlong.
    { clear. intros b c. induction b as [|x b [IH1 IH2]]; cbn [app split_on]; [rewrite N.eqb_refl|destruct (x =? 58)%N].
      - split; [done|]. intros y [= _ E]. revert E. clear. destruct c as [|z c]; cbn; [done|]. destruct (z =? 58)%N; [done|]. by destruct (split_on 58 c).
      - split; [done|]. intros y [= _ E]. by destruct IH1.
      - destruct (split_on 58 (b ++ 58%N :: c)) as [|p [|q ps]]; [done|by destruct (IH2 p)|done]. }
    rewrite <- app_assoc. cbn [app]. 
    assert (exists x y z ps, split_on 58 (a ++ 58%N :: b ++ 58%N :: int_text port) = x :: y :: z :: ps) as (x & y & z & ps & ->); [|done].
    induction a as [|c a (x & y & z & ps & IH)]; cbn [app split_on].
    + destruct (Hlong b (int_text port)) as [H1 H2]. destruct (split_on 58 (b ++ 58%N :: int_text port)) as [|p [|q ps]]; [done|by destruct (H2 p)|]. by eexists _, _, _, _.
    + rewrite IH. destruct (c =? 58)%N; by eexists _, _, _, _.
  - rewrite split_on_app, split_on_last by (done || apply int_text_no_colon). by rewrite !int_str_text.
Qed.

Lemma peer_set_new k v d : k ∉ d.*1 -> peer_set k v d = d ++ [(k, v)].
Proof.
  induction d as [|[k' v'] d IH]; csimpl; [done|]. intros [Hk Hd]%not_elem_of_cons. rewrite (proj2 (Z.eqb_neq k' k)) by congruence. by rewrite IH.
Qed.

(** The peers a cluster is started with are those of its command line. *)
Theorem parse_peers_text ps : NoDup ps.*1 -> Forall (fun p => 58%N ∉ p.2.1) ps -> parse_peers (peer_text <$> ps) = Ok ps.
Proof.
  intros Hnd Hps. unfold parse_peers.
  assert (forall acc, NoDup (acc ++ ps).*1 ->
    foldl (fun r spec => d ← r; '(i, a) ← _parse_peer spec; Ok (peer_set i a d)) (Ok acc) (peer_text <$> ps) = Ok (acc ++ ps)) as Hacc; [|by apply (Hacc [])].
  clear Hnd. induction Hps as [|[i a] ps Hp _ IH]; intros acc Hnd; csimpl; [by rewrite app_nil_r|].
  rewrite parse_peer_text, bool_decide_eq_false_2 by done. cbn [mbind result_bind].
  rewrite peer_set_new; [|rewrite fmap_app in Hnd; apply NoDup_app in Hnd as (_ & Hd & _); intros Hin; eapply Hd; [exact Hin|by left]].
  rewrite IH; rewrite <- app_assoc; done.
Qed.

End peers.
