(* ===== verification/RaftServerFindings.v ===== *)
(** Runs of the servers that end badly, and witnesses for the theorems on the wire
    format and the servers. *)

From S2P Require Import Prelude PyBase Struct SimDisk Text Database Json JsonText JsonRoundtrip JsonCodec Resp RaftLog RaftNode RaftAbstract RaftRefine RaftCluster RaftMachines.
From S2P Require Import Locking Physical PhysicalFacts Recovery StorageProps KeyList Logical Pickle Index Engine BPlusTree BPlusIndex.
From S2P Require Import RaftKV RaftWire RaftServer RaftServerProps.

(** * A small world *)

(** The only floats here are the special ones. *)
#[local] Instance special_text : FloatText special := {|
  fl_special x := Some x;
  fl_of_special x := x;
  float_repr _ := [];
  float_of _ := NaN
|}.

#[local] Instance special_laws : FloatTextLaws special.
Proof. split; intros x; [done|done|]. intros sp [= ->]. done. Qed.

(** A generator that always gives the same timeout. *)
#[local] Instance constant_rng : Rng := {| rng := Z; randint lo hi gen := (Z.min hi (Z.max lo gen), gen) |}.

Abbreviation value := (json_of special).

(** Databases with nodes of at most three entries. *)
#[local] Instance server_pickle : Pickle := bit_pickle.
Lemma order_three : (3 <= 3)%nat.
Proof. lia. Qed.
#[local] Hint Extern 0 (Index bnode) => exact (bplus_index 3) : typeclass_instances.
#[local] Hint Extern 0 (IndexSpec bnode) => exact (bplus_spec 3 order_three) : typeclass_instances.
#[local] Instance no_float : FloatInt special := fun _ => Raise ValueError.
#[local] Instance ascii_only : WideInt := fun _ => Raise ValueError.
#[local] Hint Extern 0 (MachineRel _ (DBDB bnode)) => exact (kv_rel 3 order_three) : typeclass_instances.

Abbreviation Machine := (DBDB bnode).

Definition new_db : Machine := mkDBDB (Some (str "db")) (mkTree fresh (Ref None 0) 0) 0.

Lemma new_db_new : new_database 3 order_three new_db.
Proof.
  split; [reflexivity|]. exists meta0. split.
  - exact fresh_journaled.
  - split; [exact (ix_tree_null (N := bnode) _)|reflexivity].
  - split; [exact (ix_tree_null (N := bnode) _)|reflexivity].
  - reflexivity.
  - split; reflexivity.
Qed.


(** The server with number [p] listens at port [p]. *)
Definition ports (a : address) : option Z := Some a.2.

Definition peer_list (ids : list Z) (i : Z) : list (Z * address) := (fun p => (p, (str "10.0.0.1", p))) <$> peers_of ids i.

(** The database after its applied index was asked for. *)
Definition started_db : Machine := (sm_applied_index (V := value) new_db).1.

Lemma started_db_index : sm_applied_index (V := value) new_db = (started_db, Ok 0).
Proof.
  assert ((sm_applied_index (V := value) new_db).2 = Ok 0) as E by (by vm_compute). unfold started_db.
  destruct (sm_applied_index new_db) as [d r]. simpl in E |- *. by subst r.
Qed.

Definition boot (file : option (option (raft_document value))) (ids : list Z) (i timeout : Z) : server special Machine :=
  mkServer i (peer_list ids i) default_config (node.init i (peer_list ids i).*1 started_db (raftlog.init file) timeout default_config 0) Sleeping [] [].

(** Three servers whose elections time out after 10, 15 and 20 ticks. *)
Definition three : cluster special Machine :=
  mkServers (list_to_map [(1, boot (Some None) [1; 2; 3] 1 10); (2, boot (Some None) [1; 2; 3] 2 15); (3, boot (Some None) [1; 2; 3] 3 20)]) [].

(** A turn after which nothing is sent. *)
Definition quiet_turns (i : Z) (k : nat) : list (server_action special) := concat (repeat [Turn i; Dispatch i 0 None] k).

Definition all : option nat := Some 10000%nat.

(** Server 1 is elected in term 1 and its first entry is committed. *)
Definition elect_one : list (server_action special) :=
  quiet_turns 1 9 ++
  [Turn 1; Dispatch 1 0 all; Dispatch 1 0 None; Dispatch 1 0 None;
   Handle 0; Dispatch 2 0 all; Dispatch 2 0 None;
   Handle 0; Dispatch 1 0 all; Dispatch 1 0 all; Dispatch 1 0 None;
   Handle 0; Dispatch 2 0 all; Dispatch 2 0 None;
   Handle 0; Dispatch 3 0 None; Dispatch 3 0 None;
   Handle 0; Dispatch 1 0 None].

(** Server 2 is elected in term 2 and its first entry reaches the others, while
    server 1 could not send the command it was given. *)
Definition lost_command : command value := CmdSet (str "x") (JInt 1).

Definition elect_two : list (server_action special) :=
  [Submit 1 lost_command; Dispatch 1 0 None; Dispatch 1 0 None; Dispatch 1 0 None] ++
  quiet_turns 2 14 ++
  [Turn 2; Dispatch 2 0 None; Dispatch 2 0 all; Dispatch 2 0 None;
   Handle 0; Dispatch 3 0 all; Dispatch 3 0 None;
   Handle 0; Dispatch 2 0 all; Dispatch 2 0 all; Dispatch 2 0 None;
   Handle 0; Dispatch 1 0 None; Dispatch 1 0 None;
   Handle 0; Dispatch 3 0 all; Dispatch 3 0 None;
   Handle 0; Dispatch 2 0 None] ++
  quiet_turns 2 2 ++ [Turn 2; Dispatch 2 0 all; Dispatch 2 0 None; Dispatch 2 0 None; Handle 0; Dispatch 1 0 None].

(** The run ends in a state that passes a test. *)
Definition ends_with (test : cluster special Machine -> bool) (acts : list (server_action special)) : bool :=
  match server_run ports acts three with Some c => test c | None => false end.

Lemma ends_with_spec test acts : ends_with test acts = true -> exists c, server_run ports acts three = Some c /\ test c = true.
Proof. unfold ends_with. destruct (server_run ports acts three) as [c|]; [eauto|done]. Qed.

Definition is_noop (c : command value) : bool := match c with CmdNoop => true | _ => false end.

(** The log of a server has seen no command of a client, and its database no key [x]. *)
Definition reads_nothing (s : server special Machine) : bool :=
  match (raftserver.read (V := value) (str "x") (machine (sv_node s))).2 with Ok None => true | _ => false end.
Definition no_command (s : server special Machine) : bool :=
  forallb (fun e => is_noop (cmd e)) (entries (log (sv_node s))) && reads_nothing s.

Lemma no_command_spec s x : no_command s = true -> is_noop x = false ->
  x ∉ cmd <$> entries (log (sv_node s)) /\ (raftserver.read (V := value) (str "x") (machine (sv_node s))).2 = Ok None.
Proof.
  unfold no_command. rewrite andb_true_iff, !forallb_forall. intros [He Ha] Hx. split.
  - intros (e & -> & Hin)%list_elem_of_fmap. rewrite list_elem_of_In in Hin. apply He in Hin. congruence.
  - unfold reads_nothing in Ha. destruct (raftserver.read _ _).2 as [[]|]; done.
Qed.

(** * Findings *)

(** The leader gives the command index 2. *)
Definition gives_index_two (c : cluster special Machine) : bool :=
  match servers c !! 1 with
  | Some s => match (raftserver.submit lost_command s).2 with Ok k => k =? 2 | Raise _ => false end
  | None => false
  end.

Lemma gives_index_two_spec c : gives_index_two c = true -> exists s, servers c !! 1 = Some s /\ (raftserver.submit lost_command s).2 = Ok 2.
Proof.
  unfold gives_index_two. destruct (servers c !! 1) as [s|]; [|done]. intros E. exists s. split; [done|].
  destruct (raftserver.submit lost_command s).2 as [k|]; [|done]. by apply Z.eqb_eq in E as ->.
Qed.

(** The [submit] returns 2 and no server knows the command. *)
Definition returns_two (c : cluster special Machine) : bool :=
  match servers c !! 1 with
  | Some s => match raftserver.submit_returns 0 s with Some (_, k) => k =? 2 | None => false end
  | None => false
  end && forallb (fun it => no_command it.2) (map_to_list (servers c)).

Lemma returns_two_spec c : returns_two c = true ->
  exists s s', servers c !! 1 = Some s /\ raftserver.submit_returns 0 s = Some (s', 2) /\
    forall i t, servers c !! i = Some t -> lost_command ∉ cmd <$> entries (log (sv_node t)) /\
      (raftserver.read (V := value) (str "x") (machine (sv_node t))).2 = Ok None.
Proof.
  unfold returns_two. intros [H2 H3]%andb_true_iff. destruct (servers c !! 1) as [s|]; [|done].
  destruct (raftserver.submit_returns 0 s) as [[s' k]|] eqn:Er; [|done]. apply Z.eqb_eq in H2 as ->.
  exists s, s'. split_and!; try done. intros i t Hi. apply no_command_spec; [|done]. rewrite forallb_forall in H3.
  apply (H3 (i, t)). by apply list_elem_of_In, elem_of_map_to_list.
Qed.

(** A [submit] can report success for a command that was lost.  Server 1, the
    leader of term 1, gives a command index 2 and cannot send it; server 2 is
    elected, and its own entry replaces the command at index 2 of server 1 and is
    applied there.  The [submit] only waits until index 2 is applied, so it
    returns 2, although no server has the command in its log or its key in the database. *)
Theorem submit_reports_lost_command :
  exists c1 s1 c s s', server_run ports elect_one three = Some c1 /\ servers c1 !! 1 = Some s1 /\ (raftserver.submit lost_command s1).2 = Ok 2 /\
    server_run ports (elect_one ++ elect_two) three = Some c /\ servers c !! 1 = Some s /\ raftserver.submit_returns 0 s = Some (s', 2) /\
    forall i t, servers c !! i = Some t ->
      lost_command ∉ cmd <$> entries (log (sv_node t)) /\ (raftserver.read (V := value) (str "x") (machine (sv_node t))).2 = Ok None.
Proof.
  destruct (ends_with_spec gives_index_two elect_one) as (c1 & E1 & (s1 & Es1 & Ek1)%gives_index_two_spec); [by vm_compute|].
  destruct (ends_with_spec returns_two (elect_one ++ elect_two)) as (c & E & (s & s' & Es & Er & Hno)%returns_two_spec); [by vm_compute|].
  exists c1, s1, c, s, s'. exact (conj E1 (conj Es1 (conj Ek1 (conj E (conj Es (conj Er Hno)))))).
Qed.

(** A request for the vote of server 2 in term 1, by a candidate with an empty log. *)
Definition asks_vote (candidate : Z) : Envelope value := mkEnvelope candidate 2 (RequestVote 1 candidate 0 0).

(** The reply a server gives to a message. *)
Definition replies (env : Envelope value) (s : server special Machine) : list (message value) :=
  match node.step env (sv_node s) with (_, Ok out) => body <$> out | _ => [] end.

(** The only reply is a vote in term 1, granted or not. *)
Definition answers (granted : bool) (l : list (message value)) : bool :=
  match l with [RequestVoteReply t g] => (t =? 1) && Bool.eqb g granted | _ => false end.

Lemma answers_spec granted l : answers granted l = true -> l = [RequestVoteReply 1 granted].
Proof. destruct l as [|[] [|]]; try done. cbn [answers]. by intros [->%Z.eqb_eq ->%eqb_prop]%andb_true_iff. Qed.

(** Without a path for its log a server may vote twice in a term.  Server 2,
    started as [main] starts it when no [--raft-log] is given, grants its vote
    for term 1 to server 1; after a restart it grants its vote for the same term
    to server 3.  With a path it refuses. *)
Theorem vote_forgotten_without_log (with_log : bool) :
  let s := boot (if with_log then Some None else None) [1; 2; 3] 2 15 in
  let voted := raftserver.set_node (node.step (asks_vote 1) (sv_node s)).1 s in
  replies (asks_vote 1) s = [RequestVoteReply 1 true] /\
  exists s', raftserver.restart (SM := Machine) 15 voted = Ok s' /\ replies (asks_vote 3) s' = [RequestVoteReply 1 (negb with_log)].
Proof.
  intros s voted. split; [apply answers_spec; destruct with_log; by vm_compute|].
  assert (match raftserver.restart (SM := Machine) 15 voted with Ok s' => answers (negb with_log) (replies (asks_vote 3) s') | Raise _ => false end = true) as E
    by (destruct with_log; by vm_compute).
  match type of E with match ?r with _ => _ end = _ => destruct r as [s'|] end; [|done]. exists s'. split; [done|]. by apply answers_spec.
Qed.

(** * Witnesses *)

Definition sample : value := JDict [(str "b", JList [JInt (-5); JBool true; JNull]); (str "a", JStr [233; 10; 128512]%N)].

Lemma json_codec_roundtrip_witness : json_ok sample = true /\ exists b, Database.encode sample = Ok b /\ Database.decode b = Ok (sort_keys sample) /\
  json_eq sample (sort_keys sample) /\ forall w, json_eq sample w -> Database.encode w = Ok b.
Proof. split; [by vm_compute|]. apply (json_codec_roundtrip sample). by vm_compute. Defined.

Definition sample_env : Envelope value := mkEnvelope 1 2 (AppendEntries 1 1 0 0 [mkEntry 1 CmdNoop; mkEntry 1 lost_command] 0).

Lemma wire_roundtrip_witness : exists raw, encode sample_env = Ok raw /\ decode raw = Ok (obj sample_env) /\ as_envelope (obj sample_env) = Some sample_env.
Proof. apply (wire_roundtrip sample_env). simpl. repeat constructor. Defined.

Lemma boot_fresh i timeout : exists ps conf d g, ps.*1 = peers_of [1; 2; 3] i /\ configured ports ps /\ new_database 3 order_three d /\
  raftserver.start i ps conf d (Some None) g = Ok (boot (Some None) [1; 2; 3] i timeout).
Proof.
  exists (peer_list [1; 2; 3] i), default_config, new_db, timeout. split_and!; [| |exact new_db_new|].
  - unfold peer_list. rewrite <- list_fmap_compose. apply list_fmap_id.
  - unfold configured, peer_list. intros p a. induction (peers_of [1; 2; 3] i) as [|q l IH]; [done|]. csimpl.
    destruct (Z.eqb_spec q p) as [->|]; [by intros [= <-]|exact IH].
  - unfold raftserver.start. by rewrite started_db_index.
Qed.

Lemma three_fresh : fresh_servers 3 order_three ports [1; 2; 3] three.
Proof.
  split_and!; [|reflexivity|by vm_compute|].
  - repeat constructor; set_solver.
  - intros i s Hi. unfold three in Hi. cbn [servers list_to_map foldr] in Hi. cbn in Hi.
    apply lookup_insert_Some in Hi as [[<- <-]|[_ Hi]]; [apply boot_fresh|].
    apply lookup_insert_Some in Hi as [[<- <-]|[_ Hi]]; [apply boot_fresh|].
    apply lookup_insert_Some in Hi as [[<- <-]|[_ Hi]]; [apply boot_fresh|]. done.
Qed.

(** Server 1 is given a command, server 2 takes it and both commit it. *)
Definition one_command : list (server_action special) :=
  [Submit 1 lost_command; Dispatch 1 0 all; Dispatch 1 0 None; Dispatch 1 0 None;
   Handle 0; Dispatch 2 0 all; Dispatch 2 0 None; Handle 0; Restart 1 10].

(** The states after the election of server 1, and after its command and a restart. *)
Definition led : cluster special Machine := default three (smooth_run ports elect_one three).
Definition served : cluster special Machine := default led (smooth_run ports one_command led).

Definition reached (acts : list (server_action special)) (c : cluster special Machine) : bool := bool_decide (is_Some (smooth_run ports acts c)).

Lemma reached_steps acts c : reached acts c = true -> rtc (smooth_step ports) c (default c (smooth_run ports acts c)).
Proof. intros [c' E]%bool_decide_eq_true. rewrite E. by apply (smooth_run_steps ports acts). Qed.

(** The entries applied by server 1, and that its database has the key. *)
Definition applied_at_one (c : cluster special Machine) : bool :=
  match servers c !! 1 with
  | Some s => (last_applied (sv_node s) =? 2) && match (raftserver.read (V := value) (str "x") (machine (sv_node s))).2 with Ok (Some (JInt 1)) => true | _ => false end
  | None => false
  end.

Lemma applied_at_one_spec c : applied_at_one c = true -> exists s, servers c !! 1 = Some s /\ last_applied (sv_node s) = 2.
Proof. unfold applied_at_one. destruct (servers c !! 1) as [s|]; [|done]. intros [E%Z.eqb_eq _]%andb_true_iff. by exists s. Qed.

Lemma raft_servers_refine_witness : exists s m, servers served !! 1 = Some s /\ last_applied (sv_node s) = 2 /\
  opens (N := bnode) (on_disk s) m (kv_of (indexed 1 (take 2 (entries (log (sv_node s)))))).
Proof.
  assert (rtc (smooth_step ports) three led) as H1 by (apply reached_steps; by vm_compute).
  assert (rtc (smooth_step ports) led served) as H2 by (apply reached_steps; by vm_compute).
  destruct (applied_at_one_spec served) as (s & Hs & Hl); [by vm_compute|].
  destruct (raft_servers_refine 3 order_three ports [1; 2; 3] three served served three_fresh (transitivity H1 H2) (rtc_refl _ _)) as (_ & _ & _ & Hd).
  destruct (Hd 1 s Hs) as (m & Hm); [rewrite Hl; reflexivity|]. rewrite Hl in Hm. exists s, m. split; [exact Hs|]. split; [exact Hl|exact Hm].
Defined.

(** ** A node whose database refuses a command *)

(** A cluster of one node, which becomes leader by itself and applies its first
    entry. *)
Definition single (n : RaftNode value Machine) : world value Machine := mkWorld {[ 1 := n ]} [].
Definition lonely : RaftNode value Machine := node.init 1 [] new_db (raftlog.init None) 10 default_config 0.
Definition alone : world value Machine := single lonely.

Lemma alone_started : started [1] alone.
Proof.
  split_and!; [apply NoDup_singleton|reflexivity|by vm_compute|]. intros i n Hn.
  unfold alone, single in Hn. cbn [nodes] in Hn. apply lookup_singleton_Some in Hn as [<- <-].
  exists new_db, None, 10, default_config. split_and!; [by left|exact (new_database_fed 3 order_three _ new_db_new)|reflexivity].
Qed.

(** [k] ticks of the node, none of which raises. *)
Fixpoint tick_alone (k : nat) (n : RaftNode value Machine) : option (RaftNode value Machine) :=
  match k with
  | O => Some n
  | S k => match node.tick n with (n', Ok []) => tick_alone k n' | _ => None end
  end.

Lemma tick_alone_steps k n n' : tick_alone k n = Some n' -> rtc cstep (single n) (single n').
Proof.
  revert n. induction k as [|k IH]; intros n; simpl; [by intros [= ->]|]. destruct (node.tick n) as [n1 [[|]|]] eqn:E; [|done..].
  intros Hk%IH. eapply rtc_l; [|exact Hk]. pose proof (C_tick (single n) 1 n n1 (Ok []) ltac:(apply lookup_singleton_eq) E I) as Hs.
  unfold moved, single in Hs. cbn [nodes sent posted app id] in Hs. by rewrite insert_singleton_eq in Hs.
Qed.

Definition ruling : RaftNode value Machine := default lonely (tick_alone 10 lonely).

Definition is_refusal (x : result raft_exn (Z * list (Envelope value))) : bool :=
  match x with Raise (PyError KeyEncodingError) => true | _ => false end.

Lemma calls_return_witness : exists n', node.propose (CmdSet [] JNull) ruling = (n', Raise (PyError KeyEncodingError)) /\ refused n' KeyEncodingError.
Proof.
  assert (rtc cstep alone (single ruling)) as Hr.
  { apply (tick_alone_steps 10). unfold ruling. destruct (tick_alone 10 _) eqn:E; [reflexivity|]. vm_compute in E. discriminate E. }
  destruct (raft_calls_return [1] alone (single ruling) 1 ruling alone_started Hr (lookup_singleton_eq _ _)) as (_ & _ & Hp).
  specialize (Hp (CmdSet [] JNull)). assert (is_refusal (node.propose (CmdSet [] JNull) ruling).2 = true) as Hx by (by vm_compute).
  assert (role ruling = LEADER) as Hl by (by vm_compute). rewrite decide_True in Hp by exact Hl.
  destruct Hp as [(n' & out & E & _)|(n' & e & E & He)]; rewrite E in Hx; [discriminate Hx|].
  destruct e; try discriminate Hx. exists n'. split; [exact E|exact He].
Defined.
