(* ===== verification/Facade.v ===== *)
(** The methods of the database and its snapshots that call the structural audit,
    manage the file or wrap a block: [src/imustore/interface.py] and [mvcc.py];
    and the report as a value, [audit.py]. *)

From S2P Require Import Prelude PyBase Struct SimDisk Locking Physical PhysicalFacts Recovery KeyList Logical Pickle Index.
From S2P Require Import BPlusTree BPlusRep BPlusIndex BPlusAudit BPlusProps Engine Session BinaryTree BinaryRep Database Transactions RaftKV Json JsonText.

(** * The audit of an index *)

(** [self._tree.audit()]: each index reports in its own terms. *)
Class Audited (N : Type) := {
  ix_report : Type;
  ix_audit : Storage -> ref N -> Z -> res ix_report
}.

Definition bplus_audited `{Pickle} (order : nat) : Audited bnode := {|
  ix_report := AuditReport;
  ix_audit := audit order RECURSION_LIMIT
|}.

Definition binary_audited `{Pickle} : Audited binode := {|
  ix_report := BinaryReport;
  ix_audit st r _ := binary.audit RECURSION_LIMIT st r
|}.

(** * [DBDB] *)

(** The files of the machine, by path. *)
Abbreviation files := (gmap pystr bytes).

Module facade.
Section facade.
Context {N : Type} `{Index N}.
Implicit Types (d : DBDB N).

(** [audit()] of the tree: the committed version, or the staged one while the
    handle holds the write lock. *)
Definition tree_audit `{Audited N} : St (Tree N) ix_report :=
  logical.refresh_unless_locked ;;
  t ← get_st;
  lift_res (ix_audit (_storage t) (_tree_ref t) (_count t)).

Definition audit `{Audited N} : St (DBDB N) ix_report := dbdb._assert_open ;; dbdb.on_tree tree_audit.

(** [for key in self.keys(): yield key] *)
Definition iter {V} `{Codec V} : St (DBDB N) (list pystr) := dbdb._assert_open ;; dbdb.keys (V := V) None None None.

Definition __enter__ : St (DBDB N) unit := dbdb._assert_open.
Definition __exit__ : St (DBDB N) unit := dbdb.close.

(** [with db: body] *)
Definition with_ {A} (body : St (DBDB N) A) : St (DBDB N) A := __enter__ ;; try_finally body __exit__.

(** [db.transaction()] and [db.begin()] *)
Definition transaction d : transaction.state := transaction.init d.
Definition begin `{Pickle} : St (DBDB N) Transaction :=
  fun d => let '(s, r) := transaction._begin (transaction d) in (s.1, r ;; Ok s.2).

(** [os.open(path, O_RDWR | O_CREAT)]: a missing file is created empty. *)
Definition _open_database_file (path : pystr) : St files SimDisk :=
  fs ← get_st;
  match fs !! path with
  | Some content => mret (SimDisk_init content)
  | None => put_st (<[path := []]> fs) ;; mret (SimDisk_init [])
  end.

Definition connect (path : pystr) (durability : pystr) : St files (DBDB N) :=
  f ← _open_database_file path;
  lift_res (dbdb.init f (Some path) durability).

End facade.
End facade.

(** * [Snapshot] *)

Module snapview.
Section snapview.
Context `{Pickle}.

(** [self._tree.audit(self._root_ref, self._count)] *)
Definition audit (file : bytes) (sn : Snapshot) : res AuditReport :=
  BPlusAudit.audit DEFAULT_ORDER RECURSION_LIMIT (snapshot.view file sn) (sn_root_ref sn) (sn_count sn).

(** [close()]; [on_close] is the callback into the object that opened it. *)
Definition close {S} (on_close : option (St S unit)) : St (Snapshot * S) unit :=
  s ← get_st;
  if sn_closed s.1 then mret tt
  else
    modify (fun s => (mkSnapshot (sn_storage s.1) (sn_root_ref s.1) (sn_count s.1) true, s.2)) ;;
    zoom (fun s => sn_storage s.1)
         (fun x s => (mkSnapshot x (sn_root_ref s.1) (sn_count s.1) (sn_closed s.1), s.2)) storage.close ;;
    match on_close with
    | Some f => zoom snd (fun x s => (s.1, x)) f
    | None => mret tt
    end.

Definition __exit__ {S} (on_close : option (St S unit)) : St (Snapshot * S) unit := close on_close.

End snapview.
End snapview.

(** * [AuditReport.as_dict] *)

(** [repr] of a string and [str] of an exception. *)
Class PyRepr := {
  repr_str : pystr -> pystr;
  str_exn : exn -> pystr
}.

Section as_dict.
Context `{PyRepr} {F : Type} (order : nat).

Abbreviation num n := (int_text (Z.of_nat n)).

(** The text of an audit error. *)
Definition message (e : audit_error) : pystr :=
  match e with
  | KeysOutOfOrder a b => str "keys out of order: " ++ repr_str a ++ str " !< " ++ repr_str b
  | BelowLowerBound k a => repr_str k ++ str " below lower bound " ++ repr_str a
  | NotBelowUpperBound k b => repr_str k ++ str " not below upper bound " ++ repr_str b
  | NodeOverflow n => str "node overflow: " ++ num n ++ str " keys exceeds order " ++ num order
  | NodeUnderflow n => str "node underflow: " ++ num n ++ str " keys below minimum " ++ num (_min_keys order)
  | LeafMismatch => str "leaf key/value count mismatch"
  | ValueNotLoaded k e => repr_str k ++ str " value could not be loaded: " ++ str_exn e
  | InternalMismatch => str "internal child/key count mismatch"
  | RootWithoutSeparators => str "root internal node has no separator keys"
  | NotHeightBalanced => str "tree is not height-balanced across children"
  | KeyCountMismatch c n => str "stored key count " ++ int_text c ++ str " != leaf key count " ++ int_text n
  end.

Definition as_dict (r : AuditReport) : json_of F :=
  JDict [(str "keys", JInt (report_keys r)); (str "nodes", JInt (report_nodes r)); (str "values", JInt (report_values r));
         (str "height", JInt (report_height r)); (str "ok", JBool (report_ok r));
         (str "errors", JList (JStr <$> (message <$> report_errors r)))].

End as_dict.
