(* ===== verification/FacadeFacts.v ===== *)
(** What the facade and a crash do to a database file: opening, auditing, writing
    and leaving a [with] block; what recovery finds afterwards
    ([src/imustore/interface.py], [physical.py], [simdisk.py]). *)

From S2P Require Import Prelude PyBase Struct SimDisk Locking Physical PhysicalFacts Recovery StorageProps KeyList Logical Pickle BPlusTree BPlusRep.
From S2P Require Import BPlusInsert BPlusDelete BPlusAudit BPlusProps Index BPlusIndex Engine Session Database Transactions Facade.

(** What the facade does to a handle: opening a file, auditing, reading and
    writing through the open database, and leaving a [with] block. *)

(** * Opening leaves the file open *)

Lemma preserves_finally {E S A} (I : S -> Prop) (m : stx E S A) (fin : stx E S unit) :
  preserves I m -> preserves I fin -> preserves I (try_finally m fin).
Proof.
  intros Hm Hf s s' r Hs. unfold try_finally. destruct (m s) as [s1 r1] eqn:E1. pose proof (Hm _ _ _ Hs E1) as H1.
  destruct (fin s1) as [s2 [u|e]] eqn:E2; intros [= <- _]; by eapply Hf.
Qed.

Lemma truncate_open n : preserves file_open (on_f (disk.truncate n)).
Proof. apply on_f_open. unfold disk.truncate. preserve. Qed.
#[export] Hint Resolve truncate_open : preserve.

Lemma ensure_meta_open : preserves file_open storage._ensure_meta.
Proof.
  unfold storage._ensure_meta, storage._init_meta, storage.lock, storage.unlock.
  apply preserves_bind; [auto with preserve|]. intros size. apply preserves_bind; [auto with preserve|]. intros s.
  destruct (_ <? _); destruct (_readonly s); [preserve| |preserve|].
  - apply preserves_bind; [|intros _; preserve]. apply preserves_mapM. intros i. unfold storage._write_slot. preserve.
  - apply preserves_bind; [preserve|]. intros _. apply preserves_finally; preserve.
Qed.

Lemma init_open l durability ro s r : storage.init (SimDisk_init l) durability ro = (s, r) -> file_open s.
Proof.
  unfold storage.init. destruct (bool_decide _); [|by intros [= <- _]]. intros E. by eapply ensure_meta_open; [|exact E].
Qed.

Section generic.
Context {N : Type} `{IndexSpec N}.
Implicit Types (d : DBDB N) (t : Tree N) (m : _Meta) (base kvs : kvlist).

(** A database object over an image that opens. *)
Lemma init_spec l m kvs path :
  opens (N := N) l m kvs ->
  exists d, dbdb.init (SimDisk_init l) path DURABILITY_FULL = Ok d /\ handle (db_tree d) m kvs kvs /\
    file_open (dbdb.the_storage d) /\ storage.is_locked (dbdb.the_storage d) = false /\
    _crash_at_flush (_f (dbdb.the_storage d)) = None /\ db_path d = path /\ _open_snapshots d = 0.
Proof.
  intros (s & t & Es & Et & Hh & Hl & Hc). exists (mkDBDB path t 0). unfold dbdb.init. rewrite Es. cbn [mbind result_bind].
  rewrite Et. split_and!; try done. pose proof (init_open _ _ _ _ _ Es) as Ho. by eapply refresh_open; [|exact Et].
Qed.

(** Loading the root does not touch the bytes. *)
Lemma refresh_live x : preserves (fun t : Tree N => live (_storage t) = x) logical._refresh_tree_ref.
Proof.
  assert (forall A (f : _Meta -> A), preserves (fun t : Tree N => live (_storage t) = x) (logical.on_storage (storage._reload_meta f))) as Hr.
  { intros A f t t' r Ht. unfold logical.on_storage, zoom, storage._reload_meta. destruct (read_best_meta_reads (_storage t)) as [p Hp].
    unfold mbind, stx_bind. rewrite Hp. destruct (best_meta (live (_storage t))); intros [= <- _]; exact Ht. }
  unfold logical._refresh_tree_ref, storage.get_root_address, storage.get_key_count.
  apply preserves_bind; [apply Hr|]. intros root. apply preserves_bind; [by apply preserves_modify|]. intros _.
  destruct ix_counts; [|auto with preserve]. apply preserves_bind; [apply Hr|]. intros c. by apply preserves_modify.
Qed.

Lemma init_live f path durability d s :
  dbdb.init (N := N) f path durability = Ok d -> storage.init f durability false = (s, Ok tt) -> live (dbdb.the_storage d) = live s.
Proof.
  unfold dbdb.init. intros Ed Es. rewrite Es in Ed. cbn [mbind result_bind] in Ed. destruct (logical.tree_init s) as [t r] eqn:Et.
  destruct r; [|discriminate Ed]. injection Ed as <-. by eapply (refresh_live (live s)); [|exact Et].
Qed.

(** A file too short for the two meta slots opens as the empty database. *)
Lemma opens_short l : zlen l < SUPERBLOCK_SIZE -> ix_fits [] -> opens (N := N) l meta0 [].
Proof.
  intros Hl Hf. destruct (open_short l Hl) as (s & Es & Hset & Hlv & Hd & Hfu & Hlk & Hcr).
  assert (journaled s meta0) as Hj by (apply settled_journaled; congruence).
  assert (Hn : forall st, holds (N := N) st meta0 []) by (intros st; split; [apply ix_tree_null|done]).
  destruct (refresh_staged (mkTree s (Ref None 0) 0) meta0 [] Hj (Hn _)) as (t & E & Hj' & _ & Hs & Hk & Hsf).
  pose proof (same_file_fields _ _ Hsf) as (_ & _ & Hcr' & _). exists s, t. cbn [_storage] in *.
  assert (storage.is_locked (_storage t) = false) as Hlk' by (unfold storage.is_locked in *; by rewrite Hk).
  split; [exact Es|]. split; [exact E|]. split; [|split; [exact Hlk'|by rewrite Hcr']].
  split; [exact Hj'|apply Hn|exact Hs|reflexivity|by split].
Qed.

Lemma opened_run d : file_open (dbdb.the_storage d) -> dbdb._assert_open d = (d, Ok tt).
Proof. intros Hc. unfold dbdb._assert_open, storage.closed. run. unfold file_open in Hc. by rewrite Hc. Qed.

Lemma assert_open_bind {A} (k : unit -> St (DBDB N) A) d :
  file_open (dbdb.the_storage d) -> (dbdb._assert_open ≫= k) d = k tt d.
Proof. intros Ho. by erewrite stx_bind_ok by (by apply opened_run). Qed.

(** A method of the tree, run through the database object. *)
Lemma on_tree_run {A} (f : St (Tree N) A) d t' r :
  f (db_tree d) = (t', r) -> dbdb.on_tree f d = (dbdb.set_tree t' d, r).
Proof. apply zoom_eq. Qed.

(** The same handle after a method that only moved the file position. *)
Definition still m base kvs d d' : Prop :=
  handle (db_tree d') m base kvs /\ same_file (dbdb.the_storage d) (dbdb.the_storage d') /\
  db_path d' = db_path d /\ _open_snapshots d' = _open_snapshots d.

Lemma still_open m base kvs d d' : still m base kvs d d' -> file_open (dbdb.the_storage d) -> file_open (dbdb.the_storage d').
Proof. intros (_ & Hs & _). by apply same_file_open. Qed.

Section values.
Context {V : Type} `{Codec V}.

Lemma setitem_still d m base kvs (k : pystr) (v : V) p :
  handle (db_tree d) m base kvs -> file_open (dbdb.the_storage d) -> k <> [] -> encode v = Ok p ->
  ix_fits (kv_set k p kvs) ->
  exists d', dbdb.setitem k v d = (d', Ok tt) /\ still m base (kv_set k p kvs) d d'.
Proof.
  intros Hh Ho Hk He Hf. destruct (set_spec _ _ _ _ k p Hh Hf) as (t' & E & Hh' & _ & Hsf). exists (dbdb.set_tree t' d).
  split; [|done]. unfold dbdb.setitem. rewrite assert_open_bind by done. destruct k as [|c k]; [done|].
  erewrite stx_bind_ok by reflexivity. erewrite stx_bind_ok by (unfold lift_res; rewrite He; reflexivity). by apply on_tree_run.
Qed.

Lemma delitem_still d m base kvs (k : pystr) :
  handle (db_tree d) m base kvs -> file_open (dbdb.the_storage d) -> k <> [] ->
  exists d', dbdb.delitem k d = (d', match kv_get k kvs with Some _ => Ok tt | None => Raise (KeyError k) end) /\
    still m base (kv_del k kvs) d d'.
Proof.
  intros Hh Ho Hk. destruct (delete_spec _ _ _ _ k Hh) as (t' & Hh' & _ & Hsf & E). exists (dbdb.set_tree t' d).
  split; [|done]. unfold dbdb.delitem. rewrite assert_open_bind by done. destruct k as [|c k]; [done|].
  erewrite stx_bind_ok by reflexivity. by apply on_tree_run.
Qed.

Lemma getitem_still d m base kvs (k : pystr) :
  handle (db_tree d) m base kvs -> file_open (dbdb.the_storage d) -> k <> [] ->
  exists d', dbdb.getitem (V := V) k d = (d', match kv_get k kvs with Some p => decode p | None => Raise (KeyError k) end) /\
    still m base kvs d d'.
Proof.
  intros Hh Ho Hk. destruct (get_spec _ _ _ _ k Hh) as (t' & E & Hh' & Hsf). exists (dbdb.set_tree t' d).
  split; [|done]. unfold dbdb.getitem. rewrite assert_open_bind by done. destruct k as [|c k]; [done|].
  erewrite stx_bind_ok by reflexivity. apply (on_tree_run _ d) in E. destruct (kv_get (c :: k) kvs) as [p|].
  - by erewrite stx_bind_ok by exact E.
  - by erewrite stx_bind_raise by exact E.
Qed.

Lemma items_still d m base kvs :
  handle (db_tree d) m base kvs -> file_open (dbdb.the_storage d) ->
  exists d', dbdb.items (V := V) d = (d', snapshot.decode_all (yields kvs)) /\ still m base kvs d d'.
Proof.
  intros Hh Ho. destruct (items_spec _ _ _ _ Hh) as (t' & E & Hh' & Hsf). exists (dbdb.set_tree t' d).
  split; [|done]. unfold dbdb.items. rewrite assert_open_bind by done. by erewrite stx_bind_ok by (apply on_tree_run; exact E).
Qed.

Lemma scan_still d m base kvs (prefix start stop : option pystr) :
  handle (db_tree d) m base kvs -> file_open (dbdb.the_storage d) ->
  prefix <> Some [] -> start <> Some [] -> stop <> Some [] ->
  exists d', dbdb.scan (V := V) prefix start stop d =
      (d', snapshot.decode_all (snapshot.with_prefix prefix (yields (kv_range start stop kvs)))) /\ still m base kvs d d'.
Proof.
  intros Hh Ho Hp Hs Ht. destruct (range_items_spec _ _ _ _ start stop Hh) as (t' & E & Hh' & Hsf). exists (dbdb.set_tree t' d).
  split; [|done]. unfold dbdb.scan. rewrite assert_open_bind by done.
  assert (Hv : forall o : option pystr, o <> Some [] -> dbdb.validate_opt o d = (d, Ok tt)) by (by intros [[|c k]|] ?).
  do 3 (erewrite stx_bind_ok by (by apply Hv)). by erewrite stx_bind_ok by (apply on_tree_run; exact E).
Qed.

End values.

(** Closing: the lock is released and the file object is closed. *)
Lemma close_spec d : exists d', dbdb.close d = (d', Ok tt) /\ storage.closed (dbdb.the_storage d') = true /\
  storage.is_locked (dbdb.the_storage d') = false /\ live (dbdb.the_storage d') = live (dbdb.the_storage d) /\
  _durable (_f (dbdb.the_storage d')) = _durable (_f (dbdb.the_storage d)).
Proof.
  assert (exists s', storage.close (dbdb.the_storage d) = (s', Ok tt) /\ storage.closed s' = true /\ storage.is_locked s' = false /\
    live s' = live (dbdb.the_storage d) /\ _durable (_f s') = _durable (_f (dbdb.the_storage d))) as (s' & E & Hs').
  { unfold storage.close. run. destruct (storage.is_locked (dbdb.the_storage d)) eqn:El; [rewrite unlock_spec|]; by eexists. }
  exists (dbdb.set_tree (logical.set_storage s' (db_tree d)) d). split; [|exact Hs']. unfold dbdb.close. unfold dbdb.the_storage in E.
  by erewrite on_tree_run by (unfold logical.on_storage; apply zoom_eq; exact E).
Qed.

(** However the block of a [with] ends, the database is closed and unlocked, and
    the result is the block's. *)
Lemma with_closes {A} (body : St (DBDB N) A) d :
  file_open (dbdb.the_storage d) ->
  exists d', facade.with_ body d = (d', (body d).2) /\ storage.closed (dbdb.the_storage d') = true /\
    storage.is_locked (dbdb.the_storage d') = false /\ live (dbdb.the_storage d') = live (dbdb.the_storage (body d).1).
Proof.
  intros Ho. unfold facade.with_, facade.__enter__. rewrite assert_open_bind by done. unfold try_finally, facade.__exit__.
  destruct (body d) as [d1 r]. destruct (close_spec d1) as (d2 & -> & Hc & Hl & Hlv & _). exists d2. by destruct r.
Qed.

End generic.

(** * Auditing *)

Section bplus.
Context `{Pickle} (order : nat) (Horder : (3 <= order)%nat).
#[local] Hint Extern 0 (Index bnode) => exact (bplus_index order) : typeclass_instances.
#[local] Hint Extern 0 (IndexSpec bnode) => exact (bplus_spec order Horder) : typeclass_instances.
#[local] Hint Extern 0 (Audited bnode) => exact (bplus_audited order) : typeclass_instances.
Implicit Types (d : DBDB bnode) (m : _Meta) (base kvs : kvlist).

(** What the audit of a tree holding [n] keys reports. *)
Definition clean_report (n : nat) (r : AuditReport) : Prop :=
  report_ok r = true /\ report_errors r = [] /\ report_keys r = Z.of_nat n /\ report_values r = Z.of_nat n.

Lemma audit_tree st r kvs : bplus_tree order st r kvs -> bplus_fits kvs ->
  exists rep, audit order RECURSION_LIMIT st r (Z.of_nat (length kvs)) = Ok rep /\ clean_report (length kvs) rep.
Proof using Horder.
  intros Ht Hf.
  assert (exists h', tree order st h' r kvs /\ (h' <= RECURSION_LIMIT)%nat) as (h' & Ht' & Hh').
  { destruct Ht as (h' & Ht'). exists h'. split; [done|]. destruct (tree_follow _ _ _ _ _ Ht') as (n' & Hn' & Hr').
    destruct n' as [n'|]; [|destruct Hr' as [-> _]; lia]. destruct Hr' as [Hr' [Hk' _]].
    pose proof (height_u64 Horder h' n' kvs Hr' Hk' Hf). unfold RECURSION_LIMIT. lia. }
  destruct (audit_accepts_wellformed order RECURSION_LIMIT h' st r kvs Ht' Hh') as [k E]. eexists. split; [exact E|]. done.
Qed.

Lemma audit_still d m base kvs :
  handle (db_tree d) m base kvs -> file_open (dbdb.the_storage d) ->
  exists d' rep, facade.audit d = (d', Ok rep) /\ clean_report (length kvs) rep /\ still m base kvs d d'.
Proof.
  intros Hh Ho. destruct (read_view _ _ _ _ Hh) as (t' & E & Hh' & [Ht Hc] & Hsf & _).
  destruct (audit_tree (_storage t') (_tree_ref t') kvs Ht) as (rep & Ea & Hrep); [apply Hh'|].
  exists (dbdb.set_tree t' d), rep. split_and!; try done; try apply Hrep.
  unfold facade.audit. rewrite assert_open_bind by done. apply on_tree_run. unfold facade.tree_audit.
  erewrite stx_bind_ok by exact E. erewrite stx_bind_ok by reflexivity. unfold lift_res. cbn [ix_audit bplus_audited].
  by rewrite Hc, Ea.
Qed.

(** A snapshot passes its own audit for as long as it lives. *)
Lemma snapshot_audit_clean file sn base :
  order = DEFAULT_ORDER -> pins order Horder file sn base -> sn_count sn = Z.of_nat (length base) ->
  exists rep, snapview.audit file sn = Ok rep /\ clean_report (length base) rep.
Proof.
  intros Eo [Ht Hf] Hc. unfold snapview.audit. rewrite Hc, <- Eo. by apply audit_tree.
Qed.

End bplus.

(** What a crash can leave behind: the previous commit survives in the other meta
    slot, a flipped checksum sends recovery to it, and a commit on an armed disk
    never completes ([src/imustore/physical.py], [simdisk.py]). *)

(** * Images that differ in the superblock only *)

Definition same_records (l l' : bytes) : Prop :=
  zlen l' = zlen l /\ forall n, SUPERBLOCK_SIZE <= Z.of_nat n -> drop n l' = drop n l.

Lemma same_records_committed l l' m a :
  same_records l l' -> SUPERBLOCK_SIZE <= a -> record_at (committed l' m) a = record_at (committed l m) a.
Proof.
  intros [_ Hd] Ha.
  assert (Hdrop : forall n, SUPERBLOCK_SIZE <= Z.of_nat n ->
    drop n (take (Z.to_nat (data_length m)) l') = drop n (take (Z.to_nat (data_length m)) l)).
  { intros n Hn. by rewrite !skipn_firstn_comm, Hd. }
  assert (0 < a) by (unfold SUPERBLOCK_SIZE, META_SLOT_SIZE, META_SLOTS in *; lia).
  unfold record_at, committed. by rewrite !Hdrop by lia.
Qed.

Lemma slot_write_same_records l i block :
  i = 0 \/ i = 1 -> SUPERBLOCK_SIZE <= zlen l -> zlen block = META_SLOT_SIZE ->
  same_records l (write_at l (i * META_SLOT_SIZE) block).
Proof. intros. split; [by apply slot_write_length|intros; by apply slot_write_beyond]. Qed.

(** Only the superblock and the records tell recovery what to do. *)
Lemma recoverable_choice l m c :
  slot m = 0 \/ slot m = 1 -> slot_of l (slot m) = Ok (Some m) -> slot_of l (1 - slot m) = Ok c ->
  (forall m', c = Some m' -> txn_id m' < txn_id m) -> meta_fits m ->
  SUPERBLOCK_SIZE <= data_length m <= zlen l -> recoverable l m.
Proof. intros Hs Hm Hc Hlt Hf [Hlo Hhi]. split; try done. by eapply best_meta_intro. Qed.

(** * The commit before the last one *)

(** The other slot of the image [l], whose last commit is [m], still records [mp],
    and the committed bytes of [mp] are all there. *)
Record retained (l : bytes) (m mp : _Meta) : Prop := {
  rt_slot : slot mp = 1 - slot m;
  rt_meta : slot_of l (slot mp) = Ok (Some mp);
  rt_fits : meta_fits mp;
  rt_length : SUPERBLOCK_SIZE <= data_length mp <= zlen l
}.

(** The second half of a successful [commit_root_address]. *)
Lemma commit_root_bytes s s' m root count :
  journaled s m -> storage.commit_root_address root count s = (s', Ok tt) ->
  exists block, zlen block = META_SLOT_SIZE /\
    _durable (_f s') = write_at (live s) ((1 - slot m) * META_SLOT_SIZE) block.
Proof.
  intros Hj E. pose proof (journaled_live s m Hj) as Hrec. pose proof (journaled_super s m Hj) as Hsup.
  pose proof Hj as [Hr Hf Hm _ _]. destruct (best_meta_inv _ _ (rec_best _ _ Hrec)) as (Hslot & _).
  destruct (meta_block_cases (next_meta m root count (zlen (live s)))) as [Hbad|Hfit].
  { destruct (commit_unfit s m root count Hj Hbad) as (s1 & [(E1 & _)|(E1 & _)]); rewrite E1 in E; discriminate. }
  destruct (meta_block_ok _ Hfit) as (block & Hblk & Hblen & _). exists block. split; [done|].
  unfold storage.commit_root_address in E. erewrite stx_bind_ok in E by reflexivity. rewrite Hr in E.
  erewrite stx_bind_ok in E by apply lock_spec. rewrite Hf in E.
  destruct (flush_spec (set_lock {| locked := true |} s)) as (n1 & c1 & [Hfl|[Hfl Hc]]).
  2:{ erewrite stx_bind_raise in E by exact Hfl. discriminate. }
  erewrite stx_bind_ok in E by exact Hfl.
  unfold storage.cur_meta in E. erewrite stx_bind_ok in E by (run; simpl; rewrite Hm; reflexivity).
  erewrite stx_bind_ok in E by apply file_size_spec.
  change (live (set_f _ _)) with (live s) in E. change (mkMeta _ _ _ _ _) with (next_meta m root count (zlen (live s))) in E.
  match type of E with context [(storage._write_slot _ _ ≫= _) ?st] => set (s2 := st) in E end.
  destruct (commit_publish s2 m (next_meta m root count (zlen (live s))) block)
    as (s3 & [(E3 & _ & Hd & _)|(E3 & _)]); try done; rewrite E3 in E; [|discriminate].
  injection E as ->. exact Hd.
Qed.

(** * A flipped checksum *)

(** [crc ^ 0xFFFFFFFF] always fits and never equals [crc]. *)
Lemma flip_range c : 0 <= c < 256 ^ 4 -> 0 <= Z.lxor c 0xFFFFFFFF < 256 ^ 4.
Proof. intros Hc. change (256 ^ 4) with (2 ^ 32) in *. by apply lxor_bound. Qed.

Lemma flip_differs c : Z.lxor c 0xFFFFFFFF <> c.
Proof.
  intros E. apply (f_equal (Z.lxor c)) in E. rewrite <- Z.lxor_assoc, Z.lxor_nilpotent, Z.lxor_0_l in E. discriminate.
Qed.

(** Replacing the checksum of a valid slot by another number makes it invalid. *)
Lemma parse_slot_flipped (body c b rest : bytes) i m :
  length body = 40%nat -> length c = 4%nat -> length b = 4%nat -> be_decode b <> be_decode c ->
  parse_slot (take 44 (body ++ c ++ rest)) i = Ok (Some m) -> parse_slot (take 44 (body ++ b ++ rest)) i = Ok None.
Proof.
  intros Hl Hc Hb Hne. rewrite !app_assoc, !take_app_exact by (rewrite length_app; lia).
  assert (forall x : bytes, length x = 4%nat -> (zlen (body ++ x) <? META_BODY_BYTES + META_CRC_BYTES) = false) as Hz.
  { intros x Hx. apply Z.ltb_ge. unfold zlen. rewrite length_app. unfold META_BODY_BYTES, META_CRC_BYTES. lia. }
  unfold parse_slot. rewrite !Hz by done. cbv zeta. rewrite !take_app_exact, !drop_app_exact by done.
  destruct (Z.eqb_spec (_crc body) (be_decode c)) as [->|]; [|discriminate]. intros _.
  by rewrite (proj2 (Z.eqb_neq _ _)) by congruence.
Qed.

Section flip.
Context (l : bytes) (i : Z) (m : _Meta).
Context (Hi : i = 0 \/ i = 1) (Hl : SUPERBLOCK_SIZE <= zlen l) (Hm : slot_of l i = Ok (Some m)).

Let off := i * META_SLOT_SIZE + META_BODY_BYTES.
Let crc := be_decode (py_slice l off (off + META_CRC_BYTES)).

(** Flipping the checksum of a valid slot invalidates that slot and nothing else. *)
Lemma flip_slot : exists b, pack_uint 4 (Z.lxor crc 0xFFFFFFFF) = Ok b /\
  let l' := disk.splice l off (off + META_CRC_BYTES) b in
  same_records l l' /\ slot_of l' i = Ok None /\ slot_of l' (1 - i) = slot_of l (1 - i).
Proof using Hi Hl Hm.
  destruct (superblock_split l i Hi Hl) as (pre & old & post & Heq & Hpre & Hold).
  destruct (length_split_at old 40) as (body & tail & -> & Hbody); [unfold zlen, META_SLOT_SIZE in *; lia|].
  unfold zlen, META_SLOT_SIZE in Hold. rewrite length_app in Hold.
  destruct (length_split_at tail 4) as (c & rest & -> & Hc); [lia|].
  assert (off = zlen (pre ++ body)) as Eoff.
  { unfold off. rewrite zlen_app, Hpre. unfold zlen, META_BODY_BYTES. lia. }
  assert (crc = be_decode c) as Ecrc.
  { unfold crc. f_equal. rewrite Heq, Eoff, py_slice_nat by (unfold zlen, META_CRC_BYTES; lia).
    rewrite <- !app_assoc, (app_assoc pre body), drop_app_exact by (unfold zlen; lia).
    apply take_app_exact. unfold META_CRC_BYTES. lia. }
  assert (0 <= crc < 256 ^ 4) as Hr by (rewrite Ecrc; pose proof (be_decode_range c) as Hr; by rewrite Hc in Hr).
  pose proof (pack_uint_in_range 4 _ (flip_range crc Hr)) as Ep. eexists. split; [exact Ep|].
  apply pack_uint_ok in Ep as (Hb & Hdec & _). set (b := be_encode 4 _) in *.
  assert (zlen (body ++ b ++ rest) = META_SLOT_SIZE) as Hblk.
  { unfold zlen, META_SLOT_SIZE in *. rewrite !length_app in *. lia. }
  assert (disk.splice l off (off + META_CRC_BYTES) b = write_at l (i * META_SLOT_SIZE) (body ++ b ++ rest)) as ->.
  { rewrite Heq at 2. rewrite <- Hpre, write_at_overwrite by (unfold zlen, META_SLOT_SIZE in *; rewrite !length_app in *; lia).
    rewrite Heq, Eoff. replace META_CRC_BYTES with (zlen b) by (unfold zlen; by rewrite Hb).
    rewrite <- !app_assoc, (app_assoc pre body), splice_exact, <- !app_assoc by (unfold zlen; lia). done. }
  split_and!.
  - by apply slot_write_same_records.
  - rewrite slot_write_same by done. apply (parse_slot_flipped body c b rest i m); try done.
    + rewrite Hdec, Ecrc. apply flip_differs.
    + rewrite <- Hm, Heq. unfold slot_of. rewrite drop_app_exact by (unfold zlen in *; lia). f_equal.
      symmetry. apply take_app_le. rewrite !length_app in *. lia.
  - by apply slot_write_other.
Qed.

End flip.

(** * An armed disk *)

(** The disk counts [n] flushes and is armed at [c]. *)
Definition armed (n : Z) (c : option Z) (s : Storage) : Prop := _flush_count (_f s) = n /\ _crash_at_flush (_f s) = c.

Lemma storage_write_armed p n c s s' r : armed n c s -> storage.write p s = (s', r) -> armed n c s'.
Proof.
  intros Ha. unfold storage.write, lift_res. run. destruct (_readonly s); [by intros [= <- _]|].
  rewrite file_size_spec. cbn [fst snd]. rewrite seek_spec.
  destruct (pack_uint 4 (zlen p)); [|by intros [= <- _]]. destruct (pack_uint 4 (_crc p)); by intros [= <- _].
Qed.

Lemma writes_armed (s s' : Storage) n c : armed n c s -> writes s s' -> armed n c s'.
Proof. intros Ha Hw. induction Hw as [s|s p s' r s'' Hw _ IH]; [done|]. apply IH. by eapply storage_write_armed. Qed.

Lemma flush_armed s n at_ :
  armed n (Some at_) s ->
  (at_ <= n + 1 -> exists s', storage.flush s = (s', Raise SimCrash)) /\
  (n + 1 < at_ -> storage.flush s = (set_f (set_durable (live s) (set_flushes (n + 1) (Some at_) (_f s))) s, Ok tt)).
Proof.
  intros [Hn Ha]. unfold storage.flush, on_f, disk.flush. run. rewrite Hn, Ha.
  split; intros Hle; [rewrite (proj2 (Z.leb_le _ _)) by lia; by eexists|by rewrite (proj2 (Z.leb_gt _ _)) by lia].
Qed.

Lemma armed_commit_root s s' m root count k :
  journaled s m -> k = 1 \/ k = 2 -> armed (_flush_count (_f s)) (Some (_flush_count (_f s) + k)) s ->
  storage.commit_root_address root count s = (s', Ok tt) -> False.
Proof.
  intros [Hr Hf Hm _ _] Hk Ha E. set (n := _flush_count (_f s)) in *.
  unfold storage.commit_root_address in E. erewrite stx_bind_ok in E by reflexivity. rewrite Hr in E.
  erewrite stx_bind_ok in E by apply lock_spec. rewrite Hf in E.
  destruct (flush_armed (set_lock {| locked := true |} s) n (n + k) Ha) as [Hcrash Hok].
  destruct Hk as [-> | ->].
  { destruct Hcrash as [s1 Es]; [lia|]. erewrite stx_bind_raise in E by exact Es. discriminate. }
  erewrite stx_bind_ok in E by (apply Hok; lia).
  unfold storage.cur_meta in E. erewrite stx_bind_ok in E by (run; simpl; rewrite Hm; reflexivity).
  erewrite stx_bind_ok in E by apply file_size_spec. apply stx_bind_inv in E as (s2 & u & E2 & E).
  assert (armed (n + 1) (Some (n + 2)) s2) as Ha2.
  { unfold storage._write_slot, lift_res in E2. destruct (storage.meta_block _); [|discriminate]. by injection E2 as <-. }
  destruct (proj1 (flush_armed s2 (n + 1) (n + 2) Ha2)) as [s3 E3]; [lia|].
  erewrite stx_bind_raise in E by exact E3. discriminate.
Qed.

Section engine.
Context {N : Type} `{IndexSpec N}.
Implicit Types (t : Tree N) (m : _Meta) (base kvs : kvlist).

(** The bindings of the commit [m] in the image [l]. *)
Abbreviation image_holds l m kvs := (holds (N := N) (idle (SimDisk_init (committed l m)) DURABILITY_FULL m) m kvs).

Lemma image_holds_records l l' m kvs : same_records l l' -> image_holds l m kvs -> image_holds l' m kvs.
Proof.
  intros Hs. apply holds_extends, extends_records. intros a Ha. by apply same_records_committed.
Qed.

(** The phases of a commit that returns: the new nodes are appended, the root is
    published, the handle is refreshed. *)
Lemma commit_phases t m base kvs t' :
  handle t m base kvs -> logical.commit t = (t', Ok tt) ->
  exists s1 s2 root count, writes (_storage t) s1 /\ storage.commit_root_address root count s1 = (s2, Ok tt) /\
    same_file s2 (_storage t').
Proof.
  intros [Hj Hb [Ht Hc] _ [Hf Hfb]] E. destruct t as [s r0 c0]. cbn [_storage _tree_ref _count] in *.
  unfold logical.commit in E. erewrite stx_bind_ok in E by reflexivity. cbn [_tree_ref] in E.
  destruct (ix_store_ok s r0 kvs (journaled_ok _ _ Hj) Ht) as (s1 & Hw & Hst).
  destruct (journaled_writes _ _ _ Hj Hw) as (Hj1 & _).
  destruct Hst as [(r' & Es & Ht')|Es];
    [|erewrite stx_bind_raise in E by (unfold logical.on_storage, zoom; cbn [_storage]; rewrite Es; reflexivity); discriminate].
  erewrite stx_bind_ok in E by (unfold logical.on_storage, zoom; cbn [_storage]; rewrite Es; reflexivity).
  erewrite stx_bind_ok in E by reflexivity. erewrite stx_bind_ok in E by reflexivity.
  unfold logical.set_storage, logical.set_tree_ref in E. cbn [_storage _tree_ref _count] in E.
  apply stx_bind_inv in E as (t2 & u & E2 & E3). unfold logical.on_storage, zoom in E2. cbn [_storage] in E2.
  destruct (storage.commit_root_address _ _ s1) as [s2 r2] eqn:Ec. injection E2 as <- ->. destruct u.
  exists s1, s2, (address r'), (if ix_counts then c0 else 0). split_and!; [done|exact Ec|].
  destruct (meta_block_cases (next_meta m (address r') (if ix_counts then c0 else 0) (zlen (live s1)))) as [Hbad|Hfit].
  - destruct (commit_unfit s1 m _ _ Hj1 Hbad) as (s3 & [(E4 & _)|(E4 & _)]); rewrite E4 in Ec; discriminate.
  - destruct (commit_outcomes s1 m _ _ Hj1 Hfit) as (s3 & [(E4 & Hj3 & _)|(E4 & _)]); rewrite E4 in Ec; [|discriminate].
    injection Ec as ->. destruct (refresh_spec (mkTree s2 r' c0) _ Hj3) as (p & c & E5 & _).
    unfold logical.set_storage in E3. cbn [_tree_ref _count] in E3. rewrite E5 in E3. injection E3 as <-. by exists p.
Qed.

(** A commit that returns leaves the previous commit recoverable in the other slot. *)
Lemma commit_retains t m base kvs t' m' :
  handle t m base kvs -> logical.commit t = (t', Ok tt) ->
  journaled (_storage t') m' -> txn_id m' = txn_id m + 1 ->
  retained (_durable (_f (_storage t'))) m' m /\ image_holds (_durable (_f (_storage t'))) m base.
Proof.
  intros Hh E Hj' Htx. pose proof Hh as [Hj Hb _ _ _].
  destruct (commit_phases _ _ _ _ _ Hh E) as (s1 & s2 & root & count & Hw & Ec & Hsf).
  pose proof (same_file_fields _ _ Hsf) as (_ & Ed & _).
  destruct (journaled_writes _ _ _ Hj Hw) as (Hj1 & _ & Hd1 & _).
  destruct (commit_root_bytes s1 s2 m _ _ Hj1 Ec) as (block & Hbl & Hd2). rewrite <- Ed in Hd2.
  pose proof (journaled_live _ _ Hj1) as Hrec1. pose proof (journaled_super _ _ Hj1) as Hsup.
  destruct (best_meta_inv _ _ (rec_best _ _ Hrec1)) as (Hslot & Hm & _).
  destruct (best_meta_inv _ _ (rec_best _ _ (jr_image _ _ Hj'))) as (Hslot' & Hm' & _).
  set (l' := _durable (_f (_storage t'))) in *.
  assert (same_records (live s1) l') as Hsr by (rewrite Hd2; apply slot_write_same_records; done || lia).
  assert (slot_of l' (slot m) = Ok (Some m)) as Hkeep by (rewrite Hd2, slot_write_other by (done || lia); exact Hm).
  split; [split|].
  - assert (slot m' <> slot m); [|lia]. intros Es. rewrite Es, Hkeep in Hm'. injection Hm' as <-. lia.
  - done.
  - apply Hrec1.
  - destruct Hsr as [-> _]. split; apply Hrec1.
  - apply (image_holds_records (live s1)); [done|]. eapply holds_extends; [|exact Hb]. apply extends_live.
    change (committed (live s1) m = committed (_durable (_f (_storage t))) m).
    pose proof Hj1 as [_ _ _ Hi1 [tail Htl]]. rewrite Htl, committed_app by apply Hi1. by rewrite Hd1.
Qed.

(** Flipping the checksum of either slot: recovery lands on the commit in the other one. *)
Lemma opens_flipped l m kvs mp kvsp i :
  recoverable l m -> image_holds l m kvs -> retained l m mp -> image_holds l mp kvsp -> ix_fits kvs -> ix_fits kvsp ->
  i = 0 \/ i = 1 ->
  exists b, pack_uint 4 (Z.lxor (be_decode (py_slice l (i * META_SLOT_SIZE + META_BODY_BYTES)
      (i * META_SLOT_SIZE + META_BODY_BYTES + META_CRC_BYTES))) 0xFFFFFFFF) = Ok b /\
    let l' := disk.splice l (i * META_SLOT_SIZE + META_BODY_BYTES) (i * META_SLOT_SIZE + META_BODY_BYTES + META_CRC_BYTES) b in
    (opens (N := N) l' m kvs \/ opens (N := N) l' mp kvsp).
Proof.
  intros Hr Hh [Hs Hm Hf [Hlo Hhi]] Hhp Hfk Hfp Hi.
  destruct (best_meta_inv _ _ (rec_best _ _ Hr)) as (Hslot & Hbest & _).
  assert (SUPERBLOCK_SIZE <= zlen l) as Hsup by lia.
  assert (exists mx, slot_of l i = Ok (Some mx)) as [mx Hmx].
  { destruct (decide (i = slot m)) as [->|]; [by eexists|]. replace i with (slot mp) by lia. by eexists. }
  destruct (flip_slot l i mx Hi Hsup Hmx) as (b & Eb & Hsr & Hgone & Hother). exists b. split; [exact Eb|]. cbv zeta.
  set (l' := disk.splice _ _ _ _) in *.
  destruct (decide (i = slot m)) as [->|Hne]; [right|left]; apply open_spec; try done.
  - apply (recoverable_choice _ _ None); [lia| |by replace (1 - slot mp) with (slot m) by lia|done|done|destruct Hsr; lia].
    by rewrite Hs, Hother, <- Hs.
  - by apply (image_holds_records l).
  - assert (i = 1 - slot m) as -> by lia. replace (1 - (1 - slot m)) with (slot m) in Hother by lia.
    apply (recoverable_choice _ _ None); [done|by rewrite Hother|done|done|apply Hr|]. destruct Hsr as [-> _]. split; apply Hr.
  - by apply (image_holds_records l).
Qed.

(** A torn tail after the last commit is cut off. *)
Lemma opens_torn l m kvs tail :
  recoverable l m -> image_holds l m kvs -> ix_fits kvs -> opens (N := N) (l ++ tail) m kvs.
Proof.
  intros Hr Hh Hf. apply open_spec; [by apply recoverable_app| |done]. eapply holds_extends; [|exact Hh].
  apply extends_live. apply committed_app, Hr.
Qed.

(** On a disk armed to crash at its next or next but one flush, no commit returns. *)
Lemma armed_commit t m base kvs k t' (r : unit) :
  handle t m base kvs -> k = 1 \/ k = 2 ->
  _crash_at_flush (_f (_storage t)) = Some (_flush_count (_f (_storage t)) + k) ->
  logical.commit t = (t', Ok r) -> False.
Proof.
  intros Hh Hk Ha E. destruct r. destruct (commit_phases _ _ _ _ _ Hh E) as (s1 & s2 & root & count & Hw & Ec & _).
  destruct (journaled_writes _ _ _ (hd_journal _ _ _ _ Hh) Hw) as (Hj1 & _).
  pose proof (writes_armed _ _ _ _ (conj eq_refl Ha) Hw) as Ha1. pose proof Ha1 as [En _].
  apply (armed_commit_root s1 s2 m root count k Hj1 Hk); [|exact Ec]. by rewrite En.
Qed.

End engine.

(** A disk that is not armed stays so. *)
Definition unarmed (s : Storage) : Prop := _crash_at_flush (_f s) = None.

Lemma on_f_unarmed {A} (m : St SimDisk A) : preserves (fun d => _crash_at_flush d = None) m -> preserves unarmed (on_f m).
Proof.
  intros Hm s s' r Hs. unfold on_f, zoom. destruct (m (_f s)) as [d x] eqn:E. intros [= <- _]. by eapply Hm.
Qed.

Lemma commit_root_unarmed root count : preserves unarmed (storage.commit_root_address root count).
Proof.
  assert (preserves unarmed storage.flush) as Hfl.
  { apply on_f_unarmed. intros d d' r Hd. unfold disk.flush. run. rewrite Hd. by intros [= <- _]. }
  assert (Hf : forall A (m : St SimDisk A), (forall d, _crash_at_flush (m d).1 = _crash_at_flush d) -> preserves unarmed (on_f m)).
  { intros A m Hm. apply on_f_unarmed. intros d d' r Hd E. pose proof (Hm d) as Ed. rewrite E in Ed. simpl in Ed. by rewrite Ed. }
  assert (preserves unarmed storage.lock) as Hlk by (intros s s' r Hs; rewrite lock_spec; by intros [= <- _]).
  assert (preserves unarmed storage.unlock) as Hul by (intros s s' r Hs; rewrite unlock_spec; by intros [= <- _]).
  assert (preserves unarmed storage._file_size) as Hsz by (intros s s' r Hs; rewrite file_size_spec; by intros [= <- _]).
  unfold storage.commit_root_address, storage.cur_meta, storage._write_slot. preserve; try (by apply Hf); by apply preserves_modify.
Qed.

Lemma commit_unarmed {N} `{IndexSpec N} (t : Tree N) m base kvs t' :
  handle t m base kvs -> unarmed (_storage t) -> logical.commit t = (t', Ok tt) -> unarmed (_storage t').
Proof.
  intros Hh Hu E. destruct (commit_phases _ _ _ _ _ Hh E) as (s1 & s2 & root & count & Hw & Ec & Hsf).
  destruct (journaled_writes _ _ _ (hd_journal _ _ _ _ Hh) Hw) as (_ & _ & _ & Hc).
  pose proof (same_file_fields _ _ Hsf) as (_ & _ & E2 & _). unfold unarmed in *. rewrite E2.
  eapply (commit_root_unarmed root count s1); [|exact Ec]. unfold unarmed. by rewrite Hc.
Qed.
