(* ===== verification/Simulation.v ===== *)
(** Deterministic simulation testing of the storage engine:
    [src/imustore/simulation.py].

    The workload runs the database over the B+ tree on a [SimDisk] and checks every
    recovery against a model.  [self.disk] is the file object the open database
    holds, so it is read from there.  Values are JSON values; the dictionaries of
    the model are finite maps. *)

From Stdlib Require Import Strings.Byte.
From S2P Require Import Prelude PyBase Struct SimDisk Locking Physical KeyList Logical Pickle Index.
From S2P Require Import BPlusTree BPlusIndex BPlusAudit Database Facade Json JsonText JsonCodec.

(** * [random.Random] *)

(** A generator: [random()] is [random53 / 2 ** 53], and [randrange], [randint] and
    [choice] draw with [_randbelow]. *)
Class PyRandom := {
  generator : Type;
  Random : Z -> generator;
  random53 : generator -> Z * generator;
  _randbelow : Z -> generator -> Z * generator
}.

(** Its documented range. *)
Class PyRandomLaws `{PyRandom} := {
  randbelow_range n g : 0 < n -> 0 <= (_randbelow n g).1 < n
}.

(** * Equality of values *)

(** [==] between numbers. *)
Class NumEq (F : Type) := num_eq : Z + F -> Z + F -> bool.

Section value_eq.
Context {F : Type} `{NumEq F}.
Abbreviation js := (json_of F).

(** A value as a number; [bool] is a kind of [int]. *)
Definition as_number (v : js) : option (Z + F) :=
  match v with
  | JBool b => Some (inl (if b then 1 else 0))
  | JInt z => Some (inl z)
  | JFloat x => Some (inr x)
  | _ => None
  end.

Fixpoint lookup_entry (k : pystr) (d : list (pystr * js)) : option js :=
  match d with
  | [] => None
  | (k', v) :: d => if bool_decide (k' = k) then Some v else lookup_entry k d
  end.

(** [v == w] *)
Fixpoint py_eq (v w : js) {struct v} : bool :=
  match v, w with
  | JNull, JNull => true
  | JStr s, JStr t => bool_decide (s = t)
  | JList l, JList l' =>
      (fix go (l l' : list js) : bool :=
         match l, l' with
         | [], [] => true
         | x :: l, y :: l' => py_eq x y && go l l'
         | _, _ => false
         end) l l'
  | JDict d, JDict d' =>
      bool_decide (length d = length d') &&
      forallb (fun kv => match lookup_entry kv.1 d' with Some w => py_eq kv.2 w | None => false end) d
  | v, w => match as_number v, as_number w with Some a, Some b => num_eq a b | _, _ => false end
  end.

(** [a == b] for dictionaries from strings to values *)
Definition dict_eq (a b : gmap pystr js) : bool :=
  bool_decide (size a = size b) &&
  forallb (fun kv => match b !! kv.1 with Some w => py_eq kv.2 w | None => false end) (map_to_list a).

End value_eq.

(** [{key: value for key, value in items}] *)
Definition dict_comp {V} (items : list (pystr * V)) : gmap pystr V := foldl (fun d kv => <[kv.1 := kv.2]> d) ∅ items.

(** * The simulation *)

Inductive fault : Type := Clean | MidCommit | TornTail | MetaCorruption.

#[global] Instance fault_eq_dec : EqDecision fault.
Proof. solve_decision. Defined.

Definition FAULTS : list fault := [Clean; MidCommit; TornTail; MetaCorruption].

Record sim_stats : Type := mkSimStats {
  steps : Z;
  commits : Z;
  crashes : Z
}.

(** [total[key] += stats[key]] *)
Definition add_stats (a b : sim_stats) : sim_stats :=
  mkSimStats (steps a + steps b) (commits a + commits b) (crashes a + crashes b).

Record StorageSimulation (F : Type) `{PyRandom} : Type := mkSim {
  sim_rng : generator;
  key_space : Z;
  sim_db : DBDB bnode;
  model : gmap pystr (json_of F);
  history : list (gmap pystr (json_of F));
  sim_counts : sim_stats
}.
Arguments mkSim {F H} sim_rng key_space sim_db model history sim_counts.
Arguments sim_rng {F H} s.
Arguments key_space {F H} s.
Arguments sim_db {F H} s.
Arguments model {F H} s.
Arguments history {F H} s.
Arguments sim_counts {F H} s.

(** [xs[-n]] for a list of known length *)
Definition nth_back {A} (n : nat) (l : list A) : option A := reverse l !! (n - 1)%nat.

Module sim.
Section sim.
Context `{Pickle} `{PyRandom} {F : Type} `{FloatText F} `{NumEq F}.
#[local] Hint Extern 0 (Index bnode) => exact (bplus_index DEFAULT_ORDER) : typeclass_instances.
#[local] Hint Extern 0 (Audited bnode) => exact (bplus_audited DEFAULT_ORDER) : typeclass_instances.
Abbreviation js := (json_of F).
Abbreviation SimM A := (St (StorageSimulation F) A).
Implicit Types (s : StorageSimulation F).

Definition set_rng g s := mkSim g (key_space s) (sim_db s) (model s) (history s) (sim_counts s).
Definition set_db d s := mkSim (sim_rng s) (key_space s) d (model s) (history s) (sim_counts s).
Definition set_model x s := mkSim (sim_rng s) (key_space s) (sim_db s) x (history s) (sim_counts s).
Definition set_history x s := mkSim (sim_rng s) (key_space s) (sim_db s) (model s) x (sim_counts s).
Definition set_counts x s := mkSim (sim_rng s) (key_space s) (sim_db s) (model s) (history s) x.

Definition on_db {A} (m : St (DBDB bnode) A) : SimM A := zoom sim_db set_db m.

(** [self.disk]: the file object of the open database. *)
Definition disk_of s : SimDisk := _f (dbdb.the_storage (sim_db s)).
Definition on_disk {A} (m : St SimDisk A) : SimM A := on_db (dbdb.on_tree (logical.on_storage (on_f m))).

(** ** Drawing *)

Definition randbelow (n : Z) : SimM Z :=
  s ← get_st; let '(x, g) := _randbelow n (sim_rng s) in put_st (set_rng g s) ;; mret x.

(** [rng.random()], as the integer [random() * 2 ** 53] *)
Definition random : SimM Z :=
  s ← get_st; let '(x, g) := random53 (sim_rng s) in put_st (set_rng g s) ;; mret x.

Definition randrange (n : Z) : SimM Z := if 0 <? n then randbelow n else raise ValueError.
Definition randint (a b : Z) : SimM Z := if a <=? b then x ← randbelow (b - a + 1); mret (a + x) else raise ValueError.

Definition choice {A} (l : list A) : SimM A :=
  match l with
  | [] => raise IndexError
  | _ => i ← randbelow (Z.of_nat (length l)); match l !! Z.to_nat i with Some x => mret x | None => raise IndexError end
  end.

(** [rng.random() < 0.45], [< 0.60] and [< 0.82]: the three constants as doubles are
    [0x1ccccccccccccd / 2 ** 54], [0x13333333333333 / 2 ** 53] and
    [0x1a3d70a3d70a3d / 2 ** 53]. *)
Definition below_045 (roll : Z) : bool := 2 * roll <? 0x1ccccccccccccd.
Definition below_060 (roll : Z) : bool := roll <? 0x13333333333333.
Definition below_082 (roll : Z) : bool := roll <? 0x1a3d70a3d70a3d.

(** [bytes(rng.randrange(256) for _ in range(n))] *)
Fixpoint random_bytes (n : nat) : SimM bytes :=
  match n with
  | O => mret []
  | S n => x ← randrange 256; rest ← random_bytes n; mret (byte_of_Z x :: rest)
  end.

(** ** The workload *)

(** [DBDB(disk, codec=JsonCodec(), durability=DURABILITY_FULL)] on [SimDisk(initial=...)] *)
Definition _open (initial : bytes) : res (DBDB bnode) := dbdb.init (SimDisk_init initial) None DURABILITY_FULL.

(** [StorageSimulation(seed, key_space=...)] *)
Definition init (seed key_space : Z) : res (StorageSimulation F) :=
  d ← _open []; Ok (mkSim (Random seed) key_space d ∅ [∅] (mkSimStats 0 0 0)).

Definition _key : SimM pystr := s ← get_st; n ← randrange (key_space s); mret (str "k" ++ int_text n).

Definition count_step : SimM unit :=
  modify (fun s => set_counts (mkSimStats (steps (sim_counts s) + 1) (commits (sim_counts s)) (crashes (sim_counts s))) s).
Definition count_commit : SimM unit :=
  modify (fun s => set_counts (mkSimStats (steps (sim_counts s)) (commits (sim_counts s) + 1) (crashes (sim_counts s))) s).
Definition count_crash : SimM unit :=
  modify (fun s => set_counts (mkSimStats (steps (sim_counts s)) (commits (sim_counts s)) (crashes (sim_counts s) + 1)) s).

Definition _commit : SimM unit :=
  on_db dbdb.commit ;;
  modify (fun s => set_history (history s ++ [model s]) s) ;;
  count_commit.

(** ** Faults and recovery *)

Definition _corrupt_a_meta_slot (durable : bytes) : SimM bytes :=
  slot ← randrange META_SLOTS;
  let offset := slot * META_SLOT_SIZE + META_BODY_BYTES in
  if offset + META_CRC_BYTES <=? zlen durable then
    let crc := be_decode (py_slice durable offset (offset + META_CRC_BYTES)) in
    packed ← lift_res (pack_uint 4 (Z.lxor crc 0xFFFFFFFF));
    mret (disk.splice durable offset (offset + META_CRC_BYTES) packed)
  else mret durable.

(** The bytes that survive, with the fault's damage. *)
Definition damage (f : fault) (prev : option (gmap pystr js)) (durable : bytes) : SimM bytes :=
  match f, prev with
  | TornTail, _ => n ← randint 1 7; tail ← random_bytes (Z.to_nat n); mret (durable ++ tail)
  | MetaCorruption, Some _ => _corrupt_a_meta_slot durable
  | _, _ => mret durable
  end.

(** [self.disk.arm_crash(...)] and the commit that is meant to die: whether it survived. *)
Definition try_commit : SimM bool :=
  k ← choice [1; 2];
  on_disk (disk.arm_crash k) ;;
  try_with (_commit ;; mret true) (fun e => match e with SimCrash => mret false | e => raise e end).

(** From ["Power on"] to the end of [_crash]. *)
Definition recover (last : gmap pystr js) (prev : option (gmap pystr js)) (durable : bytes) : SimM unit :=
  db ← lift_res (_open durable);
  modify (set_db db) ;;
  count_crash ;;
  report ← on_db facade.audit;
  if negb (report_ok report) then raise InvariantError
  else
    items ← on_db (dbdb.items (V := js));
    let recovered := dict_comp items in
    let allowed := [last] ++ match prev with Some p => [p] | None => [] end in
    if negb (existsb (dict_eq recovered) allowed) then raise InvariantError
    else modify (set_model recovered) ;; modify (set_history [recovered]).

Definition _crash : SimM unit :=
  f ← choice FAULTS;
  s ← get_st;
  match nth_back 1 (history s) with
  | None => raise IndexError
  | Some last =>
      let prev := if bool_decide (2 <= length (history s))%nat then nth_back 2 (history s) else None in
      survived ← (if bool_decide (f = MidCommit) then try_commit else mret false);
      if (survived : bool) then mret tt
      else
        s ← get_st;
        durable ← damage f prev (disk.durable_bytes (disk_of s));
        recover last prev durable
  end.

(** ** One step, and a whole run *)

Definition step : SimM unit :=
  count_step ;;
  roll ← random;
  if below_045 roll then
    key ← _key;
    n ← randrange 1000000;
    let value : js := JStr (int_text n) in
    on_db (dbdb.setitem key value) ;;
    modify (fun s => set_model (<[key := value]> (model s)) s)
  else if below_060 roll then
    key ← _key;
    try_with (on_db (dbdb.delitem key)) (fun e => match e with KeyError _ => mret tt | e => raise e end) ;;
    modify (fun s => set_model (delete key (model s)) s)
  else if below_082 roll then _commit
  else _crash.

Fixpoint loop (n : nat) : SimM unit := match n with O => mret tt | S n => step ;; loop n end.

(** ["Final settle: commit and verify one last clean recovery"] *)
Definition settle : SimM sim_stats :=
  _commit ;;
  s ← get_st;
  db ← lift_res (_open (disk.durable_bytes (disk_of s)));
  modify (set_db db) ;;
  report ← on_db facade.audit;
  if negb (report_ok report) then raise AssertionError
  else
    items ← on_db (dbdb.items (V := js));
    s ← get_st;
    match nth_back 1 (history s) with
    | None => raise IndexError
    | Some last => if negb (dict_eq (dict_comp items) last) then raise InvariantError else mret (sim_counts s)
    end.

Definition run (steps : Z) : SimM sim_stats := loop (Z.to_nat steps) ;; settle.

(** [run_seed(seed, steps)] *)
Definition run_seed (seed steps : Z) : res sim_stats := s ← init seed 12; (run steps s).2.

(** What [main] prints before it returns its exit code. *)
Inductive printed : Type :=
| Failed (seed steps : Z)
| AllHeld (count : Z) (total : sim_stats).

(** [for seed in seeds: ...] *)
Fixpoint sweep (seeds : list Z) (steps count : Z) (total : sim_stats) : res (printed * Z) :=
  match seeds with
  | [] => Ok (AllHeld count total, 0)
  | seed :: seeds =>
      match run_seed seed steps with
      | Ok stats => sweep seeds steps count (add_stats total stats)
      | Raise InvariantError => Ok (Failed seed steps, 1)
      | Raise e => Raise e
      end
  end.

(** [main] on its parsed arguments *)
Definition main (seed : option Z) (runs steps : Z) : res (printed * Z) :=
  let seeds := match seed with Some s => [s] | None => Z.of_nat <$> seq 0 (Z.to_nat runs) end in
  let count := match seed with Some _ => 1 | None => Z.of_nat (length seeds) end in
  sweep seeds steps count (mkSimStats 0 0 0).

End sim.
End sim.
