(* ===== verification/SimulationProps.v ===== *)
(** The storage simulation passes: the invariant of a run, and the theorems on runs
    and sweeps ([src/imustore/simulation.py]). *)

From Stdlib Require Import Strings.Byte.
From S2P Require Import Prelude PyBase Struct Text SimDisk Locking Physical PhysicalFacts Recovery StorageProps KeyList Logical Pickle BPlusTree.
From S2P Require Import BPlusAudit Index BPlusIndex Engine Session Database Json JsonText JsonRoundtrip JsonCodec JsonStore Facade FacadeFacts.
From S2P Require Import Simulation.

(** The storage simulation never trips over the engine: the invariant of a run
    ([src/imustore/simulation.py]). *)

(** A dictionary comprehension over distinct keys. *)
Lemma dict_comp_sorted {V} (l : list (pystr * V)) : kv_sorted l -> dict_comp l = kv_map l.
Proof.
  intros Hs%sorted_nodup. unfold dict_comp, kv_map. rewrite <- (map_union_empty (list_to_map l)).
  generalize (∅ : gmap pystr V). induction l as [|[k v] l IH]; intros d; [simpl; by rewrite map_empty_union|].
  csimpl. apply NoDup_cons in Hs as [Hk Hs]. rewrite IH by done. rewrite <- insert_union_l, insert_union_r; [done|].
  by apply not_elem_of_list_to_map.
Qed.

(** * The dictionaries of the simulation and the bindings on disk *)

Section stands.
Context {F : Type} `{FloatTextLaws F} `{NumEq F}.
Abbreviation js := (json_of F).
Implicit Types (v : js) (D : gmap pystr js) (kvs : kvlist) (l : list (pystr * js)).

(** A string the codec reads back. *)
Definition plain v : Prop := exists s, v = JStr s /\ clean s = true.

Lemma plain_canon v : plain v -> canon v.
Proof. by intros (s & -> & Hc). Qed.

(** The bindings [kvs] are the encoded dictionary [D]. *)
Definition stands kvs D : Prop :=
  exists l, kvs = stored l /\ D = kv_map l /\ Forall (fun kv => plain kv.2) l.

Lemma stands_empty : stands [] ∅.
Proof. by exists []. Qed.

Lemma stands_set kvs D k v : kv_sorted kvs -> stands kvs D -> plain v -> stands (kv_set k (enc v) kvs) (<[k := v]> D).
Proof.
  intros Hs (l & -> & -> & Hp) Hv. apply onto_sorted in Hs. exists (kv_set k v l). split_and!.
  - apply kv_set_onto.
  - by rewrite kv_map_set.
  - apply Forall_forall. intros kv [->|Hkv]%kv_set_in; [done|]. by apply (proj1 (Forall_forall _ _) Hp).
Qed.

Lemma stands_del kvs D k : kv_sorted kvs -> stands kvs D -> stands (kv_del k kvs) (delete k D).
Proof.
  intros Hs (l & -> & -> & Hp). apply onto_sorted in Hs. exists (kv_del k l). split_and!.
  - apply kv_del_onto.
  - by rewrite kv_map_del.
  - apply Forall_forall. intros kv Hkv. apply (proj1 (Forall_forall _ _) Hp). eapply elem_of_sublist; [exact Hkv|apply kv_del_sublist].
Qed.

(** The items of the database, read back into a dictionary. *)
Lemma stands_items kvs D :
  kv_sorted kvs -> stands kvs D -> exists items, snapshot.decode_all (yields kvs) = Ok items /\ dict_comp (V := js) items = D.
Proof.
  intros Hs (l & -> & -> & Hp). apply onto_sorted in Hs. exists l. split; [|by apply dict_comp_sorted].
  clear Hs. induction Hp as [|[k v] l Hv Hp IH]; [done|]. simpl in Hv. destruct (canon_codec v (plain_canon v Hv)) as [_ Hd].
  unfold stored, yields in *. cbn [fmap list_fmap map fst snd snapshot.decode_all]. rewrite Hd. cbn [mbind result_bind]. by rewrite IH.
Qed.

Lemma stands_refl kvs D : stands kvs D -> dict_eq D D = true.
Proof.
  intros (l & _ & -> & Hp). unfold dict_eq. rewrite bool_decide_true by done. apply forallb_forall. intros [k v] Hin.
  apply list_elem_of_In, elem_of_map_to_list in Hin. simpl. rewrite Hin.
  rewrite kv_map_lookup in Hin. assert ((k, v) ∈ l) as Hl.
  { clear Hp. induction l as [|[x y] l IH]; [done|]. simpl in Hin. destruct (decide (k = x)) as [->|]; [injection Hin as ->; by left|right; auto]. }
  pose proof (proj1 (Forall_forall _ _) Hp _ Hl) as (s & Ev & _). simpl in Ev. subst v. simpl. by apply bool_decide_eq_true.
Qed.

End stands.

(** * The invariant of a run *)

Lemma order_ok : (3 <= DEFAULT_ORDER)%nat.
Proof. unfold DEFAULT_ORDER. lia. Qed.

Section invariant.
Context `{Pickle} `{PyRandomLaws} {F : Type} `{FloatTextLaws F} `{NumEq F}.
#[local] Hint Extern 0 (Index bnode) => exact (bplus_index DEFAULT_ORDER) : typeclass_instances.
#[local] Hint Extern 0 (IndexSpec bnode) => exact (bplus_spec DEFAULT_ORDER order_ok) : typeclass_instances.
#[local] Hint Extern 0 (Audited bnode) => exact (bplus_audited DEFAULT_ORDER) : typeclass_instances.
Abbreviation js := (json_of F).
Implicit Types (s : StorageSimulation F) (d : DBDB bnode) (m : _Meta) (base kvs : kvlist) (D : gmap pystr js).

Abbreviation durable_of d := (_durable (_f (dbdb.the_storage d))).

(** The commit before the last one, which a torn meta block can bring back. *)
Definition fallback (n : nat) d m (prev : option (gmap pystr js)) : Prop :=
  forall P, prev = Some P -> exists mp kvsp, stands kvsp P /\ (length kvsp <= n)%nat /\
    retained (durable_of d) m mp /\ holds (N := bnode) (idle (SimDisk_init (committed (durable_of d) mp)) DURABILITY_FULL mp) mp kvsp.

(** The database holds the model, its last commit the end of the history, and no
    dictionary has more than [n] keys. *)
Record simulates (n : nat) d D (last : gmap pystr js) (prev : option (gmap pystr js)) m base kvs : Prop := {
  si_handle : handle (N := bnode) (db_tree d) m base kvs;
  si_open : file_open (dbdb.the_storage d);
  si_unarmed : unarmed (dbdb.the_storage d);
  si_model : stands kvs D;
  si_last : stands base last;
  si_prev : fallback n d m prev;
  si_size : (length kvs <= n)%nat /\ (length base <= n)%nat
}.

Definition sim_inv (n : nat) s : Prop :=
  0 < key_space s /\
  exists last m base kvs, nth_back 1 (history s) = Some last /\
    simulates n (sim_db s) (model s) last (nth_back 2 (history s)) m base kvs.

Lemma fits_le n kvs : (length kvs <= n)%nat -> Z.of_nat n < 2 ^ 64 -> ix_fits (N := bnode) kvs.
Proof. intros Hl Hn. change (Z.of_nat (length kvs) < 2 ^ 64). lia. Qed.

Lemma fallback_same n n' d d' m prev :
  (n <= n')%nat -> durable_of d' = durable_of d -> fallback n d m prev -> fallback n' d' m prev.
Proof.
  intros Hn Hd Hf P HP. destruct (Hf P HP) as (mp & kvsp & Hs & Hl & Hr & Hh). exists mp, kvsp.
  rewrite Hd. split_and!; try done. lia.
Qed.

(** Steps that only touch the staged tree. *)
Lemma simulates_still n n' d d' D D' last prev m base kvs kvs' :
  simulates n d D last prev m base kvs -> still m base kvs' d d' -> stands kvs' D' -> (n <= n')%nat ->
  (length kvs' <= n')%nat -> simulates n' d' D' last prev m base kvs'.
Proof.
  intros [Hh Ho Hu Hm Hl Hp [Hk Hb]] (Hh' & Hsf & _) Hs Hn Hk'. pose proof (same_file_fields _ _ Hsf) as (_ & Hd & Hc & _).
  split; try done.
  - by eapply same_file_open.
  - unfold unarmed, dbdb.the_storage in *. by rewrite Hc.
  - by apply (fallback_same n n' d d').
  - lia.
Qed.

Lemma handle_sorted d m base kvs : handle (N := bnode) (db_tree d) m base kvs -> kv_sorted kvs /\ kv_sorted base.
Proof. intros [_ [Hb _] [Ht _] _ _]. split; by eapply ix_tree_sorted. Qed.

(** ** Committing *)

Lemma nth_back_snoc {A} (l : list A) x :
  nth_back 1 (l ++ [x]) = Some x /\ nth_back 2 (l ++ [x]) = nth_back 1 l.
Proof. unfold nth_back. by rewrite reverse_snoc. Qed.

(** A commit that returns: the model becomes the last version, the last version
    the one before it. *)
Lemma commit_simulates n d D last prev m base kvs :
  simulates n d D last prev m base kvs -> Z.of_nat n < 2 ^ 64 ->
  exists d', (dbdb.commit d = (d', Ok tt) /\ exists m', simulates n d' D D (Some last) m' kvs kvs) \/
    dbdb.commit d = (d', Raise StructError).
Proof.
  intros [Hh Ho Hu Hm Hl Hp [Hk Hb]] Hn. unfold dbdb.commit. rewrite assert_open_bind by done.
  destruct (commit_spec _ _ _ _ Hh) as [(t' & m' & E & Hh' & _ & _ & Htx & _)|[(t' & E & _)|(t' & E & Hcr & _)]];
    exists (dbdb.set_tree t' d); rewrite (on_tree_run _ _ _ _ E); [left|by right|by destruct (Hcr Hu)].
  split; [done|]. exists m'. split; try done.
  - exact (commit_open _ _ _ _ _ _ Hh E Ho).
  - exact (commit_unarmed _ _ _ _ _ Hh Hu E).
  - intros P [= <-]. destruct (commit_retains _ _ _ _ _ _ Hh E (hd_journal _ _ _ _ Hh') Htx) as [Hr Hi]. by exists m, base.
Qed.

(** A part of a step: it returns in a state that satisfies the invariant and has
    counted [c] more steps, or the file format refuses a number. *)
Definition goes_on (n : nat) (c : Z) s (out : StorageSimulation F * res unit) : Prop :=
  exists s', (out = (s', Ok tt) /\ sim_inv n s' /\ steps (sim_counts s') = steps (sim_counts s) + c) \/
    out = (s', Raise StructError).

Lemma sim_commit_last n s : sim_inv n s -> Z.of_nat n < 2 ^ 64 ->
  exists s', (sim._commit s = (s', Ok tt) /\ sim_inv n s' /\ steps (sim_counts s') = steps (sim_counts s) + 0 /\
     nth_back 1 (history s') = Some (model s')) \/
    sim._commit s = (s', Raise StructError).
Proof.
  intros (Hks & last & m & base & kvs & Hlast & Hsim) Hn.
  destruct (commit_simulates _ _ _ _ _ _ _ _ Hsim Hn) as (d' & [(E & m' & Hs')|E]); unfold sim._commit.
  - eexists. left. split.
    + erewrite stx_bind_ok by (apply zoom_eq; exact E). reflexivity.
    + pose proof (nth_back_snoc (history s) (model s)) as [Hn1 Hn2].
      split; [|split; [cbn; lia|exact Hn1]]. split; [done|]. exists (model s), m', kvs, kvs.
      cbn [history model sim_db sim.set_history sim.set_counts sim.set_db]. rewrite Hn1, Hn2, Hlast.
      split; [done|exact Hs'].
  - eexists. right. erewrite stx_bind_raise by (apply zoom_eq; exact E). reflexivity.
Qed.

Lemma sim_commit n s : sim_inv n s -> Z.of_nat n < 2 ^ 64 -> goes_on n 0 s (sim._commit s).
Proof.
  intros Hi Hn. destruct (sim_commit_last n s Hi Hn) as (s' & [(E & Hi' & Hs & _)|E]); exists s'; [by left|by right].
Qed.

(** ** Drawing *)

Lemma draw_run k s : 0 < k -> exists g x, sim.randbelow k s = (sim.set_rng g s, Ok x) /\ 0 <= x < k.
Proof.
  intros Hk. unfold sim.randbelow. run. pose proof (randbelow_range k (sim_rng s) Hk) as Hr.
  destruct (_randbelow k (sim_rng s)) as [x g]. by exists g, x.
Qed.

Lemma random_run s : exists g roll, sim.random s = (sim.set_rng g s, Ok roll).
Proof. unfold sim.random. run. destruct (random53 (sim_rng s)) as [x g]. by exists g, x. Qed.

Lemma randrange_run k s : 0 < k -> exists g x, sim.randrange k s = (sim.set_rng g s, Ok x) /\ 0 <= x < k.
Proof. intros Hk. unfold sim.randrange. rewrite (proj2 (Z.ltb_lt _ _)) by done. by apply draw_run. Qed.

Lemma choice_run {A} (l : list A) s : l <> [] -> exists g x, sim.choice l s = (sim.set_rng g s, Ok x) /\ x ∈ l.
Proof.
  intros Hl. destruct (draw_run (Z.of_nat (length l)) s) as (g & i & E & Hi); [destruct l; simpl; [done|lia]|].
  destruct (lookup_lt_is_Some_2 l (Z.to_nat i)) as [x Hx]; [lia|]. exists g, x.
  split; [|by eapply list_elem_of_lookup_2]. unfold sim.choice. destruct l as [|y l]; [done|].
  erewrite stx_bind_ok by exact E. by rewrite Hx.
Qed.

Lemma random_bytes_run k s : exists g bs, sim.random_bytes k s = (sim.set_rng g s, Ok bs).
Proof.
  revert s. induction k as [|k IH]; intros s; [exists (sim_rng s), []; by destruct s|]. cbn [sim.random_bytes].
  destruct (randrange_run 256 s) as (g & x & E & _); [done|]. erewrite stx_bind_ok by exact E.
  destruct (IH (sim.set_rng g s)) as (g' & bs & E'). erewrite stx_bind_ok by exact E'. by eexists _, _.
Qed.

Lemma sim_inv_rng n s g : sim_inv n s -> sim_inv n (sim.set_rng g s).
Proof. done. Qed.

(** ** Recovery *)

(** An image that recovers to a version the simulation allows. *)
Definition recovers_to (n : nat) (last : gmap pystr js) prev (l : bytes) : Prop :=
  exists m kvs D, opens (N := bnode) l m kvs /\ stands kvs D /\ (length kvs <= n)%nat /\ (D = last \/ prev = Some D).

Lemma recover_run n s last prev l :
  0 < key_space s -> recovers_to n last prev l -> goes_on n 0 s (sim.recover last prev l s).
Proof.
  intros Hks (m & kvs & D & Hop & Hst & Hlen & Hin).
  destruct (init_spec l m kvs None Hop) as (d & Ed & Hh & Ho & _ & Hu & _).
  destruct (audit_still DEFAULT_ORDER order_ok d m kvs kvs Hh Ho) as (d1 & rep & Ea & [Hok _] & Hs1).
  destruct (items_still (V := js) d1 m kvs kvs) as (d2 & Ei & Hs2); [apply Hs1|by eapply still_open|].
  pose proof (proj1 (handle_sorted _ _ _ _ Hh)) as Hs. destruct (stands_items kvs D Hs Hst) as (items & Edec & Edict).
  assert (simulates n d D D None m kvs kvs) as Hsim by (split; try done; by intros P [=]).
  assert (simulates n d2 D D None m kvs kvs) as Hsim2.
  { apply (simulates_still n n d1 d2 D D D None m kvs kvs kvs); [|done..]. by apply (simulates_still n n d d1 D D D None m kvs kvs kvs). }
  unfold sim.recover. eexists. left. split.
  - erewrite stx_bind_ok by (unfold lift_res, sim._open; rewrite Ed; reflexivity). do 2 (erewrite stx_bind_ok by reflexivity).
    erewrite stx_bind_ok by (apply zoom_eq; exact Ea). rewrite Hok. cbn [negb].
    erewrite stx_bind_ok by (apply zoom_eq; cbn; rewrite Ei, Edec; reflexivity). rewrite Edict.
    assert (existsb (dict_eq D) ([last] ++ match prev with Some p => [p] | None => [] end) = true) as ->.
    { apply existsb_exists. exists D. split; [|by eapply stands_refl]. destruct Hin as [->| ->]; [by left|by right; left]. }
    reflexivity.
  - split; [|cbn; lia]. split; [done|]. exists D, m, kvs, kvs. done.
Qed.

(** ** Faults *)

Lemma simulates_recovers n d D last prev m base kvs :
  simulates n d D last prev m base kvs -> recovers_to n last prev (durable_of d).
Proof.
  intros [Hh _ _ _ Hl _ [_ Hb]]. exists m, base, last. split_and!; [by eapply handle_durable|done|done|by left].
Qed.

(** Whatever the fault does to the surviving bytes, they recover. *)
Lemma damage_run n d D last prev m base kvs f s :
  simulates n d D last prev m base kvs -> Z.of_nat n < 2 ^ 64 ->
  exists g l, sim.damage f prev (durable_of d) s = (sim.set_rng g s, Ok l) /\ recovers_to n last prev l.
Proof.
  intros Hsim Hn. pose proof Hsim as [Hh _ _ _ Hl Hp [_ Hb]]. pose proof Hh as [Hj Hbase _ _ [_ Hfb]].
  assert (recovers_to n last prev (durable_of d)) as Hrec by (by eapply simulates_recovers).
  assert (forall P, prev = Some P -> exists g l, sim._corrupt_a_meta_slot (durable_of d) s = (sim.set_rng g s, Ok l) /\
    recovers_to n last prev l) as Hcorrupt.
  { intros P HP. destruct (Hp P HP) as (mp & kvsp & Hsp & Hlp & Hrt & Hhp).
    destruct (randrange_run META_SLOTS s) as (g & i & E & Hi); [done|].
    assert (i = 0 \/ i = 1) as Hi' by (unfold META_SLOTS in Hi; lia).
    destruct (opens_flipped (N := bnode) (durable_of d) m base mp kvsp i) as (b & Eb & Hop); try done; [apply Hj|by eapply fits_le|].
    eexists g, _. split.
    - unfold sim._corrupt_a_meta_slot. erewrite stx_bind_ok by exact E. cbv zeta. rewrite (proj2 (Z.leb_le _ _)).
      + erewrite stx_bind_ok by (unfold lift_res; rewrite Eb; reflexivity). reflexivity.
      + pose proof (rec_low _ _ (jr_image _ _ Hj)). pose proof (rec_high _ _ (jr_image _ _ Hj)).
        unfold SUPERBLOCK_SIZE, META_SLOT_SIZE, META_SLOTS, META_BODY_BYTES, META_CRC_BYTES, dbdb.the_storage in *. lia.
    - destruct Hop as [Hop|Hop]; [exists m, base, last|exists mp, kvsp, P]; split_and!; try done; [by left|by right]. }
  destruct f; cbn [sim.damage].
  1,2: eexists (sim_rng s), _; split; [by destruct s|done].
  - unfold sim.randint. destruct (draw_run 7 s) as (g & x & E & Hx); [done|]. change (1 <=? 7) with true. cbv iota.
    erewrite stx_bind_ok by (erewrite stx_bind_ok by exact E; reflexivity).
    destruct (random_bytes_run (Z.to_nat (1 + x)) (sim.set_rng g s)) as (g' & bs & E').
    eexists g', _. split; [erewrite stx_bind_ok by exact E'; reflexivity|].
    exists m, base, last. split_and!; try done; [|by left]. apply opens_torn; [apply Hj|exact Hbase|done].
  - destruct prev as [P|]; [by apply (Hcorrupt P)|]. eexists (sim_rng s), _. split; [by destruct s|done].
Qed.

(** Arming the disk changes nothing else. *)
Definition arm (k : Z) d : DBDB bnode := (dbdb.on_tree (logical.on_storage (on_f (disk.arm_crash k))) d).1.

Lemma arm_run k d : dbdb.on_tree (logical.on_storage (on_f (disk.arm_crash k))) d = (arm k d, Ok tt).
Proof. reflexivity. Qed.

Lemma arm_handle k d m base kvs : handle (N := bnode) (db_tree d) m base kvs -> handle (N := bnode) (db_tree (arm k d)) m base kvs.
Proof.
  intros [Hj Hb [Ht Hc] Hi Hf]. split; try done.
  - by destruct Hj.
  - split; [|done]. by apply (ix_tree_extends (_storage (db_tree d))); [apply extends_live|].
Qed.

(** A commit on an armed disk dies, and what reached the disk recovers. *)
Lemma armed_commit_run n d D last prev m base kvs k :
  simulates n d D last prev m base kvs -> k = 1 \/ k = 2 ->
  exists d', (dbdb.commit (arm k d) = (d', Raise SimCrash) /\ recovers_to n last prev (durable_of d')) \/
    dbdb.commit (arm k d) = (d', Raise StructError).
Proof.
  intros [Hh Ho _ _ Hl _ [_ Hb]] Hk. pose proof (arm_handle k _ _ _ _ Hh) as Ha.
  unfold dbdb.commit. rewrite assert_open_bind by exact Ho.
  destruct (commit_spec _ _ _ _ Ha) as [(t' & m' & E & _)|[(t' & E & _)|(t' & E & _ & Hop)]];
    [by destruct (armed_commit _ _ _ _ k _ _ Ha Hk eq_refl E)|..];
    exists (dbdb.set_tree t' (arm k d)); rewrite (on_tree_run _ _ _ _ E); [by right|left].
  split; [done|]. exists m, base, last. split_and!; try done. by left.
Qed.

Lemma try_commit_run n s last prev m base kvs :
  simulates n (sim_db s) (model s) last prev m base kvs ->
  exists s', (sim.try_commit s = (s', Ok false) /\ key_space s' = key_space s /\ sim_counts s' = sim_counts s /\
      recovers_to n last prev (durable_of (sim_db s'))) \/
    sim.try_commit s = (s', Raise StructError).
Proof.
  intros Hsim. unfold sim.try_commit. destruct (choice_run [1; 2] s) as (g & k & E & Hk); [done|].
  erewrite stx_bind_ok by exact E. erewrite stx_bind_ok by (apply zoom_eq; apply arm_run).
  assert (k = 1 \/ k = 2) as Hk' by set_solver.
  destruct (armed_commit_run n (sim_db s) _ _ _ _ _ _ k Hsim Hk') as (d' & [(Ec & Hrec)|Ec]);
    unfold try_with, sim._commit; eexists; [left|right].
  - erewrite stx_bind_raise; [|erewrite stx_bind_raise by (apply zoom_eq; exact Ec); reflexivity]. split_and!; [reflexivity|done..].
  - erewrite stx_bind_raise; [|erewrite stx_bind_raise by (apply zoom_eq; exact Ec); reflexivity]. reflexivity.
Qed.

Lemma crash_run n s : sim_inv n s -> Z.of_nat n < 2 ^ 64 -> goes_on n 0 s (sim._crash s).
Proof.
  intros (Hks & last & m & base & kvs & Hlast & Hsim) Hn. unfold sim._crash.
  destruct (choice_run FAULTS s) as (g & f & E & _); [done|]. erewrite stx_bind_ok by exact E. set (s1 := sim.set_rng g s).
  erewrite stx_bind_ok by reflexivity. change (history s1) with (history s). rewrite Hlast.
  assert ((if bool_decide (2 <= length (history s))%nat then nth_back 2 (history s) else None) = nth_back 2 (history s)) as ->.
  { case_bool_decide as Hlen; [done|]. unfold nth_back. symmetry. apply lookup_ge_None_2. rewrite length_reverse. lia. }
  set (prev := nth_back 2 (history s)) in *. case_bool_decide as Hf.
  - subst f. destruct (try_commit_run n s1 last prev m base kvs Hsim) as (s2 & [(Et & Hk2 & Hc2 & Hrec)|Et]).
    + erewrite stx_bind_ok by exact Et. cbv iota. erewrite stx_bind_ok by reflexivity. cbn [sim.damage]. erewrite stx_bind_ok by reflexivity.
      destruct (recover_run n s2 last prev (durable_of (sim_db s2))) as (s3 & [(Er & Hi & Hs)|Er]); [by rewrite Hk2|done|..];
        exists s3; [left|by right]. split; [done|]. split; [done|]. by rewrite Hs, Hc2.
    + erewrite stx_bind_raise by exact Et. exists s2. by right.
  - erewrite stx_bind_ok by reflexivity. cbv iota. erewrite stx_bind_ok by reflexivity.
    destruct (damage_run n (sim_db s) (model s) last prev m base kvs f s1 Hsim Hn) as (g' & l & Ed & Hrec).
    erewrite stx_bind_ok by exact Ed. exact (recover_run n (sim.set_rng g' s1) last prev l Hks Hrec).
Qed.

(** ** Steps *)

Lemma key_run s : 0 < key_space s -> exists g i, sim._key s = (sim.set_rng g s, Ok (str "k" ++ int_text i)).
Proof.
  intros Hk. unfold sim._key. erewrite stx_bind_ok by reflexivity.
  destruct (randrange_run (key_space s) s Hk) as (g & i & E & _). exists g, i. by erewrite stx_bind_ok by exact E.
Qed.

Lemma int_text_plain i : plain (F := F) (JStr (int_text i)).
Proof. exists (int_text i). split; [done|]. apply int_text_clean. Qed.

Lemma sim_set_step n s (k : pystr) v :
  sim_inv n s -> Z.of_nat (n + 1) < 2 ^ 64 -> k <> [] -> plain v ->
  goes_on (n + 1) 0 s ((sim.on_db (dbdb.setitem k v) ;; modify (fun s => sim.set_model (<[k := v]> (model s)) s)) s).
Proof.
  intros (Hks & last & m & base & kvs & Hlast & Hsim) Hn Hk Hv. pose proof Hsim as [Hh Ho _ Hm _ _ [Hlk _]].
  pose proof (proj1 (handle_sorted _ _ _ _ Hh)) as Hs. destruct (canon_codec v (plain_canon v Hv)) as [He _].
  assert (length (kv_set k (enc v) kvs) <= n + 1)%nat as Hlen.
  { rewrite kv_set_length by done. destruct (kv_get k kvs); lia. }
  destruct (setitem_still (sim_db s) m base kvs k v (enc v) Hh Ho Hk He) as (d' & E & Hst); [by eapply fits_le|].
  eexists. left. split; [erewrite stx_bind_ok by (apply zoom_eq; exact E); reflexivity|]. split; [|cbn; lia].
  split; [done|]. exists last, m, base, (kv_set k (enc v) kvs). split; [done|].
  apply (simulates_still n (n + 1) (sim_db s) d' (model s) _ last _ m base kvs); try done; [by apply stands_set|lia].
Qed.

Lemma del_step n s (k : pystr) :
  sim_inv n s -> Z.of_nat n < 2 ^ 64 -> k <> [] ->
  goes_on n 0 s ((try_with (sim.on_db (dbdb.delitem k)) (fun e => match e with KeyError _ => mret tt | e => raise e end) ;;
    modify (fun s => sim.set_model (delete k (model s)) s)) s).
Proof.
  intros (Hks & last & m & base & kvs & Hlast & Hsim) Hn Hk. pose proof Hsim as [Hh Ho _ Hm _ _ [Hlk _]].
  pose proof (proj1 (handle_sorted _ _ _ _ Hh)) as Hs. pose proof (kv_del_length k kvs) as Hlen.
  destruct (delitem_still (sim_db s) m base kvs k Hh Ho Hk) as (d' & E & Hst).
  assert (try_with (sim.on_db (dbdb.delitem k)) (fun e => match e with KeyError _ => mret tt | e => raise e end) s =
    (sim.set_db d' s, Ok tt)) as Et.
  { unfold try_with, sim.on_db. rewrite (zoom_eq _ _ _ _ _ _ E). by destruct (kv_get k kvs). }
  eexists. left. split; [erewrite stx_bind_ok by exact Et; reflexivity|]. split; [|cbn; lia].
  split; [done|]. exists last, m, base, (kv_del k kvs). split; [done|].
  apply (simulates_still n n (sim_db s) d' (model s) _ last _ m base kvs); try done; [by apply stands_del|].
  destruct (kv_get k kvs); lia.
Qed.

Lemma sim_inv_le n n' s : (n <= n')%nat -> sim_inv n s -> sim_inv n' s.
Proof.
  intros Hn (Hks & last & m & base & kvs & Hlast & [Hh Ho Hu Hm Hl Hp [Hk Hb]]). split; [done|].
  exists last, m, base, kvs. split; [done|]. split; try done; [by apply (fallback_same n n' (sim_db s) (sim_db s))|lia].
Qed.

Lemma goes_on_le n n' c c' s s0 out :
  (n <= n')%nat -> steps (sim_counts s0) + c' = steps (sim_counts s) + c -> goes_on n c s out -> goes_on n' c' s0 out.
Proof.
  intros Hn Hc (s' & [(E & Hi & Hs)|E]); exists s'; [left|by right]. split_and!; [done|by eapply sim_inv_le|lia].
Qed.

Lemma step_run n s : sim_inv n s -> Z.of_nat (n + 1) < 2 ^ 64 -> goes_on (n + 1) 1 s (sim.step s).
Proof.
  intros Hi Hn. unfold sim.step. erewrite stx_bind_ok by reflexivity.
  match goal with |- context [(sim.random ≫= _) ?x] => set (s1 := x) end.
  destruct (random_run s1) as (g & roll & Er). erewrite stx_bind_ok by exact Er. set (s2 := sim.set_rng g s1).
  assert (sim_inv n s2) as Hi2 by done. assert (steps (sim_counts s2) = steps (sim_counts s) + 1) as Hs2 by done.
  assert (Hkey : forall i, str "k" ++ int_text i <> []) by done. pose proof (proj1 Hi2) as Hks.
  destruct (sim.below_045 roll); [|destruct (sim.below_060 roll); [|destruct (sim.below_082 roll)]].
  - destruct (key_run s2 Hks) as (g1 & i & E). erewrite stx_bind_ok by exact E.
    destruct (randrange_run 1000000 (sim.set_rng g1 s2)) as (g2 & x & E2 & _); [done|]. erewrite stx_bind_ok by exact E2.
    apply (goes_on_le (n + 1) (n + 1) 0 1 (sim.set_rng g2 (sim.set_rng g1 s2))); [done|cbn [sim_counts sim.set_rng]; lia|].
    apply sim_set_step; [done|done|apply Hkey|apply int_text_plain].
  - destruct (key_run s2 Hks) as (g1 & i & E). erewrite stx_bind_ok by exact E.
    apply (goes_on_le n (n + 1) 0 1 (sim.set_rng g1 s2)); [lia|cbn [sim_counts sim.set_rng]; lia|]. apply del_step; [done|lia|apply Hkey].
  - apply (goes_on_le n (n + 1) 0 1 s2); [lia|lia|]. apply sim_commit; [done|lia].
  - apply (goes_on_le n (n + 1) 0 1 s2); [lia|lia|]. apply crash_run; [done|lia].
Qed.

Lemma loop_run k n s : sim_inv n s -> Z.of_nat (n + k) < 2 ^ 64 -> goes_on (n + k) (Z.of_nat k) s (sim.loop k s).
Proof.
  revert n s. induction k as [|k IH]; intros n s Hi Hn.
  - exists s. left. split; [done|]. split; [by rewrite Nat.add_0_r|lia].
  - cbn [sim.loop]. destruct (step_run n s Hi) as (s1 & [(E & Hi1 & Hs1)|E]); [lia| |].
    + erewrite stx_bind_ok by exact E. apply (goes_on_le (n + 1 + k) _ (Z.of_nat k) _ s1); [lia|lia|]. apply IH; [done|lia].
    + exists s1. right. by erewrite stx_bind_raise by exact E.
Qed.

End invariant.

(** The storage simulation passes: whatever the generator draws, no recovery
    breaks an invariant ([src/imustore/simulation.py]). *)

Section props.
Context `{Pickle} `{PyRandomLaws} {F : Type} `{FloatTextLaws F} `{NumEq F}.
#[local] Hint Extern 0 (Index bnode) => exact (bplus_index DEFAULT_ORDER) : typeclass_instances.
#[local] Hint Extern 0 (IndexSpec bnode) => exact (bplus_spec DEFAULT_ORDER order_ok) : typeclass_instances.
#[local] Hint Extern 0 (Audited bnode) => exact (bplus_audited DEFAULT_ORDER) : typeclass_instances.
Abbreviation js := (json_of F).
Implicit Types (s : StorageSimulation F).

Lemma sim_start (seed space : Z) : 0 < space ->
  exists s, sim.init (F := F) seed space = Ok s /\ sim_inv 0 s /\ steps (sim_counts s) = 0.
Proof.
  intros Hk. destruct (init_spec (N := bnode) [] meta0 [] None) as (d & Ed & Hh & Ho & _ & Hu & _).
  { by apply opens_short. }
  eexists. unfold sim.init, sim._open. rewrite Ed. split; [reflexivity|]. split; [|reflexivity]. split; [exact Hk|].
  exists ∅, meta0, [], []. split; [reflexivity|]. split; [exact Hh|exact Ho|exact Hu|exact stands_empty|exact stands_empty|by intros P [=]|split; apply Nat.le_0_l].
Qed.

(** The final commit, reopening and comparison. *)
Lemma settle_run n s : sim_inv n s -> Z.of_nat n < 2 ^ 64 ->
  exists s', (exists st, sim.settle s = (s', Ok st) /\ steps st = steps (sim_counts s)) \/ sim.settle s = (s', Raise StructError).
Proof.
  intros Hi Hn. unfold sim.settle. destruct (sim_commit_last n s Hi Hn) as (s1 & [(E & Hi1 & Hs1 & Hlast)|E]).
  2:{ exists s1. right. by erewrite stx_bind_raise by exact E. }
  destruct Hi1 as (_ & last & m & base & kvs & Hlast' & [Hh Ho _ _ Hst _ _]). rewrite Hlast in Hlast'. injection Hlast' as <-.
  destruct (init_spec (_durable (_f (dbdb.the_storage (sim_db s1)))) m base None (handle_durable _ _ _ _ Hh)) as (d & Ed & Hh2 & Ho2 & _).
  destruct (audit_still DEFAULT_ORDER order_ok d m base base Hh2 Ho2) as (d3 & rep & Ea & [Hok _] & Hs3).
  destruct (items_still (V := js) d3 m base base) as (d4 & Ei & _); [apply Hs3|by eapply still_open|].
  destruct (stands_items base (model s1)) as (items & Edec & Edict); [by apply (handle_sorted _ _ _ _ Hh)|done|].
  eexists. left. eexists. erewrite stx_bind_ok by exact E. erewrite stx_bind_ok by reflexivity. split.
  - erewrite stx_bind_ok by (unfold lift_res, sim._open; unfold sim.disk_of, disk.durable_bytes; rewrite Ed; reflexivity).
    erewrite stx_bind_ok by reflexivity. erewrite stx_bind_ok by (apply zoom_eq; exact Ea). rewrite Hok. cbn [negb].
    erewrite stx_bind_ok by (apply zoom_eq; cbn [sim_db sim.set_db]; rewrite Ei, Edec; reflexivity).
    erewrite stx_bind_ok by reflexivity. cbn [history sim.set_db]. rewrite Hlast, Edict, (stands_refl _ _ Hst). reflexivity.
  - cbn [sim_counts sim.set_db]. lia.
Qed.

Lemma sim_run (seed space k : Z) : 0 < space -> k < 2 ^ 64 ->
  exists s s', sim.init (F := F) seed space = Ok s /\
    ((exists st, sim.run k s = (s', Ok st) /\ steps st = Z.max 0 k) \/ sim.run k s = (s', Raise StructError)).
Proof.
  intros Hk Hn. destruct (sim_start seed space Hk) as (s & Es & Hi & Hc). exists s. unfold sim.run.
  destruct (loop_run (Z.to_nat k) 0 s Hi) as (s1 & [(E & Hi1 & Hs1)|E]); [lia| |].
  - destruct (settle_run (0 + Z.to_nat k) s1 Hi1) as (s' & [(st & E2 & Hst)|E2]); [lia| |]; exists s'; (split; [exact Es|]);
      erewrite stx_bind_ok by exact E; [left; exists st; split; [exact E2|lia]|right; exact E2].
  - exists s1. split; [exact Es|]. right. erewrite stx_bind_raise by exact E. reflexivity.
Qed.

(** C7: no simulated crash ever breaks the database.  For every seed, every
    generator that draws in range, every positive number of keys and every number
    of steps, a run of the workload with its clean, mid-commit, torn-tail and
    meta-corruption crashes ends with the statistics of all its steps: every
    recovery opens, passes the audit and holds the last committed version or the
    one before it, and the final state is the last commit.  The one other
    outcome is that a number outgrows the file format ([struct.error]). *)
Theorem simulation_holds (seed space k : Z) : 0 < space -> k < 2 ^ 64 ->
  exists s s', sim.init (F := F) seed space = Ok s /\
    ((exists st, sim.run k s = (s', Ok st) /\ steps st = Z.max 0 k) \/ sim.run k s = (s', Raise StructError)).
Proof. apply sim_run. Qed.

(** The sweep over seeds exits with code 0.  [main] reports all seeds held,
    with as many steps in total as it was asked for, and never a failing seed
    (again unless a number outgrows the file format). *)
Theorem sweep_passes (seed : option Z) (runs k : Z) : 0 <= k < 2 ^ 64 ->
  let count := match seed with Some _ => 1 | None => Z.max 0 runs end in
  (exists total, sim.main (F := F) seed runs k = Ok (sim.AllHeld count total, 0) /\ steps total = count * k) \/
  sim.main (F := F) seed runs k = Raise StructError.
Proof.
  intros Hk count. unfold sim.main.
  assert (forall seeds c total,
    (exists total', sim.sweep (F := F) seeds k c total = Ok (sim.AllHeld c total', 0) /\
      steps total' = steps total + Z.of_nat (length seeds) * k) \/
    sim.sweep (F := F) seeds k c total = Raise StructError) as Hsweep.
  { intros seeds c. induction seeds as [|x seeds IH]; intros total; cbn [sim.sweep length].
    - left. exists total. split; [done|lia].
    - unfold sim.run_seed. destruct (sim_run x 12 k) as (s & s' & -> & Hr); [done|lia|]. cbn [mbind result_bind].
      destruct Hr as [(st & -> & Hst)| ->]; cbn [snd]; [|by right].
      destruct (IH (add_stats total st)) as [(total' & E & Ht)|E]; [left|by right]. exists total'. split; [done|].
      rewrite Ht. cbn [steps add_stats]. lia. }
  destruct seed as [x|].
  - destruct (Hsweep [x] 1 (mkSimStats 0 0 0)) as [(total & E & Ht)|E]; [left|by right]. exists total. split; [done|]. cbn [steps length] in Ht. lia.
  - destruct (Hsweep (Z.of_nat <$> seq 0 (Z.to_nat runs)) count (mkSimStats 0 0 0)) as [(total & E & Ht)|E].
    + left. exists total. rewrite length_fmap, length_seq in Ht |- *. replace (Z.of_nat (Z.to_nat runs)) with count in Ht |- * by (unfold count; lia).
      split; [done|]. cbn [steps] in Ht. lia.
    + right. rewrite length_fmap, length_seq. by replace (Z.of_nat (Z.to_nat runs)) with count by (unfold count; lia).
Qed.

End props.

(** * Witnesses *)

(** A linear congruential generator. *)
#[local] Instance lcg : PyRandom := {|
  generator := Z;
  Random seed := seed;
  random53 g := (Z.shiftr (g * 6364136223846793005 mod 2 ^ 64) 11, (g * 6364136223846793005 + 1442695040888963407) mod 2 ^ 64);
  _randbelow n g := (Z.shiftr g 20 mod n, (g * 6364136223846793005 + 1442695040888963407) mod 2 ^ 64)
|}.

#[local] Instance lcg_laws : PyRandomLaws.
Proof. split. intros n g Hn. apply Z.mod_pos_bound. lia. Qed.

(** The only floats here are the special ones. *)
#[local] Instance sim_float_text : FloatText special := {|
  fl_special x := Some x;
  fl_of_special x := x;
  float_repr _ := [];
  float_of _ := NaN
|}.

#[local] Instance sim_float_laws : FloatTextLaws special.
Proof. split; intros x; [done|done|]. intros sp [= ->]. done. Qed.

#[local] Instance sim_num_eq : NumEq special := fun a b =>
  match a, b with inl x, inl y => x =? y | _, _ => false end.

#[local] Instance sim_pickle : Pickle := bit_pickle.

(** What a run of 25 steps counts. *)
Definition outcome (seed : Z) : res sim_stats := s ← sim.init (F := special) seed 5; (sim.run 25 s).2.

Lemma outcome_77 : outcome 77 = Ok (mkSimStats 25 4 5).
Proof. vm_compute. reflexivity. Qed.

Lemma outcome_split seed s : sim.init (F := special) seed 5 = Ok s -> outcome seed = (sim.run 25 s).2.
Proof. intros E. unfold outcome. by rewrite E. Qed.

(** The run with seed 77 crashes five times and still counts all its steps. *)
Lemma simulation_holds_witness : exists s s',
  sim.init (F := special) 77 5 = Ok s /\ sim.run 25 s = (s', Ok (mkSimStats 25 4 5)).
Proof.
  destruct (simulation_holds (F := special) 77 5 25) as (s & s' & Ei & Hr); [lia|lia|].
  pose proof (outcome_split _ _ Ei) as Eo. rewrite outcome_77 in Eo. exists s, s'. split; [exact Ei|].
  destruct Hr as [(st & Er & _)|Er]; rewrite Er in Eo |- *; cbn [snd] in Eo; [|discriminate Eo].
  injection Eo as <-. reflexivity.
Defined.

Lemma sweep_77 : exists total, sim.main (F := special) (Some 77) 100 12 = Ok (sim.AllHeld 1 total, 0) /\ steps total = 12.
Proof. eexists. split; [vm_compute; reflexivity|reflexivity]. Qed.

Lemma sweep_passes_witness : exists total, sim.main (F := special) (Some 77) 100 12 = Ok (sim.AllHeld 1 total, 0) /\ steps total = 1 * 12.
Proof.
  destruct (sweep_passes (F := special) (Some 77) 100 12) as [Hw|Hw]; [lia|exact Hw|].
  destruct sweep_77 as (total & E & _). exfalso. rewrite Hw in E. discriminate E.
Defined.
