(* ===== verification/Tool.v ===== *)
(** The command line tool: [src/imustore/tool.py].

    One run of the program is one call of [main] on the files of the machine.  The
    parser is a parameter: [argparse] turns the words of the command line into the
    command, or exits.  A generator that [main] prints is the list of what it
    yields. *)

From S2P Require Import Prelude PyBase Struct SimDisk Locking Physical PhysicalFacts KeyList Logical Pickle Index.
From S2P Require Import BPlusTree BPlusIndex BPlusAudit Database Facade Text Json JsonText JsonCodec.

Definition OK : Z := 0.
Definition BAD_ARGS : Z := 2.
Definition BAD_KEY : Z := 3.

(** [args.command] with its arguments; [OtherCommand] is one [main] does not
    know (the parser accepts none), with the usage line the parser prints. *)
Inductive subcommand : Type :=
| CmdGet (key : pystr)
| CmdSet (key value : pystr)
| CmdDelete (key : pystr)
| CmdKeys (prefix : option pystr)
| CmdScan (prefix start stop : option pystr)
| CmdStats
| CmdAudit
| CmdCompact
| OtherCommand (usage : pystr).

Record arguments : Type := mkArguments {
  database : pystr;
  command : subcommand
}.

(** The machine [main] runs on: its files, and what was printed. *)
Record machine : Type := mkMachine {
  fs : files;
  stdout : list pystr;
  stderr : list pystr
}.

(** [StorageStats.__dict__] *)
Definition stats_dict {F} (st : StorageStats) : json_of F :=
  JDict [(str "file_size", JInt (st_file_size st)); (str "root_address", JInt (st_root_address st));
         (str "record_count", JInt (st_record_count st)); (str "key_count", JInt (st_key_count st));
         (str "txn_id", JInt (st_txn_id st))].

Module tool.
Section tool.
Context `{Pickle} {F : Type} `{FloatText F} `{PyRepr}.
#[local] Hint Extern 0 (Index bnode) => exact (bplus_index DEFAULT_ORDER) : typeclass_instances.
#[local] Hint Extern 0 (Audited bnode) => exact (bplus_audited DEFAULT_ORDER) : typeclass_instances.
Abbreviation js := (json_of F).

(** The open database and the machine. *)
Abbreviation ToolM A := (St (DBDB bnode * machine) A).

Definition on_db {A} (m : St (DBDB bnode) A) : ToolM A := zoom fst (fun d s => (d, s.2)) m.

Definition print (line : pystr) : ToolM unit :=
  modify (fun s => (s.1, mkMachine (fs s.2) (stdout s.2 ++ [line]) (stderr s.2))).
Definition print_err (line : pystr) : ToolM unit :=
  modify (fun s => (s.1, mkMachine (fs s.2) (stdout s.2) (stderr s.2 ++ [line]))).

(** [json.dumps(value, sort_keys=True)] *)
Definition dumps_sorted (v : js) : pystr := JsonText.dumps default_seps (sort_keys v).

(** The temporary file of a compaction, [path.with_suffix(path.suffix + ".compact.tmp")]. *)
Definition temp_path (path : pystr) : pystr := path ++ str ".compact.tmp".

(** [db.compact()] with the temporary file among the machine's files. *)
Definition compact (path : pystr) : ToolM StorageStats := fun s =>
  let '((d, temp), r) := dbdb.compact (V := js) (s.1, SimDisk_init <$> fs s.2 !! temp_path path) in
  let files := match temp with
               | Some f => <[temp_path path := _live f]> (fs s.2)
               | None => delete (temp_path path) (fs s.2)
               end in
  ((d, mkMachine files (stdout s.2) (stderr s.2)), r).

(** The [try] block: the exit code of the [return] in it, or [None]. *)
Definition execute (path : pystr) (c : subcommand) : ToolM (option Z) :=
  match c with
  | CmdGet key => v ← on_db (dbdb.getitem (V := js) key); print (dumps_sorted v) ;; mret None
  | CmdSet key value =>
      v ← lift_res (parse_cli_value (F := F) value);
      on_db (dbdb.setitem key v) ;; on_db dbdb.commit ;; mret None
  | CmdDelete key => on_db (dbdb.delitem key) ;; on_db dbdb.commit ;; mret None
  | CmdKeys prefix => ks ← on_db (dbdb.keys (V := js) prefix None None); mapM_st print ks ;; mret None
  | CmdScan prefix start stop =>
      kvs ← on_db (dbdb.scan (V := js) prefix start stop);
      mapM_st (fun kv => print (dumps_sorted (JDict [(str "key", JStr kv.1); (str "value", kv.2)]))) kvs ;; mret None
  | CmdStats => st ← on_db dbdb.stats; print (dumps_sorted (stats_dict st)) ;; mret None
  | CmdAudit => r ← on_db facade.audit; print (dumps_sorted (as_dict DEFAULT_ORDER r)) ;; mret None
  | CmdCompact => st ← compact path; print (dumps_sorted (stats_dict st)) ;; mret None
  | OtherCommand usage => print usage ;; mret (Some BAD_ARGS)
  end.

(** [finally: if not db._storage.closed: db.close()] *)
Definition close_if_open : ToolM unit :=
  s ← get_st; if storage.closed (dbdb.the_storage s.1) then mret tt else on_db dbdb.close.

(** [main] after the arguments were parsed.  The file keeps what the database
    object wrote to it. *)
Definition run (a : arguments) : St machine Z :=
  fun w =>
    match facade.connect (database a) DURABILITY_FULL (fs w) with
    | (fs', Raise e) => (mkMachine fs' (stdout w) (stderr w), Raise e)
    | (fs', Ok db) =>
        let '((db, w), r) :=
          try_finally
            (try_with (execute (database a) (command a))
               (fun e => match e with KeyError _ => print_err (str "Key not found") ;; mret (Some BAD_KEY) | e => raise e end))
            close_if_open (db, mkMachine fs' (stdout w) (stderr w)) in
        (mkMachine (<[database a := live (dbdb.the_storage db)]> (fs w)) (stdout w) (stderr w),
         code ← r; Ok (default OK code))
    end.

Definition main (parse_args : list pystr -> Z + arguments) (argv : list pystr) : St machine Z :=
  match parse_args argv with
  | inl code => mret code
  | inr a => run a
  end.

End tool.
End tool.
