(* ===== verification/ToolFacts.v ===== *)
(** A database file between runs of a program: its record table, opening it,
    changing it and writing it anew ([src/imustore/physical.py], [interface.py]). *)

From S2P Require Import Prelude PyBase Struct Text SimDisk Locking Physical PhysicalFacts Recovery StorageProps KeyList Logical Pickle BPlusTree.
From S2P Require Import BPlusAudit Index BPlusIndex Engine Session Database Transactions Json JsonText JsonRoundtrip JsonCodec JsonStore Facade.
From S2P Require Import FacadeFacts SimulationProps.

(** The record table of a database file: between commits the file is the
    superblock followed by whole records, so [stats] can walk it
    ([src/imustore/physical.py]). *)

(** A superblock followed by records. *)
Definition tabled (l : bytes) : Prop :=
  exists super ps, zlen super = SUPERBLOCK_SIZE /\ Forall (fun p => zlen p < 256 ^ 4) ps /\
    l = super ++ concat (map record_bytes ps).

Lemma tabled_fresh : tabled fresh_image.
Proof. exists fresh_image, []. split; [exact fresh_length|]. split; [constructor|]. symmetry. apply app_nil_r. Qed.

Lemma tabled_append l p : tabled l -> zlen p < 256 ^ 4 -> tabled (l ++ record_bytes p).
Proof.
  intros (super & ps & Hs & Hf & ->) Hp. exists super, (ps ++ [p]). split; [done|]. split; [by apply Forall_app; split; [|constructor]|].
  rewrite map_app, concat_app. cbn [map concat]. by rewrite app_nil_r, app_assoc.
Qed.

Lemma tabled_super l : tabled l -> SUPERBLOCK_SIZE <= zlen l.
Proof. intros (super & ps & Hs & _ & ->). rewrite zlen_app. pose proof (zlen_nonneg (concat (map record_bytes ps))). lia. Qed.

Lemma tabled_slot l i block :
  tabled l -> i = 0 \/ i = 1 -> zlen block = META_SLOT_SIZE -> tabled (write_at l (i * META_SLOT_SIZE) block).
Proof.
  intros Ht Hi Hb. pose proof (tabled_super l Ht) as Hl. destruct Ht as (super & ps & Hs & Hf & ->).
  exists (take (Z.to_nat SUPERBLOCK_SIZE) (write_at (super ++ concat (map record_bytes ps)) (i * META_SLOT_SIZE) block)), ps.
  pose proof (slot_write_length _ i block Hi Hl Hb) as Hlen. split_and!; [|done|].
  - unfold zlen in *. rewrite length_take. lia.
  - rewrite <- (take_drop (Z.to_nat SUPERBLOCK_SIZE) (write_at _ _ _)) at 1. f_equal.
    rewrite slot_write_beyond by (done || lia). apply drop_app_exact. unfold zlen in Hs. lia.
Qed.

Lemma tabled_writes (s s' : Storage) : _readonly s = false -> tabled (live s) -> writes s s' -> tabled (live s').
Proof.
  intros Hro Ht Hw. revert Hro Ht. induction Hw as [s|s p s' r s'' Hw _ IH]; [done|]. intros Hro Ht.
  change (rs_write p s) with (storage.write p s) in Hw. pose proof (tabled_super _ Ht) as Hl.
  destruct (Z.lt_ge_cases (zlen p) (256 ^ 4)) as [Hp|Hp].
  - rewrite storage_write_spec in Hw by done. injection Hw as <- _. apply IH; [done|]. by apply tabled_append.
  - unfold storage.write in Hw. erewrite stx_bind_ok in Hw by reflexivity. rewrite Hro in Hw.
    erewrite stx_bind_ok in Hw by apply file_size_spec. erewrite stx_bind_ok in Hw by apply seek_spec.
    destruct (pack_uint_cases 4 (zlen p)) as [E|[Hr _]]; [|change (Z.of_nat 4) with 4 in Hr; lia].
    rewrite E in Hw. injection Hw as <- _. by apply IH.
Qed.

(** * Counting the records *)

Lemma count_loop_pos fuel e a n s : exists p, (storage.count_loop fuel e a n s).1 = at_pos p s.
Proof.
  revert a n s. induction fuel as [|fuel IH]; intros a n s; [exists (_pos (_f s)); by destruct s as [[] ? ? ? ?]|]. cbn [storage.count_loop].
  destruct (a <? e).
  - unfold mbind at 1, stx_bind at 1. rewrite seek_spec. set (s1 := at_pos a s). unfold mbind, stx_bind.
    destruct (on_f (disk.read (Some RECORD_HEADER_BYTES)) s1) as [s2 r] eqn:E.
    assert (exists q, s2 = at_pos q s) as [q ->].
    { unfold on_f, zoom, disk.read in E. run in E. injection E as <- _. by eexists. }
    destruct r as [h|]; [|by exists q]. destruct (negb _); [by exists q|]. destruct (IH (a + (RECORD_HEADER_BYTES + be_decode (take 4 h))) (n + 1) (at_pos q s)) as [p Hp].
    exists p. by rewrite Hp.
  - exists (_pos (_f s)). destruct s as [[] ? ? ? ?]. by destruct (negb _).
Qed.

Lemma count_records_run s : tabled (live s) -> exists p n, storage.count_records s = (at_pos p s, Ok n) /\ 0 <= n.
Proof.
  intros (super & ps & Hs & HF & Hl). unfold storage.count_records. erewrite stx_bind_ok by apply file_size_spec.
  set (s1 := at_pos (zlen (live s)) s).
  destruct (count_loop_pos (S (Z.to_nat (zlen (live s)))) (zlen (live s)) SUPERBLOCK_SIZE 0 s1) as [p Hp].
  assert ((storage.count_loop (S (Z.to_nat (zlen (live s)))) (zlen (live s)) SUPERBLOCK_SIZE 0 s1).2 = Ok (zlen ps)) as Hr.
  { rewrite <- Hs. change (live s) with (live s1). rewrite (count_loop_spec ps super 0); [done|exact Hl|done|].
    change (live s1) with (live s). rewrite Hl. unfold zlen. rewrite length_app, Nat2Z.id.
    enough (length ps <= length (concat (map record_bytes ps)))%nat by lia.
    clear. induction ps as [|p ps IH]; simpl; [lia|]. rewrite length_app. pose proof (record_bytes_length p) as Hp. unfold zlen in Hp. lia. }
  exists p, (zlen ps). split; [|apply zlen_nonneg]. destruct (storage.count_loop _ _ _ _ _) as [s' r]. simpl in *. by subst.
Qed.

Lemma stats_run s m : journaled s m -> tabled (live s) ->
  exists p n, storage.stats s = (at_pos p s, Ok (mkStorageStats (zlen (live s)) (root_address m) n (key_count m) (txn_id m))) /\ 0 <= n.
Proof.
  intros Hj Ht. pose proof (rec_best _ _ (journaled_live s m Hj)) as Hb. destruct (best_meta_run s m Hb) as [p Hp].
  unfold storage.stats. erewrite stx_bind_ok by exact Hp. erewrite stx_bind_ok by reflexivity.
  assert (set_meta (Some m) (at_pos p s) = at_pos p s) as -> by (pose proof (jr_cur _ _ Hj) as Hm; destruct s; simpl in *; by subst).
  erewrite stx_bind_ok by apply file_size_spec.
  destruct (count_records_run (at_pos (zlen (live s)) (at_pos p s)) Ht) as (q & n & Hq & Hn).
  change (live (at_pos p s)) with (live s). erewrite stx_bind_ok by exact Hq. by exists q, n.
Qed.

(** * Commits keep the table *)

Section engine.
Context {N : Type} `{IndexSpec N}.
Implicit Types (t : Tree N) (m : _Meta) (base kvs : kvlist).

(** The file as it is, and as recovery would cut it. *)
Definition tidy (s : Storage) m : Prop := tabled (live s) /\ tabled (committed (live s) m).

Lemma committed_live (s : Storage) m : journaled s m -> committed (live s) m = committed (_durable (_f s)) m.
Proof. intros [_ _ _ Hi [tail ->]]. apply committed_app, Hi. Qed.

Lemma tidy_same_file s s' m : same_file s s' -> tidy s m -> tidy s' m.
Proof. intros Hs. pose proof (same_file_fields _ _ Hs) as (Hl & _). unfold tidy. by rewrite Hl. Qed.

Lemma commit_tidy t m base kvs t' m' :
  handle t m base kvs -> tidy (_storage t) m -> logical.commit t = (t', Ok tt) -> journaled (_storage t') m' -> tidy (_storage t') m'.
Proof.
  intros Hh [Ht _] E Hj'. destruct (commit_phases _ _ _ _ _ Hh E) as (s1 & s2 & root & count & Hw & Ec & Hsf).
  pose proof (hd_journal _ _ _ _ Hh) as Hj. destruct (journaled_writes _ _ _ Hj Hw) as (Hj1 & _).
  pose proof (tabled_writes _ _ (jr_ro _ _ Hj) Ht Hw) as Ht1.
  destruct (commit_root_bytes s1 s2 m _ _ Hj1 Ec) as (block & Hbl & Hd2).
  destruct (best_meta_inv _ _ (rec_best _ _ (journaled_live _ _ Hj1))) as (Hslot & _).
  pose proof (same_file_fields _ _ Hsf) as (El & Ed & _).
  destruct (meta_block_cases (next_meta m root count (zlen (live s1)))) as [Hbad|Hfit].
  { destruct (commit_unfit s1 m _ _ Hj1 Hbad) as (s3 & [(E4 & _)|(E4 & _)]); rewrite E4 in Ec; discriminate. }
  destruct (commit_outcomes s1 m _ _ Hj1 Hfit) as (s3 & [(E4 & Hj3 & Hld & Hz & _)|(E4 & _)]); rewrite E4 in Ec; [|discriminate].
  injection Ec as ->. assert (m' = next_meta m root count (zlen (live s1))) as ->.
  { pose proof (rec_best _ _ (jr_image _ _ Hj')) as Hb'. pose proof (rec_best _ _ (jr_image _ _ Hj3)) as Hb3.
    rewrite Ed, Hb3 in Hb'. by injection Hb'. }
  assert (tabled (live (_storage t'))) as Ht' by (rewrite El, Hld, Hd2; apply tabled_slot; done || lia).
  split; [done|]. unfold committed. rewrite take_ge; [done|]. rewrite El. simpl. unfold zlen in *. lia.
Qed.

(** Writing records, or being refused, only appends. *)
Lemma writes_append (s s' : Storage) : rs_ok s -> writes s s' -> exists tail, live s' = live s ++ tail.
Proof.
  intros Hok Hw. induction Hw as [s|s p s' r s'' Hw Hws IH]; [exists []; by rewrite app_nil_r|].
  destruct (writes_extends s s' Hok (writes_one _ _ _ _ Hw)) as [Hok' _]. destruct (IH Hok') as [tail ->].
  change (rs_write p s) with (storage.write p s) in Hw. destruct Hok as [Hro Hl].
  destruct (Z.lt_ge_cases (zlen p) (256 ^ 4)) as [Hp|Hp].
  - rewrite storage_write_spec in Hw by done. injection Hw as <- _. exists (record_bytes p ++ tail).
    change (live (with_live ?x _ _)) with x. by rewrite app_assoc.
  - unfold storage.write in Hw. erewrite stx_bind_ok in Hw by reflexivity. rewrite Hro in Hw.
    erewrite stx_bind_ok in Hw by apply file_size_spec. erewrite stx_bind_ok in Hw by apply seek_spec.
    destruct (pack_uint_cases 4 (zlen p)) as [E|[Hr _]]; [|change (Z.of_nat 4) with 4 in Hr; lia].
    rewrite E in Hw. injection Hw as <- _. by exists tail.
Qed.

(** A commit the file format refuses has changed nothing that is committed. *)
Lemma commit_refused t m base kvs t' :
  handle t m base kvs -> logical.commit t = (t', Raise StructError) ->
  committed (live (_storage t')) m = committed (live (_storage t)) m.
Proof.
  intros [Hj Hb [Ht Hc] _ [Hf Hfb]] E. destruct t as [s r0 c0]. cbn [_storage _tree_ref _count] in *.
  unfold logical.commit in E. erewrite stx_bind_ok in E by reflexivity. cbn [_tree_ref] in E.
  destruct (ix_store_ok s r0 kvs (journaled_ok _ _ Hj) Ht) as (s1 & Hw & Hst).
  destruct (journaled_writes _ _ _ Hj Hw) as (Hj1 & _). destruct (writes_append s s1 (journaled_ok _ _ Hj) Hw) as [tail Htl].
  assert (live (_storage t') = live s1) as ->.
  2:{ rewrite Htl. apply committed_app, (rec_high _ _ (journaled_live _ _ Hj)). }
  destruct Hst as [(r' & Es & Ht')|Es].
  2:{ erewrite stx_bind_raise in E by (unfold logical.on_storage, zoom; cbn [_storage]; rewrite Es; reflexivity). by injection E as <-. }
  erewrite stx_bind_ok in E by (unfold logical.on_storage, zoom; cbn [_storage]; rewrite Es; reflexivity).
  erewrite stx_bind_ok in E by reflexivity. erewrite stx_bind_ok in E by reflexivity.
  unfold logical.set_storage, logical.set_tree_ref in E. cbn [_storage _tree_ref _count] in E.
  destruct (meta_block_cases (next_meta m (address r') (if ix_counts then c0 else 0) (zlen (live s1)))) as [Hbad|Hfit].
  - destruct (commit_unfit s1 m _ _ Hj1 Hbad) as (s3 & [(E4 & _ & Hl)|(E4 & _)]);
      erewrite stx_bind_raise in E by (unfold logical.on_storage, zoom; cbn [_storage]; rewrite E4; reflexivity); [|discriminate].
    by injection E as <-.
  - destruct (commit_outcomes s1 m _ _ Hj1 Hfit) as (s3 & [(E4 & Hj3 & _)|(E4 & _)]).
    + erewrite stx_bind_ok in E by (unfold logical.on_storage, zoom; cbn [_storage]; rewrite E4; reflexivity).
      destruct (refresh_spec (mkTree s3 r' c0) _ Hj3) as (p & c & E5 & _).
      unfold logical.set_storage in E. cbn [_tree_ref _count] in E. rewrite E5 in E. discriminate.
    + erewrite stx_bind_raise in E by (unfold logical.on_storage, zoom; cbn [_storage]; rewrite E4; reflexivity). discriminate.
Qed.

End engine.

(** A database file between runs of a program: opening it, changing it and writing
    it anew ([src/imustore/interface.py], [tool.py]). *)

Section image.
Context `{Pickle}.
#[local] Hint Extern 0 (Index bnode) => exact (bplus_index DEFAULT_ORDER) : typeclass_instances.
#[local] Hint Extern 0 (IndexSpec bnode) => exact (bplus_spec DEFAULT_ORDER order_ok) : typeclass_instances.
#[local] Hint Extern 0 (Audited bnode) => exact (bplus_audited DEFAULT_ORDER) : typeclass_instances.
Implicit Types (d : DBDB bnode) (m : _Meta) (base kvs : kvlist) (l : bytes).

(** The bytes of a database file with the bindings [kvs]: too short to be
    initialised, or a recoverable image whose committed part is a record table. *)
Definition db_image l kvs : Prop :=
  (zlen l < SUPERBLOCK_SIZE /\ kvs = []) \/
  exists m, recoverable l m /\ holds (N := bnode) (idle (SimDisk_init (committed l m)) DURABILITY_FULL m) m kvs /\
    ix_fits (N := bnode) kvs /\ tabled (committed l m).

(** A database object on such a file, whose disk may fail: [base] is committed,
    [kvs] is staged. *)
Record ready d m base kvs : Prop := {
  rd_handle : handle (N := bnode) (db_tree d) m base kvs;
  rd_open : file_open (dbdb.the_storage d);
  rd_tidy : tidy (dbdb.the_storage d) m
}.

(** A database object on a disk that does not fail. *)
Record opened d m base kvs : Prop := {
  od_ready : ready d m base kvs;
  od_unarmed : unarmed (dbdb.the_storage d)
}.

Definition od_handle d m base kvs (Hod : opened d m base kvs) := rd_handle _ _ _ _ (od_ready _ _ _ _ Hod).
Definition od_open d m base kvs (Hod : opened d m base kvs) := rd_open _ _ _ _ (od_ready _ _ _ _ Hod).

Lemma ready_image d m base kvs : ready d m base kvs -> db_image (live (dbdb.the_storage d)) base.
Proof.
  intros [[Hj Hb _ _ [_ Hf]] _ [_ Ht]]. right. exists m. split_and!; [by apply journaled_live| |done|exact Ht].
  eapply holds_extends; [|exact Hb]. apply extends_live. by apply committed_live.
Qed.

(** What survives when the power fails now. *)
Lemma ready_durable d m base kvs : ready d m base kvs -> opens (N := bnode) (_durable (_f (dbdb.the_storage d))) m base.
Proof. intros [[Hj Hb _ _ [_ Hf]] _ _]. apply open_spec; [apply Hj|exact Hb|exact Hf]. Qed.

Lemma ready_still d d' m base kvs kvs' : ready d m base kvs -> still m base kvs' d d' ->
  ready d' m base kvs' /\ _crash_at_flush (_f (dbdb.the_storage d')) = _crash_at_flush (_f (dbdb.the_storage d)).
Proof.
  intros [Hh Ho Ht] (Hh' & Hsf & _). pose proof (same_file_fields _ _ Hsf) as (_ & _ & Hc & _).
  split; [|done]. split; [done|by eapply same_file_open|by eapply tidy_same_file].
Qed.

(** A commit: done, refused by the file format, or cut off with the old bindings. *)
Lemma ready_commit d m base kvs : ready d m base kvs ->
  exists t', (dbdb.commit d = (dbdb.set_tree t' d, Ok tt) /\ exists m', ready (dbdb.set_tree t' d) m' kvs kvs) \/
    (dbdb.commit d = (dbdb.set_tree t' d, Raise StructError) /\ db_image (live (_storage t')) base /\
       opens (N := bnode) (_durable (_f (_storage t'))) m base) \/
    (dbdb.commit d = (dbdb.set_tree t' d, Raise SimCrash) /\ _crash_at_flush (_f (dbdb.the_storage d)) <> None /\
       opens (N := bnode) (_durable (_f (_storage t'))) m base).
Proof.
  intros [Hh Ho Ht]. unfold dbdb.commit.
  destruct (commit_spec _ _ _ _ Hh) as [(t' & m' & E & Hh' & _)|[(t' & E & Hj & Hb)|(t' & E & Hcr & Hop)]];
    exists t'; rewrite assert_open_bind, (on_tree_run _ _ _ _ E) by done; [left|right; left|by right; right].
  - split; [done|]. exists m'. split; [done| |].
    + exact (commit_open _ _ _ _ _ _ Hh E Ho).
    + exact (commit_tidy _ _ _ _ _ _ Hh Ht E (hd_journal _ _ _ _ Hh')).
  - split; [done|]. split; [|apply open_spec; [apply Hj|exact Hb|apply Hh]]. right. exists m. split_and!; [by apply journaled_live| |apply Hh|].
    + eapply holds_extends; [|exact Hb]. apply extends_live. by apply committed_live.
    + rewrite (commit_refused _ _ _ _ _ Hh E). apply Ht.
Qed.

Lemma ready_stats d m base kvs : ready d m base kvs ->
  exists d' st, dbdb.stats d = (d', Ok st) /\ still m base kvs d d' /\ st_key_count st = Z.of_nat (length base).
Proof.
  intros [Hh Ho [Ht _]]. destruct (stats_run _ _ (hd_journal _ _ _ _ Hh) Ht) as (p & n & E & _).
  exists (dbdb.set_tree (logical.set_storage (at_pos p (dbdb.the_storage d)) (db_tree d)) d). eexists. split_and!.
  - unfold dbdb.stats. rewrite assert_open_bind by done. apply on_tree_run. unfold logical.on_storage. apply zoom_eq. exact E.
  - split_and!; [by apply handle_at_pos|by exists p|done|done].
  - cbn [st_key_count]. apply (proj2 (hd_base _ _ _ _ Hh) eq_refl).
Qed.

Lemma tidy_fresh s : live s = fresh_image -> tidy s meta0.
Proof.
  intros E. unfold tidy, committed. rewrite E. split; [exact tabled_fresh|]. rewrite take_ge; [exact tabled_fresh|].
  pose proof fresh_length as Hl. unfold zlen in Hl. cbn [data_length meta0]. lia.
Qed.

(** Opening such a file gives such an object. *)
Lemma open_image l kvs path :
  db_image l kvs -> exists d m, dbdb.init (SimDisk_init l) (Some path) DURABILITY_FULL = Ok d /\ opened d m kvs kvs /\
    db_path d = Some path /\ _open_snapshots d = 0.
Proof.
  intros [[Hl ->]|(m & Hr & Hh & Hf & Ht)].
  - destruct (init_spec (N := bnode) l meta0 [] (Some path)) as (d & Ed & Hh & Ho & _ & Hu & Hp & Hs); [by apply opens_short|].
    exists d, meta0. split; [exact Ed|]. split; [|done]. split; [|exact Hu]. split; [exact Hh|exact Ho|].
    destruct (open_short l Hl) as (s & Es & _ & Hlv & _). apply tidy_fresh. by rewrite (init_live _ _ _ _ _ Ed Es).
  - destruct (init_spec (N := bnode) l m kvs (Some path)) as (d & Ed & Hhd & Ho & _ & Hu & Hp & Hs); [by apply open_spec|].
    exists d, m. split; [exact Ed|]. split; [|done]. split; [|exact Hu]. split; [exact Hhd|exact Ho|].
    destruct (open_recoverable l m Hr) as (s & Es & _ & Hlv & _). unfold tidy. rewrite (init_live _ _ _ _ _ Ed Es), Hlv.
    split; [done|]. unfold committed. rewrite take_take, Nat.min_id. exact Ht.
Qed.

(** What the file holds when the object is done with it. *)
Lemma opened_image d m base kvs : opened d m base kvs -> db_image (live (dbdb.the_storage d)) base.
Proof. intros [Hr _]. by eapply ready_image. Qed.

Lemma opened_still d d' m base kvs kvs' : opened d m base kvs -> still m base kvs' d d' -> opened d' m base kvs'.
Proof. intros [Hr Hu] Hs. destruct (ready_still _ _ _ _ _ _ Hr Hs) as [Hr' Hc]. split; [done|]. unfold unarmed in *. by rewrite Hc. Qed.

(** A commit that is refused leaves the file with the old bindings. *)
Lemma opened_commit d m base kvs :
  opened d m base kvs ->
  exists t', (dbdb.commit d = (dbdb.set_tree t' d, Ok tt) /\ exists m', opened (dbdb.set_tree t' d) m' kvs kvs) \/
    (dbdb.commit d = (dbdb.set_tree t' d, Raise StructError) /\ db_image (live (_storage t')) base).
Proof.
  intros [Hr Hu]. destruct (ready_commit _ _ _ _ Hr) as (t' & [(E & m' & Hr')|[(E & Hi & _)|(_ & Hcr & _)]]); exists t'; [left|by right|by destruct (Hcr Hu)].
  split; [done|]. exists m'. split; [done|]. unfold dbdb.commit in E. rewrite assert_open_bind in E by apply Hr.
  destruct (commit_spec _ _ _ _ (rd_handle _ _ _ _ Hr)) as [(t1 & m1 & E1 & _)|[(t1 & E1 & _)|(t1 & E1 & _)]];
    rewrite (on_tree_run _ _ _ _ E1) in E; [|discriminate..]. injection E as E. rewrite <- E.
  exact (commit_unarmed _ _ _ _ _ (rd_handle _ _ _ _ Hr) Hu E1).
Qed.

Lemma opened_stats d m base kvs :
  opened d m base kvs ->
  exists d' st, dbdb.stats d = (d', Ok st) /\ still m base kvs d d' /\ st_key_count st = Z.of_nat (length base).
Proof. intros [Hr _]. by eapply ready_stats. Qed.

End image.
