(* ===== verification/Compaction.v ===== *)
(** Compaction ([src/imustore/interface.py]): the copy in the temporary file, a
    power loss at any of its flushes, and the swap that makes it the database. *)

From S2P Require Import Prelude PyBase Struct Text SimDisk Locking Physical PhysicalFacts Recovery StorageProps KeyList Logical Pickle BPlusTree.
From S2P Require Import BPlusAudit Index BPlusIndex Engine Session Database Transactions Json JsonText JsonRoundtrip JsonCodec JsonStore Facade.
From S2P Require Import FacadeFacts SimulationProps ToolFacts.

(** * Opening a file on a disk that may fail *)

(** The same storage with other flush counters. *)
Definition rearm (n : Z) (c : option Z) (s : Storage) : Storage := set_f (set_flushes n c (_f s)) s.

(** [m] does not flush: it does the same whatever the counters. *)
Definition flushless {A} (m : St Storage A) : Prop :=
  forall s, (forall n c, m (rearm n c s) = (rearm n c (m s).1, (m s).2)) /\ _durable (_f (m s).1) = _durable (_f s).

(** [m] flushes at most once, and what is durable when the power fails is what was
    durable before. *)
Definition may_crash {A} (m : St Storage A) : Prop :=
  forall s n c,
    (exists n', m (rearm n c s) = (rearm n' c (m (rearm n None s)).1, (m (rearm n None s)).2)) \/
    (exists s', m (rearm n c s) = (s', Raise SimCrash) /\ _durable (_f s') = _durable (_f s)).

Lemma rearm_twice n c n' c' s : rearm n c (rearm n' c' s) = rearm n c s.
Proof. by destruct s as [[] ? ? ? ?]. Qed.

Lemma flushless_bind {A B} (m : St Storage A) (f : A -> St Storage B) :
  flushless m -> (forall a, flushless (f a)) -> flushless (m ≫= f).
Proof.
  intros Hm Hf s. destruct (Hm s) as [Hr Hd]. unfold mbind, stx_bind. destruct (m s) as [s1 [a|e]] eqn:E; cbn [fst snd] in *.
  - destruct (Hf a s1) as [Hr' Hd']. split; [|congruence]. intros n c. by rewrite Hr.
  - split; [|done]. intros n c. by rewrite Hr.
Qed.

Lemma may_crash_after {A B} (m : St Storage A) (f : A -> St Storage B) :
  flushless m -> (forall a, may_crash (f a)) -> may_crash (m ≫= f).
Proof.
  intros Hm Hf s n c. destruct (Hm s) as [Hr Hd]. unfold mbind, stx_bind. rewrite !Hr. destruct (m s) as [s1 [a|e]]; cbn [fst snd] in *.
  - destruct (Hf a s1 n c) as [H|(s' & E & Hs')]; [by left|right]. exists s'. split; [done|congruence].
  - left. exists n. by rewrite rearm_twice.
Qed.

Lemma may_crash_before {A B} (m : St Storage A) (f : A -> St Storage B) :
  may_crash m -> (forall a, flushless (f a)) -> may_crash (m ≫= f).
Proof.
  intros Hm Hf s n c. unfold mbind, stx_bind. destruct (Hm s n c) as [(n' & E)|(s' & E & Hs')].
  - left. exists n'. rewrite E. destruct (m (rearm n None s)) as [s1 [a|e]]; cbn [fst snd]; [|done]. apply (Hf a s1).
  - right. exists s'. by rewrite E.
Qed.

Lemma may_crash_finally {A} (m : St Storage A) (fin : St Storage unit) :
  may_crash m -> flushless fin -> (forall s, (fin s).2 = Ok tt) -> may_crash (try_finally m fin).
Proof.
  intros Hm Hf Hok s n c. unfold try_finally. destruct (Hm s n c) as [(n' & E)|(s' & E & Hs')].
  - left. exists n'. rewrite E. destruct (m (rearm n None s)) as [s1 r]; cbn [fst snd]. rewrite (proj1 (Hf s1)).
    pose proof (Hok s1) as Hf1. destruct (fin s1) as [s2 r2]. cbn [fst snd] in *. by subst r2.
  - right. rewrite E. pose proof (Hok s') as Hf1. pose proof (proj2 (Hf s')) as Hd. destruct (fin s') as [s2 r2]. cbn [fst snd] in *. subst r2.
    exists s2. split; [done|congruence].
Qed.

Lemma flushless_may_crash {A} (m : St Storage A) : flushless m -> may_crash m.
Proof. intros Hm s n c. left. exists n. rewrite !(proj1 (Hm s)). cbn [fst snd]. by rewrite rearm_twice. Qed.

Lemma may_crash_flush : may_crash storage.flush.
Proof.
  intros s n c. unfold storage.flush, on_f, disk.flush. run. cbn.
  destruct c as [k|]; [|left; by eexists]. destruct (k <=? n + 1); [right; by eexists|left; by eexists].
Qed.

Lemma flushless_ret {A} (a : A) : flushless (mret a).
Proof. intros s. by split. Qed.

Lemma flushless_raise {A} (e : exn) : flushless (raise (A := A) e).
Proof. intros s. by split. Qed.

Lemma flushless_lift {A} (r : res A) : flushless (lift_res r).
Proof. intros s. by split. Qed.

Lemma flushless_set_meta m : flushless (modify (set_meta m)).
Proof. intros s. by split. Qed.

(** A file operation that does not look at the counters. *)
Lemma flushless_on_f {A} (m : St SimDisk A) :
  (forall d, (forall n c, m (set_flushes n c d) = (set_flushes n c (m d).1, (m d).2)) /\ _durable (m d).1 = _durable d) -> flushless (on_f m).
Proof.
  intros Hm s. destruct (Hm (_f s)) as [Hr Hd]. unfold on_f, zoom. cbn [rearm set_f _f]. split.
  - intros n c. rewrite Hr. by destruct (m (_f s)).
  - by destruct (m (_f s)).
Qed.

Lemma flushless_seek a b : flushless (on_f (disk.seek a b)).
Proof. apply flushless_on_f. intros d. unfold disk.seek. run. split; [intros n c|]; by destruct (b =? SEEK_SET), (b =? SEEK_END), (b =? SEEK_CUR). Qed.

Lemma flushless_tell : flushless (on_f disk.tell).
Proof. apply flushless_on_f. intros d. by split. Qed.

Lemma flushless_read n : flushless (on_f (disk.read n)).
Proof. apply flushless_on_f. intros d. by split. Qed.

Lemma flushless_write b : flushless (on_f (disk.write b)).
Proof. apply flushless_on_f. intros d. by split. Qed.

Lemma flushless_truncate n : flushless (on_f (disk.truncate n)).
Proof.
  apply flushless_on_f. intros d. unfold disk.truncate. run. cbn [_live _pos set_flushes]. set (x := match n with None => _ | Some _ => _ end).
  split; [intros m c|]; by destruct (x <? zlen (_live d)), (zlen (_live d) <? x).
Qed.

Lemma flushless_on_lock {A} (m : St FileLock A) : flushless (on_lock m).
Proof. intros s. unfold on_lock, zoom. cbn [rearm set_f _lock]. split; [intros n c|]; by destruct (m (_lock s)). Qed.

Create HintDb flushless.
#[local] Hint Resolve flushless_ret flushless_raise flushless_lift flushless_set_meta flushless_seek flushless_tell flushless_read flushless_write
  flushless_truncate flushless_on_lock : flushless.

Ltac flushless_tac :=
  repeat first
    [ solve [eauto with flushless nocore]
    | match goal with
      | |- flushless (mbind _ _) => apply flushless_bind; [|intros ?]
      | |- flushless (if ?b then _ else _) => destruct b
      | |- flushless (match ?x with _ => _ end) => destruct x
      end ].

Lemma flushless_file_size : flushless storage._file_size.
Proof. unfold storage._file_size. flushless_tac. Qed.

Lemma flushless_read_slot i : flushless (storage._read_slot i).
Proof. unfold storage._read_slot. flushless_tac. Qed.
#[local] Hint Resolve flushless_file_size flushless_read_slot : flushless.

Lemma flushless_best_meta : flushless storage._read_best_meta.
Proof.
  unfold storage._read_best_meta. apply flushless_bind; [|intros ?; flushless_tac].
  generalize (map Z.of_nat (seq 0 (Z.to_nat META_SLOTS))). intros l. induction l as [|i l IH]; cbn [mapM_st]; flushless_tac.
Qed.

Lemma flushless_write_slot i m : flushless (storage._write_slot i m).
Proof. unfold storage._write_slot. flushless_tac. Qed.
#[local] Hint Resolve flushless_best_meta flushless_write_slot : flushless.

Lemma may_crash_init_meta : may_crash storage._init_meta.
Proof.
  unfold storage._init_meta. apply may_crash_after.
  { generalize (map Z.of_nat (seq 0 (Z.to_nat META_SLOTS))). intros l. induction l as [|i l IH]; cbn [mapM_st]; flushless_tac. }
  intros _. apply may_crash_after; [flushless_tac|]. intros _. apply may_crash_before; [apply may_crash_flush|intros _; flushless_tac].
Qed.

Lemma may_crash_get {A} (f : Storage -> St Storage A) :
  (forall n c s, f (rearm n c s) = f s) -> (forall s, may_crash (f s)) -> may_crash (s ← get_st; f s).
Proof.
  intros Hf Hc s n c. unfold mbind, stx_bind, get_st. rewrite !Hf. apply Hc.
Qed.

Lemma may_crash_ensure_meta : may_crash storage._ensure_meta.
Proof.
  unfold storage._ensure_meta. apply may_crash_after; [flushless_tac|]. intros size. apply may_crash_get; [reflexivity|]. intros s.
  destruct (size <? SUPERBLOCK_SIZE); destruct (_readonly s);
    [apply flushless_may_crash; flushless_tac|apply may_crash_init_meta|apply flushless_may_crash; flushless_tac|].
  apply may_crash_after; [apply flushless_on_lock|]. intros _. apply may_crash_finally; [|apply flushless_on_lock|intros s0; by rewrite unlock_spec].
  apply may_crash_after; [flushless_tac|]. intros m. apply may_crash_after; [flushless_tac|]. intros _.
  apply may_crash_after; [flushless_tac|]. intros size'. destruct (data_length m <? size'); [|apply flushless_may_crash; flushless_tac].
  apply may_crash_after; [flushless_tac|]. intros _. destruct (is_full s); [apply may_crash_flush|apply flushless_may_crash; flushless_tac].
Qed.

(** Opening a file on a disk that may fail: as on one that does not, or the power
    fails before anything of it is durable. *)
Lemma init_rearmed l n c :
  (exists n', storage.init (set_flushes n c (SimDisk_init l)) DURABILITY_FULL false =
     (rearm n' c (storage.init (set_flushes n None (SimDisk_init l)) DURABILITY_FULL false).1,
      (storage.init (set_flushes n None (SimDisk_init l)) DURABILITY_FULL false).2)) \/
  (exists s, storage.init (set_flushes n c (SimDisk_init l)) DURABILITY_FULL false = (s, Raise SimCrash) /\ _durable (_f s) = l).
Proof.
  unfold storage.init. rewrite modes_full.
  exact (may_crash_ensure_meta (mkStorage (SimDisk_init l) FileLock_init DURABILITY_FULL false None) n c).
Qed.

(** * A database on a disk that may fail *)

Section ready.
Context `{Pickle}.
#[local] Hint Extern 0 (Index bnode) => exact (bplus_index DEFAULT_ORDER) : typeclass_instances.
#[local] Hint Extern 0 (IndexSpec bnode) => exact (bplus_spec DEFAULT_ORDER order_ok) : typeclass_instances.
Implicit Types (d : DBDB bnode) (m : _Meta) (base kvs : kvlist) (l : bytes) (c : option Z).

(** A file with the bytes [l] on a disk that fails at the flush [c], if any. *)
Definition file_on c l : SimDisk := set_flushes 0 c (SimDisk_init l).

Lemma image_opens l kvs : db_image l kvs -> exists m, opens (N := bnode) l m kvs.
Proof.
  intros [[Hl ->]|(m & Hr & Hh & Hf & _)]; [exists meta0; by apply opens_short|]. exists m. by apply open_spec.
Qed.

(** The storage of an image, opened where the disk does not fail at once. *)
Lemma storage_of_image l kvs : db_image l kvs -> exists s m,
  storage.init (SimDisk_init l) DURABILITY_FULL false = (s, Ok tt) /\ journaled s m /\ holds (N := bnode) (committed_image s m) m kvs /\
  ix_fits (N := bnode) kvs /\ storage.is_locked s = false /\ tidy s m.
Proof.
  intros [[Hl ->]|(m & Hr & Hh & Hf & Ht)].
  - destruct (open_short l Hl) as (s & Es & Hset & Hlv & Hd & Hfu & Hlk & _). exists s, meta0.
    split_and!; [exact Es|apply settled_journaled; congruence|split; [apply ix_tree_null|done]|done|exact Hlk|by apply tidy_fresh].
  - destruct (open_recoverable l m Hr) as (s & Es & Hset & Hl & Hd & Hfu & Hlk & _). exists s, m.
    split_and!; [exact Es|apply settled_journaled; congruence| |done|exact Hlk|].
    + eapply holds_extends; [|exact Hh]. apply extends_live. cbn. rewrite Hd. unfold committed. rewrite take_take. f_equal. lia.
    + unfold tidy. rewrite Hl. split; [done|]. unfold committed. rewrite take_take, Nat.min_id. exact Ht.
Qed.

Lemma rearm_journaled n c s m : journaled s m -> journaled (rearm n c s) m.
Proof. by intros [? ? ? ? ?]. Qed.

(** Opening an image: a database on it, or the power fails with nothing changed. *)
Lemma init_ready l kvs path c : db_image l kvs ->
  (exists d m, dbdb.init (file_on c l) path DURABILITY_FULL = Ok d /\ ready d m kvs kvs /\
     _crash_at_flush (_f (dbdb.the_storage d)) = c) \/
  (dbdb.init (N := bnode) (file_on c l) path DURABILITY_FULL = Raise SimCrash /\ c <> None /\
     _durable (_f (storage.init (file_on c l) DURABILITY_FULL false).1) = l).
Proof.
  intros Hi. destruct (storage_of_image l kvs Hi) as (s & m & Es & Hj & Hh & Hf & Hlk & Ht).
  destruct (init_rearmed l 0 c) as [(n' & E)|(s' & E & Hd)]; change (set_flushes 0 None (SimDisk_init l)) with (SimDisk_init l) in E.
  - left. rewrite Es in E. cbn [fst snd] in E. pose proof (rearm_journaled n' c s m Hj) as Hj1.
    assert (holds (N := bnode) (committed_image (rearm n' c s) m) m kvs) as Hb1 by (by apply (image_same s)).
    destruct (refresh_staged (mkTree (rearm n' c s) (Ref None 0) 0) m kvs Hj1 (image_live _ _ _ Hj1 Hb1)) as (t & Et & Hj' & _ & Hs & Hk & Hsf).
    cbn [_storage] in *. pose proof (same_file_fields _ _ Hsf) as (Hl' & Hd' & Hcr' & Hcl').
    exists (mkDBDB path t 0), m. split_and!.
    + assert (logical.tree_init (N := bnode) (rearm n' c s) = (t, Ok tt)) as Ett by exact Et.
      unfold dbdb.init. change (file_on c l) with (set_flushes 0 c (SimDisk_init l)). rewrite E. cbn [mbind result_bind]. by rewrite Ett.
    + split; cbn [db_tree dbdb.the_storage].
      * split; [done| |done| |done]; [eapply image_same; [|exact Hb1]; by rewrite Hd'|done].
      * pose proof (init_open _ _ _ _ _ Es) as Ho. unfold file_open, dbdb.the_storage in *. cbn [db_tree]. by rewrite Hcl'.
      * eapply tidy_same_file; [exact Hsf|exact Ht].
    + exact Hcr'.
  - right. unfold dbdb.init. change (file_on c l) with (set_flushes 0 c (SimDisk_init l)). rewrite E. split_and!; [done| |exact Hd].
    intros ->. change (set_flushes 0 None (SimDisk_init l)) with (SimDisk_init l) in E. rewrite Es in E. discriminate.
Qed.

End ready.

(** * The copy *)

Section compaction.
Context `{Pickle} {F : Type} `{FloatTextLaws F}.
#[local] Hint Extern 0 (Index bnode) => exact (bplus_index DEFAULT_ORDER) : typeclass_instances.
#[local] Hint Extern 0 (IndexSpec bnode) => exact (bplus_spec DEFAULT_ORDER order_ok) : typeclass_instances.
Abbreviation js := (json_of F).
Implicit Types (d : DBDB bnode) (m : _Meta) (base : kvlist) (l : list (pystr * js)) (k : pystr).

(** The contents of a database the facade filled: non-empty keys in order, values
    as they are read back. *)
Record contents l : Prop := {
  ct_sorted : kv_sorted l;
  ct_keys : Forall (fun kv : pystr * js => kv.1 <> []) l;
  ct_values : Forall (fun kv : pystr * js => canon kv.2) l
}.

Lemma contents_nil : contents [].
Proof. split; [constructor|constructor|constructor]. Qed.

Lemma contents_set k v l : contents l -> k <> [] -> canon v -> contents (kv_set k v l).
Proof.
  intros [Hs Hk Hv] Hne Hc. split; [by apply kv_set_sorted| |by apply canonical_set].
  apply Forall_forall. intros kv [->|Hkv]%kv_set_in; [done|]. by apply (proj1 (Forall_forall _ _) Hk).
Qed.

Lemma contents_del k l : contents l -> contents (kv_del k l).
Proof.
  intros [Hs Hk Hv]. split; [by apply kv_del_sorted| |by apply canonical_del].
  apply Forall_forall. intros kv Hkv. apply (proj1 (Forall_forall _ _) Hk). eapply elem_of_sublist; [exact Hkv|apply kv_del_sublist].
Qed.

Lemma stored_size l : length (stored l) = length l.
Proof. apply length_fmap. Qed.

(** Setting the bindings of one database in another. *)
Definition overlaid l1 l2 : list (pystr * js) := foldl (fun acc kv => kv_set kv.1 kv.2 acc) l1 l2.

Lemma overlaid_contents l1 l2 : contents l1 -> contents l2 -> contents (overlaid l1 l2).
Proof.
  intros Hc [_ Hk Hv]. revert l1 Hc. induction l2 as [|[k v] l2 IH]; intros l1 Hc; [done|].
  apply Forall_cons in Hk as [Hk1 Hk]. apply Forall_cons in Hv as [Hv1 Hv]. cbn. by apply IH, contents_set.
Qed.

Lemma overlaid_get k l1 l2 : kv_sorted l1 -> kv_sorted l2 ->
  kv_get k (overlaid l1 l2) = match kv_get k l2 with Some v => Some v | None => kv_get k l1 end.
Proof.
  intros Hs1 Hs2. revert l1 Hs1. induction l2 as [|[x y] l2 IH]; intros l1 Hs1; [done|].
  apply kv_sorted_cons in Hs2 as [Hs2 Ha]. change (overlaid l1 ((x, y) :: l2)) with (overlaid (kv_set x y l1) l2).
  rewrite IH, kv_get_set by (done || by apply kv_set_sorted). cbn [kv_get].
  destruct (decide (k = x)) as [->|]; [by rewrite kv_get_above|done].
Qed.

Lemma overlaid_nil l : contents l -> overlaid [] l = l.
Proof.
  intros Hc. apply kv_sorted_unique; [apply overlaid_contents; [exact contents_nil|done]|apply Hc|].
  apply map_eq. intros k. rewrite !kv_map_lookup, overlaid_get by (constructor || apply Hc). by destruct (kv_get k l).
Qed.

(** Setting bindings moves no byte of the file. *)
Lemma fill_run d m base l1 l2 :
  ready d m base (stored l1) -> contents l1 -> contents l2 -> Z.of_nat (length l1 + length l2) < 2 ^ 64 ->
  exists d' us, mapM_st (fun kv => dbdb.setitem kv.1 kv.2) l2 d = (d', Ok us) /\ ready d' m base (stored (overlaid l1 l2)) /\
    _crash_at_flush (_f (dbdb.the_storage d')) = _crash_at_flush (_f (dbdb.the_storage d)).
Proof.
  intros Hrd Hc1 [_ Hk Hv]. revert d l1 Hrd Hc1. induction l2 as [|[k v] l2 IH]; intros d l1 Hrd Hc1 Hf; [by exists d, []|].
  apply Forall_cons in Hk as [Hk1 Hk]. apply Forall_cons in Hv as [Hv1 Hv]. cbn [fst snd length] in *.
  destruct (canon_codec v Hv1) as [He _].
  assert (kv_set k (enc v) (stored l1) = stored (kv_set k v l1)) as Eset by apply kv_set_onto.
  assert (length (kv_set k v l1) <= length l1 + 1)%nat as Hlen.
  { rewrite kv_set_length by apply Hc1. destruct (kv_get k l1); lia. }
  destruct (setitem_still d m base (stored l1) k v (enc v) (rd_handle _ _ _ _ Hrd) (rd_open _ _ _ _ Hrd) Hk1 He) as (d1 & E1 & Hst).
  { rewrite Eset. eapply (fits_le (length l1 + 1)); [by rewrite stored_size|lia]. }
  rewrite Eset in Hst. destruct (ready_still _ _ _ _ _ _ Hrd Hst) as [Hrd1 Hcr1].
  destruct (IH Hk Hv d1 (kv_set k v l1)) as (d2 & us & E2 & Hrd2 & Hcr2); [done|by apply contents_set|lia|].
  exists d2, (tt :: us). split_and!; [|done|congruence]. cbn [mapM_st fst snd]. erewrite stx_bind_ok by exact E1. by erewrite stx_bind_ok by exact E2.
Qed.

(** The bindings a file holds for a process that opens it now, and after a power
    loss. *)
Definition file_holds (f : SimDisk) (l : list (pystr * js)) : Prop := db_image (_live f) (stored l) /\ exists m, opens (N := bnode) (_durable f) m (stored l).

(** How a copy over the bindings [lt] can end. *)
Definition copied (c : option Z) lt l (f : SimDisk) (r : res StorageStats) : Prop :=
  (exists st, r = Ok st /\ st_key_count st = Z.of_nat (length (overlaid lt l)) /\ file_holds f (overlaid lt l)) \/
  (r = Raise StructError /\ file_holds f lt) \/
  (r = Raise SimCrash /\ c <> None /\ exists m, opens (N := bnode) (_durable f) m (stored lt)).

(** Closing keeps the bytes. *)
Lemma close_holds d : exists d', dbdb.close d = (d', Ok tt) /\ forall l, file_holds (_f (dbdb.the_storage d)) l -> file_holds (_f (dbdb.the_storage d')) l.
Proof.
  destruct (close_spec d) as (d' & E & _ & _ & Hl & Hd). exists d'. split; [done|]. intros l [Hi [m Ho]]. unfold live in Hl.
  split; [by rewrite Hl|exists m; by rewrite Hd].
Qed.

Lemma refill_run d m lt l :
  ready d m (stored lt) (stored lt) -> contents lt -> contents l -> Z.of_nat (length lt + length l) < 2 ^ 64 ->
  exists d' r, dbdb.refill l d = (d', r) /\ copied (_crash_at_flush (_f (dbdb.the_storage d))) lt l (_f (dbdb.the_storage d')) r.
Proof.
  intros Hrd Hct Hc Hf. destruct (fill_run d m (stored lt) lt l Hrd Hct Hc Hf) as (c1 & us & Er & Hc1 & Hcr).
  unfold dbdb.refill, try_finally. destruct (ready_commit c1 m _ _ Hc1) as (t2 & [(Ecm & m2 & Hc2)|[(Ecm & Hi & Ho)|(Ecm & Hne & Ho)]]).
  - destruct (ready_stats _ _ _ _ Hc2) as (c3 & st & Est & Hst & Hkc). destruct (ready_still _ _ _ _ _ _ Hc2 Hst) as [Hc3 _].
    destruct (close_holds c3) as (c4 & Ecl & Hh). exists c4, (Ok st). erewrite stx_bind_ok by exact Er. erewrite stx_bind_ok by exact Ecm.
    rewrite Est, Ecl. split; [done|]. left. exists st. split_and!; [done|by rewrite Hkc, stored_size|]. apply Hh.
    split; [by eapply ready_image|exists m2; by eapply ready_durable].
  - destruct (close_holds (dbdb.set_tree t2 c1)) as (c4 & Ecl & Hh). exists c4, (Raise StructError). erewrite stx_bind_ok by exact Er.
    erewrite stx_bind_raise by exact Ecm. rewrite Ecl. split; [done|]. right. left. split; [done|]. apply Hh. split; [exact Hi|by exists m].
  - destruct (close_spec (dbdb.set_tree t2 c1)) as (c4 & Ecl & _ & _ & _ & Hd). exists c4, (Raise SimCrash). erewrite stx_bind_ok by exact Er.
    erewrite stx_bind_raise by exact Ecm. rewrite Ecl. split; [done|]. right. right. split_and!; [done|congruence|]. exists m. by rewrite Hd.
Qed.

(** The temporary file before a copy: none, or one with bindings. *)
Definition temp_holds (c : option Z) lt (temp : option SimDisk) : Prop :=
  match temp with
  | None => lt = [] /\ c = None
  | Some f => exists content, f = file_on c content /\ db_image content (stored lt)
  end.

Lemma temp_file c lt temp : temp_holds c lt temp -> exists content, default (SimDisk_init []) temp = file_on c content /\ db_image content (stored lt).
Proof. destruct temp as [f|]; [done|]. intros [-> ->]. exists []. split; [done|by left]. Qed.

(** The copy leaves the database as it was, however it ends. *)
Lemma copy_run d m l path temp c lt :
  opened d m (stored l) (stored l) -> contents l -> db_path d = Some path -> _open_snapshots d = 0 ->
  temp_holds c lt temp -> contents lt -> Z.of_nat (length lt + length l) < 2 ^ 64 ->
  exists d' f r, dbdb.compact_copy (V := js) (d, temp) = ((d', Some f), r) /\ still m (stored l) (stored l) d d' /\ copied c lt l f r.
Proof.
  intros Hod Hc Hp Hsn Htemp Hct Hf. pose proof (od_handle _ _ _ _ Hod) as Hh. pose proof (od_open _ _ _ _ Hod) as Ho. unfold dbdb.compact_copy.
  erewrite stx_bind_ok by (apply zoom_eq; by apply opened_run). erewrite stx_bind_ok by reflexivity. cbn [fst snd]. rewrite Hp, Hsn. cbn [Z.ltb Z.compare].
  destruct (items_still (V := js) d m _ _ Hh Ho) as (d1 & E1 & Hst). rewrite decode_stored in E1 by apply Hc.
  erewrite stx_bind_ok by (apply zoom_eq; exact E1). erewrite stx_bind_ok by reflexivity. cbn [fst snd].
  assert (_durability (dbdb.the_storage d1) = DURABILITY_FULL) as ->.
  { destruct Hst as (Hh1 & _). pose proof (jr_full _ _ (hd_journal _ _ _ _ Hh1)) as Hfull. unfold is_full in Hfull. by apply bool_decide_eq_true in Hfull. }
  destruct (temp_file _ _ _ Htemp) as (content & -> & Hi). erewrite stx_bind_ok by reflexivity. cbn [fst snd].
  destruct (init_ready content (stored lt) (Some path) c Hi) as [(c0 & m0 & Ec & Hc0 & Hcr)|(Ec & Hne & Hd)].
  - erewrite stx_bind_ok by (unfold lift_res; rewrite Ec; reflexivity).
    destruct (refill_run c0 m0 lt l Hc0 Hct Hc Hf) as (c1 & r & Er & Hcp). rewrite Er, Hcr in *. exists d1, (_f (dbdb.the_storage c1)), r.
    split_and!; [|exact Hst|exact Hcp]. by erewrite stx_bind_ok by reflexivity.
  - exists d1. eexists _, (Raise SimCrash). erewrite stx_bind_raise by (unfold lift_res; rewrite Ec; reflexivity). split_and!; [reflexivity|exact Hst|].
    right. right. split_and!; [done|done|]. rewrite Hd. by apply image_opens.
Qed.

(** The swap: the database is what the temporary file held. *)
Lemma swap_run d f l st path :
  db_path d = Some path -> _open_snapshots d = 0 -> is_full (dbdb.the_storage d) = true -> file_holds f l ->
  exists d' m, dbdb.compact_swap (N := bnode) st (d, Some f) = ((d', None), Ok st) /\ opened d' m (stored l) (stored l).
Proof.
  intros Hp Hsn Hfull [Hi _]. destruct (close_spec d) as (d1 & Ecd & _). destruct (open_image _ _ path Hi) as (d2 & m & Eo & Hod & _).
  assert (_durability (dbdb.the_storage d1) = DURABILITY_FULL /\ db_path d1 = Some path) as [Ed Hp1].
  { unfold is_full in Hfull. apply bool_decide_eq_true in Hfull. revert Ecd. unfold dbdb.close, dbdb.on_tree, logical.on_storage, storage.close. run.
    destruct (storage.is_locked _); [rewrite unlock_spec|]; intros [= <-]; done. }
  exists (dbdb.set_tree (db_tree d2) d1), m. unfold dbdb.compact_swap. erewrite stx_bind_ok by (apply zoom_eq; exact Ecd).
  erewrite stx_bind_ok by reflexivity. cbn [fst snd]. erewrite stx_bind_ok by reflexivity. cbn [fst snd]. rewrite Ed, Hp1.
  erewrite stx_bind_ok by (unfold lift_res; rewrite Eo; reflexivity). split; [by erewrite stx_bind_ok by reflexivity|].
  destruct Hod as [[? ? ?] ?]. by split; [split|].
Qed.

(** [compact()] on disks that do not fail, over a temporary file with the bindings
    [lt]: the new file has the bindings of the database over those; if the format
    refuses a number, the database is as it was and the temporary file has [lt]. *)
Lemma compact_over d m l path temp lt :
  opened d m (stored l) (stored l) -> contents l -> db_path d = Some path -> _open_snapshots d = 0 ->
  temp_holds None lt temp -> contents lt -> Z.of_nat (length lt + length l) < 2 ^ 64 ->
  exists d' temp', (exists st m', dbdb.compact (V := js) (d, temp) = ((d', None), Ok st) /\
      opened d' m' (stored (overlaid lt l)) (stored (overlaid lt l)) /\ st_key_count st = Z.of_nat (length (overlaid lt l))) \/
    (dbdb.compact (V := js) (d, temp) = ((d', Some temp'), Raise StructError) /\ opened d' m (stored l) (stored l) /\ file_holds temp' lt).
Proof.
  intros Hod Hc Hp Hsn Htemp Hct Hf. destruct (copy_run d m l path temp None lt) as (d1 & f & r & E & Hst & Hcp); try done.
  pose proof (opened_still _ _ _ _ _ _ Hod Hst) as Hod1. unfold dbdb.compact.
  destruct Hcp as [(st & -> & Hk & Hh)|[(-> & Hh)|(_ & ? & _)]]; [|exists d1, f; right; by erewrite stx_bind_raise by exact E|done].
  destruct Hst as (Hh1 & _ & Hp1 & Hs1). destruct (swap_run d1 f (overlaid lt l) st path) as (d2 & m2 & E2 & Hod2); [congruence..|apply Hh1|done|].
  exists d2, f. left. exists st, m2. erewrite stx_bind_ok by exact E. by rewrite E2.
Qed.

(** C19: a power loss during a compaction loses nothing.  Whatever flush of the
    temporary file the power fails at (in creating it or in its commit), the
    database file is untouched and still holds the table [l]; the temporary file
    then holds what it held before or, once its commit is done, the complete
    copy, never a part of it; and when the copy is done, the swap puts a database
    with exactly that copy in place.  (The alternative to an end of the copy is
    that a number outgrows the file format, with the same guarantees.) *)
Theorem compact_crash_safe d m l path temp c lt :
  opened d m (stored l) (stored l) -> contents l -> db_path d = Some path -> _open_snapshots d = 0 ->
  temp_holds c lt temp -> contents lt -> Z.of_nat (length lt + length l) < 2 ^ 64 ->
  exists d' f r, dbdb.compact_copy (V := js) (d, temp) = ((d', Some f), r) /\
    file_holds (_f (dbdb.the_storage d')) l /\ _durable (_f (dbdb.the_storage d')) = _durable (_f (dbdb.the_storage d)) /\
    match r with
    | Ok st => file_holds f (overlaid lt l) /\ exists d'' m'', dbdb.compact_swap (N := bnode) st (d', Some f) = ((d'', None), Ok st) /\
                 opened d'' m'' (stored (overlaid lt l)) (stored (overlaid lt l))
    | Raise e => (e = StructError \/ e = SimCrash /\ c <> None) /\ exists m', opens (N := bnode) (_durable f) m' (stored lt)
    end.
Proof.
  intros Hod Hc Hp Hsn Htemp Hct Hf. destruct (copy_run d m l path temp c lt) as (d1 & f & r & E & Hst & Hcp); try done.
  pose proof (opened_still _ _ _ _ _ _ Hod Hst) as Hod1. destruct Hst as (Hh1 & Hsf & Hp1 & Hs1).
  exists d1, f, r. split; [exact E|]. split; [|split; [apply (same_file_fields _ _ Hsf)|]].
  { split; [by eapply opened_image|exists m; eapply ready_durable, Hod1]. }
  destruct Hcp as [(st & -> & _ & Hh)|[(-> & [_ Ho])|(-> & Hne & Ho)]]; [|by split; [left|]|by split; [right|]].
  split; [done|]. destruct (swap_run d1 f (overlaid lt l) st path) as (d2 & m2 & E2 & Hod2); [congruence..|apply Hh1|done|]. by exists d2, m2.
Qed.

End compaction.
