(* ===== verification/ToolProps.v ===== *)
(** The command line tool does to the file what its commands say: every run reads
    and writes one sorted table of JSON values ([src/imustore/tool.py]). *)

From S2P Require Import Prelude PyBase Struct SimDisk Locking Physical PhysicalFacts Recovery StorageProps KeyList Logical Pickle Index.
From S2P Require Import BPlusTree BPlusIndex BPlusAudit Engine Session Database Facade FacadeFacts ToolFacts Compaction.
From S2P Require Import Text Json JsonText JsonRoundtrip JsonCodec JsonStore SimulationProps Tool.

Section props.
Context `{Pickle} {F : Type} `{FloatText F} {HL : FloatTextLaws F} `{PyRepr}.
#[local] Hint Extern 0 (Index bnode) => exact (bplus_index DEFAULT_ORDER) : typeclass_instances.
#[local] Hint Extern 0 (IndexSpec bnode) => exact (bplus_spec DEFAULT_ORDER order_ok) : typeclass_instances.
#[local] Hint Extern 0 (Audited bnode) => exact (bplus_audited DEFAULT_ORDER) : typeclass_instances.
Abbreviation js := (json_of F).
Implicit Types (d : DBDB bnode) (w : machine) (l : list (pystr * js)) (out err : list pystr) (path : pystr).

(** * What each command does *)

Definition entry_line (kv : pystr * js) : pystr := tool.dumps_sorted (JDict [(str "key", JStr kv.1); (str "value", kv.2)]).

(** The table before and after, the exit code or exception, and what is printed. *)
Definition command_spec (c : subcommand) l l' (r : res Z) out err : Prop :=
  match c with
  | CmdGet key =>
      l' = l /\
      match key, kv_get key l with
      | [], _ => r = Raise KeyEncodingError /\ out = [] /\ err = []
      | _, Some v => r = Ok OK /\ out = [tool.dumps_sorted v] /\ err = []
      | _, None => r = Ok BAD_KEY /\ out = [] /\ err = [str "Key not found"]
      end
  | CmdSet key value =>
      out = [] /\ err = [] /\ exists v, parse_cli_value value = Ok v /\
      match key with [] => r = Raise KeyEncodingError /\ l' = l | _ => r = Ok OK /\ l' = kv_set key (sort_keys v) l end
  | CmdDelete key =>
      out = [] /\
      match key, kv_get key l with
      | [], _ => r = Raise KeyEncodingError /\ err = [] /\ l' = l
      | _, Some _ => r = Ok OK /\ err = [] /\ l' = kv_del key l
      | _, None => r = Ok BAD_KEY /\ err = [str "Key not found"] /\ l' = l
      end
  | CmdKeys prefix =>
      l' = l /\ err = [] /\
      if bool_decide (prefix = Some []) then r = Raise KeyEncodingError /\ out = []
      else r = Ok OK /\ out = (scanned prefix None None l).*1
  | CmdScan prefix start stop =>
      l' = l /\ err = [] /\
      if bool_decide (Some [] ∈ [prefix; start; stop]) then r = Raise KeyEncodingError /\ out = []
      else r = Ok OK /\ out = entry_line <$> scanned prefix start stop l
  | CmdStats =>
      l' = l /\ err = [] /\ r = Ok OK /\
      exists st, st_key_count st = Z.of_nat (length l) /\ out = [tool.dumps_sorted (F := F) (stats_dict st)]
  | CmdAudit =>
      l' = l /\ err = [] /\ r = Ok OK /\
      exists rep, clean_report (length l) rep /\ out = [tool.dumps_sorted (F := F) (as_dict DEFAULT_ORDER rep)]
  | CmdCompact =>
      l' = l /\ err = [] /\ r = Ok OK /\
      exists st, st_key_count st = Z.of_nat (length l) /\ out = [tool.dumps_sorted (F := F) (stats_dict st)]
  | OtherCommand usage => l' = l /\ err = [] /\ out = [usage] /\ r = Ok BAD_ARGS
  end.

(** A value to be stored whose strings can be read back. *)
Definition sane (c : subcommand) : bool :=
  match c with
  | CmdSet _ value => match parse_cli_value (F := F) value with Ok v => json_ok v | Raise _ => true end
  | _ => true
  end.

(** * The [try] block *)

Definition handled (path : pystr) (c : subcommand) : St (DBDB bnode * machine) (option Z) :=
  try_with (tool.execute (F := F) path c)
    (fun e => match e with KeyError _ => tool.print_err (str "Key not found") ;; mret (Some BAD_KEY) | e => raise e end).

Definition code_of (r : res (option Z)) : res Z := code ← r; Ok (default OK code).

Definition printed w out err : machine := mkMachine (fs w) (stdout w ++ out) (stderr w ++ err).

(** How the block leaves the database and the machine. *)
Definition ends (path : pystr) (c : subcommand) l w (o : (DBDB bnode * machine) * res (option Z)) : Prop :=
  exists d' w' r l' out err, o = ((d', w'), r) /\ stdout w' = stdout w ++ out /\ stderr w' = stderr w ++ err /\
    (forall p, p <> tool.temp_path path -> fs w' !! p = fs w !! p) /\
    (fs w' !! tool.temp_path path = fs w !! tool.temp_path path \/ db_image (default [] (fs w' !! tool.temp_path path)) []) /\
    db_image (live (dbdb.the_storage d')) (stored l') /\ contents l' /\ (length l' <= length l + 1)%nat /\
    (command_spec c l l' (code_of r) out err \/ (r = Raise StructError /\ l' = l /\ out = [] /\ err = [])).

Lemma mapM_print {A} (f : A -> pystr) (xs : list A) d w :
  exists us, mapM_st (fun x => tool.print (f x)) xs (d, w) = ((d, printed w (f <$> xs) []), Ok us).
Proof.
  revert w. induction xs as [|x xs IH]; intros w.
  - exists []. unfold printed. rewrite !app_nil_r. by destruct w.
  - cbn [mapM_st]. destruct (IH (printed w [f x] [])) as [us E]. exists (tt :: us). erewrite stx_bind_ok.
    2:{ unfold tool.print, modify. cbn [fst snd]. reflexivity. }
    erewrite stx_bind_ok; [reflexivity|]. unfold printed in *. cbn [fs stdout stderr] in *. rewrite !app_nil_r in *.
    rewrite E. by rewrite <- app_assoc.
Qed.

Lemma print_run line d w : tool.print line (d, w) = ((d, printed w [line] []), Ok tt).
Proof. unfold tool.print, modify, printed. cbn [fst snd]. by rewrite app_nil_r. Qed.

Lemma print_err_run line d w : tool.print_err line (d, w) = ((d, printed w [] [line]), Ok tt).
Proof. unfold tool.print_err, modify, printed. cbn [fst snd]. by rewrite app_nil_r. Qed.

Lemma handled_key_error path c d w d' k :
  tool.execute (F := F) path c (d, w) = ((d', w), Raise (KeyError k)) ->
  handled path c (d, w) = ((d', printed w [] [str "Key not found"]), Ok (Some BAD_KEY)).
Proof. intros E. unfold handled, try_with. rewrite E. by erewrite stx_bind_ok by apply print_err_run. Qed.

Lemma handled_ok path c d w s r :
  tool.execute (F := F) path c (d, w) = (s, Ok r) -> handled path c (d, w) = (s, Ok r).
Proof. intros E. unfold handled, try_with. by rewrite E. Qed.

Lemma handled_raise path c d w s e :
  tool.execute (F := F) path c (d, w) = (s, Raise e) -> (forall k, e <> KeyError k) -> handled path c (d, w) = (s, Raise e).
Proof. intros E He. unfold handled, try_with. rewrite E. destruct e; try done. by destruct (He key). Qed.

(** The block returned or raised with the file unchanged. *)
Lemma ends_unchanged path c l w d' m r out err kvs :
  opened d' m (stored l) kvs -> contents l -> command_spec c l l (code_of r) out err ->
  ends path c l w ((d', printed w out err), r).
Proof.
  intros Ho Hc Hs. exists d', (printed w out err), r, l, out, err. split_and!; try done; [by left|by eapply opened_image|lia|by left].
Qed.

Lemma printed_nil w : printed w [] [] = w.
Proof. destruct w. unfold printed. cbn. by rewrite !app_nil_r. Qed.

(** ** Each command *)

Section commands.
Context (path : pystr) (l : list (pystr * js)) (d : DBDB bnode) (m : _Meta) (w : machine).
Context (Hod : opened d m (stored l) (stored l)) (Hc : contents l) (Hlen : Z.of_nat (length l + 1) < 2 ^ 64).

Let Hh : handle (N := bnode) (db_tree d) m (stored l) (stored l) := od_handle _ _ _ _ Hod.
Let Ho : file_open (dbdb.the_storage d) := od_open _ _ _ _ Hod.

(** Calling a method of the database from the tool. *)
Lemma tool_db_run {A} (f : St (DBDB bnode) A) d0 d' r : f d0 = (d', r) -> tool.on_db f (d0, w) = ((d', w), r).
Proof. intros E. unfold tool.on_db. by rewrite (zoom_eq _ _ _ (d0, w) _ _ E). Qed.

Lemma stored_lookup k : kv_get k (stored l) = enc <$> kv_get k l.
Proof. apply kv_get_onto. Qed.

(** An empty key is refused before anything happens. *)
Lemma refused_key c :
  tool.execute (F := F) path c (d, w) = ((d, w), Raise KeyEncodingError) ->
  command_spec c l l (Raise KeyEncodingError) [] [] -> ends path c l w (handled path c (d, w)).
Proof using HL Hod Hc Hlen Hh Ho.
  intros E Hs. rewrite (handled_raise _ _ _ _ _ _ E) by done. rewrite <- (printed_nil w) at 2. by eapply ends_unchanged.
Qed.

Lemma get_ends key : ends path (CmdGet key) l w (handled path (CmdGet key) (d, w)).
Proof using HL Hod Hc Hlen Hh Ho.
  destruct key as [|ch key].
  { apply refused_key; [|done]. cbn [tool.execute]. erewrite stx_bind_raise; [reflexivity|]. apply tool_db_run.
    unfold dbdb.getitem. rewrite assert_open_bind by exact Ho. reflexivity. }
  destruct (getitem_still (V := js) d m _ _ (ch :: key) Hh Ho) as (d' & E & Hst); [done|].
  pose proof (opened_still _ _ _ _ _ _ Hod Hst) as Hod'. rewrite stored_lookup in E.
  destruct (kv_get (ch :: key) l) as [v|] eqn:Eg; cbn [fmap option_fmap option_map] in E.
  - destruct (canon_codec v (canonical_get _ l v (ct_values _ Hc) Eg)) as [_ Hd]. rewrite Hd in E. erewrite handled_ok.
    2:{ cbn [tool.execute]. erewrite stx_bind_ok by (apply tool_db_run; exact E). erewrite stx_bind_ok by apply print_run. reflexivity. }
    eapply ends_unchanged; [exact Hod'|done|]. cbn [command_spec]. by rewrite Eg.
  - erewrite handled_key_error by (cbn [tool.execute]; apply stx_bind_raise, tool_db_run; exact E).
    eapply ends_unchanged; [exact Hod'|done|]. cbn [command_spec]. by rewrite Eg.
Qed.

(** Committing what is staged, or being refused by the file format. *)
Lemma commit_ends c l' d1 :
  tool.execute (F := F) path c (d, w) = (tool.on_db dbdb.commit ;; mret None) (d1, w) ->
  opened d1 m (stored l) (stored l') -> contents l' -> (length l' <= length l + 1)%nat ->
  command_spec c l l' (Ok OK) [] [] -> ends path c l w (handled path c (d, w)).
Proof using HL Hod Hc Hlen Hh Ho.
  intros Ex Hod1 Hc' Hle Hs. destruct (opened_commit _ _ _ _ Hod1) as (t' & [(E & m' & Hod')|(E & Hi)]).
  - erewrite handled_ok by (rewrite Ex; erewrite stx_bind_ok by (apply tool_db_run; exact E); reflexivity).
    exists (dbdb.set_tree t' d1), w, (Ok None), l', [], []. rewrite !app_nil_r.
    split_and!; try done; [by left|by eapply opened_image|by left].
  - erewrite handled_raise; [|rewrite Ex; apply stx_bind_raise, tool_db_run; exact E|done].
    exists (dbdb.set_tree t' d1), w, (Raise StructError), l, [], []. rewrite !app_nil_r.
    split_and!; try done; [by left|lia|by right].
Qed.

Lemma set_ends key value : sane (CmdSet key value) = true -> ends path (CmdSet key value) l w (handled path (CmdSet key value) (d, w)).
Proof using HL Hod Hc Hlen Hh Ho.
  intros Hsane. destruct (parse_cli_value_total (F := F) value) as (v & Ep & _). cbn [sane] in Hsane. rewrite Ep in Hsane.
  destruct key as [|ch key].
  { apply refused_key; [|by split_and!; [| |exists v]]. cbn [tool.execute].
    erewrite stx_bind_ok by (unfold lift_res; rewrite Ep; reflexivity). erewrite stx_bind_raise; [reflexivity|]. apply tool_db_run.
    unfold dbdb.setitem. rewrite assert_open_bind by exact Ho. reflexivity. }
  pose proof (encode_sorted v Hsane) as He. pose proof (sort_keys_canon v Hsane) as Hcv.
  assert (kv_set (ch :: key) (enc (sort_keys v)) (stored l) = stored (kv_set (ch :: key) (sort_keys v) l)) as Eset by apply kv_set_onto.
  assert (length (kv_set (ch :: key) (sort_keys v) l) <= length l + 1)%nat as Hle.
  { rewrite kv_set_length by apply Hc. destruct (kv_get (ch :: key) l); lia. }
  destruct (setitem_still d m _ _ (ch :: key) v _ Hh Ho ltac:(done) He) as (d1 & E1 & Hst).
  { rewrite Eset. eapply (fits_le (length l + 1)); [by rewrite stored_size|lia]. }
  rewrite Eset in Hst. pose proof (opened_still _ _ _ _ _ _ Hod Hst) as Hod1.
  apply (commit_ends _ (kv_set (ch :: key) (sort_keys v) l) d1); [|done|by apply contents_set|done|].
  - cbn [tool.execute]. erewrite stx_bind_ok by (unfold lift_res; rewrite Ep; reflexivity).
    by erewrite stx_bind_ok by (apply tool_db_run; exact E1).
  - split_and!; [done..|]. by exists v.
Qed.

Lemma delete_ends key : ends path (CmdDelete key) l w (handled path (CmdDelete key) (d, w)).
Proof using HL Hod Hc Hlen Hh Ho.
  destruct key as [|ch key].
  { apply refused_key; [|done]. cbn [tool.execute]. erewrite stx_bind_raise; [reflexivity|]. apply tool_db_run.
    unfold dbdb.delitem. rewrite assert_open_bind by exact Ho. reflexivity. }
  destruct (delitem_still d m _ _ (ch :: key) Hh Ho) as (d1 & E1 & Hst); [done|].
  rewrite stored_lookup in E1. rewrite (kv_del_onto enc (ch :: key) l : kv_del _ (stored l) = stored (kv_del _ l)) in Hst.
  pose proof (opened_still _ _ _ _ _ _ Hod Hst) as Hod1.
  destruct (kv_get (ch :: key) l) as [v|] eqn:Eg; cbn [fmap option_fmap option_map] in E1.
  - apply (commit_ends _ (kv_del (ch :: key) l) d1); [|done|by apply contents_del| |].
    + cbn [tool.execute]. by erewrite stx_bind_ok by (apply tool_db_run; exact E1).
    + pose proof (kv_del_length (ch :: key) l) as Hdl. rewrite Eg in Hdl. lia.
    + cbn [command_spec]. by rewrite Eg.
  - erewrite handled_key_error by (cbn [tool.execute]; apply stx_bind_raise, tool_db_run; exact E1).
    eapply ends_unchanged; [exact Hod1|done|]. cbn [command_spec]. by rewrite Eg.
Qed.

(** ** Listings *)

Lemma scan_refused prefix start stop (rest : list (pystr * js) -> St (DBDB bnode * machine) (option Z)) :
  Some [] ∈ [prefix; start; stop] ->
  (kvs ← tool.on_db (dbdb.scan prefix start stop); rest kvs) (d, w) = ((d, w), Raise KeyEncodingError).
Proof using HL Hod Hc Hlen Hh Ho.
  intros Hin. apply stx_bind_raise, tool_db_run. unfold dbdb.scan. rewrite assert_open_bind by exact Ho.
  rewrite !elem_of_cons, elem_of_nil in Hin.
  destruct prefix as [[|? ?]|], start as [[|? ?]|], stop as [[|? ?]|]; try reflexivity; by destruct Hin as [[=]|[[=]|[[=]|[]]]].
Qed.

Lemma scan_lists prefix start stop :
  Some [] ∉ [prefix; start; stop] ->
  exists d', tool.on_db (dbdb.scan (V := js) prefix start stop) (d, w) = ((d', w), Ok (scanned prefix start stop l)) /\
    opened d' m (stored l) (stored l).
Proof using HL Hod Hc Hlen Hh Ho.
  intros Hin. destruct (scan_still (V := js) d m _ _ prefix start stop Hh Ho) as (d' & E & Hst); [set_solver..|].
  rewrite scan_stored, decode_stored in E by (apply canonical_scanned, Hc). exists d'. split; [by apply tool_db_run|by eapply opened_still].
Qed.

Lemma scan_ends prefix start stop : ends path (CmdScan prefix start stop) l w (handled path (CmdScan prefix start stop) (d, w)).
Proof using HL Hod Hc Hlen Hh Ho.
  destruct (bool_decide_reflect (Some [] ∈ [prefix; start; stop])) as [Hin|Hin].
  - apply refused_key; [by apply scan_refused|]. cbn [command_spec]. by rewrite bool_decide_true.
  - destruct (scan_lists prefix start stop Hin) as (d' & E & Hod'). destruct (mapM_print entry_line (scanned prefix start stop l) d' w) as [us Eu].
    erewrite handled_ok.
    2:{ cbn [tool.execute]. erewrite stx_bind_ok by exact E. erewrite stx_bind_ok by exact Eu. reflexivity. }
    eapply ends_unchanged; [exact Hod'|done|]. cbn [command_spec]. by rewrite bool_decide_false.
Qed.

Lemma keys_ends prefix : ends path (CmdKeys prefix) l w (handled path (CmdKeys prefix) (d, w)).
Proof using HL Hod Hc Hlen Hh Ho.
  assert (forall r s', tool.on_db (dbdb.scan (V := js) prefix None None) (d, w) = (s', r) ->
    tool.on_db (dbdb.keys (V := js) prefix None None) (d, w) = (s', kvs ← r; Ok kvs.*1)) as Hkeys.
  { intros r s'. unfold tool.on_db, zoom, dbdb.keys, mbind, stx_bind. cbn [fst snd].
    destruct (dbdb.scan prefix None None d) as [d' [x|e]]; by intros [= <- <-]. }
  destruct (bool_decide_reflect (prefix = Some [])) as [Hin|Hin].
  - apply refused_key.
    + cbn [tool.execute]. apply stx_bind_raise. apply (Hkeys (Raise KeyEncodingError)). subst prefix. apply tool_db_run.
      unfold dbdb.scan. rewrite assert_open_bind by exact Ho. reflexivity.
    + cbn [command_spec]. by rewrite bool_decide_true.
  - destruct (scan_lists prefix None None) as (d' & E & Hod'); [set_solver|]. apply Hkeys in E. cbn [mbind result_bind] in E.
    destruct (mapM_print id ((scanned prefix None None l).*1) d' w) as [us Eu]. rewrite list_fmap_id in Eu.
    erewrite handled_ok.
    2:{ cbn [tool.execute]. erewrite stx_bind_ok by exact E. erewrite stx_bind_ok by exact Eu. reflexivity. }
    eapply ends_unchanged; [exact Hod'|done|]. cbn [command_spec]. by rewrite bool_decide_false.
Qed.

(** ** Inspection and compaction *)

Lemma stats_ends : ends path CmdStats l w (handled path CmdStats (d, w)).
Proof using HL Hod Hc Hlen Hh Ho.
  destruct (opened_stats _ _ _ _ Hod) as (d' & st & E & Hst & Hk). rewrite stored_size in Hk. erewrite handled_ok.
  2:{ cbn [tool.execute]. erewrite stx_bind_ok by (apply tool_db_run; exact E). erewrite stx_bind_ok by apply print_run. reflexivity. }
  eapply ends_unchanged; [by eapply opened_still|done|]. split_and!; try done. by exists st.
Qed.

Lemma audit_ends : ends path CmdAudit l w (handled path CmdAudit (d, w)).
Proof using HL Hod Hc Hlen Hh Ho.
  destruct (audit_still DEFAULT_ORDER order_ok d m _ _ Hh Ho) as (d' & rep & E & Hrep & Hst). rewrite stored_size in Hrep. erewrite handled_ok.
  2:{ cbn [tool.execute]. erewrite stx_bind_ok by (apply tool_db_run; exact E). erewrite stx_bind_ok by apply print_run. reflexivity. }
  eapply ends_unchanged; [by eapply opened_still|done|]. split_and!; try done. by exists rep.
Qed.

Lemma other_ends usage : ends path (OtherCommand usage) l w (handled path (OtherCommand usage) (d, w)).
Proof using HL Hod Hc Hlen Hh Ho.
  erewrite handled_ok by (cbn [tool.execute]; erewrite stx_bind_ok by apply print_run; reflexivity). by eapply ends_unchanged.
Qed.

Lemma compact_ends :
  db_path d = Some path -> _open_snapshots d = 0 -> db_image (default [] (fs w !! tool.temp_path path)) [] ->
  ends path CmdCompact l w (handled path CmdCompact (d, w)).
Proof using HL Hod Hc Hlen Hh Ho.
  intros Hp Hsn Htemp. set (temp := SimDisk_init <$> fs w !! tool.temp_path path).
  destruct (compact_over d m l path temp []) as (d' & temp' & Hout); try done.
  { unfold temp. destruct (fs w !! tool.temp_path path) as [b|]; [by exists b|done]. } { apply contents_nil. } { cbn [length]. lia. }
  rewrite overlaid_nil in Hout by done. destruct Hout as [(st & m' & E & Hod' & Hk)|(E & Hod' & [Hi _])].
  - set (w1 := mkMachine (delete (tool.temp_path path) (fs w)) (stdout w) (stderr w)).
    assert (tool.compact (F := F) path (d, w) = ((d', w1), Ok st)) as Ec by (unfold tool.compact; cbn [fst snd]; fold temp; by rewrite E).
    erewrite handled_ok by (cbn [tool.execute]; erewrite stx_bind_ok by exact Ec; erewrite stx_bind_ok by apply print_run; reflexivity).
    exists d', (printed w1 [tool.dumps_sorted (stats_dict st)] []), (Ok None), l, [tool.dumps_sorted (F := F) (stats_dict st)], [].
    split_and!; try done.
    + intros p Hne. cbn. by rewrite lookup_delete_ne.
    + right. cbn. rewrite lookup_delete_eq. by left.
    + by eapply opened_image.
    + lia.
    + left. split_and!; try done. by exists st.
  - set (w1 := mkMachine (<[tool.temp_path path := _live temp']> (fs w)) (stdout w) (stderr w)).
    assert (tool.compact (F := F) path (d, w) = ((d', w1), Raise StructError)) as Ec by (unfold tool.compact; cbn [fst snd]; fold temp; by rewrite E).
    erewrite handled_raise; [|cbn [tool.execute]; apply stx_bind_raise; exact Ec|done].
    exists d', w1, (Raise StructError), l, [], []. rewrite !app_nil_r. split_and!; try done.
    + intros p Hne. cbn. by rewrite lookup_insert_ne.
    + right. cbn. rewrite lookup_insert_eq. exact Hi.
    + by eapply opened_image.
    + lia.
    + by right.
Qed.

Lemma any_ends c :
  db_path d = Some path -> _open_snapshots d = 0 -> db_image (default [] (fs w !! tool.temp_path path)) [] ->
  sane c = true -> ends path c l w (handled path c (d, w)).
Proof using HL Hod Hc Hlen Hh Ho.
  intros Hp Hsn Htemp Hs. destruct c; [apply get_ends|by apply set_ends|apply delete_ends|apply keys_ends|apply scan_ends|apply stats_ends|
    apply audit_ends|by apply compact_ends|apply other_ends].
Qed.

End commands.

(** * One run of the program *)

(** The database file holds the table [l], and no compaction was left between its
    commit and its last step. *)
Record database_file path l w : Prop := {
  df_image : db_image (default [] (fs w !! path)) (stored l);
  df_contents : contents l;
  df_temp : db_image (default [] (fs w !! tool.temp_path path)) []
}.

(** What a run does, or that the file format refused a number. *)
Definition command_result (c : subcommand) l l' (r : res Z) out err : Prop :=
  command_spec c l l' r out err \/ (r = Raise StructError /\ l' = l /\ out = [] /\ err = []).

Lemma temp_path_ne path : tool.temp_path path <> path.
Proof. intros E. apply (f_equal length) in E. unfold tool.temp_path in E. rewrite length_app in E. cbn in E. lia. Qed.

Lemma connect_run path l w : database_file path l w ->
  exists fs' d m, facade.connect path DURABILITY_FULL (fs w) = (fs', Ok d) /\ opened d m (stored l) (stored l) /\
    db_path d = Some path /\ _open_snapshots d = 0 /\ forall p, p <> path -> fs' !! p = fs w !! p.
Proof.
  intros [Hi Hc Ht]. destruct (open_image _ _ path Hi) as (d & m & Ed & Hod & Hp & Hs).
  unfold facade.connect, facade._open_database_file. destruct (fs w !! path) as [b|] eqn:Ef; cbn [default id] in Ed.
  - exists (fs w), d, m. split; [|split; [exact Hod|split; [exact Hp|split; [exact Hs|done]]]].
    erewrite stx_bind_ok by (erewrite stx_bind_ok by reflexivity; rewrite Ef; reflexivity). unfold lift_res. rewrite Ed. reflexivity.
  - exists (<[path := []]> (fs w)), d, m. split; [|split; [exact Hod|split; [exact Hp|split; [exact Hs|]]]].
    + erewrite stx_bind_ok by (erewrite stx_bind_ok by reflexivity; rewrite Ef; reflexivity). unfold lift_res. rewrite Ed. reflexivity.
    + intros p Hne. by rewrite lookup_insert_ne.
Qed.

Lemma close_if_open_run d w : exists d', tool.close_if_open (d, w) = ((d', w), Ok tt) /\
  live (dbdb.the_storage d') = live (dbdb.the_storage d).
Proof.
  unfold tool.close_if_open. erewrite stx_bind_ok by reflexivity. cbn [fst].
  destruct (storage.closed (dbdb.the_storage d)); [exists d; split; reflexivity|].
  destruct (close_spec d) as (d' & E & _ & _ & Hl & _). exists d'. split; [by apply tool_db_run|done].
Qed.

Lemma tool_run path c l w :
  database_file path l w -> Z.of_nat (length l + 1) < 2 ^ 64 -> sane c = true ->
  exists w' r l' out err, tool.run (F := F) (mkArguments path c) w = (w', r) /\ database_file path l' w' /\
    (length l' <= length l + 1)%nat /\ stdout w' = stdout w ++ out /\ stderr w' = stderr w ++ err /\
    (forall p, p <> path -> p <> tool.temp_path path -> fs w' !! p = fs w !! p) /\ command_result c l l' r out err.
Proof.
  intros Hdf Hlen Hs. destruct (connect_run path l w Hdf) as (fs1 & d & m & Ec & Hod & Hp & Hsn & Hfs). pose proof Hdf as [_ Hc Ht].
  set (w1 := mkMachine fs1 (stdout w) (stderr w)). pose proof (temp_path_ne path) as Hne.
  destruct (any_ends path l d m w1 Hod Hc Hlen c Hp Hsn) as (d2 & w2 & r & l' & out & err & E & Ho & He & Hf & Htmp & Hi & Hc' & Hle & Hspec);
    [by cbn [fs w1]; rewrite Hfs|done|].
  destruct (close_if_open_run d2 w2) as (d3 & Ecl & Hlv).
  exists (mkMachine (<[path := live (dbdb.the_storage d3)]> (fs w2)) (stdout w2) (stderr w2)), (code_of r), l', out, err. split_and!; try done.
  - unfold tool.run. cbn [database command]. rewrite Ec. unfold try_finally. fold w1. fold (handled path c). rewrite E, Ecl. by destruct r.
  - split; [|done|].
    + cbn [fs]. rewrite lookup_insert_eq, Hlv. exact Hi.
    + cbn [fs]. rewrite lookup_insert_ne by done. destruct Htmp as [-> |Htmp]; [|done]. cbn [fs w1]. by rewrite Hfs.
  - intros p Hp1 Hp2. cbn [fs]. rewrite lookup_insert_ne by done. rewrite Hf by done. cbn [fs w1]. by apply Hfs.
  - destruct Hspec as [Hspec|(-> & -> & -> & ->)]; [by left|by right].
Qed.

(** * Sequences of runs *)

(** Each command in a process of its own, one after the other. *)
Fixpoint session path (cs : list subcommand) w : machine * list (res Z) :=
  match cs with
  | [] => (w, [])
  | c :: cs =>
      let '(w, r) := tool.run (F := F) (mkArguments path c) w in
      let '(w, rs) := session path cs w in (w, r :: rs)
  end.

(** The table a sequence of commands goes through, with what it prints. *)
Inductive session_spec : list subcommand -> list (pystr * js) -> list (res Z) -> list pystr -> list pystr -> list (pystr * js) -> Prop :=
| session_done l : session_spec [] l [] [] [] l
| session_next c cs l l1 l2 r rs out out' err err' :
    command_result c l l1 r out err -> session_spec cs l1 rs out' err' l2 ->
    session_spec (c :: cs) l (r :: rs) (out ++ out') (err ++ err') l2.

(** C13: the command line tool is one sorted table of JSON values, kept across
    processes.  Any sequence of [get], [set], [delete], [keys], [scan], [stats],
    [audit] and [compact] runs on one file, each in a process of its own, exits
    with the codes, prints the lines and leaves the contents that the table gives:
    a stored value is printed by a later process as it was parsed, a missing key
    exits with 3, listings are in order, [audit] is clean, [compact] changes
    nothing, and no other file of the machine is touched.  A run the file format
    refuses ([struct.error]) has no effect.  At the start there is no temporary
    file left from an interrupted compaction ([database_file]); the interpreter's
    limits on the digits of integers and on nesting are taken as lifted. *)
Theorem tool_session_refines path (cs : list subcommand) l w :
  database_file path l w -> Z.of_nat (length l + length cs) < 2 ^ 64 -> Forall (fun c => sane c = true) cs ->
  exists w' rs out err l', session path cs w = (w', rs) /\ session_spec cs l rs out err l' /\ database_file path l' w' /\
    stdout w' = stdout w ++ out /\ stderr w' = stderr w ++ err /\
    forall p, p <> path -> p <> tool.temp_path path -> fs w' !! p = fs w !! p.
Proof.
  revert l w. induction cs as [|c cs IH]; intros l w Hdf Hlen Hs.
  { exists w, [], [], [], l. rewrite !app_nil_r. split_and!; try done. constructor. }
  apply Forall_cons in Hs as [Hc Hs]. cbn [length] in Hlen.
  destruct (tool_run path c l w Hdf) as (w1 & r & l1 & out & err & E & Hdf1 & Hle & Ho & He & Hf & Hres); [lia|done|].
  destruct (IH l1 w1 Hdf1) as (w2 & rs & out' & err' & l2 & E2 & Hsp & Hdf2 & Ho2 & He2 & Hf2); [lia|done|].
  exists w2, (r :: rs), (out ++ out'), (err ++ err'), l2. split_and!; try done.
  - cbn [session]. by rewrite E, E2.
  - by econstructor.
  - by rewrite Ho2, Ho, app_assoc.
  - by rewrite He2, He, app_assoc.
  - intros p Hp1 Hp2. by rewrite Hf2, Hf.
Qed.

(** [compact] brings back what an interrupted compaction left behind.  When
    the temporary file of an earlier compaction is still there with the table
    [lt], the database after a successful [compact] holds every key of [lt] that
    it did not hold itself, deleted or not. *)
Theorem compact_revives_leftover (d : DBDB bnode) m l path temp lt (k : pystr) v (d' : DBDB bnode * option SimDisk) (st : StorageStats) :
  opened d m (stored l) (stored l) -> contents l -> db_path d = Some path -> _open_snapshots d = 0 ->
  temp_holds None lt temp -> contents lt -> Z.of_nat (length lt + length l) < 2 ^ 64 ->
  kv_get k l = None -> kv_get k lt = Some v -> k <> [] ->
  dbdb.compact (V := js) (d, temp) = (d', Ok st) -> exists d'', dbdb.getitem (V := js) k d'.1 = (d'', Ok v).
Proof.
  intros Hod Hc Hp Hsn Ht Hct Hlen Hk Hkt Hne E.
  destruct (compact_over d m l path temp lt Hod Hc Hp Hsn Ht Hct Hlen) as (d1 & t1 & [(st1 & m1 & E1 & Hod1 & _)|(E1 & _)]);
    rewrite E in E1; [|discriminate]. injection E1 as -> ->. cbn [fst].
  destruct (getitem_still (V := js) d1 m1 _ _ k (od_handle _ _ _ _ Hod1) (od_open _ _ _ _ Hod1) Hne) as (d2 & Eg & _).
  assert (kv_get k (overlaid lt l) = Some v) as Eo by (rewrite overlaid_get, Hk by (apply Hct || apply Hc); exact Hkt).
  exists d2. rewrite Eg, stored_lookup, Eo. cbn [fmap option_fmap option_map].
  destruct (canon_codec v (canonical_get k lt v (ct_values _ Hct) Hkt)) as [_ Hd]. by rewrite Hd.
Qed.

End props.

(** * Witnesses *)

(** The only floats here are the special ones, and [repr] only adds quotes. *)
#[local] Instance tool_float_text : FloatText special := {|
  fl_special x := Some x;
  fl_of_special x := x;
  float_repr _ := [];
  float_of _ := NaN
|}.

#[local] Instance tool_float_laws : FloatTextLaws special.
Proof. split; intros x; [done|done|]. intros sp [= ->]. done. Qed.

#[local] Instance tool_repr : PyRepr := {| repr_str s := [39%N] ++ s ++ [39%N]; str_exn _ := str "error" |}.

#[local] Instance tool_pickle : Pickle := bit_pickle.

Abbreviation table := (list (pystr * json_of special)).

Definition blank : machine := mkMachine ∅ [] [].
Definition db_name : pystr := str "example.db".

Lemma blank_file : database_file (F := special) db_name [] blank.
Proof. split; [by left|apply contents_nil|by left]. Qed.

(** A value is stored, read in another process, the file is compacted and read again. *)
Definition visit : list subcommand :=
  [CmdSet (str "name") (str "[true, {}]"); CmdGet (str "name"); CmdDelete (str "other"); CmdCompact; CmdKeys None; CmdGet (str "name")].

Lemma visit_codes : (session (F := special) db_name visit blank).2 = [Ok 0; Ok 0; Ok 3; Ok 0; Ok 0; Ok 0].
Proof. vm_compute. reflexivity. Qed.

Lemma tool_session_witness : exists w' out err (l' : table),
  session (F := special) db_name visit blank = (w', [Ok 0; Ok 0; Ok 3; Ok 0; Ok 0; Ok 0]) /\
  session_spec visit [] [Ok 0; Ok 0; Ok 3; Ok 0; Ok 0; Ok 0] out err l' /\ database_file db_name l' w'.
Proof.
  destruct (tool_session_refines (F := special) db_name visit [] blank) as (w' & rs & out & err & l' & E & Hs & Hd & _).
  - exact blank_file.
  - cbn [length visit]. lia.
  - repeat (constructor; [vm_compute; reflexivity|]). constructor.
  - pose proof visit_codes as Hc. rewrite E in Hc. cbn [snd] in Hc. subst rs. exists w', out, err, l'. split; [exact E|]. split; [exact Hs|exact Hd].
Defined.

(** The file a compaction that died before its last step leaves. *)
Definition leftover : bytes :=
  default [] (fs (tool.run (F := special) (mkArguments db_name (CmdSet (str "old") (str "1"))) blank).1 !! db_name).

Lemma leftover_code : (tool.run (F := special) (mkArguments db_name (CmdSet (str "old") (str "1"))) blank).2 = Ok 0.
Proof. vm_compute. reflexivity. Qed.

Lemma leftover_image : db_image leftover (stored [(str "old", JInt (F := special) 1)]) /\ contents [(str "old", JInt (F := special) 1)].
Proof.
  destruct (tool_run (F := special) db_name (CmdSet (str "old") (str "1")) [] blank blank_file) as (w' & r & l' & out & err & E & Hd & _ & _ & _ & _ & Hr);
    [cbn; lia|vm_compute; reflexivity|].
  pose proof leftover_code as Hc. unfold leftover. rewrite E in Hc |- *. cbn [fst snd] in Hc |- *. subst r.
  destruct Hr as [(_ & _ & v & Ev & _ & ->)|(Hr & _)]; [|discriminate Hr].
  assert (v = JInt 1) as ->; [|split; [exact (df_image _ _ _ Hd)|exact (df_contents _ _ _ Hd)]].
  assert (parse_cli_value (F := special) (str "1") = Ok (JInt 1)) as E1 by (vm_compute; reflexivity). rewrite E1 in Ev. by injection Ev.
Qed.

(** Compacting a database over that file succeeds. *)
Definition compacts (r : res (DBDB bnode)) : bool :=
  match r with
  | Ok d => match @dbdb.compact bnode (bplus_index DEFAULT_ORDER) (json_of special) _ (d, Some (SimDisk_init leftover)) with (_, Ok _) => true | _ => false end
  | Raise _ => false
  end.

Lemma compacts_empty : compacts (@dbdb.init bnode (bplus_index DEFAULT_ORDER) (SimDisk_init []) (Some db_name) DURABILITY_FULL) = true.
Proof. vm_compute. reflexivity. Qed.

Lemma compacts_run d : compacts (Ok d) = true ->
  exists d' st, @dbdb.compact bnode (bplus_index DEFAULT_ORDER) (json_of special) _ (d, Some (SimDisk_init leftover)) = (d', Ok st).
Proof.
  unfold compacts. destruct (@dbdb.compact bnode (bplus_index DEFAULT_ORDER) (json_of special) _ (d, Some (SimDisk_init leftover))) as [d' [st|e]]; [|discriminate].
  intros _. exists d', st. reflexivity.
Qed.

Lemma compact_revives_witness : exists d d' st d'',
  @dbdb.compact bnode (bplus_index DEFAULT_ORDER) (json_of special) _ (d, Some (SimDisk_init leftover)) = (d', Ok st) /\
  @dbdb.getitem bnode (bplus_index DEFAULT_ORDER) (json_of special) _ (str "old") d'.1 = (d'', Ok (JInt 1)).
Proof.
  destruct (open_image [] [] db_name) as (d & m & Ed & Hod & Hp & Hsn); [by left|].
  pose proof compacts_empty as Hce. rewrite Ed in Hce. destruct (compacts_run d Hce) as (d' & st & Ec). destruct leftover_image as [Hi Hc].
  destruct (compact_revives_leftover (F := special) d m [] db_name (Some (SimDisk_init leftover)) [(str "old", JInt 1)] (str "old") (JInt 1) d' st) as (d'' & Eg).
  - exact Hod.
  - apply contents_nil.
  - exact Hp.
  - exact Hsn.
  - exists leftover. split; [reflexivity|exact Hi].
  - exact Hc.
  - cbn. lia.
  - reflexivity.
  - reflexivity.
  - discriminate.
  - exact Ec.
  - exists d, d', st, d''. split; [exact Ec|exact Eg].
Defined.

(** The power fails while the copy of that file commits. *)
Definition crashes (r : res (DBDB bnode)) : bool :=
  match r with
  | Ok d => match @dbdb.compact_copy bnode (bplus_index DEFAULT_ORDER) (json_of special) _ (d, Some (file_on (Some 2) [])) with
            | (_, Raise SimCrash) => true
            | _ => false
            end
  | Raise _ => false
  end.

Lemma crashes_leftover :
  crashes (@dbdb.init bnode (bplus_index DEFAULT_ORDER) (SimDisk_init leftover) (Some db_name) DURABILITY_FULL) = true.
Proof. vm_compute. reflexivity. Qed.

Lemma crashes_run d s (r : res StorageStats) :
  @dbdb.compact_copy bnode (bplus_index DEFAULT_ORDER) (json_of special) _ (d, Some (file_on (Some 2) [])) = (s, r) ->
  crashes (Ok d) = true -> r = Raise SimCrash.
Proof. intros E. unfold crashes. rewrite E. destruct r as [|[]]; congruence. Qed.

Lemma compact_crash_witness : exists d d' f,
  @dbdb.compact_copy bnode (bplus_index DEFAULT_ORDER) (json_of special) _ (d, Some (file_on (Some 2) [])) = ((d', Some f), Raise SimCrash) /\
  file_holds (_f (dbdb.the_storage d')) [(str "old", JInt (F := special) 1)].
Proof.
  destruct leftover_image as [Hi Hc]. destruct (open_image leftover _ db_name Hi) as (d & m & Ed & Hod & Hp & Hsn).
  destruct (compact_crash_safe (F := special) d m [(str "old", JInt 1)] db_name (Some (file_on (Some 2) [])) (Some 2) [])
    as (d' & f & r & E & Hh & _).
  - exact Hod.
  - exact Hc.
  - exact Hp.
  - exact Hsn.
  - exists []. split; [reflexivity|]. left. split; reflexivity.
  - apply contents_nil.
  - cbn. lia.
  - pose proof crashes_leftover as Hcr. rewrite Ed in Hcr. pose proof (crashes_run d _ r E Hcr) as ->.
    exists d, d', f. split; [exact E|exact Hh].
Defined.
