(* ===== verification/Admin.v ===== *)
(** The admin HTTP endpoint, [src/imustore/admin.py], and the server program that
    starts it beside the key-value server, [_amain] of [src/imustore/server.py].

    [BaseHTTPRequestHandler] and the listening socket are the standard library's;
    what is modelled is the response each request gets and the life of the serving
    thread.  The stats callable is called once per request: it is given by what
    the call returns or raises. *)

From Stdlib Require Import Strings.Byte.
From S2P Require Import Prelude PyBase Struct SimDisk Locking Physical PhysicalFacts Recovery KeyList Logical Pickle Text BPlusTree Index BPlusIndex Engine Session.
From S2P Require Import BinaryProps Database TableDb Facade FacadeFacts Json JsonText JsonRoundtrip JsonCodec Metrics Resp Pubsub PubsubProps Server ServerSpec ServerProps ServerFindings.
From S2P Require Import StorageProps ToolFacts.

(** The response [_respond] writes. *)
Record response : Type := mkResponse {
  rs_status : Z;
  rs_content_type : pystr;
  rs_content_length : Z;
  rs_payload : bytes
}.

Definition TEXT_PLAIN : pystr := str "text/plain; charset=utf-8".
Definition APPLICATION_JSON : pystr := str "application/json".

(** A text with a newline after it. *)
Definition ln (s : pystr) : pystr := s ++ [10%N].

(** The server: whether [serve_forever] runs, whether it has ended (the event
    [shutdown] waits for), whether there is a thread, and whether the socket is
    closed. *)
Record AdminServer : Type := mkAdmin {
  ad_serving : bool;
  ad_ended : bool;
  ad_thread : bool;
  ad_closed : bool
}.

Module admin.
Section admin.
Context `{Float} {F : Type} `{FloatText F} `{PyRepr}.

Definition init : AdminServer := mkAdmin false false false false.

Definition start (a : AdminServer) : AdminServer := mkAdmin true false true (ad_closed a).

(** [stop()]: [shutdown] waits until [serve_forever] has ended; [None] when that
    never happens. *)
Definition stop (a : AdminServer) : option AdminServer :=
  if ad_serving a || ad_ended a then Some (mkAdmin false true (ad_thread a) true) else None.

(** [with admin: ...]: [__enter__] starts the server and [__exit__] stops it. *)
Definition __enter__ (a : AdminServer) : AdminServer := start a.
Definition __exit__ (a : AdminServer) : option AdminServer := stop a.

Definition _respond (status : Z) (body content_type : pystr) : res response :=
  payload ← utf8_encode body;
  Ok (mkResponse status content_type (zlen payload) payload).

(** The [try] block of [do_GET]. *)
Definition route (registry : metrics.Registry) (stats : option (res (json_of F))) (path : pystr) : res response :=
  if bool_decide (path = str "/metrics") then _respond 200 (metrics.render registry) TEXT_PLAIN
  else if bool_decide (path ∈ [str "/healthz"; str "/health"]) then _respond 200 (ln (str "ok")) TEXT_PLAIN
  else if bool_decide (path = str "/stats") then
    data ← (match stats with Some call => call | None => Ok (JDict []) end);
    _respond 200 (ln (JsonText.dumps default_seps data)) APPLICATION_JSON
  else _respond 404 (ln (str "not found")) TEXT_PLAIN.

Definition do_GET (registry : metrics.Registry) (stats : option (res (json_of F))) (path : pystr) : res response :=
  match route registry stats path with
  | Ok r => Ok r
  | Raise e => _respond 500 (ln (str "internal error: " ++ str_exn e)) TEXT_PLAIN
  end.

End admin.
End admin.

(** * The server program *)

Module program.
Section program.
Context `{Pickle} {N : Type} `{Index N} `{ChangeJson} `{Float} `{Fnmatch}.

(** What a run leaves: the server, its connections and the admin server. *)
Record served : Type := mkServed {
  sv_server : ImmuServer N;
  sv_clients : list (server.client (N := N));
  sv_admin : option AdminServer
}.

(** The bytes in the database file once the handle is closed. *)
Definition file_left (s : ImmuServer N) : bytes :=
  match _db (server.on_db dbdb.close s).1 with Some d => live (dbdb.the_storage d) | None => [] end.

(** [if admin is not None: admin.stop()]; [None] when that never returns. *)
Definition stop_admin (a : option AdminServer) : option (option AdminServer) :=
  match a with None => Some None | Some a => Some <$> admin.stop a end.

(** [ImmuServer(...)] and [server.start(...)] on the file at [path]; [reg] is the
    process's [REGISTRY]. *)
Definition boot (buckets : list float) (reg : metrics.Registry) (path durability : pystr) : St files (ImmuServer N) :=
  let '(reg, r) := server.init buckets reg in
  lift_res r ;;
  f ← facade._open_database_file path;
  let '(s, r) := server.start f path durability (mkServer None (broker.init DEFAULT_QUEUE_MAXSIZE) reg) in
  lift_res r ;;
  mret s.

(** The calls the executor has yet to run: [stop] hands it the closing of the
    database, which comes after those that wait in its queue. *)
Definition pending (s : ImmuServer N) (evs : list server.event) : list server.event :=
  replicate (length (server.w_queue (server.run_events evs (server.idle_world s)))) server.Work.

(** [_amain]: [evs] is what happens until the task is cancelled and the closing of
    the database is in the executor's queue; [None] when the [finally] block never
    ends. *)
Definition _amain (buckets : list float) (reg : metrics.Registry) (path durability : pystr) (metrics_port : option Z)
    (evs : list server.event) : St files (option served) :=
  s ← boot buckets reg path durability;
  let ad := (fun _ => admin.start admin.init) <$> metrics_port in
  let w := server.run_events (evs ++ pending s evs) (server.idle_world s) in
  modify (insert path (file_left (server.w_server w))) ;;
  match stop_admin ad with
  | None => mret None
  | Some ad =>
      let '(s, r) := server.stop (server.w_server w) in
      lift_res r ;;
      mret (Some (mkServed s (server.w_clients w) ad))
  end.

End program.
Arguments served N {_}.
End program.

(** * Properties *)

Section props.
Context `{Float} {F : Type} `{FloatTextLaws F} `{PyRepr}.
Implicit Types (registry : metrics.Registry) (stats : option (res (json_of F))) (path : pystr).

(** A response that says what it is: its length is right and its text decodes. *)
Definition says (r : response) (status : Z) (body content_type : pystr) : Prop :=
  rs_status r = status /\ rs_content_type r = content_type /\ rs_content_length r = zlen (rs_payload r) /\
  utf8_decode (rs_payload r) = Ok body.

Lemma respond_says status body ct b : utf8_encode body = Ok b -> exists r, admin._respond status body ct = Ok r /\ says r status body ct.
Proof.
  intros E. eexists. unfold admin._respond. rewrite E. split; [reflexivity|]. split_and!; try done. by apply utf8_roundtrip.
Qed.

Lemma dumps_encodes (v : json_of F) : exists b, utf8_encode (ln (JsonText.dumps default_seps v)) = Ok b.
Proof.
  destruct (printable_utf8 (JsonText.dumps default_seps v)) as [b Hb]; [apply dumps_printable; by repeat constructor|].
  eexists. apply utf8_encode_app; [exact Hb|reflexivity].
Qed.

(** The body and the status of every answer. *)
Definition expected registry stats path : Z * pystr * pystr :=
  if bool_decide (path = str "/metrics") then (200, metrics.render registry, TEXT_PLAIN)
  else if bool_decide (path ∈ [str "/healthz"; str "/health"]) then (200, ln (str "ok"), TEXT_PLAIN)
  else if bool_decide (path = str "/stats") then
    match stats with
    | None => (200, ln (str "{}"), APPLICATION_JSON)
    | Some (Ok v) => (200, ln (JsonText.dumps default_seps v), APPLICATION_JSON)
    | Some (Raise e) => (500, ln (str "internal error: " ++ str_exn e), TEXT_PLAIN)
    end
  else (404, ln (str "not found"), TEXT_PLAIN).

(** Every request is answered, also when the stats callable raises: the route's
    text with status 200, [404] for an unknown path, [500] with the exception's
    text for a broken callable, always with the right length.  What cannot be
    encoded (a lone surrogate in a metric or an exception) is excluded. *)
Theorem admin_answers registry stats path :
  (exists b, utf8_encode (metrics.render registry) = Ok b) ->
  (forall e, stats = Some (Raise e) -> exists b, utf8_encode (str_exn e) = Ok b) ->
  exists r, admin.do_GET registry stats path = Ok r /\
    says r (expected registry stats path).1.1 (expected registry stats path).1.2 (expected registry stats path).2.
Proof.
  intros [bm Hm] He. unfold admin.do_GET, admin.route, expected. case_bool_decide as E1.
  { destruct (respond_says 200 _ TEXT_PLAIN bm Hm) as (r & -> & Hr). by exists r. }
  case_bool_decide as E2.
  { destruct (respond_says 200 (ln (str "ok")) TEXT_PLAIN _ eq_refl) as (r & -> & Hr). by exists r. }
  case_bool_decide as E3.
  - destruct stats as [[v|e]|]; cbn [mbind result_bind].
    + destruct (dumps_encodes v) as [b Hb]. destruct (respond_says 200 _ APPLICATION_JSON b Hb) as (r & -> & Hr). by exists r.
    + destruct (He e eq_refl) as [b Hb].
      destruct (respond_says 500 (ln (str "internal error: " ++ str_exn e)) TEXT_PLAIN
        ((lit "internal error: " ++ b) ++ [Byte.x0a])) as (r & -> & Hr); [|by exists r].
      apply utf8_encode_app; [|reflexivity]. apply utf8_encode_app; [reflexivity|exact Hb].
    + destruct (respond_says 200 (ln (str "{}")) APPLICATION_JSON _ eq_refl) as (r & E & Hr). exists r. split; [|done].
      change (JsonText.dumps default_seps (JDict [])) with (str "{}"). by rewrite E.
  - destruct (respond_says 404 (ln (str "not found")) TEXT_PLAIN _ eq_refl) as (r & -> & Hr). by exists r.
Qed.

(** A server that was started can be stopped, again and again; one that was never
    started waits for ever in [stop]. *)
Lemma admin_stop_cases :
  admin.stop admin.init = None /\
  forall a, exists a', admin.stop (admin.start a) = Some a' /\ ad_closed a' = true /\ admin.stop a' = Some a'.
Proof. split; [done|]. intros a. eexists. split; [reflexivity|]. by split. Qed.

End props.

(** * A run of the server program *)

Section runs.
Context `{Pickle} {N : Type} `{IndexSpec N} `{ChangeJson} `{Float} `{FnmatchLaws}.
Implicit Types (s : ImmuServer N) (T : texts) (m : _Meta) (base : kvlist) (fs : files) (path : pystr).

(** The file at [path] opens as a database of the texts [T]; a file that is not
    there is an empty one. *)
Definition file_serves path fs T : Prop :=
  exists m base, stored T base /\ opens (N := N) (default [] (fs !! path)) m base.

(** A new process registers its metrics. *)
Lemma init_registered (buckets : list float) : exists reg, server.init buckets ∅ = (reg, Ok tt) /\ registered reg.
Proof.
  unfold server.init, metrics.counter, metrics.histogram, metrics.gauge.
  eexists. split; [reflexivity|]. split; eexists; (split; [vm_compute; reflexivity|reflexivity]).
Qed.

Lemma start_serves path fs T reg : file_serves path fs T -> registered reg ->
  exists fs' f s m, facade._open_database_file path fs = (fs', Ok f) /\
    server.start f path DURABILITY_FULL (mkServer None (broker.init DEFAULT_QUEUE_MAXSIZE) reg) = (s, Ok tt) /\
    serving s m T T /\ _broker s = broker.init DEFAULT_QUEUE_MAXSIZE /\ forall p, p <> path -> fs' !! p = fs !! p.
Proof.
  intros (m & base & Hst & Hop) Hreg. destruct (init_spec _ m base (Some path) Hop) as (d & Ed & Hh & Ho & _).
  assert (exists fs', facade._open_database_file path fs = (fs', Ok (SimDisk_init (default [] (fs !! path)))) /\
    forall p, p <> path -> fs' !! p = fs !! p) as (fs' & Ef & Hfs).
  { unfold facade._open_database_file. erewrite stx_bind_ok by reflexivity. destruct (fs !! path) as [b|]; [by exists fs|].
    exists (<[path := []]> fs). split; [done|]. intros p Hne. by rewrite lookup_insert_ne. }
  exists fs', (SimDisk_init (default [] (fs !! path))), (mkServer (Some d) (broker.init DEFAULT_QUEUE_MAXSIZE) reg), m.
  split; [exact Ef|]. split; [unfold server.start, lift_res; rewrite Ed; reflexivity|]. split_and!; [|done|exact Hfs].
  split; [|done]. exists d. split; [done|]. by exists base, base.
Qed.

(** What a handle has written opens as what it has committed. *)
Lemma left_opens s m B T : serving s m B T -> exists base, stored B base /\ opens (N := N) (program.file_left s) m base.
Proof.
  intros [(d & Ed & base & kvs & [Hj Hb _ _ [_ Hf]] & HB & _ & _) _]. exists base. split; [done|].
  destruct (close_spec d) as (d' & Ec & _ & _ & Hl & _). unfold program.file_left, server.on_db. rewrite Ed, Ec. cbn [fst _db server.set_db].
  rewrite Hl. apply open_spec; [by apply journaled_live| |done]. eapply holds_extends; [|exact Hb]. apply extends_live. by apply committed_live.
Qed.

Lemma stop_run s : exists s', server.stop s = (s', Ok tt) /\ _db s' = None /\ _broker s' = _broker s.
Proof.
  unfold server.stop. erewrite stx_bind_ok by reflexivity. destruct (_db s) as [d|] eqn:Ed; [|by exists s].
  destruct (close_spec d) as (d' & Ec & _). erewrite stx_bind_ok by (unfold server.on_db; rewrite Ed, Ec; reflexivity).
  eexists. split; [reflexivity|]. by split.
Qed.

Lemma stop_admin_run (port : option Z) : exists ad,
  program.stop_admin ((fun _ => admin.start admin.init) <$> port) = Some ad /\
  (is_Some ad <-> is_Some port) /\ forall a, ad = Some a -> ad_closed a = true.
Proof.
  destruct port as [n|]; cbn; eexists; (split; [reflexivity|]); (split; [by split; intros [? ?]; eauto|]); by intros a [= <-].
Qed.

Lemma boot_serves (buckets : list float) path fs T : file_serves path fs T ->
  exists fs1 s m, program.boot buckets ∅ path DURABILITY_FULL fs = (fs1, Ok s) /\ serving s m T T /\
    _broker s = broker.init DEFAULT_QUEUE_MAXSIZE /\ forall p, p <> path -> fs1 !! p = fs !! p.
Proof.
  intros Hfile. destruct (init_registered buckets) as (reg & Ei & Hreg). destruct (start_serves path fs T reg Hfile Hreg) as (fs1 & f & s & m & Ef & Es & Hs & Hbr & Hfs).
  exists fs1, s, m. split_and!; try done. unfold program.boot. rewrite Ei. erewrite stx_bind_ok by reflexivity. erewrite stx_bind_ok by exact Ef. rewrite Es. reflexivity.
Qed.

(** Each event adds at most one call to the executor's queue. *)
Lemma queue_grows (evs : list server.event) (w : server.world (N := N)) :
  (length (server.w_queue (server.run_events evs w)) <= length (server.w_queue w) + length evs)%nat.
Proof.
  assert (forall i out (w : server.world (N := N)), (length (server.w_queue (server.settle i out w)) <= S (length (server.w_queue w)))%nat) as Hset.
  { intros i [[s c] [[[rest|]|e]|k|B call k]] w0; cbn [server.settle]; try (destruct (server.hang_up (s, c)) as [[s' c'] r']); cbn; rewrite ?length_app; cbn; lia. }
  revert w. induction evs as [|e evs IH]; intros w; cbn [server.run_events fold_left length]; [lia|].
  enough (length (server.w_queue (server.exec e w)) <= S (length (server.w_queue w)))%nat by (specialize (IH (server.exec e w)); unfold server.run_events in IH; lia).
  destruct e as [input|i el| | |i]; cbn [server.exec].
  - unfold server._handle. destruct (server.on_registry _ _) as [[s c] r]. cbn. lia.
  - unfold server.wake. destruct (server.w_clients w !! i) as [[c [input|k|B call k|k|]]|]; try lia; apply Hset.
  - unfold server.work. destruct (server.w_queue w) as [|i q] eqn:Eq; [rewrite Eq; lia|]. destruct (server.w_clients w !! i) as [[c [| |B call k| |]]|]; try (rewrite Eq; cbn; lia).
    destruct (call (server.w_server w)) as [s' r]. cbn. lia.
  - unfold server.deliver. destruct (server.w_done w) as [|i q]; [lia|]. destruct (server.w_clients w !! i) as [[c [| | |k|]]|]; try lia.
    apply (Hset i _ (server.mkWorld (server.w_server w) (server.w_clients w) (server.w_queue w) q)).
  - unfold server.pump. destruct (server.w_clients w !! i) as [[c p]|]; [|lia].
    destruct p; try lia; destruct (server._pump (server.w_server w, c)) as [[s' c'] r]; cbn; lia.
Qed.

Lemma arrivals_work (evs : list server.event) n : arrivals (evs ++ replicate n server.Work) = arrivals evs.
Proof. unfold arrivals. rewrite bind_app. induction n as [|n IH]; [apply app_nil_r|exact IH]. Qed.


End runs.

(** * A run on a new machine *)

Section witnesses.
#[local] Existing Instance glob_fnmatch.
#[local] Existing Instance glob_laws.
#[local] Existing Instance server_pickle.
#[local] Existing Instance server_json.
#[local] Existing Instance int_float.
#[local] Hint Extern 0 (Index bnode) => exact (bplus_index 3) : typeclass_instances.
#[local] Hint Extern 0 (IndexSpec bnode) => exact (bplus_spec 3 bplus_order3) : typeclass_instances.


End witnesses.
